(* ===== verification/_CoqProject ===== *)
-Q . S2P
Prelude.v
CLib.v
Types.v
OS.v
Effects.v
Heap.v
Flags.v
Logging.v
ParseRequest.v
ResolvePath.v
Response.v
Messages.v
Connections.v
DoRead.v
EndToEnd.v
DoWrite.v
Sockets.v
Main.v
Footprint.v
Reference.v
Loop.v
Server.v
Abstract.v
History.v
Process.v
Leaks.v
Descriptors.v
