(* ===== verification/Prelude.v ===== *)
(** * Simple Web Server: a verification development (root file)

    The program is a single-process HTTP/1.0 server for static files, directory
    listings and CGI programs, around one loop over poll(2). This library models
    all of its C code but debug output, and proves what each part promises to the
    next up to theorems about whole runs of the process. This file holds what all
    the others share: bytes, machine integers, tactics.

    ** The parts and how they interact

    main (main.c) parses the command line (flags/setFlags.c), creates the two
    listeners (sockets/), and loops over poll: a listener with input leads to
    accept_new_conn (client_conn/accept_new_conn.c), which appends to the parallel
    arrays of pollfds and clients (client_conn/connections.c); a client with input
    to do_read (client_conn/do_read.c), which collects the request and, once it is
    whole, calls parse_request (requests/parse_request.c), resolve_path
    (requests/resolve_path.c) and one of the response builders (response/), logs
    the request (logging/logging.c) and leaves the response in the client's output
    buffer; a client that is ready for output to do_write
    (client_conn/do_write.c), after which close_conn removes it.

    ** The files

    - CLib: the functions of the C library the sources use on strings and numbers
      (strnstr, strtok, strrchr, strlcpy, snprintf, the printf conversions, gmtime
      with strftime's format), each with the lemmas that say what it computes.
    - Types: the enums and structs of client_conn/connections.h,
      requests/parse_request.h, requests/resolve_path.h, logging/logging.h.
    - OS: the world: what the environment decides (clock, file system, results
      queued for recv, send and accept, allocation outcomes, CGI programs), what
      the program owns (open streams, live heap blocks) and the trace of its
      visible actions; the monad of effectful code, whose outcomes are a value, the
      end of the process (exit(3), or SIGPIPE when the peer of a send has gone), a
      crash (a NULL or dead stream read, an index outside an array, a line too long
      for its buffer) and running out of fuel; the predicates [sound], [calm] and
      [safe] the other files state their runs with. A memory stream may fail to open,
      and each write to it may fail to store all of its text ([stream_write]): the
      sources look at none of those results.
    - Flags: flags/flags.h, flags/setFlags.c. Logging: logging/logging.c.
    - ParseRequest: requests/parse_request.c, with the reference [classify].
    - ResolvePath: requests/resolve_path.c, close_resolve_path.c, with the
      reference [resolution_of] over an abstract file system.
    - Response: response/build_error_response.c, response/build_okay_response.c,
      with a reader of HTTP messages. Messages: what the builders stage, read back
      with that reader.
    - Connections: client_conn/connections.c, accept_new_conn.c; the invariants of
      the table ([table_ok]) and of block ownership ([heap_ok], [hands]).
    - DoRead: client_conn/do_read.c. EndToEnd: its theorems over everything it
      calls. Reference: the response and the log line as a function of the request
      line and the environment ([reference], [read_spec]), which do_read implements.
      DoWrite: client_conn/do_write.c. Sockets: sockets/.
    - Main: main.c. Loop: the invariant of its loop ([server_ok]) and the step
      relation of a connection ([client_step]), with rules for what rounds and the
      loop keep ([round_rule], [loop_stable]). Server: theorems about turns, rounds
      and runs of the process, and the parts of a successful run ([success]).
    - Effects: a judgement on computations, [does], of which actions they may show
      and which sockets they may use, with a rule for each construct. Footprint: the
      effects of every part of the server.
    - Heap: triples ([triple]) and the assertion of what is held ([within]), with a
      rule for each call that allocates or releases. Leaks: what each part of the
      server holds when it returns, and what a run leaves allocated.
    - Abstract: a connection and its turn without buffers, tables and streams
      ([conn_view], [turn_spec]), refined by the code's turns and rounds. History:
      the requests, the log and the bytes of whole runs. Descriptors: the
      connections a run accepts and the descriptors it closes. These two and Leaks
      are invariants of the loop, by [loop_stable].
    - Process: the while loop of main.c as a machine ([loop_step]) that a signal may
      enter between any two of its steps; one that comes inside poll makes poll
      return EINTR, one that comes between the test of [running] and poll does not.

    A function of the sources has a definition of the same name; a loop is a
    Fixpoint named after it ([recv_loop], [send_loop], [poll_round]); a mutable
    argument is a field of a record that is passed and returned. A heap block is
    an identity with the bytes written to it, so that freeing and owning can be
    stated; a FILE pointer is the identity of a stream.

    ** What the theorems show

    - Whole runs (Loop, Server): the process always ends, never crashes and frees only
      live blocks; it ends otherwise than with EXIT_SUCCESS (with EXIT_FAILURE, or by
      SIGPIPE when a peer has gone) for the stated reasons only;
      the loop keeps its invariant; a round serves each connection once, and a
      connection follows [client_step]; the bytes
      sent for a complete request are a message with the reference's status, length
      and content, so that a client that asks for a file gets its bytes back.
    - Resources of whole runs (Leaks, Descriptors): a successful run leaves at most one
      heap block for each CGI program it ran, and with -c no stream; it closes the
      descriptor of every connection it accepted, once, and nothing else but the
      listeners and ends of pipes.
    - The server as independent connections (Abstract, History): a turn does what
      [turn_spec] says and touches its own socket only; a round is the turns of its
      connections side by side; over a whole run the log is exactly the requests
      asked, what is sent are whole responses, each to a request of its own on the same
      descriptor, and no byte received is part of two requests, so that nothing is
      answered twice.
    - Signals (Process): the loop under signals is the loop over the results of poll;
      the invariant holds wherever a signal may come; after one, the process always can
      go on, at most one result of poll is read, and the loop is left after at most
      four steps; it waits for poll exactly when the signal came between the test and
      the call; the shutdown that follows releases everything.
    - The contract of request handling (Reference): for every complete request, from
      any pieces, with any resource, error or CGI outcome, do_read stages and logs
      what [reference] and [log_line] say.
    - Requests (ParseRequest, ResolvePath): the parser agrees with [classify] on
      every input but a line longer than its buffer, which overflows it and which
      do_read never passes; it reads back what it should; resolution
      agrees with [resolution_of]; the streams it opens and closes; which paths
      stay below the document root and which do not.
    - Responses (Messages): each builder's message, length and content; the
      dispatcher leaves a whole message with the logged status unless memory runs
      out, and then nothing or a cut one; HEAD stages the header of GET.
    - Connections and transfer (Connections, DoRead, EndToEnd, DoWrite): adding,
      removing and accepting; requests assembled from any pieces; responses sent
      in any pieces.
    - Behaviours that go wrong, each proved of the model: the stream of a served
      file is closed twice; an oversized request blocks its connection; a send
      refused, or to a peer that has gone, ends the server; a message cut by a lack of
      memory is sent as if whole; a receive error after a request is forgotten; a
      request followed by the end of the stream is dropped; the CGI check and the
      check for privileged ports can be walked around; /.. is served; the longest
      path loses a byte; a listing with a query string fails; each CGI answer loses a
      block, and no other is lost; a
      signal between the test of [running] and poll waits for the next event.

    ** Fuel

    Every fuel is computed from the state by a definition next to its loop and
    proved sufficient: [accept_fuel], [recv_fuel], [pipe_fuel] count the queued
    results and bytes, [send_fuel] and [file_fuel] the bytes left, [round_fuel]
    the entries left and the connections that may still be accepted, [DOUBLINGS]
    the bits of a size_t. The theorems exclude the outcome NoFuel. The loop over
    poll itself runs over a given sequence of poll results, at the end of which a
    signal has cleared [running]; Process derives this from the machine with
    signals, which needs no fuel.

    ** Parameters and hypotheses

    libmagic and inet_pton are the class [External]; [magic_ok] says that
    libmagic's answer holds no carriage return. [outside_ok] says that the clock
    is a date gmtime can represent and that inet_ntop's text fits
    INET6_ADDRSTRLEN.

    ** Not modelled

    DBG output and the messages to stdout and stderr; daemon(3), setsockopt,
    fflush; the tests of arguments for NULL that no caller passes; the overflow of
    the int [fd_size] past 2^30 connections; the clock and the file system do not
    change during a run. A signal within a round is a step before or after it: the
    handler only clears [running], which the round does not read, and the calls it
    interrupts are the EINTR results of the queues. How much of a text a memory
    stream keeps when it cannot grow is the environment's choice. A second
    fclose is an event of the trace, not a crash: the theorems on crashes say
    nothing about the undefined behaviour it is. The test programs under
    test_cases/, the tracing scripts and the build files are not part of the
    server. *)

From stdpp Require Export base numbers list gmap strings.
From Stdlib Require Export ZArith Ascii.

(** Bytes of C memory are [ascii] characters; a C string or buffer is the list
    of its bytes. *)
Abbreviation bytes := (list ascii).

(** String literals as lists of bytes. *)
Definition B (s : string) : bytes := String.list_ascii_of_string s.
#[global] Arguments B : simpl never.

(** A literal whose single quotes stand for double quotes. *)
Definition dquote : ascii := "034"%char.
Definition dq (s : string) : bytes :=
  (λ c, if decide (c = "'"%char) then dquote else c) <$> B s.
#[global] Arguments dq : simpl never.

Definition CR : ascii := "013"%char.
Definition LF : ascii := "010"%char.
Definition NUL : ascii := "000"%char.
Definition SP : ascii := " "%char.
Definition CRLF : bytes := [CR; LF].

Create HintDb server.

(** The length of a buffer as a C integer. *)
Abbreviation zlen s := (Z.of_nat (length s)).

(** ** Machine integers *)

(** Reduction to [size_t] (64 bits), [uint32_t], [uint16_t] and the signed
    32-bit value of a C [int]. *)
Definition u64 (z : Z) : Z := z mod 2 ^ 64.
Definition u32 (z : Z) : Z := z mod 2 ^ 32.
Definition u16 (z : Z) : Z := z mod 2 ^ 16.
Definition i32 (z : Z) : Z := (z + 2 ^ 31) mod 2 ^ 32 - 2 ^ 31.

Lemma u64_small z : (0 ≤ z < 2 ^ 64)%Z → u64 z = z.
Proof. apply Z.mod_small. Qed.
Lemma u32_small z : (0 ≤ z < 2 ^ 32)%Z → u32 z = z.
Proof. apply Z.mod_small. Qed.
Lemma u32_range z : (0 ≤ u32 z < 2 ^ 32)%Z.
Proof. by apply Z.mod_pos_bound. Qed.
Lemma i32_range z : (- 2 ^ 31 ≤ i32 z < 2 ^ 31)%Z.
Proof. unfold i32. pose proof (Z.mod_pos_bound (z + 2 ^ 31) (2 ^ 32)). lia. Qed.
Lemma i32_small z : (- 2 ^ 31 ≤ z < 2 ^ 31)%Z → i32 z = z.
Proof. intros. unfold i32. rewrite Z.mod_small; lia. Qed.

#[export] Hint Resolve u32_range i32_range : server.

(** Decide a closed proposition by evaluation. *)
Ltac by_eval := eapply bool_decide_unpack; vm_compute; exact I.
