(* ===== verification/CLib.v ===== *)
(** * CLib: the C library functions the server calls

    Executable definitions of the string functions of <string.h>, <strings.h>,
    <stdlib.h> and <time.h> that the sources use, over byte lists, with the
    lemmas that characterise them. *)

From S2P Require Import Prelude.

(** ** Searching *)

(** The C string at the start of a buffer: the bytes before the first NUL. *)
Fixpoint cstr (s : bytes) : bytes :=
  match s with
  | [] => []
  | c :: s' => if decide (c = NUL) then [] else c :: cstr s'
  end.

Fixpoint is_prefix (p s : bytes) : bool :=
  match p, s with
  | [], _ => true
  | _, [] => false
  | a :: p', b :: s' => bool_decide (a = b) && is_prefix p' s'
  end.

(** The position of the first occurrence of [p] in [s]. *)
Fixpoint find_sub (p s : bytes) : option nat :=
  if is_prefix p s then Some 0
  else match s with
       | [] => None
       | _ :: s' => S <$> find_sub p s'
       end.

(** strnstr(3): at most [len] bytes are searched, and none after a NUL. The
    result is an offset from the start of [big]. *)
Definition strnstr (big little : bytes) (len : nat) : option nat :=
  find_sub little (cstr (take len big)).

(** strrchr(3): the suffix starting at the last occurrence of [c]. *)
Fixpoint strrchr (s : bytes) (c : ascii) : option bytes :=
  match s with
  | [] => None
  | a :: s' =>
      match strrchr s' c with
      | Some r => Some r
      | None => if decide (a = c) then Some s else None
      end
  end.

(** ** Tokens *)

Fixpoint span (f : ascii → bool) (s : bytes) : bytes * bytes :=
  match s with
  | [] => ([], [])
  | c :: s' => if f c then let '(a, b) := span f s' in (c :: a, b) else ([], s)
  end.

(** One call of strtok(3) with the delimiter set [{d}]: [s] is the string, or
    the text saved by the previous call; the result is the token, if there is
    one, and the text saved for the next call. *)
Definition strtok (d : ascii) (s : bytes) : option bytes * bytes :=
  let s1 := (span (λ c, bool_decide (c = d)) s).2 in
  match s1 with
  | [] => (None, [])
  | _ => let '(t, r) := span (λ c, bool_decide (c ≠ d)) s1 in (Some t, tail r)
  end.

(** ** Copying and formatting *)

(** strlcpy(3): the bytes stored before the NUL, and the length it returns. *)
Definition strlcpy (src : bytes) (size : nat) : bytes * nat :=
  (take (size - 1) src, length src).

(** The bytes snprintf(3) stores before the NUL, for a nonzero size. *)
Definition snprintf (size : nat) (formatted : bytes) : bytes :=
  take (size - 1) formatted.

(** Decimal digits, most significant first; ten times smaller at each step, so
    one unit of fuel per bit is enough. *)
Definition digit (n : N) : ascii := ascii_of_N (48 + n).

Fixpoint decimal (fuel : nat) (n : N) : bytes :=
  match fuel with
  | 0 => []
  | S fuel' =>
      if (n <? 10)%N then [digit n]
      else decimal fuel' (n / 10)%N ++ [digit (n mod 10)%N]
  end.

(** The conversions %zu (and %u) and %d. *)
Definition fmt_u (n : N) : bytes := decimal (S (N.size_nat n)) n.
Definition fmt_zu (z : Z) : bytes := fmt_u (Z.to_N (u64 z)).
Definition fmt_d (z : Z) : bytes :=
  if decide (z < 0)%Z then "-"%char :: fmt_u (Z.to_N (- z)) else fmt_u (Z.to_N z).

(** ** Characters *)

Definition char_code (c : ascii) : Z := Z.of_N (N_of_ascii c).

Definition isdigit (c : ascii) : bool :=
  (48 <=? char_code c)%Z && (char_code c <=? 57)%Z.

Definition tolower (c : ascii) : ascii :=
  if (65 <=? char_code c)%Z && (char_code c <=? 90)%Z
  then ascii_of_N (Z.to_N (char_code c + 32)) else c.

(** strcasecmp(3) compared with zero. *)
Definition strcaseeq (a b : bytes) : bool :=
  bool_decide (tolower <$> a = tolower <$> b).

(** The value atoi(3) gives to a string of digits, before its conversion to
    [int]; it stops at the first byte that is not a digit. *)
Fixpoint digits_value (acc : Z) (s : bytes) : Z :=
  match s with
  | c :: s' => if isdigit c then digits_value (10 * acc + (char_code c - 48)) s' else acc
  | [] => acc
  end.

(** ** Calendar time *)

(** The civil date of a day count since 1970-01-01 (proleptic Gregorian). *)
Definition civil_from_days (days : Z) : Z * Z * Z :=
  (let z := days + 719468 in
   let era := z / 146097 in
   let doe := z mod 146097 in
   let yoe := (doe - doe / 1460 + doe / 36524 - doe / 146096) / 365 in
   let doy := doe - (365 * yoe + yoe / 4 - yoe / 100) in
   let mp := (5 * doy + 2) / 153 in
   let d := doy - (153 * mp + 2) / 5 + 1 in
   let m := if mp <? 10 then mp + 3 else mp - 9 in
   let y := yoe + era * 400 + (if m <=? 2 then 1 else 0) in
   (y, m, d))%Z.

Definition two_digits (z : Z) : bytes := fmt_u (Z.to_N (z / 10)) ++ fmt_u (Z.to_N (z mod 10)).

(** strftime with the format %Y-%m-%dT%H:%M:%SZ applied to gmtime(3) of [t].
    gmtime returns NULL when the year does not fit the [int] field tm_year. *)
Definition gmtime_iso (t : Z) : option bytes :=
  let '(y, m, d) := civil_from_days (t / 86400) in
  let s := (t mod 86400)%Z in
  if decide (- 2 ^ 31 ≤ y - 1900 < 2 ^ 31)%Z then
    Some (fmt_d y ++ B "-" ++ two_digits m ++ B "-" ++ two_digits d ++ B "T"
          ++ two_digits (s / 3600) ++ B ":" ++ two_digits (s / 60 mod 60) ++ B ":"
          ++ two_digits (s mod 60) ++ B "Z")
  else None.

(** * Lemmas *)

(** ** cstr *)

Lemma cstr_no_nul s : NUL ∉ cstr s.
Proof.
  induction s as [|c s IH]; simpl; [apply not_elem_of_nil|].
  case_decide; [apply not_elem_of_nil|]. rewrite elem_of_cons. naive_solver.
Qed.

Lemma cstr_id s : NUL ∉ s → cstr s = s.
Proof.
  induction s as [|c s IH]; intros H; simpl; [done|].
  rewrite elem_of_cons in H. rewrite decide_False by naive_solver.
  rewrite IH; naive_solver.
Qed.

(** The C string of a buffer is a prefix of it. *)
Lemma cstr_take s : cstr s = take (length (cstr s)) s.
Proof.
  induction s as [|c s IH]; simpl; [done|].
  case_decide; simpl; [done|]. congruence.
Qed.

Lemma length_cstr s : length (cstr s) ≤ length s.
Proof. rewrite cstr_take, length_take. lia. Qed.

(** ** Prefixes and substring search *)

Lemma is_prefix_spec p s : is_prefix p s = true ↔ ∃ r, s = p ++ r.
Proof.
  revert s; induction p as [|a p IH]; intros [|b s]; simpl.
  - naive_solver.
  - naive_solver.
  - naive_solver.
  - rewrite andb_true_iff, bool_decide_eq_true, IH. naive_solver.
Qed.

Lemma is_prefix_app p r : is_prefix p (p ++ r) = true.
Proof. apply is_prefix_spec. eauto. Qed.

Lemma is_prefix_mono p s t : is_prefix p s = true → is_prefix p (s ++ t) = true.
Proof. rewrite !is_prefix_spec. intros [r ->]. exists (r ++ t). by rewrite app_assoc. Qed.

(** A prefix that fits in [s] is already visible in [s]. *)
Lemma is_prefix_short p s t :
  length p ≤ length s → is_prefix p (s ++ t) = is_prefix p s.
Proof.
  revert s; induction p as [|a p IH]; intros [|b s]; simpl; intros H; try done; [lia|].
  rewrite IH by lia. done.
Qed.

Lemma find_sub_Some p s i :
  find_sub p s = Some i ↔
  i ≤ length s ∧ is_prefix p (drop i s) = true ∧
  ∀ j, j < i → is_prefix p (drop j s) = false.
Proof.
  revert i; induction s as [|c s IH]; intros i; simpl.
  - destruct (is_prefix p []) eqn:E; split.
    + intros [= <-]. repeat split; [done..|lia].
    + intros (Hi & _ & Hj). destruct i; [done|lia].
    + done.
    + intros (Hi & HE & _). destruct i; simpl in *; [congruence|lia].
  - destruct (is_prefix p (c :: s)) eqn:E.
    + split; [intros [= <-]; repeat split; [lia|done|lia]|].
      intros (_ & _ & Hj). destruct i; [done|]. specialize (Hj 0). simpl in Hj.
      rewrite E in Hj. discriminate Hj; lia.
    + rewrite fmap_Some. setoid_rewrite IH. split.
      * intros (k & (Hk & HE & Hj) & ->). repeat split; [lia|done|].
        intros [|j] Hlt; simpl; [done|]. apply Hj. lia.
      * intros (Hi & HE & Hj). destruct i as [|i]; simpl in *; [congruence|].
        exists i. repeat split; [lia|done|]. intros j Hlt. apply (Hj (S j)). lia.
Qed.

Lemma find_sub_None p s :
  find_sub p s = None ↔ ∀ j, j ≤ length s → is_prefix p (drop j s) = false.
Proof.
  induction s as [|c s IH]; simpl.
  - destruct (is_prefix p []) eqn:E; split; try done.
    + intros H. specialize (H 0 ltac:(lia)). simpl in H. congruence.
    + intros _ j Hj. by destruct j.
  - destruct (is_prefix p (c :: s)) eqn:E.
    + split; [done|]. intros H. specialize (H 0 ltac:(lia)). simpl in H. congruence.
    + rewrite fmap_None, IH. split.
      * intros H [|j] Hj; simpl; [done|]. apply H. lia.
      * intros H j Hj. apply (H (S j)). lia.
Qed.

(** A hit splits the text around the needle. *)
Lemma find_sub_split p s i :
  find_sub p s = Some i → s = take i s ++ p ++ drop (i + length p) s.
Proof.
  rewrite find_sub_Some. intros (Hi & HE & _). apply is_prefix_spec in HE as [r Hr].
  rewrite <-(take_drop i s) at 1. f_equal. rewrite Hr. f_equal.
  rewrite <-drop_drop, Hr. by rewrite drop_app_length.
Qed.

Lemma find_sub_bound p s i : find_sub p s = Some i → i + length p ≤ length s.
Proof.
  rewrite find_sub_Some. intros (Hi & HE & _).
  apply is_prefix_spec in HE as [r Hr]. apply (f_equal length) in Hr.
  rewrite length_drop, length_app in Hr. lia.
Qed.

(** A hit stays the first hit when the text grows. *)
Lemma find_sub_app p s t i : find_sub p s = Some i → find_sub p (s ++ t) = Some i.
Proof.
  intros H. pose proof (find_sub_bound _ _ _ H) as Hb. revert H.
  rewrite !find_sub_Some, length_app. intros (Hi & HE & Hj). repeat split; [lia| |].
  - rewrite drop_app_le by lia. by apply is_prefix_mono.
  - intros j Hlt. rewrite drop_app_le by lia.
    rewrite is_prefix_short; [by apply Hj|]. rewrite length_drop. lia.
Qed.

(** A hit of [p] at [i] cannot come after a hit of a prefix of [p]. *)
Lemma find_sub_prefix_le p q s i :
  find_sub (p ++ q) s = Some i → ∃ j, find_sub p s = Some j ∧ j ≤ i.
Proof.
  intros H. destruct (find_sub p s) as [j|] eqn:E.
  - exists j. split; [done|]. destruct (decide (j ≤ i)); [done|].
    apply find_sub_Some in E as (_ & _ & Hj). apply find_sub_Some in H as (_ & HE & _).
    specialize (Hj i ltac:(lia)). apply is_prefix_spec in HE as [r Hr].
    rewrite Hr, <-app_assoc, is_prefix_app in Hj. done.
  - rewrite find_sub_None in E. apply find_sub_Some in H as (Hi & HE & _).
    specialize (E i Hi). apply is_prefix_spec in HE as [r Hr].
    rewrite Hr, <-app_assoc, is_prefix_app in E. done.
Qed.

(** The first hit of a nonempty needle whose first byte does not occur in the
    text before it. *)
Lemma find_sub_fresh c p s r : c ∉ s → find_sub (c :: p) (s ++ c :: p ++ r) = Some (length s).
Proof.
  intros Hc. induction s as [|a s IH].
  - cbn [app]. destruct (c :: p ++ r) eqn:E; [done|]. rewrite <-E.
    simpl. rewrite bool_decide_true, is_prefix_app by done. done.
  - rewrite elem_of_cons in Hc. simpl. rewrite bool_decide_false by naive_solver.
    simpl. rewrite IH by naive_solver. done.
Qed.

(** ** strnstr *)

Lemma strnstr_bound big little len i :
  strnstr big little len = Some i → i + length little ≤ length (take len big).
Proof.
  intros H%find_sub_bound. pose proof (length_cstr (take len big)). lia.
Qed.

(** What strnstr finds lies in the buffer, preceded by no NUL. *)
Lemma strnstr_Some big little len i :
  strnstr big little len = Some i →
  take len big = take i big ++ little ++ drop (i + length little) (take len big)
  ∧ NUL ∉ take i big.
Proof.
  intros H. pose proof (strnstr_bound _ _ _ _ H) as Hb.
  assert (take i big = take i (cstr (take len big))) as Ht.
  { rewrite length_take in Hb. apply find_sub_bound in H.
    rewrite cstr_take, !take_take. f_equal. lia. }
  split.
  - unfold strnstr in H. pose proof (find_sub_bound _ _ _ H) as Hc.
    pose proof (find_sub_split _ _ _ H) as Hs.
    rewrite Ht. rewrite <-(take_drop (i + length little) (take len big)) at 1.
    rewrite app_assoc. f_equal.
    transitivity (take (i + length little) (cstr (take len big))).
    + rewrite (cstr_take (take len big)), (take_take (take len big)). f_equal. lia.
    + rewrite Hs at 1. rewrite app_assoc, take_app_length'; [done|].
      rewrite length_app, length_take. lia.
  - rewrite Ht. intros Hin. apply elem_of_take in Hin as (k & Hk & _).
    apply (cstr_no_nul (take len big)). by eapply list_elem_of_lookup_2.
Qed.

(** A match is found again in any prefix that holds it. *)
Lemma find_sub_take p s i n :
  find_sub p s = Some i → i + length p ≤ n → find_sub p (take n s) = Some i.
Proof.
  intros H Hn. pose proof (find_sub_bound _ _ _ H) as Hb.
  rewrite find_sub_Some in H |- *. destruct H as (Hi & Hp & Hj).
  assert (∀ j, j ≤ i → is_prefix p (drop j (take n s)) = is_prefix p (drop j s)) as E.
  { intros j Hji. rewrite <-(take_drop n s) at 2. rewrite drop_app_le by (rewrite length_take; lia).
    symmetry. apply is_prefix_short. rewrite length_drop, length_take. lia. }
  rewrite length_take. split_and!; [lia|by rewrite E|].
  intros j Hlt. rewrite E by lia. by apply Hj.
Qed.

Lemma cstr_take_comm n s : cstr (take n s) = take n (cstr s).
Proof.
  revert s. induction n as [|n IH]; intros [|c s]; try done.
  cbn [take cstr]. case_decide; [by rewrite take_nil|]. simpl. by rewrite IH.
Qed.

Lemma strnstr_shorter big little len i n :
  strnstr big little len = Some i → i + length little ≤ n → n ≤ len →
  strnstr big little n = Some i.
Proof.
  unfold strnstr. intros H Hi Hn. rewrite <-(Nat.min_l n len), <-take_take, cstr_take_comm by done.
  by apply find_sub_take.
Qed.

(** What is found stays found when bytes are added. *)
Lemma cstr_app s t : ∃ r, cstr (s ++ t) = cstr s ++ r.
Proof.
  induction s as [|x s [r IH]]; [by eexists|]. cbn [cstr app]. case_match; [by exists []|].
  exists r. by rewrite IH.
Qed.
Lemma strnstr_app big more little i :
  strnstr big little (length big) = Some i →
  strnstr (big ++ more) little (length (big ++ more)) = Some i.
Proof.
  unfold strnstr. rewrite !take_ge by lia. destruct (cstr_app big more) as [r ->].
  apply find_sub_app.
Qed.

(** strnstr on a buffer whose first [len] bytes hold no NUL. *)
Lemma strnstr_no_nul big little len :
  NUL ∉ take len big → strnstr big little len = find_sub little (take len big).
Proof. intros H. unfold strnstr. by rewrite cstr_id. Qed.

(** ** Tokens *)

Lemma span_app f s : (span f s).1 ++ (span f s).2 = s.
Proof.
  induction s as [|c s IH]; simpl; [done|].
  destruct (f c); [|done]. destruct (span f s); simpl in *. by f_equal.
Qed.

Lemma span_fst_Forall f s : Forall (λ c, f c = true) (span f s).1.
Proof.
  induction s as [|c s IH]; simpl; [constructor|].
  destruct (f c) eqn:E; [|constructor]. destruct (span f s); simpl in *. by constructor.
Qed.

Lemma span_snd_head f s : match (span f s).2 with [] => True | c :: _ => f c = false end.
Proof.
  induction s as [|c s IH]; simpl; [done|].
  destruct (f c) eqn:E; [|done]. by destruct (span f s).
Qed.

(** [span] on a block of accepted bytes followed by a rejected one. *)
Lemma span_block f a b :
  Forall (λ c, f c = true) a →
  match b with [] => True | c :: _ => f c = false end →
  span f (a ++ b) = (a, b).
Proof.
  induction 1 as [|c a Hc Ha IH]; intros Hb; simpl.
  - destruct b as [|d b]; simpl; [done|]. by rewrite Hb.
  - rewrite Hc. by rewrite IH.
Qed.

(** The nonempty fields of [s] separated by [d]: what repeated strtok calls
    return. *)
Fixpoint fields (d : ascii) (s : bytes) : list bytes :=
  match s with
  | [] => [[]]
  | c :: s' =>
      if decide (c = d) then [] :: fields d s'
      else match fields d s' with
           | f :: fs => (c :: f) :: fs
           | [] => [[c]]
           end
  end.

Definition words (d : ascii) (s : bytes) : list bytes :=
  filter (λ f, f ≠ []) (fields d s).

Lemma fields_block d t : d ∉ t → fields d t = [t].
Proof.
  induction t as [|c t IH]; intros H; simpl; [done|].
  rewrite elem_of_cons in H. rewrite decide_False by naive_solver.
  rewrite IH by naive_solver. done.
Qed.

Lemma fields_app d t r : d ∉ t → fields d (t ++ d :: r) = t :: fields d r.
Proof.
  induction t as [|c t IH]; intros H; simpl.
  - by rewrite decide_True.
  - rewrite elem_of_cons in H. rewrite decide_False by naive_solver.
    rewrite IH by naive_solver. done.
Qed.

Lemma words_delim d s : words d (d :: s) = words d s.
Proof. unfold words. simpl. rewrite decide_True by done. done. Qed.

Lemma words_nil d : words d [] = [].
Proof. done. Qed.

Lemma words_block d t : d ∉ t → t ≠ [] → words d t = [t].
Proof.
  intros. unfold words. rewrite fields_block by done.
  rewrite filter_cons_True by done. done.
Qed.

Lemma words_app d t r : d ∉ t → t ≠ [] → words d (t ++ d :: r) = t :: words d r.
Proof.
  intros. unfold words. rewrite fields_app by done. by rewrite filter_cons_True.
Qed.

(** Each word is nonempty and free of the delimiter. *)
Lemma fields_no_delim d s : Forall (λ f, d ∉ f) (fields d s).
Proof.
  induction s as [|c s IH]; simpl.
  - repeat constructor. apply not_elem_of_nil.
  - case_decide; [constructor; [apply not_elem_of_nil|done]|].
    destruct (fields d s) as [|f fs]; [repeat constructor; set_solver|].
    inversion IH; subst. constructor; [|done]. set_solver.
Qed.

Lemma words_spec d s w : w ∈ words d s → w ≠ [] ∧ d ∉ w.
Proof.
  unfold words. intros [? Hw]%list_elem_of_filter.
  pose proof (fields_no_delim d s) as HF. rewrite Forall_forall in HF. auto.
Qed.

Lemma words_subset d s w : w ∈ words d s → ∀ c, c ∈ w → c ∈ s.
Proof.
  unfold words. intros [_ Hw]%list_elem_of_filter. revert w Hw.
  induction s as [|a s IH]; simpl; intros w Hw c Hc.
  - apply list_elem_of_singleton in Hw. by subst.
  - case_decide.
    + apply elem_of_cons in Hw as [->|Hw]; [by apply elem_of_nil in Hc|].
      apply elem_of_cons; eauto.
    + destruct (fields d s) as [|f fs].
      * apply list_elem_of_singleton in Hw. subst w.
        apply list_elem_of_singleton in Hc. subst c. apply list_elem_of_here.
      * apply elem_of_cons in Hw as [->|Hw].
        -- apply elem_of_cons in Hc as [->|Hc]; [apply list_elem_of_here|].
           apply elem_of_cons. right. apply (IH f); [apply list_elem_of_here|done].
        -- apply elem_of_cons. right. apply (IH w); [by apply elem_of_cons; right|done].
Qed.

Lemma words_skip d s : words d (span (λ c, bool_decide (c = d)) s).2 = words d s.
Proof.
  induction s as [|c s IH]; simpl; [done|].
  case_bool_decide as Hc; [|done]. subst. rewrite words_delim, <-IH.
  by destruct (span _ s).
Qed.

(** The token a strtok call returns is the next word, and the text it saves
    holds the remaining words. *)
Lemma strtok_words d s :
  ∃ rest, strtok d s = (head (words d s), rest) ∧ words d rest = tail (words d s).
Proof.
  unfold strtok. rewrite <-(words_skip d s).
  pose proof (span_snd_head (λ c, bool_decide (c = d)) s) as Hh.
  destruct (span _ s).2 as [|c s1]; simpl fst; [by exists []|].
  apply bool_decide_eq_false in Hh.
  pose proof (span_app (λ c, bool_decide (c ≠ d)) (c :: s1)) as Happ.
  pose proof (span_fst_Forall (λ c, bool_decide (c ≠ d)) (c :: s1)) as Hall.
  pose proof (span_snd_head (λ c, bool_decide (c ≠ d)) (c :: s1)) as Hhd.
  destruct (span (λ c, bool_decide (c ≠ d)) (c :: s1)) as [t r] eqn:Espan. simpl in *.
  assert (d ∉ t) as Hd.
  { intros Hin. rewrite Forall_forall in Hall. specialize (Hall _ Hin).
    by apply bool_decide_eq_true in Hall. }
  assert (t ≠ []) as Ht.
  { intros ->. rewrite bool_decide_true in Espan by done. by destruct (span _ s1). }
  exists (tail r). rewrite <-Happ. destruct r as [|d' r]; simpl.
  - rewrite app_nil_r, words_block by done. done.
  - apply bool_decide_eq_false, dec_stable in Hhd. subst d'.
    rewrite words_app by done. done.
Qed.

(** The first word of a string that starts with it. *)
Lemma strtok_block d t : d ∉ t → t ≠ [] → strtok d t = (Some t, []).
Proof.
  intros Hd Ht. unfold strtok. destruct t as [|c t]; [done|].
  cbn [span]. rewrite bool_decide_false by set_solver. simpl snd. cbv iota beta.
  pose proof (span_block (λ c, bool_decide (c ≠ d)) (c :: t) []) as H.
  rewrite app_nil_r in H. rewrite H; [done| |done].
  apply Forall_forall. intros a Ha. apply bool_decide_eq_true. by intros ->.
Qed.

Lemma strtok_app d t r : d ∉ t → t ≠ [] → strtok d (t ++ d :: r) = (Some t, r).
Proof.
  intros Hd Ht. unfold strtok. destruct t as [|c t]; [done|].
  cbn [span app]. rewrite bool_decide_false by set_solver. simpl snd. cbv iota beta.
  rewrite (span_block (λ c, bool_decide (c ≠ d)) (c :: t) (d :: r)); [done| |].
  - apply Forall_forall. intros a Ha. apply bool_decide_eq_true. by intros ->.
  - apply bool_decide_eq_false. by intros ?.
Qed.

(** ** strrchr *)

Lemma strrchr_is_Some s c : c ∈ s → is_Some (strrchr s c).
Proof.
  induction s as [|a s IH]; intros H; [by apply elem_of_nil in H|].
  simpl. apply elem_of_cons in H as [->|H].
  - destruct (strrchr s a); [eauto|]. rewrite decide_True by done. eauto.
  - destruct (IH H) as [r ->]. eauto.
Qed.

Lemma strrchr_None s c : c ∉ s → strrchr s c = None.
Proof.
  induction s as [|a s IH]; intros H; simpl; [done|].
  rewrite elem_of_cons in H. rewrite IH by naive_solver.
  by rewrite decide_False by naive_solver.
Qed.

(** The suffix after the last occurrence holds none. *)
Lemma strrchr_last p c r : c ∉ r → strrchr (p ++ c :: r) c = Some (c :: r).
Proof.
  intros H. induction p as [|a p IH]; simpl.
  - rewrite strrchr_None by done. by rewrite decide_True.
  - by rewrite IH.
Qed.

(** ** Decimal conversions *)

Lemma char_code_digit n : (n < 10)%N → char_code (digit n) = (48 + Z.of_N n)%Z.
Proof. intros. unfold char_code, digit. rewrite N_ascii_embedding by lia. lia. Qed.

Lemma isdigit_digit n : (n < 10)%N → isdigit (digit n) = true.
Proof. intros. unfold isdigit. rewrite char_code_digit by done. lia. Qed.

Lemma digits_value_snoc a s n :
  Forall (λ c, isdigit c = true) s → (n < 10)%N →
  digits_value a (s ++ [digit n]) = (10 * digits_value a s + Z.of_N n)%Z.
Proof.
  intros Hs Hn. revert a; induction Hs as [|c s Hc Hs IH]; intros a; simpl.
  - rewrite isdigit_digit, char_code_digit by done. lia.
  - by rewrite Hc, IH.
Qed.

Lemma decimal_digits fuel n : Forall (λ c, isdigit c = true) (decimal fuel n).
Proof.
  revert n; induction fuel as [|fuel IH]; intros n; simpl; [constructor|].
  destruct (N.ltb_spec n 10).
  - constructor; [by apply isdigit_digit|constructor].
  - apply Forall_app. split; [apply IH|]. constructor; [|constructor].
    apply isdigit_digit. apply N.mod_lt. done.
Qed.

Lemma fmt_u_digits n : Forall (λ c, isdigit c = true) (fmt_u n).
Proof. apply decimal_digits. Qed.

Lemma decimal_value fuel n :
  (n < 2 ^ N.of_nat fuel)%N → digits_value 0 (decimal (S fuel) n) = Z.of_N n.
Proof.
  revert n; induction fuel as [|fuel IH]; intros n Hn.
  - assert (n = 0%N) as -> by (simpl in Hn; lia). done.
  - change (decimal (S (S fuel)) n) with
      (if (n <? 10)%N then [digit n]
       else decimal (S fuel) (n / 10)%N ++ [digit (n mod 10)%N]).
    destruct (N.ltb_spec n 10) as [Hlt|Hge].
    + cbn [digits_value]. rewrite isdigit_digit, char_code_digit by done. lia.
    + rewrite digits_value_snoc by (apply decimal_digits || by apply N.mod_lt).
      rewrite Nat2N.inj_succ, N.pow_succ_r' in Hn.
      rewrite IH by (apply N.Div0.div_lt_upper_bound; lia).
      pose proof (N.div_mod n 10). lia.
Qed.

Lemma size_nat_bound n : (n < 2 ^ N.of_nat (N.size_nat n))%N.
Proof.
  destruct n as [|p]; [done|]. simpl N.size_nat.
  induction p as [p IH|p IH|]; simpl Pos.size_nat; rewrite ?Nat2N.inj_succ, ?N.pow_succ_r'; lia.
Qed.

(** Printing then reading a number gives it back. *)
Lemma digits_value_fmt_u n : digits_value 0 (fmt_u n) = Z.of_N n.
Proof. apply decimal_value, size_nat_bound. Qed.

Lemma fmt_u_inj n m : fmt_u n = fmt_u m → n = m.
Proof.
  intros H. apply (f_equal (digits_value 0)) in H. rewrite !digits_value_fmt_u in H. lia.
Qed.

Lemma length_decimal fuel n k :
  (n < 10 ^ N.of_nat (S k))%N → length (decimal fuel n) ≤ S k.
Proof.
  revert n k; induction fuel as [|fuel IH]; intros n k Hn; [simpl; lia|]. simpl.
  destruct (N.ltb_spec n 10); [simpl; lia|].
  rewrite length_app. simpl. destruct k as [|k]; [simpl in Hn; lia|].
  specialize (IH (n / 10)%N k). rewrite Nat2N.inj_succ, N.pow_succ_r' in Hn.
  specialize (IH ltac:(apply N.Div0.div_lt_upper_bound; lia)). lia.
Qed.

(** A number below 10^k prints in at most [k] digits. *)
Lemma length_fmt_u n k : (n < 10 ^ N.of_nat (S k))%N → length (fmt_u n) ≤ S k.
Proof. apply length_decimal. Qed.

Lemma length_fmt_d z k :
  (Z.abs z < 10 ^ Z.of_nat (S k))%Z → length (fmt_d z) ≤ S (S k).
Proof.
  intros H. unfold fmt_d.
  assert (∀ n, Z.of_N n = Z.abs z → (n < 10 ^ N.of_nat (S k))%N) as Hn by lia.
  case_decide; simpl.
  - pose proof (length_fmt_u (Z.to_N (- z)) k). specialize (Hn (Z.to_N (- z))). lia.
  - pose proof (length_fmt_u (Z.to_N z) k). specialize (Hn (Z.to_N z)). lia.
Qed.

(** Reading stops at the first byte that is not a digit. *)
Lemma digits_value_stop a s c r :
  Forall (λ c, isdigit c = true) s → isdigit c = false →
  digits_value a (s ++ c :: r) = digits_value a s.
Proof.
  intros Hs Hc. revert a; induction Hs as [|b s Hb Hs IH]; intros a; simpl.
  - by rewrite Hc.
  - by rewrite Hb, IH.
Qed.

Lemma digits_value_nonneg a s : (0 ≤ a)%Z → (0 ≤ digits_value a s)%Z.
Proof.
  revert a; induction s as [|c s IH]; intros a Ha; simpl; [done|].
  destruct (isdigit c) eqn:E; [|done]. apply IH.
  unfold isdigit in E. apply andb_true_iff in E as [E1 E2]. lia.
Qed.

Lemma fmt_zu_small z : (0 ≤ z < 2 ^ 64)%Z → fmt_zu z = fmt_u (Z.to_N z).
Proof. intros. unfold fmt_zu. by rewrite u64_small. Qed.

(** ** Calendar time *)

Lemma civil_bounds days :
  let '(y, m, d) := civil_from_days days in
  (1 ≤ m ≤ 12 ∧ 1 ≤ d ≤ 31)%Z.
Proof.
  unfold civil_from_days. cbv zeta.
  pose proof (Z.mod_pos_bound (days + 719468) 146097 ltac:(lia)) as Hd.
  generalize dependent ((days + 719468) mod 146097)%Z. intros doe Hd.
  set (yoe := ((doe - doe / 1460 + doe / 36524 - doe / 146096) / 365)%Z).
  set (doy := (doe - (365 * yoe + yoe / 4 - yoe / 100))%Z).
  assert (0 ≤ doy ≤ 365)%Z as Hy.
  { subst doy yoe. Z.to_euclidean_division_equations. lia. }
  clearbody doy. clear yoe Hd.
  destruct (Z.ltb_spec ((5 * doy + 2) / 153) 10);
    Z.to_euclidean_division_equations; lia.
Qed.

Lemma length_two_digits z : (0 ≤ z < 100)%Z → length (two_digits z) ≤ 2.
Proof.
  intros Hz. unfold two_digits. rewrite length_app.
  pose proof (length_fmt_u (Z.to_N (z / 10)) 0).
  pose proof (length_fmt_u (Z.to_N (z mod 10)) 0).
  pose proof (Z.mod_pos_bound z 10). pose proof (Z.div_lt_upper_bound z 10 10).
  pose proof (Z.div_pos z 10). lia.
Qed.

(** A time stamp fits the 32-byte arrays it is stored in. *)
Lemma length_gmtime_iso t s : gmtime_iso t = Some s → length s ≤ 27.
Proof.
  unfold gmtime_iso. pose proof (civil_bounds (t / 86400)) as Hb.
  destruct (civil_from_days (t / 86400)) as [[y m] d]. simpl in Hb. case_decide as Hy; [|done].
  intros [= <-]. repeat (rewrite length_app || cbn [length]).
  pose proof (Z.mod_pos_bound t 86400 ltac:(lia)) as Hs.
  pose proof (length_fmt_d y 9 ltac:(simpl; lia)) as Hfy.
  pose proof (length_two_digits m ltac:(lia)).
  pose proof (length_two_digits d ltac:(lia)).
  pose proof (length_two_digits (t mod 86400 / 3600)
    ltac:(split; [apply Z.div_pos; lia|apply Z.div_lt_upper_bound; lia])).
  pose proof (length_two_digits (t mod 86400 / 60 mod 60)
    ltac:(pose proof (Z.mod_pos_bound (t mod 86400 / 60) 60); lia)).
  pose proof (length_two_digits (t mod 86400 mod 60)
    ltac:(pose proof (Z.mod_pos_bound (t mod 86400) 60); lia)).
  change (length (B "Z")) with 1. lia.
Qed.

Lemma two_digits_no_nul z : NUL ∉ two_digits z.
Proof.
  assert (∀ n, NUL ∉ fmt_u n) as Hn.
  { intros n Hin. pose proof (fmt_u_digits n) as HF. rewrite Forall_forall in HF.
    by specialize (HF _ Hin). }
  unfold two_digits. rewrite elem_of_app. naive_solver.
Qed.

(** ** Fields *)

Lemma fields_not_nil d s : fields d s ≠ [].
Proof.
  destruct s as [|c s]; simpl; [done|]. case_decide; [done|]. by destruct (fields d s).
Qed.

Lemma fields_first d s g gs :
  fields d s = g :: gs → gs ≠ [] → ∃ b, s = g ++ d :: b.
Proof.
  revert g gs; induction s as [|c s IH]; intros g gs Hf Hgs; simpl in Hf.
  - by injection Hf as <- <-.
  - case_decide as Hc.
    + injection Hf as <- <-. subst. by exists s.
    + destruct (fields d s) as [|f fs] eqn:E; injection Hf as <- <-; [congruence|].
      destruct (IH f fs eq_refl Hgs) as [b ->]. by exists b.
Qed.

(** A field that is not the last one is followed by the delimiter. *)
Lemma fields_inner d s f :
  f ∈ removelast (fields d s) → ∃ a b, s = a ++ f ++ d :: b.
Proof.
  induction s as [|c s IH]; intros Hf; simpl in Hf; [by apply elem_of_nil in Hf|].
  case_decide as Hc.
  - pose proof (fields_not_nil d s). destruct (fields d s) as [|g gs] eqn:E; [done|].
    apply elem_of_cons in Hf as [->|Hf].
    + exists [], s. by subst.
    + destruct (IH Hf) as (a & b & ->). by exists (c :: a), b.
  - destruct (fields d s) as [|g gs] eqn:E; [by apply elem_of_nil in Hf|].
    destruct gs as [|g' gs]; [by apply elem_of_nil in Hf|].
    apply elem_of_cons in Hf as [->|Hf].
    + destruct (fields_first d s g (g' :: gs) E ltac:(done)) as [b ->]. by exists [], b.
    + assert (f ∈ removelast (g :: g' :: gs)) as Hf' by (apply elem_of_cons; by right).
      destruct (IH Hf') as (a & b & ->). by exists (c :: a), b.
Qed.

(** The text before the first delimiter. *)
Definition before (d : ascii) (s : bytes) : bytes := (span (λ c, bool_decide (c ≠ d)) s).1.

Lemma before_no_delim d s : d ∉ before d s.
Proof.
  unfold before. intros Hin. pose proof (span_fst_Forall (λ c, bool_decide (c ≠ d)) s) as H.
  rewrite Forall_forall in H. specialize (H _ Hin). by apply bool_decide_eq_true in H.
Qed.

Lemma before_split d s : before d s = s ∨ ∃ r, s = before d s ++ d :: r.
Proof.
  unfold before. pose proof (span_app (λ c, bool_decide (c ≠ d)) s) as Ha.
  pose proof (span_snd_head (λ c, bool_decide (c ≠ d)) s) as Hh.
  destruct (span _ s) as [a [|c r]]; simpl in *.
  - left. by rewrite app_nil_r in Ha.
  - right. apply bool_decide_eq_false, dec_stable in Hh. subst c. by exists r.
Qed.

Lemma before_id d s : d ∉ s → before d s = s.
Proof.
  intros H. destruct (before_split d s) as [?|[r Hr]]; [done|].
  exfalso. apply H. rewrite Hr. apply elem_of_app. right. apply list_elem_of_here.
Qed.

Lemma before_app d a r : d ∉ a → before d (a ++ d :: r) = a.
Proof.
  intros H. unfold before. rewrite (span_block _ a (d :: r)); [done| |].
  - apply Forall_forall. intros x Hx. apply bool_decide_eq_true. by intros ->.
  - apply bool_decide_eq_false. by intros ?.
Qed.

(** strtok on a string that does not start with the delimiter. *)
Lemma strtok_before d c s :
  c ≠ d →
  strtok d (c :: s) = (Some (before d (c :: s)), tail (span (λ c, bool_decide (c ≠ d)) (c :: s)).2).
Proof.
  intros Hc. unfold strtok, before. cbn [span]. rewrite bool_decide_false by done.
  cbn [span snd]. destruct (span (λ c0, bool_decide (c0 ≠ d)) s) as [t r].
  by rewrite bool_decide_true by done.
Qed.

Lemma take_before d n s : ∃ r, s = before d (take n s) ++ r.
Proof.
  destruct (before_split d (take n s)) as [H|[r H]].
  - exists (drop n s). by rewrite H, take_drop.
  - exists (d :: r ++ drop n s). rewrite <-(take_drop n s) at 1. rewrite H at 1.
    by rewrite <-app_assoc.
Qed.
