(* ===== verification/Types.v ===== *)
(** * Types: the data the components share

    The enums and structs of client_conn/connections.h, requests/parse_request.h,
    requests/resolve_path.h and logging/logging.h, with one setter per field the
    sources assign. *)

From S2P Require Import Prelude.

(** ** client_conn/connections.h *)

Inductive client_state :=
| READING | PROCESSING | SENDING_HEADER | SENDING_BODY | CLOSING | NUM_CLIENT_STATE.

#[export] Instance client_state_eq_dec : EqDecision client_state.
Proof. solve_decision. Defined.

Inductive client_response :=
| RESP_200 | RESP_400 | RESP_403 | RESP_404 | RESP_414 | RESP_500 | RESP_501 | RESP_505
| NUM_CLIENT_RESP.

#[export] Instance client_response_eq_dec : EqDecision client_response.
Proof. solve_decision. Defined.

(** The enum's integer values, which the sources compare. *)
Definition resp_num (r : client_response) : nat :=
  match r with
  | RESP_200 => 0 | RESP_400 => 1 | RESP_403 => 2 | RESP_404 => 3 | RESP_414 => 4
  | RESP_500 => 5 | RESP_501 => 6 | RESP_505 => 7 | NUM_CLIENT_RESP => 8
  end.

(** A heap block: its identity and the bytes written to it. *)
Record block := Block { b_id : nat; b_data : bytes }.

(** [FILE *]: NULL or the identity of a stream. *)
Abbreviation fileptr := (option nat).

(** [size_t] fields are [nat], except [body_len], which the sources also assign
    from an [off_t]. *)
Record Client := mkClient {
  in_buf : option block;
  out_buf : option block;
  file_ptr : fileptr;
  file_size : Z;
  body_sent : nat;
  input_length : nat;
  input_capacity : nat;
  output_length : nat;
  output_capacity : nat;
  output_sent : nat;
  header_len : nat;
  body_len : Z;
  fd : Z;
  state : client_state;
  resp_val : client_response;
  timestamp : bytes;
  client_addr : bytes
}.

Section client_setters.
Context (c : Client).
Definition set_in (b : option block) (len cap : nat) : Client :=
    mkClient b (out_buf c) (file_ptr c) (file_size c) (body_sent c) len cap
      (output_length c) (output_capacity c) (output_sent c) (header_len c) (body_len c)
      (fd c) (state c) (resp_val c) (timestamp c) (client_addr c).
Definition set_out (b : option block) (len : nat) : Client :=
    mkClient (in_buf c) b (file_ptr c) (file_size c) (body_sent c) (input_length c)
      (input_capacity c) len (output_capacity c) (output_sent c) (header_len c) (body_len c)
      (fd c) (state c) (resp_val c) (timestamp c) (client_addr c).
Definition set_file (f : fileptr) (sz : Z) : Client :=
    mkClient (in_buf c) (out_buf c) f sz (body_sent c) (input_length c)
      (input_capacity c) (output_length c) (output_capacity c) (output_sent c)
      (header_len c) (body_len c) (fd c) (state c) (resp_val c) (timestamp c) (client_addr c).
Definition set_sent (n : nat) : Client :=
    mkClient (in_buf c) (out_buf c) (file_ptr c) (file_size c) (body_sent c) (input_length c)
      (input_capacity c) (output_length c) (output_capacity c) n
      (header_len c) (body_len c) (fd c) (state c) (resp_val c) (timestamp c) (client_addr c).
Definition set_header_len (n : nat) : Client :=
    mkClient (in_buf c) (out_buf c) (file_ptr c) (file_size c) (body_sent c) (input_length c)
      (input_capacity c) (output_length c) (output_capacity c) (output_sent c)
      n (body_len c) (fd c) (state c) (resp_val c) (timestamp c) (client_addr c).
Definition set_body_len (z : Z) : Client :=
    mkClient (in_buf c) (out_buf c) (file_ptr c) (file_size c) (body_sent c) (input_length c)
      (input_capacity c) (output_length c) (output_capacity c) (output_sent c)
      (header_len c) z (fd c) (state c) (resp_val c) (timestamp c) (client_addr c).
Definition set_state (s : client_state) : Client :=
    mkClient (in_buf c) (out_buf c) (file_ptr c) (file_size c) (body_sent c) (input_length c)
      (input_capacity c) (output_length c) (output_capacity c) (output_sent c)
      (header_len c) (body_len c) (fd c) s (resp_val c) (timestamp c) (client_addr c).
Definition set_resp (r : client_response) : Client :=
    mkClient (in_buf c) (out_buf c) (file_ptr c) (file_size c) (body_sent c) (input_length c)
      (input_capacity c) (output_length c) (output_capacity c) (output_sent c)
      (header_len c) (body_len c) (fd c) (state c) r (timestamp c) (client_addr c).
Definition set_client_addr (a : bytes) : Client :=
    mkClient (in_buf c) (out_buf c) (file_ptr c) (file_size c) (body_sent c) (input_length c)
      (input_capacity c) (output_length c) (output_capacity c) (output_sent c)
      (header_len c) (body_len c) (fd c) (state c) (resp_val c) (timestamp c) a.
End client_setters.

Record PollFd := mkPollFd { pfd_fd : Z; pfd_events : Z; pfd_revents : Z }.

(** ** requests/parse_request.h *)

(** The fallback of parse_request.h, which is also the value of <limits.h> on
    Linux. *)
Definition PATH_MAX : nat := Z.to_nat 4096.
Definition MAX_REQUEST_SIZE : nat := Z.to_nat 8192.
Definition TIME_RECEIVED_LENGTH : nat := 32.
Definition INET6_ADDRSTRLEN : nat := 46.

(** Kept folded during proofs: their values enter through these equations. *)
Lemma PATH_MAX_val : Z.of_nat PATH_MAX = 4096%Z.
Proof. reflexivity. Qed.
Lemma MAX_REQUEST_SIZE_val : Z.of_nat MAX_REQUEST_SIZE = 8192%Z.
Proof. reflexivity. Qed.
#[global] Opaque PATH_MAX MAX_REQUEST_SIZE.

(** Linear arithmetic with those values. *)
Ltac size_lia := pose proof PATH_MAX_val; pose proof MAX_REQUEST_SIZE_val; lia.

Inductive http_method :=
| HTTP_GET | HTTP_POST | HTTP_HEAD | HTTP_PUT | HTTP_DELETE | HTTP_METHOD_UNKNOWN
| NUM_HTTP_METHOD.

#[export] Instance http_method_eq_dec : EqDecision http_method.
Proof. solve_decision. Defined.

Inductive http_version :=
| HTTP_0_9 | HTTP_1_0 | HTTP_1_1 | HTTP_2 | HTTP_3 | HTTP_VERSION_UNSUPPORTED
| HTTP_VERSION_UNKNOWN | NUM_HTTP_VERSION.

#[export] Instance http_version_eq_dec : EqDecision http_version.
Proof. solve_decision. Defined.

(** The character arrays are the C strings they hold. *)
Record Request := mkRequest {
  method : http_method;
  version : http_version;
  time_received : bytes;
  path : bytes
}.

(** [Request req = {0}]. *)
Definition request_zero : Request := mkRequest HTTP_GET HTTP_0_9 [] [].

(** ** requests/resolve_path.h *)

Inductive Path_type := UNKNOWN | IS_FILE | IS_DIR | IS_CGI.

#[export] Instance Path_type_eq_dec : EqDecision Path_type.
Proof. solve_decision. Defined.

Record ResolvedPath := mkRP {
  query_string : bytes;
  rp_file_ptr : fileptr;
  rp_file_size : Z;
  mime_type : option bytes;
  last_mod : Z;
  path_type : Path_type
}.

(** [ResolvedPath rp = {0}]. *)
Definition rp_zero : ResolvedPath := mkRP [] None 0 None 0 UNKNOWN.

Section rp_setters.
  Context (r : ResolvedPath).
Definition set_query (q : bytes) : ResolvedPath :=
    mkRP q (rp_file_ptr r) (rp_file_size r) (mime_type r) (last_mod r) (path_type r).
Definition set_rp_file (f : fileptr) : ResolvedPath :=
    mkRP (query_string r) f (rp_file_size r) (mime_type r) (last_mod r) (path_type r).
Definition set_rp_size (z : Z) : ResolvedPath :=
    mkRP (query_string r) (rp_file_ptr r) z (mime_type r) (last_mod r) (path_type r).
Definition set_mime (m : option bytes) : ResolvedPath :=
    mkRP (query_string r) (rp_file_ptr r) (rp_file_size r) m (last_mod r) (path_type r).
Definition set_last_mod (z : Z) : ResolvedPath :=
    mkRP (query_string r) (rp_file_ptr r) (rp_file_size r) (mime_type r) z (path_type r).
Definition set_path_type (p : Path_type) : ResolvedPath :=
    mkRP (query_string r) (rp_file_ptr r) (rp_file_size r) (mime_type r) (last_mod r) p.
End rp_setters.

(** ** logging/logging.h *)

Definition LOG_BUF_SIZE : nat := MAX_REQUEST_SIZE + 128.

(** The C string in [buf], the offset (a [size_t]), and whether a write has
    gone past the end of the array. *)
Record LogEntry := mkLE { le_buf : bytes; le_offset : Z; le_overrun : bool }.

(** [LogEntry le = {0}]. *)
Definition log_zero : LogEntry := mkLE [] 0 false.
