(* ===== verification/OS.v ===== *)
(** * OS: the operating system as the server sees it

    The state of the outside world, the system and library calls the sources
    make on it, and the monad of effectful code. The world is split in the part
    the environment decides (clock, file system, results queued for recv, send
    and accept, allocation outcomes, CGI programs) and the part the program
    owns: open streams, live heap blocks and the trace of its visible actions. *)

From S2P Require Import Prelude CLib Types.

(** ** What the environment supplies *)

(** EAGAIN and EWOULDBLOCK may be distinct; EPIPE is the one error of send(2) that
    comes with a signal; [EOTHER] stands for every other error number the sources do
    not name. *)
Inductive errno := EAGAIN | EWOULDBLOCK | EINTR | EACCES | EPIPE | EOTHER.

#[export] Instance errno_eq_dec : EqDecision errno.
Proof. solve_decision. Defined.

Definition would_block (e : errno) : bool :=
  bool_decide (e = EAGAIN) || bool_decide (e = EWOULDBLOCK).

(** The fields of [struct stat] the sources read. *)
Record stat := mkStat { st_isdir : bool; st_size : Z; st_mtime : Z }.

(** An open stream: what fstat(2) answers on it ([None]: it fails) and the
    bytes not read yet. *)
Record stream := mkStream { s_stat : option stat; s_rest : bytes }.

Record dirent := mkDirent { d_name : bytes; d_isdir : bool }.

(** One result of recv(2), send(2), accept(2), read(2) on a pipe. *)
Inductive recv_result := RecvData (data : bytes) | RecvErr (e : errno).
Inductive send_result := SendN (n : nat) | SendErr (e : errno).
Inductive pipe_result := PipeData (data : bytes) | PipeErr (e : errno).

(** A connection accepted: its descriptor, whether the two fcntl(2) calls
    succeed, the address family and the text inet_ntop(3) gives. *)
Record new_conn := mkConn {
  nc_fd : Z; nc_getfl_ok : bool; nc_setfl_ok : bool; nc_inet : bool; nc_addr : option bytes
}.
Inductive accept_result := Accepted (n : new_conn) | AcceptErr (e : errno).

(** What a CGI child is started with, and what the parent observes: the two ends
    of the pipe, whether fork succeeds, what read returns (end of file once
    exhausted), whether waitpid succeeds, and the exit status. *)
Record cgi_call := mkCgiCall {
  cc_exec : bytes;
  cc_argv : list bytes;
  cc_env : list (bytes * bytes)
}.
Record cgi_result := mkCgiResult {
  cg_pipe : option (Z * Z);
  cg_fork_ok : bool;
  cg_output : list pipe_result;
  cg_wait_ok : bool;
  cg_exited : bool;
  cg_status : Z
}.

(** The environment. [e_alloc] holds the outcomes of the next allocations, those a
    memory stream makes to grow included (success once exhausted); [e_kept] tells how
    many bytes of a text a memory stream adds to what it holds when it cannot grow; [e_append_ok]
    tells whether a file can be opened for appending; [e_junk_client] and
    [e_junk_pfd] are the contents of fresh array slots. *)
Record Environment := mkEnv {
  e_now : Z;
  e_euid : Z;
  e_stat : bytes → option stat;
  e_append_ok : bytes → bool;
  e_fopen : bytes → errno + stream;
  e_opendir : bytes → option (list dirent);
  e_cgi : cgi_call → cgi_result;
  e_recv : Z → list recv_result;
  e_send : Z → list send_result;
  e_accept : Z → list accept_result;
  e_alloc : list bool;
  e_kept : bytes → bytes → nat;
  e_junk_client : Client;
  e_junk_pfd : PollFd
}.

(** ** The world *)

Inductive event :=
| EvClose (fd : Z)
| EvFclose (f : nat) (live : bool)
| EvClosedir (d : nat) (live : bool)
| EvFree (b : nat) (live : bool)
| EvSend (fd : Z) (data : bytes)
| EvShutdown (fd : Z)
| EvLog (line : bytes)
| EvExec (call : cgi_call)
| EvBind (fd : Z) (v6 : bool) (addr : option bytes) (port : Z)
| EvListen (fd : Z).

(** [w_files]: the open streams and directories; [w_blocks]: the live heap
    blocks; [w_next]: an identity never used before; [w_trace]: the actions so
    far, in order. *)
Record World := mkWorld {
  w_env : Environment;
  w_next : nat;
  w_files : gmap nat stream;
  w_blocks : gset nat;
  w_trace : list event
}.

(** ** The monad *)

(** A computation returns, ends the process, with exit(3) or by a signal, goes out of
    the memory it may use, or runs out of the fuel of its model. The [code] is the
    exit status, or what a shell reports for the signal. *)
Inductive outcome (A : Type) :=
| Ret (a : A)
| Exit (code : Z)
| Crash
| NoFuel.
#[global] Arguments Ret {A} a.
#[global] Arguments Exit {A} code.
#[global] Arguments Crash {A}.
#[global] Arguments NoFuel {A}.

Definition M (A : Type) : Type := World → outcome A * World.

#[export] Instance M_ret : MRet M := λ A a w, (Ret a, w).
#[export] Instance M_bind : MBind M := λ A C k m w,
  match m w with
  | (Ret a, w') => k a w'
  | (Exit c, w') => (Exit c, w')
  | (Crash, w') => (Crash, w')
  | (NoFuel, w') => (NoFuel, w')
  end.

Definition EXIT_FAILURE : Z := 1.
Definition EXIT_SUCCESS : Z := 0.

(** The default action of SIGPIPE, signal 13, ends the process. *)
Definition SIGPIPE_STATUS : Z := 128 + 13.

Definition exit {A} (code : Z) : M A := λ w, (Exit code, w).
Definition crash {A} : M A := λ w, (Crash, w).
Definition no_fuel {A} : M A := λ w, (NoFuel, w).
Definition get : M World := λ w, (Ret w, w).
Definition put (w : World) : M unit := λ _, (Ret (), w).

(** ** World updates *)

Definition w_set_env (e : Environment) (w : World) : World :=
  mkWorld e (w_next w) (w_files w) (w_blocks w) (w_trace w).
Definition w_set_files (f : gmap nat stream) (w : World) : World :=
  mkWorld (w_env w) (w_next w) f (w_blocks w) (w_trace w).
Definition w_set_blocks (b : gset nat) (w : World) : World :=
  mkWorld (w_env w) (w_next w) (w_files w) b (w_trace w).
Definition w_emit (ev : event) (w : World) : World :=
  mkWorld (w_env w) (w_next w) (w_files w) (w_blocks w) (w_trace w ++ [ev]).

Definition e_set_recv (fd : Z) (q : list recv_result) (e : Environment) : Environment :=
  mkEnv (e_now e) (e_euid e) (e_stat e) (e_append_ok e) (e_fopen e) (e_opendir e) (e_cgi e)
    (λ x, if decide (x = fd) then q else e_recv e x)
    (e_send e) (e_accept e) (e_alloc e) (e_kept e) (e_junk_client e) (e_junk_pfd e).
Definition e_set_send (fd : Z) (q : list send_result) (e : Environment) : Environment :=
  mkEnv (e_now e) (e_euid e) (e_stat e) (e_append_ok e) (e_fopen e) (e_opendir e) (e_cgi e) (e_recv e)
    (λ x, if decide (x = fd) then q else e_send e x)
    (e_accept e) (e_alloc e) (e_kept e) (e_junk_client e) (e_junk_pfd e).
Definition e_set_accept (fd : Z) (q : list accept_result) (e : Environment) : Environment :=
  mkEnv (e_now e) (e_euid e) (e_stat e) (e_append_ok e) (e_fopen e) (e_opendir e) (e_cgi e) (e_recv e) (e_send e)
    (λ x, if decide (x = fd) then q else e_accept e x)
    (e_alloc e) (e_kept e) (e_junk_client e) (e_junk_pfd e).
Definition e_set_alloc (q : list bool) (e : Environment) : Environment :=
  mkEnv (e_now e) (e_euid e) (e_stat e) (e_append_ok e) (e_fopen e) (e_opendir e) (e_cgi e) (e_recv e) (e_send e)
    (e_accept e) q (e_kept e) (e_junk_client e) (e_junk_pfd e).

(** A stream opened, closed; a directory closed; a block allocated, freed. The
    close and free events record whether the object was live. *)
Definition w_open (s : stream) (w : World) : World :=
  mkWorld (w_env w) (S (w_next w)) (<[w_next w := s]> (w_files w)) (w_blocks w) (w_trace w).
Definition w_fclose (f : nat) (w : World) : World :=
  mkWorld (w_env w) (w_next w) (delete f (w_files w)) (w_blocks w)
    (w_trace w ++ [EvFclose f (bool_decide (is_Some (w_files w !! f)))]).
Definition w_closedir (d : nat) (w : World) : World :=
  mkWorld (w_env w) (w_next w) (delete d (w_files w)) (w_blocks w)
    (w_trace w ++ [EvClosedir d (bool_decide (is_Some (w_files w !! d)))]).
Definition w_new_block (w : World) : World :=
  mkWorld (w_env w) (S (w_next w)) (w_files w) ({[w_next w]} ∪ w_blocks w) (w_trace w).
Definition w_drop_block (b : nat) (w : World) : World :=
  mkWorld (w_env w) (w_next w) (w_files w) (w_blocks w ∖ {[b]}) (w_trace w).
Definition w_free (b : nat) (w : World) : World :=
  w_drop_block b (w_emit (EvFree b (bool_decide (b ∈ w_blocks w))) w).

Definition emit (ev : event) : M unit := λ w, (Ret (), w_emit ev w).

(** ** Memory *)

(** The outcome of the next allocation, and the world without it. *)
Definition alloc_ok (w : World) : bool := default true (head (e_alloc (w_env w))).
Definition w_alloc_next (w : World) : World :=
  w_set_env (e_set_alloc (tail (e_alloc (w_env w))) (w_env w)) w.

Definition malloc : M (option nat) := λ w,
  if alloc_ok w then (Ret (Some (w_next w)), w_new_block (w_alloc_next w))
  else (Ret None, w_alloc_next w).

(** realloc(3): on success the old block is gone; on failure it stays. *)
Definition realloc (p : option nat) : M (option nat) := λ w,
  if alloc_ok w then
    (Ret (Some (w_next w)),
     w_new_block (match p with
                  | Some b => w_drop_block b (w_alloc_next w)
                  | None => w_alloc_next w
                  end))
  else (Ret None, w_alloc_next w).

(** free(3): a no-op on NULL. *)
Definition free (p : option nat) : M unit := λ w,
  (Ret (), match p with Some b => w_free b w | None => w end).

(** ** Streams *)

(** fopen(3) in read mode: a stream, or the error number. *)
Definition fopen (name : bytes) : M (errno + nat) := λ w,
  match e_fopen (w_env w) name with
  | inl e => (Ret (inl e), w)
  | inr s => (Ret (inr (w_next w)), w_open s w)
  end.

(** fopen(3) in append mode. *)
Definition fopen_append (name : bytes) : M fileptr := λ w,
  if e_append_ok (w_env w) name
  then (Ret (Some (w_next w)), w_open (mkStream None []) w)
  else (Ret None, w).

(** stat(2), geteuid(2) and time(3). *)
Definition stat_path (name : bytes) : M (option stat) := λ w,
  (Ret (e_stat (w_env w) name), w).
Definition geteuid : M Z := λ w, (Ret (e_euid (w_env w)), w).
Definition time : M Z := λ w, (Ret (e_now (w_env w)), w).

(** fstat(2) on a stream's descriptor. *)
Definition fstat (f : nat) : M (option stat) := λ w,
  (Ret (w_files w !! f ≫= s_stat), w).

Definition fclose (f : nat) : M unit := λ w, (Ret (), w_fclose f w).

(** fread(3) of at most [n] bytes; reading a NULL or closed stream is a crash. *)
Definition w_advance (n f : nat) (w : World) : World :=
  w_set_files (alter (λ s, mkStream (s_stat s) (drop n (s_rest s))) f (w_files w)) w.
Definition fread (n : nat) (p : fileptr) : M bytes := λ w,
  match p with
  | None => (Crash, w)
  | Some f =>
      match w_files w !! f with
      | None => (Crash, w)
      | Some s => (Ret (take n (s_rest s)), w_advance n f w)
      end
  end.

(** open_memstream(3): the stream and the buffer it grows; the block keeps its
    identity as it grows. *)
Definition open_memstream : M (option (nat * nat)) := λ w,
  if alloc_ok w then
    let w1 := w_open (mkStream None []) (w_alloc_next w) in
    (Ret (Some (w_next w, w_next w1)), w_new_block w1)
  else (Ret None, w_alloc_next w).

(** Printing [text] to a memory stream that holds [buf], up to the flush or close after
    it: the stream may have to grow, and stores part of the text when it cannot. The
    calls report that, but the sources look at none of their results. *)
Definition stored (w : World) (buf text : bytes) : bytes :=
  buf ++ (if alloc_ok w then text else take (e_kept (w_env w) buf text) text).
Definition stream_write (buf text : bytes) : M bytes := λ w,
  (Ret (stored w buf text), w_alloc_next w).

Definition opendir (name : bytes) : M (option (nat * list dirent)) := λ w,
  match e_opendir (w_env w) name with
  | None => (Ret None, w)
  | Some l => (Ret (Some (w_next w, l)), w_open (mkStream None []) w)
  end.

Definition closedir (d : nat) : M unit := λ w, (Ret (), w_closedir d w).

(** ** Sockets *)

Definition close (fd : Z) : M unit := emit (EvClose fd).
Definition shutdown_wr (fd : Z) : M unit := emit (EvShutdown fd).

(** recv(2) of at most [size] bytes on a non-blocking socket: the next queued
    result, of which what does not fit stays queued; with nothing queued the call
    would block. Empty data is the end of the stream. *)
Definition recv (fd : Z) (size : nat) : M recv_result := λ w,
  match e_recv (w_env w) fd with
  | [] => (Ret (RecvErr EAGAIN), w)
  | RecvData d :: q =>
      (Ret (RecvData (take size d)),
       w_set_env (e_set_recv fd
         match drop size d with [] => q | rest => RecvData rest :: q end (w_env w)) w)
  | r :: q => (Ret r, w_set_env (e_set_recv fd q (w_env w)) w)
  end.

(** send(2) of the bytes [data], flags 0: the number of bytes taken; with nothing
    queued it takes them all. When the peer is gone the call fails with EPIPE and
    raises SIGPIPE, whose action the sources leave at its default. *)
Definition send (fd : Z) (data : bytes) : M send_result := λ w,
  match e_send (w_env w) fd with
  | [] => (Ret (SendN (length data)), w_emit (EvSend fd data) w)
  | SendN n :: q =>
      (Ret (SendN (n `min` length data)),
       w_emit (EvSend fd (take n data)) (w_set_env (e_set_send fd q (w_env w)) w))
  | SendErr e :: q =>
      (if decide (e = EPIPE) then Exit SIGPIPE_STATUS else Ret (SendErr e),
       w_set_env (e_set_send fd q (w_env w)) w)
  end.

(** accept(2) on a non-blocking listener. *)
Definition accept (fd : Z) : M accept_result := λ w,
  match e_accept (w_env w) fd with
  | [] => (Ret (AcceptErr EAGAIN), w)
  | r :: q => (Ret r, w_set_env (e_set_accept fd q (w_env w)) w)
  end.

(** ** Libraries outside the repository *)

(** libmagic and inet_pton(3) are not part of this repository or of the C
    language: what they answer is a parameter. [magic_descriptor] sees the
    bytes of the file; [atoi_overflow] is the unspecified value of atoi(3) on a
    number that does not fit an [int]. *)
Class External := {
  magic_descriptor : bytes → option bytes;
  inet_pton4 : bytes → option bytes;
  inet_pton6 : bytes → option bytes;
  atoi_overflow : bytes → Z
}.

Definition atoi `{External} (s : bytes) : Z :=
  let v := digits_value 0 s in
  if decide (v < 2 ^ 31)%Z then v else atoi_overflow s.

(** ** A sample world *)

(** A client slot with nothing in it, and an environment without files,
    connections or failures: the starting point of the examples. *)
Definition blank_client : Client :=
  mkClient None None None 0 0 0 0 0 0 0 0 0 (-1) READING NUM_CLIENT_RESP [] [].
Definition quiet_env : Environment :=
  mkEnv 1731967567 1001 (λ _, None) (λ _, false) (λ _, inl EOTHER) (λ _, None)
    (λ _, mkCgiResult None false [] false false 0) (λ _, []) (λ _, []) (λ _, []) []
    (λ _ _, 0) blank_client (mkPollFd 0 0 0).
Definition world_of (e : Environment) : World := mkWorld e 0 ∅ ∅ [].
Definition quiet_world : World := world_of quiet_env.

(** A small file system: an HTML file, a CGI program, the parent directory, a
    directory with an index and one without. *)
Definition sample_fs (name : bytes) : errno + stream :=
  if bool_decide (name = B "./a.html") then inr (mkStream (Some (mkStat false 5 0)) (B "hello"))
  else if bool_decide (name = B "./cgi-bin/run") || bool_decide (name = B ".//cgi-bin/run")
  then inr (mkStream (Some (mkStat false 9 0)) (B "#!/bin/sh"))
  else if bool_decide (name = B "./d") || bool_decide (name = B "./e")
          || bool_decide (name = B "./..") || bool_decide (name = B "./")
  then inr (mkStream (Some (mkStat true 2 0)) [])
  else if bool_decide (name = B "./d/index.html")
  then inr (mkStream (Some (mkStat false 3 7)) (B "<p>"))
  else if bool_decide (name = B "./secret") then inl EACCES
  else inl EOTHER.
Definition sample_dirs (name : bytes) : option (list dirent) :=
  if bool_decide (name = B "e") || bool_decide (name = B "..")
  then Some [mkDirent (B ".") true; mkDirent (B "..") true; mkDirent (B "f.txt") false;
             mkDirent (B "g") true]
  else None.
Definition sample_env : Environment :=
  mkEnv 1731967567 1001 (λ _, None) (λ _, true) sample_fs sample_dirs
    (λ _, mkCgiResult (Some (10, 11)%Z) true [PipeData (B "<p>"); PipeData (B "hi</p>")] true true 0)
    (λ _, []) (λ _, []) (λ _, []) [] (λ _ _, 0) blank_client (mkPollFd 0 0 0).
Definition sample_world : World := world_of sample_env.

#[export] Instance sample_ext : External := {|
  magic_descriptor := λ _, Some (B "application/octet-stream");
  inet_pton4 := λ a, if bool_decide (a = B "127.0.0.1") then Some (B "127001") else None;
  inet_pton6 := λ a, if bool_decide (a = B "::1") then Some (B "1") else None;
  atoi_overflow := λ _, (-1)%Z
|}.

(** * Lemmas *)

(** Evaluate a computation as far as its world is known. *)
Ltac run := unfold mbind, M_bind, mret, M_ret, exit, crash; cbn beta iota.
Ltac run_in H := unfold mbind, M_bind, mret, M_ret, exit, crash in H; cbn beta iota in H.

Lemma bind_ret_inv {A C} (m : M A) (k : A → M C) w c w' :
  (m ≫= k) w = (Ret c, w') → ∃ a w1, m w = (Ret a, w1) ∧ k a w1 = (Ret c, w').
Proof. run. destruct (m w) as [[a|code| |] w1]; naive_solver. Qed.

Lemma bind_run {A C} (m : M A) (k : A → M C) w a w1 :
  m w = (Ret a, w1) → (m ≫= k) w = k a w1.
Proof. run. by intros ->. Qed.

(** The monad laws. *)
Lemma bind_ret_l {A C} (a : A) (k : A → M C) w : (mret a ≫= k) w = k a w.
Proof. done. Qed.
Lemma bind_ret_r {A} (m : M A) w : (m ≫= mret) w = m w.
Proof. run. by destruct (m w) as [[] ?]. Qed.
Lemma bind_assoc {A C D} (m : M A) (k : A → M C) (l : C → M D) w :
  ((m ≫= k) ≫= l) w = (m ≫= λ a, k a ≫= l) w.
Proof. run. by destruct (m w) as [[] ?]. Qed.

(** ** Identities are fresh *)

Record world_ok (w : World) : Prop := {
  ok_files : ∀ f, is_Some (w_files w !! f) → f < w_next w;
  ok_blocks : ∀ b, b ∈ w_blocks w → b < w_next w
}.

Lemma files_fresh w : world_ok w → w_files w !! w_next w = None.
Proof.
  intros [H _]. destruct (w_files w !! w_next w) eqn:E; [|done].
  specialize (H (w_next w)). rewrite E in H. specialize (H ltac:(eauto)). lia.
Qed.

Lemma blocks_fresh w : world_ok w → w_next w ∉ w_blocks w.
Proof. intros [_ H] Hin. specialize (H _ Hin). lia. Qed.

Lemma world_ok_open s w : world_ok w → world_ok (w_open s w).
Proof.
  intros [Hf Hb]. constructor; simpl.
  - intros f. rewrite lookup_insert. case_decide; [lia|]. intros Hin%Hf. lia.
  - intros b H%Hb. lia.
Qed.

Lemma world_ok_fclose f w : world_ok w → world_ok (w_fclose f w).
Proof.
  intros [Hf Hb]. constructor; simpl; [|done].
  intros g. rewrite lookup_delete. case_decide; [by intros []|apply Hf].
Qed.

Lemma world_ok_closedir f w : world_ok w → world_ok (w_closedir f w).
Proof.
  intros [Hf Hb]. constructor; simpl; [|done].
  intros g. rewrite lookup_delete. case_decide; [by intros []|apply Hf].
Qed.

Lemma world_ok_new_block w : world_ok w → world_ok (w_new_block w).
Proof.
  intros [Hf Hb]. constructor; simpl.
  - intros f H%Hf. lia.
  - intros b. rewrite elem_of_union, elem_of_singleton. intros [->|H%Hb]; lia.
Qed.

Lemma world_ok_drop_block b w : world_ok w → world_ok (w_drop_block b w).
Proof.
  intros [Hf Hb]. constructor; simpl; [done|]. intros x. rewrite elem_of_difference.
  intros [H%Hb _]. lia.
Qed.

Lemma world_ok_emit ev w : world_ok w → world_ok (w_emit ev w).
Proof. intros [Hf Hb]. by constructor. Qed.

Lemma world_ok_set_env e w : world_ok w → world_ok (w_set_env e w).
Proof. intros [Hf Hb]. by constructor. Qed.

Lemma world_ok_free b w : world_ok w → world_ok (w_free b w).
Proof. intros. by apply world_ok_drop_block, world_ok_emit. Qed.

Lemma world_ok_alloc_next w : world_ok w → world_ok (w_alloc_next w).
Proof. apply world_ok_set_env. Qed.

#[export] Hint Resolve files_fresh blocks_fresh world_ok_open world_ok_fclose
  world_ok_closedir world_ok_new_block world_ok_drop_block world_ok_emit world_ok_set_env
  world_ok_free world_ok_alloc_next : server.

Lemma world_of_ok e : world_ok (world_of e).
Proof.
  constructor; simpl; [|set_solver]. intros f. rewrite lookup_empty. by intros [].
Qed.
#[export] Hint Resolve world_of_ok : server.

(** ** Live objects *)

(** Opening a stream and closing it leaves the stream table as it was. *)
Lemma fclose_open_files s w :
  world_ok w → w_files (w_fclose (w_next w) (w_open s w)) = w_files w.
Proof. intros H. simpl. rewrite delete_insert_id; [done|]. by apply files_fresh. Qed.

(** An event that closes or frees only what is live. *)
Definition ev_live (ev : event) : Prop :=
  match ev with
  | EvFclose _ live | EvClosedir _ live | EvFree _ live => live = true
  | _ => True
  end.

(** The new actions of a step are [evs]. *)
Definition extends (w w' : World) (evs : list event) : Prop := w_trace w' = w_trace w ++ evs.

Lemma extends_nil w w' : w_trace w' = w_trace w → extends w w' [].
Proof. unfold extends. by rewrite app_nil_r. Qed.

Lemma extends_trans w1 w2 w3 evs1 evs2 :
  extends w1 w2 evs1 → extends w2 w3 evs2 → extends w1 w3 (evs1 ++ evs2).
Proof. unfold extends. intros H1 H2. by rewrite H2, H1, app_assoc. Qed.

(** The descriptors closed, in order. *)
Definition closed_fds (evs : list event) : list Z :=
  evs ≫= λ ev, match ev with EvClose x => [x] | _ => [] end.

Lemma closed_fds_app e1 e2 : closed_fds (e1 ++ e2) = closed_fds e1 ++ closed_fds e2.
Proof. apply bind_app. Qed.

(** The descriptors closed by a step. *)
Definition closes (w w' : World) (fds : list Z) : Prop :=
  ∃ evs, extends w w' evs ∧ closed_fds evs = fds.

Lemma closes_same w w' : w_trace w' = w_trace w → closes w w' [].
Proof. intros E. exists []. split; [by apply extends_nil|done]. Qed.

Lemma closes_trans w1 w2 w3 l1 l2 : closes w1 w2 l1 → closes w2 w3 l2 → closes w1 w3 (l1 ++ l2).
Proof.
  intros (e1 & X1 & <-) (e2 & X2 & <-). exists (e1 ++ e2).
  split; [by eapply extends_trans|apply closed_fds_app].
Qed.

Lemma closes_event w w' w'' ev fds :
  closes w w' fds → w_trace w'' = w_trace w' ++ [ev] → closes w w'' (fds ++ closed_fds [ev]).
Proof. intros H E. eapply closes_trans; [exact H|]. by exists [ev]. Qed.

Lemma closes_silent w w' w'' fds : closes w w' fds → w_trace w'' = w_trace w' → closes w w'' fds.
Proof. intros H E. rewrite <-(app_nil_r fds). eapply closes_trans; [exact H|by apply closes_same]. Qed.

(** ** Equations of the calls *)

Lemma fopen_inr n w s :
  e_fopen (w_env w) n = inr s → fopen n w = (Ret (inr (w_next w)), w_open s w).
Proof. unfold fopen. by intros ->. Qed.
Lemma fopen_inl n w e :
  e_fopen (w_env w) n = inl e → fopen n w = (Ret (inl e), w).
Proof. unfold fopen. by intros ->. Qed.
Lemma fstat_open s w : fstat (w_next w) (w_open s w) = (Ret (s_stat s), w_open s w).
Proof. unfold fstat. simpl. by rewrite lookup_insert_eq. Qed.
Lemma fclose_run {A} f (k : unit → M A) w : (fclose f ≫= k) w = k () (w_fclose f w).
Proof. done. Qed.

Lemma files_beyond w f : world_ok w → w_next w ≤ f → w_files w !! f = None.
Proof.
  intros [Hf _] Hn. destruct (w_files w !! f) eqn:E; [|done].
  specialize (Hf f). rewrite E in Hf. specialize (Hf ltac:(eauto)). lia.
Qed.
#[export] Hint Resolve files_beyond : server.

(** ** Sound steps *)

(** The environment after some allocations. *)
Definition env_step (w w' : World) : Prop :=
  ∃ k, w_env w' = e_set_alloc (drop k (e_alloc (w_env w))) (w_env w).

(** A step of the program that leaves identities fresh, takes nothing from the
    environment but allocation outcomes, and closes and frees only live
    objects. *)
Definition sound (w w' : World) : Prop :=
  world_ok w' ∧ env_step w w' ∧ ∃ evs, extends w w' evs ∧ Forall ev_live evs.

Lemma e_set_alloc_id e : e_set_alloc (e_alloc e) e = e.
Proof. by destruct e. Qed.

Lemma sound_refl w : world_ok w → sound w w.
Proof.
  intros H. split_and!; [done| |].
  - exists 0. by rewrite drop_0, e_set_alloc_id.
  - exists []. split; [by apply extends_nil|done].
Qed.

Lemma env_step_trans w1 w2 w3 : env_step w1 w2 → env_step w2 w3 → env_step w1 w3.
Proof. intros [k1 H1] [k2 H2]. exists (k1 + k2). by rewrite H2, H1, <-drop_drop. Qed.

Lemma sound_trans w1 w2 w3 : sound w1 w2 → sound w2 w3 → sound w1 w3.
Proof.
  intros (_ & H1 & evs1 & Hx1 & Hl1) (Hok & H2 & evs2 & Hx2 & Hl2).
  split_and!; [done|by eapply env_step_trans|].
  exists (evs1 ++ evs2). split; [by eapply extends_trans|by apply Forall_app].
Qed.

Lemma sound_ok w w' : sound w w' → world_ok w'.
Proof. by intros (? & _). Qed.

Lemma sound_silent w w' :
  world_ok w' → env_step w w' → w_trace w' = w_trace w →
  sound w w'.
Proof. intros. split_and!; [done..|]. exists []. split; [by apply extends_nil|done]. Qed.

Lemma sound_event w w' ev :
  world_ok w' → env_step w w' → extends w w' [ev] → ev_live ev →
  sound w w'.
Proof. intros. split_and!; [done..|]. exists [ev]. split; [done|by constructor]. Qed.

Lemma same_env w w' : w_env w' = w_env w → env_step w w'.
Proof. intros E. exists 0. by rewrite E, drop_0, e_set_alloc_id. Qed.

Lemma alloc_next_env w : env_step w (w_alloc_next w).
Proof. exists 1. by destruct w as [[? ? ? ? ? ? ? ? ? ? [|] ? ? ?] ? ? ? ?]. Qed.

(** Allocation never fails from here on. *)
Definition plenty (w : World) : Prop := Forall (λ b, b = true) (e_alloc (w_env w)).

Lemma plenty_alloc_ok w : plenty w → alloc_ok w = true.
Proof. unfold plenty, alloc_ok. by intros [|b l ->]. Qed.

Lemma plenty_step w w' : env_step w w' → plenty w → plenty w'.
Proof. intros [k E] H. unfold plenty. rewrite E. simpl. by apply Forall_drop. Qed.

Lemma sound_alloc_next w w' : sound w w' → sound w (w_alloc_next w').
Proof.
  intros H. apply (sound_trans _ w'); [done|]. apply sound_ok in H.
  apply sound_silent; [auto with server|apply alloc_next_env|done].
Qed.
Lemma sound_new_block w w' : sound w w' → sound w (w_new_block w').
Proof.
  intros H. apply (sound_trans _ w'); [done|]. apply sound_ok in H.
  apply sound_silent; [auto with server|by apply same_env|done].
Qed.
Lemma sound_drop_block b w w' : sound w w' → sound w (w_drop_block b w').
Proof.
  intros H. apply (sound_trans _ w'); [done|]. apply sound_ok in H.
  apply sound_silent; [auto with server|by apply same_env|done].
Qed.
Lemma sound_open s w w' : sound w w' → sound w (w_open s w').
Proof.
  intros H. apply (sound_trans _ w'); [done|]. apply sound_ok in H.
  apply sound_silent; [auto with server|by apply same_env|done].
Qed.
Lemma sound_emit ev w w' : ev_live ev → sound w w' → sound w (w_emit ev w').
Proof.
  intros Hev H. apply (sound_trans _ w'); [done|]. apply sound_ok in H.
  eapply sound_event; [auto with server|by apply same_env|done|done].
Qed.
Lemma sound_fclose f w w' :
  is_Some (w_files w' !! f) → sound w w' → sound w (w_fclose f w').
Proof.
  intros Hf H. apply (sound_trans _ w'); [done|]. apply sound_ok in H.
  eapply sound_event; [auto with server|by apply same_env|done|].
  simpl. by rewrite bool_decide_true.
Qed.
Lemma sound_closedir f w w' :
  is_Some (w_files w' !! f) → sound w w' → sound w (w_closedir f w').
Proof.
  intros Hf H. apply (sound_trans _ w'); [done|]. apply sound_ok in H.
  eapply sound_event; [auto with server|by apply same_env|done|].
  simpl. by rewrite bool_decide_true.
Qed.
Lemma sound_free b w w' : b ∈ w_blocks w' → sound w w' → sound w (w_free b w').
Proof.
  intros Hb H. apply (sound_trans _ w'); [done|]. apply sound_ok in H.
  eapply sound_event; [auto with server|by apply same_env|done|].
  simpl. by rewrite bool_decide_true.
Qed.

#[export] Hint Resolve sound_refl sound_alloc_next sound_new_block sound_drop_block
  sound_open : server.

(** A memory stream opened and its buffer allocated. *)
Definition w_memstream (w : World) : World :=
  w_new_block (w_open (mkStream None []) (w_alloc_next w)).

Lemma open_memstream_eq w :
  open_memstream w =
  if alloc_ok w then (Ret (Some (w_next w, S (w_next w))), w_memstream w)
  else (Ret None, w_alloc_next w).
Proof. done. Qed.

(** Several allocations. *)
Definition w_allocs (n : nat) (w : World) : World :=
  w_set_env (e_set_alloc (drop n (e_alloc (w_env w))) (w_env w)) w.

Lemma allocs_0 w : w_allocs 0 w = w.
Proof. unfold w_allocs. rewrite drop_0, e_set_alloc_id. by destruct w. Qed.
Lemma allocs_S n w : w_allocs n (w_alloc_next w) = w_allocs (S n) w.
Proof. unfold w_allocs, w_alloc_next, e_set_alloc, w_set_env. simpl. by destruct (e_alloc (w_env w)); simpl; rewrite ?drop_nil. Qed.
Lemma allocs_1 w : w_alloc_next w = w_allocs 1 w.
Proof. by rewrite <-allocs_S, allocs_0. Qed.
Lemma allocs_allocs n m w : w_allocs n (w_allocs m w) = w_allocs (m + n) w.
Proof. unfold w_allocs, e_set_alloc, w_set_env. simpl. by rewrite drop_drop. Qed.
Lemma sound_allocs n w w' : sound w w' → sound w (w_allocs n w').
Proof.
  intros H. apply (sound_trans _ w'); [done|]. apply sound_ok in H.
  apply sound_silent; [by apply world_ok_set_env|by exists n|done].
Qed.
#[export] Hint Resolve sound_allocs : server.

(** Several texts printed to a memory stream. *)
Fixpoint stores (w : World) (buf : bytes) (texts : list bytes) : bytes :=
  match texts with
  | [] => buf
  | t :: ts => stores (w_alloc_next w) (stored w buf t) ts
  end.

(** What a memory stream holds is not touched, and when memory does not run out it
    stores everything. *)
Lemma stores_more w buf texts : buf `prefix_of` stores w buf texts.
Proof.
  revert w buf. induction texts as [|t ts IH]; intros w buf; simpl; [done|].
  etransitivity; [|apply IH]. by eexists.
Qed.

Lemma stores_env w w' buf texts : w_env w = w_env w' → stores w buf texts = stores w' buf texts.
Proof.
  revert w w' buf. induction texts as [|t ts IH]; intros w w' buf E; simpl; [done|].
  unfold stored, alloc_ok. rewrite E. apply IH. simpl. by rewrite E.
Qed.

Lemma plenty_alloc_next w : plenty w → plenty (w_alloc_next w).
Proof. apply plenty_step, alloc_next_env. Qed.
#[export] Hint Resolve plenty_alloc_next : server.

Lemma stores_plenty w buf texts : plenty w → stores w buf texts = buf ++ concat texts.
Proof.
  revert w buf. induction texts as [|t ts IH]; intros w buf Hp; simpl; [by rewrite app_nil_r|].
  rewrite IH by auto with server. unfold stored. by rewrite plenty_alloc_ok, <-app_assoc.
Qed.

Lemma sound_memstream w w' : sound w w' → sound w (w_memstream w').
Proof. unfold w_memstream. auto with server. Qed.
#[export] Hint Resolve sound_memstream : server.

(** Closing the memory stream right after leaves the stream table as it was; its
    buffer stays. *)
Lemma memstream_closed_files w :
  world_ok w → w_files (w_fclose (w_next w) (w_memstream w)) = w_files w.
Proof. intros H. simpl. by rewrite delete_insert_id by auto with server. Qed.

Lemma memstream_stream w : is_Some (w_files (w_memstream w) !! w_next w).
Proof. simpl. rewrite lookup_insert_eq. eauto. Qed.
#[export] Hint Resolve memstream_stream : server.

(** ** Steps of the event loop *)

(** A block freed is live; streams are not constrained. *)
Definition free_live (ev : event) : Prop :=
  match ev with EvFree _ live => live = true | _ => True end.

(** Two environments with the same clock, files, directories and programs, the
    second of which may have fewer connections waiting and fewer results of send
    queued. *)
Definition same_outside (e e' : Environment) : Prop :=
  (e_now e' = e_now e ∧ e_fopen e' = e_fopen e ∧ e_opendir e' = e_opendir e ∧ e_cgi e' = e_cgi e)
  ∧ (∀ x, ∃ k, e_accept e' x = drop k (e_accept e x))
  ∧ ∀ x, ∃ k, e_send e' x = drop k (e_send e x).

Lemma queue_same {A} (q q' : Z → list A) : q' = q → ∀ x, ∃ k, q' x = drop k (q x).
Proof. intros -> x. exists 0. by rewrite drop_0. Qed.
Lemma queue_trans {A} (q1 q2 q3 : Z → list A) :
  (∀ x, ∃ k, q2 x = drop k (q1 x)) → (∀ x, ∃ k, q3 x = drop k (q2 x)) →
  ∀ x, ∃ k, q3 x = drop k (q1 x).
Proof.
  intros H1 H2 x. destruct (H1 x) as [k1 E1], (H2 x) as [k2 E2]. exists (k1 + k2).
  by rewrite E2, E1, drop_drop.
Qed.
Lemma queue_taken {A} (q : Z → list A) fd r l :
  q fd = r :: l → ∀ x, ∃ k, (if decide (x = fd) then l else q x) = drop k (q x).
Proof.
  intros E x. case_decide as Hx; [exists 1; subst; by rewrite E|exists 0; by rewrite drop_0].
Qed.
#[export] Hint Resolve queue_same queue_taken : server.

Lemma same_outside_eq e e' :
  (e_now e' = e_now e ∧ e_fopen e' = e_fopen e ∧ e_opendir e' = e_opendir e ∧ e_cgi e' = e_cgi e) →
  e_accept e' = e_accept e → e_send e' = e_send e → same_outside e e'.
Proof. intros H E1 E2. split; [done|]. auto with server. Qed.
Lemma same_refl e : same_outside e e.
Proof. by apply same_outside_eq. Qed.
Lemma same_alloc q e : same_outside e (e_set_alloc q e).
Proof. by apply same_outside_eq. Qed.
Lemma same_recv fd q e : same_outside e (e_set_recv fd q e).
Proof. by apply same_outside_eq. Qed.
Lemma same_send fd q r e : e_send e fd = r :: q → same_outside e (e_set_send fd q e).
Proof. intros E. split; [done|]. split; [auto with server|exact (queue_taken _ _ _ _ E)]. Qed.
Lemma same_accept fd q r e : e_accept e fd = r :: q → same_outside e (e_set_accept fd q e).
Proof. intros E. split; [done|]. split; [exact (queue_taken _ _ _ _ E)|auto with server]. Qed.
Lemma same_trans e1 e2 e3 : same_outside e1 e2 → same_outside e2 e3 → same_outside e1 e3.
Proof.
  intros [(S1 & S2 & S3 & S4) [A1 B1]] [(T1 & T2 & T3 & T4) [A2 B2]].
  split; [split_and!; congruence|]. split; by eapply queue_trans.
Qed.
#[export] Hint Resolve same_refl same_alloc same_recv same_send same_accept : server.

(** Some allocations were made and queued results taken, nothing else. *)
Definition alloc_step (w w' : World) : Prop :=
  (∃ k, e_alloc (w_env w') = drop k (e_alloc (w_env w))) ∧ same_outside (w_env w) (w_env w').

Lemma alloc_same w w' :
  e_alloc (w_env w') = e_alloc (w_env w) → same_outside (w_env w) (w_env w') → alloc_step w w'.
Proof. intros E S. split; [|done]. exists 0. by rewrite E, drop_0. Qed.

Lemma alloc_step_env w w' : w_env w' = w_env w → alloc_step w w'.
Proof. intros E. apply alloc_same; rewrite E; auto with server. Qed.

Lemma plenty_alloc_step w w' : alloc_step w w' → plenty w → plenty w'.
Proof. intros [[k E] _] H. unfold plenty. rewrite E. by apply Forall_drop. Qed.

(** A step that leaves identities fresh and frees only live blocks. *)
Definition calm (w w' : World) : Prop :=
  world_ok w' ∧ alloc_step w w' ∧ ∃ evs, extends w w' evs ∧ Forall free_live evs.

Lemma calm_refl w : world_ok w → calm w w.
Proof.
  intros H. split_and!; [done|by apply alloc_step_env|].
  exists []. split; [by apply extends_nil|done].
Qed.

Lemma calm_trans w1 w2 w3 : calm w1 w2 → calm w2 w3 → calm w1 w3.
Proof.
  intros (_ & [[k1 A1] S1] & e1 & H1 & L1) (O & [[k2 A2] S2] & e2 & H2 & L2).
  split; [done|]. split.
  - split; [exists (k1 + k2); by rewrite A2, A1, drop_drop|by eapply same_trans].
  - exists (e1 ++ e2). split; [by eapply extends_trans|by apply Forall_app].
Qed.

Lemma calm_ok w w' : calm w w' → world_ok w'.
Proof. by intros [? _]. Qed.

Lemma calm_plenty w w' : calm w w' → plenty w → plenty w'.
Proof. intros (_ & A & _). by apply plenty_alloc_step. Qed.

Lemma sound_calm w w' : sound w w' → calm w w'.
Proof.
  intros (O & [k E] & evs & H & L). split; [done|]. split.
  { split; [exists k; by rewrite E|rewrite E; auto with server]. }
  exists evs. split; [done|]. eapply Forall_impl; [exact L|]. by intros [].
Qed.

Lemma calm_silent w w' w'' :
  calm w w' → world_ok w'' → alloc_step w' w'' → w_trace w'' = w_trace w' → calm w w''.
Proof.
  intros H O A E. eapply calm_trans; [exact H|]. split; [done|]. split; [done|].
  exists []. split; [by apply extends_nil|done].
Qed.

Lemma calm_event w w' w'' ev :
  calm w w' → world_ok w'' → alloc_step w' w'' → extends w' w'' [ev] → free_live ev → calm w w''.
Proof.
  intros H O A E L. eapply calm_trans; [exact H|]. split; [done|]. split; [done|].
  exists [ev]. auto.
Qed.

Lemma calm_set_env e w w' :
  e_alloc e = e_alloc (w_env w') → same_outside (w_env w') e →
  calm w w' → calm w (w_set_env e w').
Proof.
  intros E S H. eapply calm_silent; [done|apply world_ok_set_env; by eapply calm_ok| |done].
  by apply alloc_same.
Qed.
Lemma calm_alloc_next w w' : calm w w' → calm w (w_alloc_next w').
Proof.
  intros H. eapply calm_silent; [done|apply world_ok_alloc_next; by eapply calm_ok| |done].
  destruct (alloc_next_env w') as [k E]. split; [exists k; by rewrite E|rewrite E; auto with server].
Qed.
Lemma calm_new_block w w' : calm w w' → calm w (w_new_block w').
Proof.
  intros H. eapply calm_silent;
    [done|apply world_ok_new_block; by eapply calm_ok|by apply alloc_step_env|done].
Qed.
Lemma calm_drop_block b w w' : calm w w' → calm w (w_drop_block b w').
Proof.
  intros H. eapply calm_silent;
    [done|apply world_ok_drop_block; by eapply calm_ok|by apply alloc_step_env|done].
Qed.
Lemma calm_emit ev w w' : free_live ev → calm w w' → calm w (w_emit ev w').
Proof.
  intros L H. eapply calm_event;
    [done|apply world_ok_emit; by eapply calm_ok|by apply alloc_step_env|done|done].
Qed.
Lemma calm_fclose f w w' : calm w w' → calm w (w_fclose f w').
Proof.
  intros H. eapply calm_event;
    [done|apply world_ok_fclose; by eapply calm_ok|by apply alloc_step_env|done|done].
Qed.
Lemma calm_free b w w' : b ∈ w_blocks w' → calm w w' → calm w (w_free b w').
Proof.
  intros Hb H. eapply calm_event;
    [done|apply world_ok_free; by eapply calm_ok|by apply alloc_step_env|done|].
  simpl. by rewrite bool_decide_true.
Qed.
#[export] Hint Extern 0 (free_live _) => exact I : server.
#[export] Hint Resolve calm_refl calm_new_block calm_drop_block calm_fclose calm_alloc_next
  calm_emit calm_free : server.

Lemma malloc_run w :
  world_ok w →
  ∃ p w', malloc w = (Ret p, w') ∧ calm w w'
    ∧ match p with
      | Some b => b = w_next w ∧ w' = w_new_block (w_alloc_next w)
      | None => ¬ plenty w
      end.
Proof.
  intros Hw. unfold malloc. destruct (alloc_ok w) eqn:Ha; do 2 eexists;
    (split; [reflexivity|]; split; [auto with server|]); [done|].
  intros Hp%plenty_alloc_ok. congruence.
Qed.

(** ** Runs that do not crash *)

(** The two ways the process fails: exit(EXIT_FAILURE), and SIGPIPE for a peer that has
    gone. *)
Definition peer_gone (w : World) : Prop := ∃ x, SendErr EPIPE ∈ e_send (w_env w) x.
Definition failure (w : World) (code : Z) : Prop :=
  code = EXIT_FAILURE ∨ code = SIGPIPE_STATUS ∧ peer_gone w.

Lemma failure_exit w : failure w EXIT_FAILURE.
Proof. by left. Qed.
#[export] Hint Resolve failure_exit : core.

Lemma failure_before w w1 c : calm w w1 → failure w1 c → failure w c.
Proof.
  intros (_ & [_ [_ [_ Hs]]] & _) [->|[-> [x Hx]]]; [by left|right]. split; [done|]. exists x.
  destruct (Hs x) as [k E]. rewrite E in Hx.
  rewrite <-(take_drop k (e_send (w_env w) x)). apply elem_of_app. by right.
Qed.

(** The computation ended by returning, with [P], or by a failure for a reason in [X];
    it did not crash and did not run out of fuel. *)
Definition safe {A} (X : Prop) (w : World) (r : outcome A * World) (P : A → World → Prop) : Prop :=
  match r with
  | (Ret a, w') => calm w w' ∧ P a w'
  | (Exit c, w') => calm w w' ∧ failure w c ∧ X
  | _ => False
  end.

Lemma safe_ret {A} X w w' (a : A) (P : A → World → Prop) :
  calm w w' → P a w' → safe X w ((mret a : M A) w') P.
Proof. done. Qed.

Lemma safe_weaken {A} (X Y : Prop) w w1 r (P Q : A → World → Prop) :
  calm w w1 → (X → Y) → (∀ a w', calm w w' → P a w' → Q a w') → safe X w1 r P → safe Y w r Q.
Proof.
  intros H HX HP. destruct r as [[a|c| |] w']; simpl; [| |done..].
  - intros [Hc Hp]. assert (calm w w') by (by eapply calm_trans). auto.
  - intros (Hc & Hf & HX'). split_and!; [by eapply calm_trans|by eapply failure_before|auto].
Qed.

Lemma safe_bind {A C} X w w1 (m : M A) (k : A → M C) (P : A → World → Prop) (Q : C → World → Prop) :
  safe X w (m w1) P → (∀ a w', calm w w' → P a w' → safe X w (k a w') Q) →
  safe X w ((m ≫= k) w1) Q.
Proof.
  intros Hm Hk. run. destruct (m w1) as [[a|c| |] w']; simpl in *; [|done..].
  destruct Hm as [Hc Hp]. auto.
Qed.

Lemma safe_total {A} (X : Prop) w r (P : A → World → Prop) :
  ¬ X → safe X w r P → ∃ a w', r = (Ret a, w') ∧ calm w w' ∧ P a w'.
Proof. intros HX. destruct r as [[a|c| |] w']; simpl; naive_solver. Qed.
