(* ===== verification/Effects.v ===== *)
(** * Effects: what a computation may do to the world outside

    A judgement on computations of the server's monad, with one rule per call and
    per construct: which actions a computation may show, which sockets it may use,
    and what holds of the value it returns, in every world and however it ends. *)

From S2P Require Import Prelude CLib Types OS.

Create HintDb effects.

(** The actions allowed, the sockets whose queues may be used, and the listeners
    connections may be accepted from. *)
Record effects := mkEffects { shows : event → Prop; uses : Z → Prop; takes : Z → Prop }.

(** The clock, the users, the files and the programs. *)
Definition same_machine (e e' : Environment) : Prop :=
  e_now e' = e_now e ∧ e_euid e' = e_euid e ∧ e_stat e' = e_stat e
  ∧ e_append_ok e' = e_append_ok e ∧ e_fopen e' = e_fopen e ∧ e_opendir e' = e_opendir e
  ∧ e_cgi e' = e_cgi e.

(** The queues of a socket. *)
Definition same_socket (x : Z) (e e' : Environment) : Prop :=
  e_recv e' x = e_recv e x ∧ e_send e' x = e_send e x ∧ e_accept e' x = e_accept e x.

(** The bytes queued on a socket, whatever cuts and errors come between them. *)
Definition queued_bytes (q : list recv_result) : bytes :=
  q ≫= λ r, match r with RecvData d => d | RecvErr _ => [] end.

Record stays (E : effects) (w w' : World) : Prop := {
  sy_shows : ∃ evs, extends w w' evs ∧ Forall (shows E) evs;
  sy_machine : same_machine (w_env w) (w_env w');
  sy_socket : ∀ x, ¬ uses E x → same_socket x (w_env w) (w_env w');
  sy_accept : ∀ x, ¬ takes E x → e_accept (w_env w') x = e_accept (w_env w) x;
  sy_queued : ∀ x, queued_bytes (e_recv (w_env w') x) `suffix_of` queued_bytes (e_recv (w_env w) x)
}.

(** [m] has effects in [E] and returns only values of [Q]. *)
Definition does {A} (E : effects) (m : M A) (Q : A → Prop) : Prop :=
  ∀ w, stays E w (m w).2 ∧ match (m w).1 with Ret a => Q a | _ => True end.

(** Fewer effects. *)
#[export] Instance effects_sub : SubsetEq effects := λ E F,
  (∀ ev, shows E ev → shows F ev) ∧ (∀ x, uses E x → uses F x) ∧ (∀ x, takes E x → takes F x).

#[export] Instance effects_sub_preorder : PreOrder (⊆@{effects}).
Proof. split; [by intros E|]. intros E F G (H1 & H2 & H3) (H4 & H5 & H6). split_and!; auto. Qed.

(** * Lemmas *)

Lemma stays_refl E w : stays E w w.
Proof. constructor; [exists []; split; [by apply extends_nil|done]|done..]. Qed.

Lemma stays_trans E w1 w2 w3 : stays E w1 w2 → stays E w2 w3 → stays E w1 w3.
Proof.
  intros [(e1 & X1 & F1) M1 S1 A1 Q1] [(e2 & X2 & F2) M2 S2 A2 Q2]. constructor.
  - exists (e1 ++ e2). split; [by eapply extends_trans|by apply Forall_app].
  - unfold same_machine in *. repeat match goal with H : _ ∧ _ |- _ => destruct H end.
    split_and!; congruence.
  - intros x Hx. destruct (S1 x Hx) as (?&?&?), (S2 x Hx) as (?&?&?). split_and!; congruence.
  - intros x Hx. by rewrite A2, A1.
  - intros x. by etransitivity; [apply Q2|].
Qed.

Lemma stays_mono E F w w' : E ⊆ F → stays E w w' → stays F w w'.
Proof.
  intros (Hs & Hu & Ht) [(evs & X & HF) HM HS HA HQ]. constructor; [|done|auto|auto|done].
  exists evs. split; [done|]. by eapply Forall_impl.
Qed.

(** A step that shows nothing and leaves the environment's queues alone. *)
Lemma stays_silent E w w' :
  w_trace w' = w_trace w → same_machine (w_env w) (w_env w') →
  (∀ x, same_socket x (w_env w) (w_env w')) → stays E w w'.
Proof.
  intros Ht Hm Hs. constructor; [|done|auto| |].
  - exists []. split; [by apply extends_nil|done].
  - intros x _. apply Hs.
  - intros x. by destruct (Hs x) as [-> _].
Qed.

Lemma stays_event E w w' ev :
  extends w w' [ev] → shows E ev → w_env w' = w_env w → stays E w w'.
Proof.
  intros X S He. constructor; [exists [ev]; auto|by rewrite He..].
Qed.

(** ** Rules *)

Section rules.
Context (E : effects).

Lemma does_ret {A} (a : A) (Q : A → Prop) : Q a → does E (mret a : M A) Q.
Proof. intros H w. split; [apply stays_refl|done]. Qed.

Lemma does_bind {A C} (m : M A) (k : A → M C) P Q :
  does E m P → (∀ a, P a → does E (k a) Q) → does E (m ≫= k) Q.
Proof.
  intros Hm Hk w. destruct (Hm w) as [S H]. run.
  destruct (m w) as [[a|c| |] w1]; simpl in *; [|done..].
  destruct (Hk a H w1) as [S2 H2]. split; [by eapply stays_trans|done].
Qed.

Lemma does_mono {A} F (m : M A) (P Q : A → Prop) :
  F ⊆ E → (∀ a, P a → Q a) → does F m P → does E m Q.
Proof.
  intros HF HQ H w. destruct (H w) as [S HP]. split; [by eapply stays_mono|].
  destruct (m w).1; auto.
Qed.

Lemma does_exit {A} c (Q : A → Prop) : does E (exit c) Q.
Proof. intros w. split; [apply stays_refl|done]. Qed.
Lemma does_crash {A} (Q : A → Prop) : does E crash Q.
Proof. intros w. split; [apply stays_refl|done]. Qed.
Lemma does_no_fuel {A} (Q : A → Prop) : does E no_fuel Q.
Proof. intros w. split; [apply stays_refl|done]. Qed.
Lemma does_get : does E get (λ _, True).
Proof. intros w. split; [apply stays_refl|done]. Qed.

(** Nothing but the value matters of a call that changes nothing outside. *)
Lemma does_silent {A} (m : M A) (Q : A → Prop) :
  (∀ w, w_trace (m w).2 = w_trace w ∧ same_machine (w_env w) (w_env (m w).2)
        ∧ (∀ x, same_socket x (w_env w) (w_env (m w).2))
        ∧ match (m w).1 with Ret a => Q a | _ => True end) → does E m Q.
Proof. intros H w. destruct (H w) as (? & ? & ? & ?). split; [by apply stays_silent|done]. Qed.

Lemma does_malloc : does E malloc (λ _, True).
Proof. apply does_silent. intros w. unfold malloc. by destruct (alloc_ok w). Qed.
Lemma does_realloc p : does E (realloc p) (λ _, True).
Proof. apply does_silent. intros w. unfold realloc. by destruct (alloc_ok w), p. Qed.
Lemma does_open_memstream : does E open_memstream (λ _, True).
Proof. apply does_silent. intros w. unfold open_memstream. by destruct (alloc_ok w). Qed.
Lemma does_stream_write buf text : does E (stream_write buf text) (λ _, True).
Proof. by apply does_silent. Qed.
Lemma does_fopen n : does E (fopen n) (λ _, True).
Proof. apply does_silent. intros w. unfold fopen. by destruct (e_fopen (w_env w) n). Qed.
Lemma does_opendir n : does E (opendir n) (λ _, True).
Proof. apply does_silent. intros w. unfold opendir. by destruct (e_opendir (w_env w) n). Qed.
Lemma does_fopen_append n : does E (fopen_append n) (λ _, True).
Proof. apply does_silent. intros w. unfold fopen_append. by destruct (e_append_ok (w_env w) n). Qed.
Lemma does_fstat f : does E (fstat f) (λ _, True).
Proof. by apply does_silent. Qed.
Lemma does_stat_path n : does E (stat_path n) (λ _, True).
Proof. by apply does_silent. Qed.
Lemma does_geteuid : does E geteuid (λ _, True).
Proof. by apply does_silent. Qed.
Lemma does_time : does E time (λ _, True).
Proof. by apply does_silent. Qed.
Lemma does_fread n p : does E (fread n p) (λ _, True).
Proof.
  apply does_silent. intros w. unfold fread. destruct p as [f|]; [|done].
  by destruct (w_files w !! f).
Qed.

Lemma does_emit ev : shows E ev → does E (emit ev) (λ _, True).
Proof. intros S w. split; [by eapply stays_event|done]. Qed.
Lemma does_free p : (∀ b live, shows E (EvFree b live)) → does E (free p) (λ _, True).
Proof.
  intros S w. split; [|done]. destruct p as [b|]; [by eapply stays_event|apply stays_refl].
Qed.
Lemma does_fclose f : (∀ f live, shows E (EvFclose f live)) → does E (fclose f) (λ _, True).
Proof. intros S w. split; [by eapply stays_event|done]. Qed.
Lemma does_closedir d : (∀ d live, shows E (EvClosedir d live)) → does E (closedir d) (λ _, True).
Proof. intros S w. split; [by eapply stays_event|done]. Qed.

Lemma recv_queued fd size w x :
  queued_bytes (e_recv (w_env (recv fd size w).2) x) `suffix_of` queued_bytes (e_recv (w_env w) x).
Proof.
  unfold recv. destruct (e_recv (w_env w) fd) as [|[d|e] q] eqn:Hq; [done|..]; simpl;
    destruct (decide (x = fd)) as [->|Hx]; try done; rewrite Hq; csimpl.
  - exists (take size d). rewrite <-(take_drop size d) at 1. rewrite <-app_assoc.
    by destruct (drop size d).
  - by exists [].
Qed.
Lemma does_recv fd size : uses E fd → does E (recv fd size) (λ _, True).
Proof.
  intros U w. split; [|by destruct ((recv fd size w).1)]. unfold recv.
  destruct (e_recv (w_env w) fd) as [|[d|e] q] eqn:Hq; [apply stays_refl|..].
  all: constructor; [exists []; split; [by apply extends_nil|done]|done| |done|].
  2,4: intros x; pose proof (recv_queued fd size w x) as Hr; unfold recv in Hr; by rewrite Hq in Hr.
  all: intros x Hx; split_and!; [|done..]; simpl; case_decide; [by subst|done].
Qed.
Lemma does_send fd d : uses E fd → (∀ d, shows E (EvSend fd d)) → does E (send fd d) (λ _, True).
Proof.
  intros U S w. split; [|by destruct ((send fd d w).1)]. unfold send.
  destruct (e_send (w_env w) fd) as [|[n|e] q]; [by eapply stays_event|..].
  all: constructor; [|done|intros x Hx; split_and!; [done| |done]; simpl; case_decide; [by subst|done]|done..].
  - exists [EvSend fd (take n d)]. split; [done|by repeat constructor].
  - exists []. split; [by apply extends_nil|done].
Qed.
Lemma does_accept fd : uses E fd → takes E fd → does E (accept fd) (λ _, True).
Proof.
  intros U T w. split; [|by destruct ((accept fd w).1)]. unfold accept.
  destruct (e_accept (w_env w) fd) as [|r q]; [apply stays_refl|].
  constructor; [exists []; split; [by apply extends_nil|done]|done| | |done].
  - intros x Hx. split_and!; [done..|]. simpl. case_decide; [by subst|done].
  - intros x Hx. simpl. case_decide; [by subst|done].
Qed.
End rules.

#[export] Hint Resolve does_exit does_crash does_no_fuel does_malloc does_realloc
  does_open_memstream does_stream_write does_fopen does_opendir does_fopen_append does_fstat does_stat_path
  does_geteuid does_get does_time does_fread does_free does_fclose does_closedir does_recv does_send
  does_accept does_emit : effects.
#[export] Hint Extern 0 (shows _ _) => simpl; tauto : effects.
#[export] Hint Extern 0 (∀ _, shows _ _) => simpl; tauto : effects.
#[export] Hint Extern 0 (∀ _ _, shows _ _) => simpl; tauto : effects.

(** Apply the rules along the code. A call whose value does not matter is closed
    from the database; what is left are the values returned. *)
Ltac does_step :=
  lazymatch goal with
  | |- does _ (mret _) _ => apply does_ret
  | |- does _ (_ ≫= _) _ => eapply does_bind; [solve [eauto with effects]|intros ? ?; cbv beta]
  | |- True => exact I
  | |- does _ (if decide ?P then _ else _) _ => destruct (decide P)
  | |- does _ (if ?b then _ else _) _ => destruct b eqn:?
  | |- does _ (match ?x with _ => _ end) _ => destruct x eqn:?
  | |- does _ (let '(_, _) := ?x in _) _ => destruct x eqn:?
  | |- does _ _ _ => solve [eauto with effects]
  end.
Ltac does_auto := repeat (does_step; cbv zeta beta).
