(* ===== verification/Heap.v ===== *)
(** * Heap: what a computation may leave allocated

    Partial-correctness triples over the server's monad, and the assertion that the
    live heap blocks and the open streams are within given sets, but for blocks lost
    in exchange for runs of CGI programs. One rule per call that allocates or
    releases; everything else leaves the assertion alone. *)

From S2P Require Import Prelude CLib Types OS Effects.

Create HintDb heap.

(** ** Triples *)

(** From a world of [P], [m] returns only values and worlds of [Q]; the process may
    also end. *)
Definition triple {A} (P : World → Prop) (m : M A) (Q : A → World → Prop) : Prop :=
  ∀ w, P w → match m w with (Ret a, w') => Q a w' | _ => True end.

(** ** What is held *)

Definition is_exec (ev : event) : bool := match ev with EvExec _ => true | _ => false end.
Definition execs (evs : list event) : nat := length (filter (λ ev, is_exec ev = true) evs).

(** The block and the stream of an optional pointer. *)
Definition ids (p : option nat) : gset nat := list_to_set (option_list p).
#[global] Arguments ids : simpl never.

(** Blocks are within [U] and streams within [F], but for blocks lost to programs
    run since the trace had [base] of them; [k] of these have not been paid with a
    lost block. With [cgi] no stream is lost; without, no program is run. *)
Definition within (base : nat) (cgi : bool) (U F : gset nat) (k : nat) (w : World) : Prop :=
  ∃ L D, w_blocks w ⊆ U ∪ L ∧ base + size L + k ≤ execs (w_trace w)
    ∧ dom (w_files w) ⊆ F ∪ D ∧ (if cgi then D = ∅ else execs (w_trace w) = base).

(** * Lemmas *)

Lemma elem_of_ids x p : x ∈ ids p ↔ p = Some x.
Proof. unfold ids. destruct p; simpl; set_solver. Qed.
#[export] Instance set_unfold_ids x p : SetUnfoldElemOf x (ids p) (p = Some x).
Proof. constructor. apply elem_of_ids. Qed.
#[export] Instance set_unfold_ids_some x b : SetUnfoldElemOf x (ids (Some b)) (x = b).
Proof. constructor. rewrite elem_of_ids. naive_solver. Qed.
#[export] Instance set_unfold_ids_none x : SetUnfoldElemOf x (ids None) False.
Proof. constructor. rewrite elem_of_ids. naive_solver. Qed.

Lemma execs_app e1 e2 : execs (e1 ++ e2) = execs e1 + execs e2.
Proof. unfold execs. by rewrite filter_app, length_app. Qed.

Section rules.
Context (base : nat) (cgi : bool).
Abbreviation within := (within base cgi).

Lemma within_mono U F k U' F' k' w :
  U ⊆ U' → F ⊆ F' → k' ≤ k → within U F k w → within U' F' k' w.
Proof.
  intros HS HF Hk (L & D & H1 & H2 & H3 & H4). exists L, D. split_and!; [set_solver|lia|set_solver|done].
Qed.

(** A block is lost at the price of a credit. *)
Lemma within_lose b U F k w : within ({[b]} ∪ U) F (k + 1) w → within U F k w.
Proof.
  intros (L & D & H1 & H2 & H3 & H4). exists ({[b]} ∪ L), D.
  split_and!; [set_solver| |done|done].
  assert (size ({[b]} ∪ L) ≤ S (size L)) as Hs.
  { destruct (decide (b ∈ L)); [by rewrite subseteq_union_1_L by set_solver; lia|].
    by rewrite size_union, size_singleton by set_solver. }
  simpl in *. lia.
Qed.

(** A stream is lost where that is tolerated. *)
Lemma within_drop f U F k w : cgi = false → within U ({[f]} ∪ F) k w → within U F k w.
Proof.
  intros Hst (L & D & H1 & H2 & H3 & H4). exists L, ({[f]} ∪ D).
  rewrite Hst in *. split_and!; [done|done|set_solver|done].
Qed.

(** A step that allocates and runs nothing. *)
Lemma within_same U F k w w' evs :
  w_blocks w' ⊆ w_blocks w → dom (w_files w') ⊆ dom (w_files w) → extends w w' evs →
  execs evs = 0 → within U F k w → within U F k w'.
Proof.
  intros HB HD HX H0 (L & D & H1 & H2 & H3 & H4). exists L, D.
  unfold extends in HX. rewrite HX, execs_app, H0, Nat.add_0_r.
  split_and!; [set_solver|done|set_solver|done].
Qed.

(** *** Constructs *)

Lemma t_ret {A} (a : A) (P : World → Prop) (Q : A → World → Prop) :
  (∀ w, P w → Q a w) → triple P (mret a) Q.
Proof. intros H w HP. by apply H. Qed.

Lemma t_bind {A C} (m : M A) (k : A → M C) P Q R :
  triple P m Q → (∀ a, triple (Q a) (k a) R) → triple P (m ≫= k) R.
Proof.
  intros Hm Hk w HP. specialize (Hm w HP). run. destruct (m w) as [[a|c| |] w1]; try done.
  exact (Hk a w1 Hm).
Qed.

Lemma t_mono {A} (m : M A) (P P' : World → Prop) (Q Q' : A → World → Prop) :
  triple P m Q → (∀ w, P' w → P w) → (∀ a w, Q a w → Q' a w) → triple P' m Q'.
Proof.
  intros H HP HQ w Hw. specialize (H w (HP w Hw)). destruct (m w) as [[a|c| |] w1]; auto.
Qed.

(** A fact that does not depend on the world. *)
Lemma t_pure {A} (X : Prop) (P : World → Prop) (m : M A) Q :
  (X → triple P m Q) → triple (λ w, X ∧ P w) m Q.
Proof. intros H w [HX HP]. by apply H. Qed.

Lemma t_exit {A} c P (Q : A → World → Prop) : triple P (exit c) Q.
Proof. by intros w _. Qed.
Lemma t_crash {A} P (Q : A → World → Prop) : triple P crash Q.
Proof. by intros w _. Qed.
Lemma t_no_fuel {A} P (Q : A → World → Prop) : triple P no_fuel Q.
Proof. by intros w _. Qed.

(** *** Calls that hold and release nothing *)

(** The assertion is kept, whatever it is. *)
Definition quiet {A} (m : M A) : Prop := ∀ U F k, triple (within U F k) m (λ _, within U F k).

Lemma quiet_step {A} (m : M A) :
  (∀ w, w_blocks (m w).2 ⊆ w_blocks w ∧ dom (w_files (m w).2) ⊆ dom (w_files w)
        ∧ ∃ evs, extends w (m w).2 evs ∧ execs evs = 0) → quiet m.
Proof.
  intros H U F k w HW. destruct (H w) as (HB & HD & evs & HX & H0). destruct (m w) as [[a|c| |] w1]; try done.
  by eapply within_same.
Qed.

(** The common case: the world is the same, or differs in its environment or trace. *)
Ltac quiet_tac := apply quiet_step; intros ?w;
  repeat case_match; simpl; (split; [set_solver|split; [set_solver|]]);
  try (exists []; split; [by apply extends_nil|done]); eexists; (split; [done|]); try done.

Lemma quiet_ret {A} (a : A) : quiet (mret a).
Proof. intros U F k. by apply t_ret. Qed.
Lemma quiet_bind {A C} (m : M A) (k : A → M C) : quiet m → (∀ a, quiet (k a)) → quiet (m ≫= k).
Proof. intros Hm Hk U F n. eapply t_bind; [apply Hm|]. intros a. apply Hk. Qed.
Lemma quiet_exit {A} c : quiet (exit c : M A).
Proof. intros U F k. apply t_exit. Qed.
Lemma quiet_crash {A} : quiet (crash : M A).
Proof. intros U F k. apply t_crash. Qed.
Lemma quiet_no_fuel {A} : quiet (no_fuel : M A).
Proof. intros U F k. apply t_no_fuel. Qed.
Lemma quiet_get : quiet get.
Proof. unfold get. quiet_tac. Qed.
Lemma quiet_emit ev : is_exec ev = false → quiet (emit ev).
Proof. intros Hev. unfold emit. quiet_tac. by destruct ev. Qed.
Lemma quiet_close fd : quiet (close fd).
Proof. by apply quiet_emit. Qed.
Lemma quiet_shutdown fd : quiet (shutdown_wr fd).
Proof. by apply quiet_emit. Qed.
Lemma quiet_stat n : quiet (stat_path n).
Proof. unfold stat_path. quiet_tac. Qed.
Lemma quiet_fstat f : quiet (fstat f).
Proof. unfold fstat. quiet_tac. Qed.
Lemma quiet_euid : quiet geteuid.
Proof. unfold geteuid. quiet_tac. Qed.
Lemma quiet_time : quiet time.
Proof. unfold time. quiet_tac. Qed.
Lemma quiet_recv fd n : quiet (recv fd n).
Proof. unfold recv. quiet_tac. Qed.
Lemma quiet_send fd d : quiet (send fd d).
Proof. unfold send. quiet_tac. Qed.
Lemma quiet_accept fd : quiet (accept fd).
Proof. unfold accept. quiet_tac. Qed.
Lemma quiet_free p : quiet (free p).
Proof. unfold free. quiet_tac. Qed.
Lemma quiet_fclose f : quiet (fclose f).
Proof. unfold fclose. quiet_tac. Qed.
Lemma quiet_closedir d : quiet (closedir d).
Proof. unfold closedir. quiet_tac. Qed.
Lemma quiet_stream_write buf text : quiet (stream_write buf text).
Proof. unfold stream_write. quiet_tac. Qed.
Lemma quiet_fread n p : quiet (fread n p).
Proof.
  apply quiet_step. intros w. unfold fread. repeat case_match; simpl; (split; [set_solver|]);
    (split; [|exists []; split; [by apply extends_nil|done]]); try done. unfold w_advance. simpl. by rewrite dom_alter_L.
Qed.

(** *** Calls that allocate and release *)

Lemma ids_some b : ids (Some b) = {[b]}.
Proof. unfold ids. simpl. set_solver. Qed.
Lemma ids_none : ids None = ∅.
Proof. done. Qed.

Section calls.
Context (U F : gset nat) (k : nat).

(** A call that shows nothing that counts, given the sets it leaves. *)
Lemma held_step U' F' w w' :
  w_trace w' = w_trace w →
  (∀ L D, w_blocks w ⊆ U ∪ L → dom (w_files w) ⊆ F ∪ D →
     w_blocks w' ⊆ U' ∪ L ∧ dom (w_files w') ⊆ F' ∪ D) →
  within U F k w → within U' F' k w'.
Proof.
  intros HX H (L & D & H1 & H2 & H3 & H4). destruct (H L D H1 H3) as [H5 H6].
  exists L, D. by rewrite HX.
Qed.

Lemma t_malloc : triple (within U F k) malloc (λ p, within (ids p ∪ U) F k).
Proof.
  intros w HW. unfold malloc. destruct (alloc_ok w); (eapply (held_step _ _ w); [done| |exact HW]); simpl;
    intros L D HB HD; rewrite ?ids_some, ?ids_none; set_solver.
Qed.

Lemma t_realloc p :
  triple (within U F k) (realloc p)
    (λ r, within (match r with Some b => {[b]} ∪ (U ∖ ids p) | None => U end) F k).
Proof.
  intros w HW. unfold realloc. destruct (alloc_ok w), p; (eapply (held_step _ _ w); [done| |exact HW]);
    simpl; intros L D HB HD; rewrite ?ids_some, ?ids_none; set_solver.
Qed.

Lemma t_memstream :
  triple (within U F k) open_memstream
    (λ r, match r with
          | Some (f, b) => within ({[b]} ∪ U) ({[f]} ∪ F) k
          | None => within U F k
          end).
Proof.
  intros w HW. unfold open_memstream. destruct (alloc_ok w); (eapply (held_step _ _ w); [done| |exact HW]);
    simpl; intros L D HB HD; rewrite ?dom_insert_L; set_solver.
Qed.

Lemma t_fopen n :
  triple (within U F k) (fopen n)
    (λ r, within U (match r with inr f => {[f]} ∪ F | inl _ => F end) k).
Proof.
  intros w HW. unfold fopen. destruct (e_fopen (w_env w) n); (eapply (held_step _ _ w); [done| |exact HW]);
    simpl; intros L D HB HD; rewrite ?dom_insert_L; set_solver.
Qed.

Lemma t_fopen_append n : triple (within U F k) (fopen_append n) (λ p, within U (ids p ∪ F) k).
Proof.
  intros w HW. unfold fopen_append. destruct (e_append_ok (w_env w) n);
    (eapply (held_step _ _ w); [done| |exact HW]); simpl; intros L D HB HD;
    rewrite ?dom_insert_L, ?ids_some, ?ids_none; set_solver.
Qed.

Lemma t_opendir n :
  triple (within U F k) (opendir n)
    (λ r, within U (match r with Some (d, _) => {[d]} ∪ F | None => F end) k).
Proof.
  intros w HW. unfold opendir. destruct (e_opendir (w_env w) n); (eapply (held_step _ _ w); [done| |exact HW]);
    simpl; intros L D HB HD; rewrite ?dom_insert_L; set_solver.
Qed.

(** A release, whose event does not count. *)
Lemma released_step U' F' w w' ev :
  is_exec ev = false → extends w w' [ev] →
  (∀ L D, w_blocks w ⊆ U ∪ L → dom (w_files w) ⊆ F ∪ D →
     w_blocks w' ⊆ U' ∪ L ∧ dom (w_files w') ⊆ F' ∪ D) →
  within U F k w → within U' F' k w'.
Proof.
  intros Hev HX H (L & D & H1 & H2 & H3 & H4). destruct (H L D H1 H3) as [H5 H6].
  exists L, D. assert (execs [ev] = 0) as H0 by (by destruct ev).
  unfold extends in HX. by rewrite HX, execs_app, H0, Nat.add_0_r.
Qed.

Lemma t_free p : triple (within U F k) (free p) (λ _, within (U ∖ ids p) F k).
Proof.
  intros w HW. unfold free. destruct p as [b|].
  - eapply (released_step _ _ w _ (EvFree b _)); [done|done| |exact HW].
    simpl. intros L D HB HD. rewrite ids_some. set_solver.
  - rewrite ids_none, difference_empty_L. exact HW.
Qed.

Lemma t_fclose f : triple (within U F k) (fclose f) (λ _, within U (F ∖ {[f]}) k).
Proof.
  intros w HW. eapply (released_step _ _ w _ (EvFclose f _)); [done|done| |exact HW].
  simpl. intros L D HB HD. rewrite dom_delete_L. set_solver.
Qed.

Lemma t_closedir d : triple (within U F k) (closedir d) (λ _, within U (F ∖ {[d]}) k).
Proof.
  intros w HW. eapply (released_step _ _ w _ (EvClosedir d _)); [done|done| |exact HW].
  simpl. intros L D HB HD. rewrite dom_delete_L. set_solver.
Qed.

(** Running a program earns a credit. *)
Lemma t_exec c : cgi = true → triple (within U F k) (emit (EvExec c)) (λ _, within U F (k + 1)).
Proof.
  intros Hc w (L & D & H1 & H2 & H3 & H4). exists L, D. rewrite Hc in *. split_and!; try done.
  unfold w_emit. simpl. rewrite execs_app. change (execs [EvExec c]) with 1. lia.
Qed.
End calls.
End rules.

#[export] Hint Resolve quiet_ret quiet_exit quiet_crash quiet_no_fuel quiet_get quiet_emit quiet_close quiet_shutdown quiet_stat
  quiet_fstat quiet_euid quiet_time quiet_recv quiet_send quiet_accept quiet_free quiet_fclose
  quiet_closedir quiet_fread quiet_stream_write : heap.

#[export] Hint Extern 0 (is_exec _ = false) => reflexivity : heap.

(** Walk along code that holds and releases nothing. *)
Ltac quiet_step_tac :=
  lazymatch goal with
  | |- quiet _ _ (_ ≫= _) => apply quiet_bind; [|intros ?; cbv beta]
  | |- quiet _ _ (if decide ?P then _ else _) => destruct (decide P)
  | |- quiet _ _ (if ?b then _ else _) => destruct b
  | |- quiet _ _ (match ?x with _ => _ end) => destruct x
  | |- quiet _ _ _ => solve [eauto with heap]
  end.
Ltac quiet_auto := repeat (quiet_step_tac; cbv zeta beta).

(** The end of a path: the sets that are left fit. *)
Ltac fits := cbv beta in *; eapply within_mono; [..|eassumption]; [clear; set_solver|clear; set_solver|lia].
(** Forward along a call, by its rule. *)
Tactic Notation "call" uconstr(R) "as" simple_intropattern(p) :=
  eapply t_bind; [apply R|intros p; cbv beta].
Tactic Notation "call" uconstr(R) := call R as ?.
