(* ===== verification/Flags.v ===== *)
(** * Flags: command-line parsing (flags/flags.h, flags/setFlags.c)

    The global configuration the other components read, and [setFlags], which
    fills it from the argument vector. *)

From S2P Require Import Prelude CLib Types OS.

(** ** Flag bits *)

Definition C_FLAG : Z := Z.shiftl 1 0.
Definition V_FLAG : Z := Z.shiftl 1 1.
Definition B4_FLAG : Z := Z.shiftl 1 3.
Definition B6_FLAG : Z := Z.shiftl 1 4.
Definition L_FLAG : Z := Z.shiftl 1 5.

(** [log_ptr]: NULL, stdout, or an open log file. *)
Inductive log_stream := LogNull | LogStdout | LogFile (f : nat).

(** The global variables of setFlags.c. *)
Record Globals := mkGlobals {
  app_flags : Z;
  port_addr : Z;
  bind_addr4 : option bytes;
  bind_addr6 : option bytes;
  cgi_addr : option bytes;
  log_addr : option bytes;
  log_ptr : log_stream
}.

(** Their values when the process starts. *)
Definition globals_init : Globals := mkGlobals 0 8080 None None None None LogNull.

(** [app_flags & f] as a condition, [app_flags |= f] and [app_flags &= ~f]. *)
Definition has_flag (g : Globals) (f : Z) : bool := negb (Z.land (app_flags g) f =? 0)%Z.
Definition flag_set (a f : Z) : Z := Z.lor a f.
Definition flag_clear (a f : Z) : Z := Z.land a (u32 (Z.lnot f)).

Definition set_app_flags (a : Z) (g : Globals) : Globals :=
  mkGlobals a (port_addr g) (bind_addr4 g) (bind_addr6 g) (cgi_addr g) (log_addr g) (log_ptr g).

(** ** Parsing *)

(** Every byte is a digit. *)
Definition checkPortNumber (port : bytes) : bool := forallb isdigit port.

(** [argv[i][0] == '-']. *)
Definition starts_dash (a : bytes) : bool := bool_decide (head a = Some "-"%char).

(** Close the previous log file, unless it is stdout. *)
Definition close_old_log (p : log_stream) : M unit :=
  match p with
  | LogFile f => fclose f
  | _ => mret ()
  end.

(** An unknown flag: the usage goes to standard error, which is not modelled, and
    the process exits. *)
Definition print_flag_error {A} (bad_flag : bytes) : M A := exit EXIT_FAILURE.

(** The loop of setFlags over the arguments after the program name. *)
Fixpoint setFlags_loop `{External} (g : Globals) (args : list bytes) : M Globals :=
  match args with
  | [] => mret g
  | a :: rest =>
      if negb (starts_dash a) then setFlags_loop g rest
      else if decide (a = B "-c") then
        match rest with
        | [] => exit EXIT_FAILURE
        | d :: rest' =>
            st ← stat_path d;
            match st with
            | Some s =>
                if st_isdir s then
                  setFlags_loop
                    (mkGlobals (flag_set (app_flags g) C_FLAG) (port_addr g) (bind_addr4 g)
                       (bind_addr6 g) (Some d) (log_addr g) (log_ptr g)) rest'
                else exit EXIT_FAILURE
            | None => exit EXIT_FAILURE
            end
        end
      else if decide (a = B "-v") then
        _ ← close_old_log (log_ptr g);
        setFlags_loop
          (mkGlobals (flag_set (flag_clear (app_flags g) L_FLAG) V_FLAG) (port_addr g)
             (bind_addr4 g) (bind_addr6 g) (cgi_addr g) (log_addr g) LogStdout) rest
      else if decide (a = B "-bind4") then
        match rest with
        | [] => exit EXIT_FAILURE
        | b :: rest' =>
            if starts_dash b then exit EXIT_FAILURE
            else match inet_pton4 b with
                 | None => exit EXIT_FAILURE
                 | Some _ =>
                     setFlags_loop
                       (mkGlobals (flag_set (app_flags g) B4_FLAG) (port_addr g) (Some b)
                          (bind_addr6 g) (cgi_addr g) (log_addr g) (log_ptr g)) rest'
                 end
        end
      else if decide (a = B "-bind6") then
        match rest with
        | [] => exit EXIT_FAILURE
        | b :: rest' =>
            if starts_dash b then exit EXIT_FAILURE
            else match inet_pton6 b with
                 | None => exit EXIT_FAILURE
                 | Some _ =>
                     setFlags_loop
                       (mkGlobals (flag_set (app_flags g) B6_FLAG) (port_addr g) (bind_addr4 g)
                          (Some b) (cgi_addr g) (log_addr g) (log_ptr g)) rest'
                 end
        end
      else if decide (a = B "-l") then
        match rest with
        | [] => exit EXIT_FAILURE
        | l :: rest' =>
            if starts_dash l then exit EXIT_FAILURE
            else
              _ ← close_old_log (log_ptr g);
              f ← fopen_append l;
              match f with
              | None => exit EXIT_FAILURE
              | Some i =>
                  setFlags_loop
                    (mkGlobals (flag_clear (flag_set (app_flags g) L_FLAG) V_FLAG) (port_addr g)
                       (bind_addr4 g) (bind_addr6 g) (cgi_addr g) (Some l) (LogFile i)) rest'
              end
        end
      else if decide (a = B "-p") then
        match rest with
        | [] => exit EXIT_FAILURE
        | p :: rest' =>
            if negb (checkPortNumber p) then exit EXIT_FAILURE
            else
              let port := atoi p in
              euid ← geteuid;
              if (port <=? 1024)%Z && negb (euid =? 0)%Z then exit EXIT_FAILURE
              else
                setFlags_loop
                  (mkGlobals (app_flags g) (u32 port) (bind_addr4 g) (bind_addr6 g)
                     (cgi_addr g) (log_addr g) (log_ptr g)) rest'
        end
      else print_flag_error a
  end.

Definition setFlags `{External} (argv : list bytes) : M Globals :=
  if decide (length argv < 2) then mret globals_init
  else setFlags_loop globals_init (tail argv).

(** * Lemmas *)

(** ** Flag bits *)

Lemma has_flag_bit g k : (0 ≤ k)%Z → has_flag g (Z.shiftl 1 k) = Z.testbit (app_flags g) k.
Proof.
  intros Hk. unfold has_flag. rewrite Z.shiftl_1_l.
  assert (Z.land (app_flags g) (2 ^ k) = if Z.testbit (app_flags g) k then 2 ^ k else 0)%Z as ->.
  { apply Z.bits_inj'. intros n Hn. rewrite Z.land_spec, Z.pow2_bits_eqb by done.
    destruct (Z.eqb_spec k n) as [->|Hne].
    - destruct (Z.testbit (app_flags g) n); simpl; [|by rewrite Z.bits_0].
      by rewrite Z.pow2_bits_true.
    - rewrite andb_false_r. destruct (Z.testbit (app_flags g) k); [|by rewrite Z.bits_0].
      by rewrite Z.pow2_bits_false. }
  destruct (Z.testbit _ _); [|done]. assert (2 ^ k ≠ 0)%Z by (apply Z.pow_nonzero; lia).
  by rewrite (proj2 (Z.eqb_neq _ _)).
Qed.

Lemma flag_set_bit a k n :
  (0 ≤ k)%Z → (0 ≤ n)%Z → Z.testbit (flag_set a (Z.shiftl 1 k)) n = Z.testbit a n || (k =? n)%Z.
Proof. intros Hk Hn. unfold flag_set. by rewrite Z.lor_spec, Z.shiftl_1_l, Z.pow2_bits_eqb. Qed.

Lemma flag_clear_bit a k n :
  (0 ≤ k)%Z → (0 ≤ n < 32)%Z →
  Z.testbit (flag_clear a (Z.shiftl 1 k)) n = Z.testbit a n && negb (k =? n)%Z.
Proof.
  intros Hk Hn. unfold flag_clear, u32.
  rewrite Z.land_spec, Z.mod_pow2_bits_low, Z.lnot_spec, Z.shiftl_1_l, Z.pow2_bits_eqb by lia. done.
Qed.

(** The flags a [uint32_t] of the program holds, each by its bit. *)
Definition V_on (a : Z) : bool := Z.testbit a 1.
Definition L_on (a : Z) : bool := Z.testbit a 5.

(** ** What setFlags promises *)

(** A configuration in good order: at most one kind of logging, with a stream exactly
    then (standard output or a log file that is open); each address flag with an
    address inet_pton accepts; the CGI flag with a directory; a port that fits its
    variable. *)
Record globals_ok `{External} (g : Globals) (w : World) : Prop := {
  go_one : has_flag g V_FLAG && has_flag g L_FLAG = false;
  go_log : match log_ptr g with
           | LogNull => has_flag g V_FLAG = false ∧ has_flag g L_FLAG = false
           | LogStdout => has_flag g V_FLAG = true
           | LogFile f => has_flag g L_FLAG = true ∧ is_Some (w_files w !! f)
           end;
  go_bind4 : has_flag g B4_FLAG = true → ∃ a, bind_addr4 g = Some a ∧ is_Some (inet_pton4 a);
  go_bind6 : has_flag g B6_FLAG = true → ∃ a, bind_addr6 g = Some a ∧ is_Some (inet_pton6 a);
  go_cgi : has_flag g C_FLAG = true → is_Some (cgi_addr g);
  go_port : (0 ≤ port_addr g < 2 ^ 32)%Z
}.

Lemma globals_init_ok `{External} w : globals_ok globals_init w.
Proof. by constructor. Qed.

(** The flags after one is set or cleared. *)
Ltac flag_bits :=
  unfold C_FLAG, V_FLAG, B4_FLAG, B6_FLAG, L_FLAG in *;
  rewrite ?has_flag_bit in * by lia; cbn [app_flags] in *;
  rewrite ?flag_set_bit, ?flag_clear_bit in * by lia; cbn [app_flags] in *;
  rewrite ?flag_set_bit, ?flag_clear_bit in * by lia; simpl Z.eqb in *.

(** The log file open, if any. *)
Definition log_files (p : log_stream) : gset nat :=
  match p with LogFile f => {[f]} | _ => ∅ end.

(** The streams open are those of an earlier world and the log file, a new one. *)
Definition only_log (w : World) (p : log_stream) (w' : World) : Prop :=
  dom (w_files w') = dom (w_files w) ∪ log_files p ∧ log_files p ## dom (w_files w).

Lemma only_log_none w p w' : log_files p = ∅ → dom (w_files w') = dom (w_files w) → only_log w p w'.
Proof. unfold only_log. intros -> ->. set_solver. Qed.

Lemma close_old_log_run p w0 w :
  world_ok w → match p with LogFile f => is_Some (w_files w !! f) | _ => True end →
  only_log w0 p w →
  ∃ w', close_old_log p w = (Ret (), w') ∧ sound w w' ∧ dom (w_files w') = dom (w_files w0).
Proof.
  intros Hw Hp [Hd Hf]. unfold close_old_log. destruct p as [| |f]; simpl in Hd, Hf.
  - exists w. split_and!; [done|auto with server|]. rewrite Hd. set_solver.
  - exists w. split_and!; [done|auto with server|]. rewrite Hd. set_solver.
  - exists (w_fclose f w). split; [done|]. split; [auto using sound_fclose with server|].
    simpl. rewrite dom_delete_L, Hd. set_solver.
Qed.

Section setFlags.
Context `{External}.

(** The outcome of setFlags from [w] on, seen from the start. *)
Definition flags_safe (w : World) (r : outcome Globals * World) : Prop :=
  match r with
  | (Ret g, w') => calm w w' ∧ globals_ok g w' ∧ sound w w' ∧ only_log w (log_ptr g) w'
  | (Exit c, w') => calm w w' ∧ c = EXIT_FAILURE
  | _ => False
  end.

Lemma flags_exit w w' : sound w w' → flags_safe w ((exit EXIT_FAILURE : M Globals) w').
Proof. intros Hs. split; [by apply sound_calm|done]. Qed.

Lemma log_live g w :
  globals_ok g w → match log_ptr g with LogFile f => is_Some (w_files w !! f) | _ => True end.
Proof. intros [_ Hl _ _ _ _]. destruct (log_ptr g); [done|done|apply Hl]. Qed.

(** One option each: the configuration it leaves. *)
Lemma opt_c_ok d g w :
  globals_ok g w →
  globals_ok (mkGlobals (flag_set (app_flags g) C_FLAG) (port_addr g) (bind_addr4 g)
                (bind_addr6 g) (Some d) (log_addr g) (log_ptr g)) w.
Proof.
  intros [Ho Hl H4 H6 Hc Hp]. constructor; cbn [log_ptr bind_addr4 bind_addr6 cgi_addr port_addr];
    flag_bits; rewrite ?orb_false_r; done || by eexists.
Qed.

Lemma opt_v_ok g w w' :
  globals_ok g w →
  globals_ok (mkGlobals (flag_set (flag_clear (app_flags g) L_FLAG) V_FLAG) (port_addr g)
                (bind_addr4 g) (bind_addr6 g) (cgi_addr g) (log_addr g) LogStdout) w'.
Proof.
  intros [Ho Hl H4 H6 Hc Hp]. constructor; cbn [log_ptr bind_addr4 bind_addr6 cgi_addr port_addr];
    flag_bits; rewrite ?orb_false_r, ?orb_true_r, ?andb_true_r, ?andb_false_r; done.
Qed.

Lemma opt_l_ok l i g w w' :
  globals_ok g w → is_Some (w_files w' !! i) →
  globals_ok (mkGlobals (flag_clear (flag_set (app_flags g) L_FLAG) V_FLAG) (port_addr g)
                (bind_addr4 g) (bind_addr6 g) (cgi_addr g) (Some l) (LogFile i)) w'.
Proof.
  intros [Ho Hl H4 H6 Hc Hp] Hi.
  constructor; cbn [log_ptr bind_addr4 bind_addr6 cgi_addr port_addr];
    flag_bits; rewrite ?orb_false_r, ?orb_true_r, ?andb_true_r, ?andb_false_r; done.
Qed.

Lemma opt_bind4_ok a g w :
  globals_ok g w → is_Some (inet_pton4 a) →
  globals_ok (mkGlobals (flag_set (app_flags g) B4_FLAG) (port_addr g) (Some a)
                (bind_addr6 g) (cgi_addr g) (log_addr g) (log_ptr g)) w.
Proof.
  intros [Ho Hl H4 H6 Hc Hp] Ha. constructor; cbn [log_ptr bind_addr4 bind_addr6 cgi_addr port_addr];
    flag_bits; rewrite ?orb_false_r; done || by exists a.
Qed.

Lemma opt_bind6_ok a g w :
  globals_ok g w → is_Some (inet_pton6 a) →
  globals_ok (mkGlobals (flag_set (app_flags g) B6_FLAG) (port_addr g) (bind_addr4 g)
                (Some a) (cgi_addr g) (log_addr g) (log_ptr g)) w.
Proof.
  intros [Ho Hl H4 H6 Hc Hp] Ha. constructor; cbn [log_ptr bind_addr4 bind_addr6 cgi_addr port_addr];
    flag_bits; rewrite ?orb_false_r; done || by exists a.
Qed.

Lemma opt_p_ok port g w :
  globals_ok g w →
  globals_ok (mkGlobals (app_flags g) (u32 port) (bind_addr4 g) (bind_addr6 g) (cgi_addr g)
                (log_addr g) (log_ptr g)) w.
Proof. intros [Ho Hl H4 H6 Hc Hp]. constructor; try done. apply u32_range. Qed.

Lemma fopen_append_run l w :
  world_ok w →
  ∃ r w', fopen_append l w = (Ret r, w') ∧ sound w w'
    ∧ match r with
      | Some i => is_Some (w_files w' !! i) ∧ only_log w (LogFile i) w'
      | None => True
      end.
Proof.
  intros Hw. unfold fopen_append. destruct (e_append_ok _ l).
  - do 2 eexists. split; [reflexivity|]. split_and!; [auto with server| |split; simpl].
    + simpl. rewrite lookup_insert_eq. by eexists.
    + rewrite dom_insert_L. set_solver.
    + apply disjoint_singleton_l, not_elem_of_dom. auto with server.
  - do 2 eexists. split; [reflexivity|]. auto with server.
Qed.

Lemma setFlags_loop_safe n args g w w1 :
  length args ≤ n → sound w w1 → globals_ok g w1 → only_log w (log_ptr g) w1 →
  flags_safe w (setFlags_loop g args w1).
Proof.
  revert args g w1. induction n as [|n IH]; intros args g w1 Hn Hs Hg Hl.
  { destruct args; [|simpl in Hn; lia]. split; [by apply sound_calm|done]. }
  destruct args as [|a rest]; [split; [by apply sound_calm|done]|].
  pose proof (sound_ok _ _ Hs) as Hw1. simpl in Hn. cbn [setFlags_loop].
  destruct (negb (starts_dash a)); [apply IH; [lia|done..]|].
  case_decide.
  { destruct rest as [|d rest]; [by apply flags_exit|]. unfold stat_path. run.
    destruct (e_stat _ d) as [s|]; [|by apply flags_exit].
    destruct (st_isdir s); [|by apply flags_exit].
    apply IH; [simpl in Hn; lia|done|by apply opt_c_ok|done]. }
  case_decide.
  { destruct (close_old_log_run (log_ptr g) w w1 Hw1 (log_live g w1 Hg) Hl) as (w2 & E & Hs2 & Hd).
    rewrite (bind_run _ _ _ _ _ E).
    apply IH; [lia|by eapply sound_trans|by eapply opt_v_ok|by apply only_log_none]. }
  case_decide.
  { destruct rest as [|b rest]; [by apply flags_exit|].
    destruct (starts_dash b); [by apply flags_exit|].
    destruct (inet_pton4 b) as [x|] eqn:Hx; [|by apply flags_exit].
    apply IH; [simpl in Hn; lia|done|apply opt_bind4_ok; [done|by eexists]|done]. }
  case_decide.
  { destruct rest as [|b rest]; [by apply flags_exit|].
    destruct (starts_dash b); [by apply flags_exit|].
    destruct (inet_pton6 b) as [x|] eqn:Hx; [|by apply flags_exit].
    apply IH; [simpl in Hn; lia|done|apply opt_bind6_ok; [done|by eexists]|done]. }
  case_decide.
  { destruct rest as [|l rest]; [by apply flags_exit|].
    destruct (starts_dash l); [by apply flags_exit|].
    destruct (close_old_log_run (log_ptr g) w w1 Hw1 (log_live g w1 Hg) Hl) as (w2 & E & Hs2 & Hd).
    rewrite (bind_run _ _ _ _ _ E).
    destruct (fopen_append_run l w2 ltac:(by eapply sound_ok)) as (r & w3 & E3 & Hs3 & Hr).
    rewrite (bind_run _ _ _ _ _ E3).
    assert (sound w w3) as Hs' by (eapply sound_trans; [exact Hs|by eapply sound_trans]).
    destruct r as [i|]; [|by apply flags_exit].
    destruct Hr as [Hi Hl3]. unfold only_log in Hl3. rewrite Hd in Hl3.
    apply IH; [simpl in Hn; lia|done|by eapply opt_l_ok|exact Hl3]. }
  case_decide; [|by apply flags_exit].
  destruct rest as [|p rest]; [by apply flags_exit|].
  destruct (negb (checkPortNumber p)); [by apply flags_exit|].
  unfold geteuid. run. destruct (_ && _); [by apply flags_exit|].
  apply IH; [simpl in Hn; lia|done|by apply opt_p_ok|done].
Qed.

Lemma setFlags_safe argv w : world_ok w → flags_safe w (setFlags argv w).
Proof.
  intros Hw. unfold setFlags. case_decide.
  - split; [auto with server|]. split; [apply globals_init_ok|]. split; [auto with server|].
    by apply only_log_none.
  - eapply setFlags_loop_safe; [done|auto with server|apply globals_init_ok|by apply only_log_none].
Qed.

Lemma globals_ok_files g w w' : w_files w' = w_files w → globals_ok g w → globals_ok g w'.
Proof. intros E [H1 H2 H3 H4 H5 H6]. constructor; try done. by rewrite E. Qed.

Lemma globals_ok_log g w :
  globals_ok g w → has_flag g V_FLAG || has_flag g L_FLAG = true → log_ptr g ≠ LogNull.
Proof.
  intros [_ Hl _ _ _ _] Hon E. rewrite E in Hl. destruct Hl as [H1 H2]. by rewrite H1, H2 in Hon.
Qed.

Lemma setFlags_port_run prog port w :
  (0 ≤ port < 2 ^ 31)%Z →
  setFlags [prog; B "-p"; fmt_d port] w =
  if (port <=? 1024)%Z && negb (e_euid (w_env w) =? 0)%Z then (Exit EXIT_FAILURE, w)
  else (Ret (mkGlobals 0 port None None None None LogNull), w).
Proof.
  intros Hp. unfold setFlags. cbn [length tail]. rewrite decide_False by lia.
  cbn [setFlags_loop]. change (starts_dash (B "-p")) with true. cbn [negb].
  repeat (rewrite decide_False by by_eval). rewrite decide_True by done.
  unfold fmt_d. rewrite decide_False by lia.
  assert (checkPortNumber (fmt_u (Z.to_N port)) = true) as ->.
  { unfold checkPortNumber. pose proof (fmt_u_digits (Z.to_N port)) as HF.
    induction HF as [|c l Hc _ IH]; [done|]. simpl. by rewrite Hc. }
  assert (atoi (fmt_u (Z.to_N port)) = port) as ->.
  { unfold atoi. rewrite digits_value_fmt_u, Z2N.id by lia. by rewrite decide_True by lia. }
  cbn [negb]. unfold geteuid. run. destruct (_ && _); [done|]. by rewrite u32_small by lia.
Qed.

(** * Properties *)

End setFlags.

(** * Witnesses *)

