(* ===== verification/Logging.v ===== *)
(** * Logging: the request log (logging/logging.c)

    Status strings, the bounded log entry a request accumulates, and its write
    to the log stream. *)

From S2P Require Import Prelude CLib Types OS Flags.

Definition resp_val_to_status_string (r : client_response) : bytes :=
  match r with
  | RESP_200 => B "200"
  | RESP_400 => B "400"
  | RESP_403 => B "403"
  | RESP_404 => B "404"
  | RESP_414 => B "414"
  | RESP_500 => B "500"
  | RESP_501 => B "501"
  | RESP_505 => B "505"
  | NUM_CLIENT_RESP => B "000"
  end.

(** [s] is the text the format and its arguments produce. vsnprintf gets the
    size [LOG_BUF_SIZE - offset] computed in [size_t]; when it wraps around, the
    call writes past the array. The offset grows by the length of the text,
    stored or not. *)
Definition log_append (le : LogEntry) (s : bytes) : LogEntry :=
  let room := u64 (Z.of_nat LOG_BUF_SIZE - le_offset le) in
  mkLE
    (if decide (room = 0)%Z then le_buf le
     else take (Z.to_nat (le_offset le)) (le_buf le) ++ take (Z.to_nat (room - 1)) s)
    (u64 (le_offset le + zlen s))
    (le_overrun le || bool_decide (Z.of_nat LOG_BUF_SIZE < le_offset le)%Z).

(** Whether requests are logged: the condition the callers test. *)
Definition logging_on (g : Globals) : bool := has_flag g V_FLAG || has_flag g L_FLAG.

(** fprintf to a NULL stream is a crash. *)
Definition do_logging (g : Globals) (le : LogEntry) : M unit :=
  match log_ptr g with
  | LogNull => crash
  | _ => emit (EvLog (le_buf le))
  end.

(** * Lemmas *)

Lemma LOG_BUF_SIZE_val : Z.of_nat LOG_BUF_SIZE = 8320%Z.
Proof. unfold LOG_BUF_SIZE. rewrite Nat2Z.inj_add, MAX_REQUEST_SIZE_val. done. Qed.
#[global] Opaque LOG_BUF_SIZE.

Ltac log_lia := pose proof LOG_BUF_SIZE_val; size_lia.

(** An entry in good order: the offset is the length of the string it holds,
    which fits the array with its NUL. *)
Definition log_ok (le : LogEntry) : Prop :=
  le_offset le = zlen (le_buf le) ∧ (zlen (le_buf le) < Z.of_nat LOG_BUF_SIZE)%Z
  ∧ le_overrun le = false.

Lemma log_zero_ok : log_ok log_zero.
Proof. unfold log_ok. rewrite LOG_BUF_SIZE_val. done. Qed.

(** While the text fits, appending stores all of it. *)
Lemma log_append_fits le s :
  log_ok le → (zlen (le_buf le) + zlen s < Z.of_nat LOG_BUF_SIZE)%Z →
  log_append le s = mkLE (le_buf le ++ s) (zlen (le_buf le ++ s)) false.
Proof.
  intros (Ho & Hl & Hr) Hs. unfold log_append. rewrite Ho, Hr.
  rewrite !u64_small by log_lia.
  rewrite decide_False, bool_decide_false by log_lia. rewrite !length_app, Nat2Z.inj_add.
  f_equal. rewrite !take_ge by log_lia. done.
Qed.

Lemma log_append_ok le s :
  log_ok le → (zlen (le_buf le) + zlen s < Z.of_nat LOG_BUF_SIZE)%Z →
  log_ok (log_append le s).
Proof.
  intros Hle Hs. rewrite log_append_fits by done.
  split_and!; simpl; [done| |done]. rewrite length_app. lia.
Qed.

#[export] Hint Resolve log_zero_ok log_append_ok : server.
