(* ===== verification/ParseRequest.v ===== *)
(** * ParseRequest: the request-line parser (requests/parse_request.c)

    [parse_request] as the code runs it, an abstract description of the request
    line it accepts, and the theorems relating the two. *)

From S2P Require Import Prelude CLib Types OS Flags Logging.

(** ** Tokens *)

(** strncmp with equal lengths: equality of the token with a literal. *)
Definition tok_is (tok : bytes) (s : string) : bool := bool_decide (tok = B s).

Definition method_from_token (tok : bytes) : http_method :=
  if bool_decide (length tok = 0) then HTTP_METHOD_UNKNOWN
  else if tok_is tok "GET" then HTTP_GET
  else if tok_is tok "POST" then HTTP_POST
  else if tok_is tok "HEAD" then HTTP_HEAD
  else HTTP_METHOD_UNKNOWN.

Definition version_from_token (tok : bytes) : http_version :=
  if bool_decide (length tok = 0) then HTTP_VERSION_UNKNOWN
  else if tok_is tok "HTTP/1.0" then HTTP_1_0
  else if tok_is tok "HTTP/1.1" then HTTP_1_1
  else if tok_is tok "HTTP/0.9" then HTTP_VERSION_UNSUPPORTED
  else if tok_is tok "HTTP/2.0" then HTTP_VERSION_UNSUPPORTED
  else if tok_is tok "HTTP/3.0" then HTTP_VERSION_UNSUPPORTED
  else HTTP_VERSION_UNKNOWN.

Definition path_has_traversal (path : bytes) (len : nat) : bool :=
  bool_decide (is_Some (strnstr path (B "../") len)).

(** ** The parser *)

(** The out parameters: return value, request, response code, log entry. *)
Record parsed := mkParsed { p_ret : Z; p_out : Request; p_resp : client_response; p_le : LogEntry }.

(** DETERMINED_400: the response code and the UNKNOWN sentinels. *)
Definition determined_400 (out : Request) (le : LogEntry) : parsed :=
  mkParsed (-1)
    (mkRequest HTTP_METHOD_UNKNOWN HTTP_VERSION_UNKNOWN (time_received out) (path out))
    RESP_400 le.

(** DETERMINED_403, _414, _501 and _505. *)
Definition determined (r : client_response) (out : Request) (le : LogEntry) : parsed :=
  mkParsed (-1) out r le.

(** The end of headers. *)
Definition HEADER_END : bytes := CRLF ++ CRLF.

(** The checks after the request line has been split in tokens. *)
Definition check_request (out : Request) (resp : client_response) (le : LogEntry) : parsed :=
  if negb (bool_decide (head (path out) = Some "/"%char)) then determined_400 out le
  else if decide (version out = HTTP_VERSION_UNKNOWN) then determined_400 out le
  else if decide (version out = HTTP_VERSION_UNSUPPORTED) then determined RESP_505 out le
  else if path_has_traversal (path out) (length (path out)) then determined RESP_403 out le
  else if decide (method out = HTTP_METHOD_UNKNOWN) then determined RESP_501 out le
  else if decide (method out = HTTP_POST) then determined RESP_501 out le
  else mkParsed 0 out resp le.

Definition set_time (t : bytes) (out : Request) : Request :=
  mkRequest (method out) (version out) t (path out).

(** The bytes of the first line: up to its CRLF, or all of them. *)
Definition line_size (b : bytes) (len : nat) : nat := default len (strnstr b CRLF len).

(** The part of parse_request after the time stamp: the request line is copied,
    logged, split and checked. *)
Definition parse_line (g : Globals) (b : bytes) (len : nat)
    (out : Request) (resp : client_response) (le : LogEntry) : parsed :=
  let line_buf := cstr (take (line_size b len) b) in
  let le := if logging_on g
            then log_append le (time_received out ++ B " " ++ [dquote] ++ line_buf
                                  ++ [dquote] ++ B " ")
            else le in
  let '(method_tok, s1) := strtok SP line_buf in
  let '(path_tok, s2) := strtok SP s1 in
  let '(version_tok, s3) := strtok SP s2 in
  let '(extra, _) := strtok SP s3 in
  match method_tok, path_tok, version_tok, extra with
  | Some m, Some p, Some v, None =>
      let '(stored, path_len) := strlcpy p PATH_MAX in
      let out := mkRequest (method_from_token m) (version_from_token v)
                   (time_received out) stored in
      if bool_decide (PATH_MAX ≤ path_len) then determined RESP_414 out le
      else check_request out resp le
  | _, _, _, _ => determined_400 out le
  end.

(** parse_request: the out parameters are arguments and results. strftime on the
    NULL that gmtime returns for an unrepresentable year is a crash, and so is the
    unchecked copy of a line longer than [line_buf], of [MAX_REQUEST_SIZE + 1]
    bytes. *)
Definition parse_request (g : Globals) (buf : option bytes) (len : nat)
    (out : Request) (resp : client_response) (le : LogEntry) : M parsed :=
  match buf with
  | None => mret (determined_400 out le)
  | Some b =>
      if bool_decide (len = 0) || bool_decide (strnstr b HEADER_END len = None)
      then mret (determined_400 out le)
      else
        current ← time;
        match gmtime_iso current with
        | None => crash
        | Some t =>
            if decide (MAX_REQUEST_SIZE + 1 < line_size b len + 1) then crash
            else mret (parse_line g b len (set_time t out) resp le)
        end
  end.

(** ** What the parser means *)

(** The outcome the request line [line] calls for, from its words alone. *)
Inductive verdict :=
| Accept (m : http_method) (v : http_version) (p : bytes)
| Reject (r : client_response).

Definition check_words (m p v : bytes) : verdict :=
  if bool_decide (PATH_MAX ≤ length p) then Reject RESP_414
  else if negb (bool_decide (head p = Some "/"%char)) then Reject RESP_400
  else match version_from_token v with
       | HTTP_VERSION_UNKNOWN => Reject RESP_400
       | HTTP_VERSION_UNSUPPORTED => Reject RESP_505
       | ver =>
           if bool_decide (is_Some (find_sub (B "../") p)) then Reject RESP_403
           else match method_from_token m with
                | HTTP_METHOD_UNKNOWN | HTTP_POST => Reject RESP_501
                | meth => Accept meth ver p
                end
       end.

Definition classify (line : bytes) : verdict :=
  match words SP line with
  | [m; p; v] => check_words m p v
  | _ => Reject RESP_400
  end.

(** The verdict a parse result stands for. *)
Definition verdict_of (r : parsed) : verdict :=
  if decide (p_ret r = 0)%Z
  then Accept (method (p_out r)) (version (p_out r)) (path (p_out r))
  else Reject (p_resp r).

(** The bytes memcpy moves to [line_buf]: the buffer up to its first CRLF. *)
Definition first_line (b : bytes) (len : nat) : bytes :=
  take (line_size b len) b.

(** The bytes of a request: its line and its other header lines. *)
Definition render_request (m p v headers : bytes) : bytes :=
  m ++ [SP] ++ p ++ [SP] ++ v ++ CRLF ++ headers ++ HEADER_END.

(** * Lemmas *)

(** When the headers are complete the first line ends at a CRLF of the buffer
    and holds no NUL. *)
Lemma first_line_spec b len e :
  strnstr b HEADER_END len = Some e →
  ∃ n, strnstr b CRLF len = Some n ∧ n ≤ e ∧ first_line b len = take n b
       ∧ (NUL ∉ take n b) ∧ n + 4 ≤ length (take len b).
Proof.
  intros He. pose proof (strnstr_bound _ _ _ _ He) as Hb. simpl in Hb.
  destruct (find_sub_prefix_le CRLF CRLF (cstr (take len b)) e He) as (n & Hn & Hle).
  exists n. unfold first_line, line_size. assert (strnstr b CRLF len = Some n) as HE by exact Hn.
  rewrite HE. apply strnstr_Some in HE as [_ HE]. repeat split; try done. lia.
Qed.

Lemma cstr_first_line b len e :
  strnstr b HEADER_END len = Some e →
  cstr (take (line_size b len) b) = first_line b len.
Proof.
  intros (n & Hn & _ & Hf & Hnul & _)%first_line_spec.
  unfold first_line, line_size in *. rewrite Hn in *. simpl in *. by apply cstr_id.
Qed.

(** The copy writes the first line and its NUL; it lies in the part looked at. *)
Lemma line_size_eq b len e :
  strnstr b HEADER_END len = Some e →
  line_size b len = length (first_line b len) ∧ length (first_line b len) + 4 ≤ len.
Proof.
  intros (n & Hn & _ & Hf & _ & Hl)%first_line_spec. rewrite length_take in Hl.
  rewrite Hf, length_take. unfold line_size. rewrite Hn. simpl. lia.
Qed.

(** The first line of a text that starts with a CR-free line and a CRLF. *)
Lemma first_line_app line rest :
  CR ∉ line → NUL ∉ line → NUL ∉ rest →
  first_line (line ++ CRLF ++ rest) (length (line ++ CRLF ++ rest)) = line.
Proof.
  intros Hcr Hl Hr. unfold first_line, line_size.
  assert (∀ l : bytes, take (length l) l = l) as Hid by (intros; by apply take_ge).
  rewrite strnstr_no_nul; rewrite Hid.
  - change (CRLF ++ rest) with (CR :: [LF] ++ rest).
    change CRLF with (CR :: [LF]) at 1. rewrite find_sub_fresh by done. simpl.
    by rewrite take_app_length.
  - rewrite !elem_of_app. intros [?|[Hc|?]]; [done| |done].
    apply elem_of_cons in Hc as [Hc|Hc]; [done|].
    apply list_elem_of_singleton in Hc. done.
Qed.

(** A line, header lines without NUL and the blank line make a complete
    request. *)
Lemma complete_request line h :
  CR ∉ line → NUL ∉ line → NUL ∉ h →
  let b := line ++ CRLF ++ h ++ HEADER_END in
  ∃ e, strnstr b HEADER_END (length b) = Some e ∧ first_line b (length b) = line.
Proof.
  intros Hcr Hl Hh b.
  assert (NUL ∉ HEADER_END) as He by (eapply bool_decide_unpack; vm_compute; exact I).
  assert (NUL ∉ CRLF) as Hc by (eapply bool_decide_unpack; vm_compute; exact I).
  assert (is_Some (strnstr b HEADER_END (length b))) as [e HE].
  { rewrite strnstr_no_nul; rewrite (take_ge b) by lia.
    - apply not_eq_None_Some. rewrite find_sub_None. intros HN.
      specialize (HN (length (line ++ CRLF ++ h))). unfold b in HN.
      rewrite !app_assoc, drop_app_length in HN. rewrite <-!app_assoc in HN.
      specialize (HN ltac:(rewrite !length_app; lia)). done.
    - unfold b. rewrite !not_elem_of_app. auto. }
  exists e. split; [done|]. apply first_line_app; [done..|].
  rewrite not_elem_of_app. auto.
Qed.

(** path_has_traversal on a C string. *)
Lemma path_has_traversal_spec p :
  NUL ∉ p →
  path_has_traversal p (length p) = bool_decide (is_Some (find_sub (B "../") p)).
Proof.
  intros H. unfold path_has_traversal. rewrite strnstr_no_nul; by rewrite take_ge by lia.
Qed.

(** The verdict of the checks on a complete request. *)
Lemma check_request_verdict m p v t resp le :
  NUL ∉ p → length p < PATH_MAX →
  verdict_of (check_request (mkRequest (method_from_token m) (version_from_token v) t p) resp le)
  = check_words m p v.
Proof.
  intros Hn Hp. unfold check_words. rewrite (bool_decide_false (PATH_MAX ≤ _)) by lia.
  unfold check_request. simpl path. simpl version. simpl method.
  rewrite path_has_traversal_spec by done.
  destruct (bool_decide (head p = Some "/"%char)); [simpl|done].
  destruct (version_from_token v); simpl; try done;
    (case_bool_decide; [done|]; by destruct (method_from_token m)).
Qed.

(** After the first line is known, the parser's verdict is that of its words. *)
Lemma parse_line_classify g b len out resp le e :
  strnstr b HEADER_END len = Some e →
  verdict_of (parse_line g b len out resp le) = classify (first_line b len).
Proof.
  intros He. unfold parse_line. rewrite (cstr_first_line _ _ _ He).
  destruct (first_line_spec _ _ _ He) as (n & _ & _ & Hline & Hnul & _).
  rewrite <-Hline in Hnul. clear n Hline.
  set (le' := if logging_on g then _ else _). clearbody le'. unfold classify.
  destruct (strtok_words SP (first_line b len)) as (s1 & -> & H1).
  destruct (strtok_words SP s1) as (s2 & -> & H2).
  destruct (strtok_words SP s2) as (s3 & -> & H3).
  destruct (strtok_words SP s3) as (s4 & -> & H4).
  rewrite H3, H2, H1.
  assert (∀ p, p ∈ words SP (first_line b len) → NUL ∉ p) as Hw.
  { intros p Hp Hin. by eapply Hnul, words_subset. }
  destruct (words SP (first_line b len)) as [|m [|p [|v [|x ws]]]]; try done.
  simpl. case_bool_decide as Hp.
  { unfold check_words. rewrite bool_decide_true by done. done. }
  rewrite take_ge by lia. apply check_request_verdict; [|lia].
  apply Hw. set_solver.
Qed.

Lemma version_from_token_served v ver :
  version_from_token v = ver → ver = HTTP_1_0 ∨ ver = HTTP_1_1 →
  v = B "HTTP/1.0" ∧ ver = HTTP_1_0 ∨ v = B "HTTP/1.1" ∧ ver = HTTP_1_1.
Proof.
  unfold version_from_token, tok_is. intros <-.
  repeat case_bool_decide; intros [E|E]; try discriminate E; auto.
Qed.

Lemma method_from_token_served m meth :
  method_from_token m = meth → meth = HTTP_GET ∨ meth = HTTP_HEAD →
  m = B "GET" ∧ meth = HTTP_GET ∨ m = B "HEAD" ∧ meth = HTTP_HEAD.
Proof.
  unfold method_from_token, tok_is. intros <-.
  repeat case_bool_decide; intros [E|E]; try discriminate E; auto.
Qed.

Lemma method_from_token_range m :
  method_from_token m ∈ [HTTP_GET; HTTP_POST; HTTP_HEAD; HTTP_METHOD_UNKNOWN].
Proof. unfold method_from_token. repeat case_match; rewrite !elem_of_cons; auto 10. Qed.

Lemma version_from_token_range v :
  version_from_token v ∈ [HTTP_1_0; HTTP_1_1; HTTP_VERSION_UNSUPPORTED; HTTP_VERSION_UNKNOWN].
Proof. unfold version_from_token. repeat case_match; rewrite !elem_of_cons; auto 10. Qed.

(** What the words of a line must be for the line to be accepted. *)
Lemma check_words_accept m p v meth ver q :
  check_words m p v = Accept meth ver q ↔
  q = p ∧ length p < PATH_MAX ∧ head p = Some "/"%char ∧ find_sub (B "../") p = None
  ∧ (v = B "HTTP/1.0" ∧ ver = HTTP_1_0 ∨ v = B "HTTP/1.1" ∧ ver = HTTP_1_1)
  ∧ (m = B "GET" ∧ meth = HTTP_GET ∨ m = B "HEAD" ∧ meth = HTTP_HEAD).
Proof.
  unfold check_words. split.
  - case_bool_decide as Hl; simpl; [done|].
    case_bool_decide as Hh; simpl; [|done].
    pose proof (version_from_token_served v _ eq_refl) as Hv.
    pose proof (version_from_token_range v) as Hvr.
    pose proof (method_from_token_served m _ eq_refl) as Hm.
    pose proof (method_from_token_range m) as Hmr.
    case_bool_decide as Ht.
    { by destruct (version_from_token v). }
    rewrite <-eq_None_not_Some in Ht. rewrite !elem_of_cons, elem_of_nil in Hvr.
    rewrite !elem_of_cons, elem_of_nil in Hmr.
    intros E. destruct (version_from_token v), (method_from_token m);
      simplify_eq; try (exfalso; naive_solver); auto 10 with lia.
  - intros (-> & Hl & Hh & Ht & Hv & Hm).
    rewrite bool_decide_false by lia. rewrite Hh, Ht.
    by destruct Hv as [[-> ->]|[-> ->]], Hm as [[-> ->]|[-> ->]].
Qed.

(** * Properties *)

(** The result of the parser when the line fits its buffer. *)
Definition parses (b : bytes) (len : nat) (r : parsed) : Prop :=
  verdict_of r = match strnstr b HEADER_END len with
                 | Some _ => classify (first_line b len)
                 | None => Reject RESP_400
                 end.

Lemma parse_request_eval g b len out resp le w t :
  gmtime_iso (e_now (w_env w)) = Some t →
  if decide (is_Some (strnstr b HEADER_END len) ∧ MAX_REQUEST_SIZE < length (first_line b len))
  then parse_request g (Some b) len out resp le w = (Crash, w)
  else ∃ r, parse_request g (Some b) len out resp le w = (Ret r, w) ∧ parses b len r.
Proof.
  intros Ht. unfold parse_request, parses, time, get. run.
  destruct (strnstr b HEADER_END len) as [e|] eqn:He.
  - rewrite (bool_decide_false (Some e = None)) by done.
    destruct (line_size_eq b len e He) as [Hsz Hle].
    rewrite bool_decide_false by lia. cbn [orb]. rewrite Ht, Hsz.
    destruct (decide (_ ∧ _)) as [[_ Hc]|Hc].
    + by rewrite decide_True by lia.
    + rewrite decide_False by (intros H; apply Hc; split; [eauto|lia]).
      eexists. split; [done|]. by eapply parse_line_classify.
  - rewrite (bool_decide_true (None = None)), orb_true_r by done.
    rewrite decide_False by (intros [[? ?] _]; done). eexists. split; done.
Qed.

(** Inputs of the length do_read passes never reach the crash. *)
Lemma parse_request_fits g b len out resp le w t :
  gmtime_iso (e_now (w_env w)) = Some t → len ≤ MAX_REQUEST_SIZE →
  ∃ r, parse_request g (Some b) len out resp le w = (Ret r, w) ∧ parses b len r.
Proof.
  intros Ht Hlen. pose proof (parse_request_eval g b len out resp le w t Ht) as H.
  rewrite decide_False in H; [exact H|]. intros [[e He] Hl].
  destruct (line_size_eq b len e He). lia.
Qed.

(** C17. The verdict of the parser is that of the words of the first line, unless the
    line is too long for the stack. On any buffer, [parse_request] changes nothing
    outside its out parameters, and its verdict (accepted with this method, version
    and path, or rejected with this code) is 400 when the end of the headers is
    missing and otherwise the one [classify] reads off the space-separated words of
    the request line; but a complete request whose first line has more than
    MAX_REQUEST_SIZE bytes overflows [line_buf]. A length of at most
    MAX_REQUEST_SIZE, as do_read passes, excludes that. *)
Theorem parse_request_verdict g b len out resp le w t :
  gmtime_iso (e_now (w_env w)) = Some t →
  (if decide (is_Some (strnstr b HEADER_END len) ∧ MAX_REQUEST_SIZE < length (first_line b len))
   then parse_request g (Some b) len out resp le w = (Crash, w)
   else ∃ r, parse_request g (Some b) len out resp le w = (Ret r, w)
          ∧ verdict_of r = match strnstr b HEADER_END len with
                           | Some _ => classify (first_line b len)
                           | None => Reject RESP_400
                           end)
  ∧ (len ≤ MAX_REQUEST_SIZE →
     ¬ (is_Some (strnstr b HEADER_END len) ∧ MAX_REQUEST_SIZE < length (first_line b len))).
Proof.
  intros Ht. split; [by apply (parse_request_eval g b len out resp le w t)|].
  intros Hlen [[e He] Hl]. destruct (line_size_eq b len e He). lia.
Qed.

(** A short line, and one a byte too long. *)
Definition long_request : bytes := repeat "A"%char (S MAX_REQUEST_SIZE) ++ HEADER_END.

Lemma parse_request_verdict_witness :
  (∃ r, parse_request globals_init (Some (B "GET /a HTTP/1.0" ++ HEADER_END)) 19 request_zero
          NUM_CLIENT_RESP log_zero quiet_world = (Ret r, quiet_world)
        ∧ verdict_of r = Accept HTTP_GET HTTP_1_0 (B "/a"))
  ∧ parse_request globals_init (Some long_request) (length long_request) request_zero
      NUM_CLIENT_RESP log_zero quiet_world = (Crash, quiet_world).
Proof.
  split.
  - destruct (parse_request_verdict globals_init (B "GET /a HTTP/1.0" ++ HEADER_END) 19
                request_zero NUM_CLIENT_RESP log_zero quiet_world (B "2024-11-18T22:06:07Z")
                ltac:(vm_compute; reflexivity)) as [H Hs].
    rewrite decide_False in H; [|apply Hs; size_lia].
    destruct H as (r & H1 & H2). exists r. split; [exact H1|]. rewrite H2. vm_compute. reflexivity.
  - destruct (parse_request_verdict globals_init long_request (length long_request)
                request_zero NUM_CLIENT_RESP log_zero quiet_world (B "2024-11-18T22:06:07Z")
                ltac:(vm_compute; reflexivity)) as [H _].
    rewrite decide_True in H; [exact H|]. eapply bool_decide_unpack. vm_compute. exact I.
Defined.

(** An accepted request is a GET or HEAD for HTTP 1.0 or 1.1, whose path
    starts with a slash, fits [PATH_MAX] with its NUL and does not contain the
    bytes ../ ; the line then is exactly those three words. *)
Theorem parse_request_accepts g b len out resp le w r w' :
  parse_request g (Some b) len out resp le w = (Ret r, w') →
  p_ret r = 0%Z →
  (∃ m v, words SP (first_line b len) = [m; path (p_out r); v]
     ∧ method (p_out r) = method_from_token m ∧ version (p_out r) = version_from_token v)
  ∧ (method (p_out r) = HTTP_GET ∨ method (p_out r) = HTTP_HEAD)
  ∧ (version (p_out r) = HTTP_1_0 ∨ version (p_out r) = HTTP_1_1)
  ∧ head (path (p_out r)) = Some "/"%char
  ∧ length (path (p_out r)) < PATH_MAX
  ∧ find_sub (B "../") (path (p_out r)) = None.
Proof.
  intros Hr Hok. destruct (gmtime_iso (e_now (w_env w))) as [t|] eqn:Ht.
  - pose proof (parse_request_eval g b len out resp le w t Ht) as He.
    destruct (decide _) as [_|_]; [congruence|]. destruct He as (r' & Hr' & Hv).
    rewrite Hr in Hr'. injection Hr' as <- _. unfold parses, verdict_of in Hv.
    rewrite decide_True in Hv by done. case_match; [|done].
    unfold classify in Hv.
    destruct (words SP (first_line b len)) as [|m [|p [|v [|? ?]]]]; try done.
    symmetry in Hv. apply check_words_accept in Hv as (-> & Hl & Hh & Ht' & Hv & Hm).
    split_and!; try done.
    + exists m, v. split_and!; [done|..].
      * by destruct Hm as [[-> ->]|[-> ->]].
      * by destruct Hv as [[-> ->]|[-> ->]].
    + destruct Hm as [[_ ->]|[_ ->]]; auto.
    + destruct Hv as [[_ ->]|[_ ->]]; auto.
  - unfold parse_request, time, get, mbind, M_bind, mret, M_ret in Hr.
    destruct (_ || _); [by simplify_eq/=|]. by rewrite Ht in Hr.
Qed.

Lemma parse_request_accepts_witness :
  ∃ r, parse_request globals_init (Some (B "HEAD /x HTTP/1.1" ++ HEADER_END)) 20 request_zero
         NUM_CLIENT_RESP log_zero quiet_world = (Ret r, quiet_world)
       ∧ method (p_out r) = HTTP_HEAD ∧ find_sub (B "../") (path (p_out r)) = None.
Proof.
  eexists. split; [vm_compute; reflexivity|]. split; [reflexivity|].
  eapply (parse_request_accepts globals_init (B "HEAD /x HTTP/1.1" ++ HEADER_END) 20
    request_zero NUM_CLIENT_RESP log_zero quiet_world); [vm_compute; reflexivity|reflexivity].
Defined.

(** The parser looks at the request line only: two buffers with the same
    line, whatever header lines follow it, give the same result in every out
    parameter. *)
Lemma parse_request_first_line_only g line h1 h2 out resp le w :
  CR ∉ line → NUL ∉ line ++ h1 ++ h2 →
  let b1 := line ++ CRLF ++ h1 ++ HEADER_END in
  let b2 := line ++ CRLF ++ h2 ++ HEADER_END in
  parse_request g (Some b1) (length b1) out resp le w =
  parse_request g (Some b2) (length b2) out resp le w.
Proof.
  intros Hcr Hnul b1 b2. rewrite !not_elem_of_app in Hnul. destruct Hnul as (Hl & H1 & H2).
  destruct (complete_request line h1 Hcr Hl H1) as (e1 & He1 & Hf1).
  destruct (complete_request line h2 Hcr Hl H2) as (e2 & He2 & Hf2).
  fold b1 in He1, Hf1. fold b2 in He2, Hf2.
  unfold parse_request. rewrite He1, He2.
  rewrite (proj1 (line_size_eq _ _ _ He1)), (proj1 (line_size_eq _ _ _ He2)), Hf1, Hf2.
  rewrite !(bool_decide_false (Some _ = None)), !orb_false_r by done.
  rewrite !bool_decide_false by (unfold b1, b2; rewrite !length_app; simpl; lia).
  unfold parse_line. rewrite (cstr_first_line _ _ _ He1), (cstr_first_line _ _ _ He2).
  by rewrite Hf1, Hf2.
Qed.

Definition method_name (m : http_method) : bytes :=
  match m with HTTP_HEAD => B "HEAD" | _ => B "GET" end.
Definition version_name (v : http_version) : bytes :=
  match v with HTTP_1_1 => B "HTTP/1.1" | _ => B "HTTP/1.0" end.

(** A path that can stand in a request line and that the server serves. *)
Definition path_ok (p : bytes) : Prop :=
  head p = Some "/"%char ∧ (SP ∉ p) ∧ (CR ∉ p) ∧ (NUL ∉ p) ∧ length p < PATH_MAX
  ∧ find_sub (B "../") p = None.

#[export] Instance path_ok_dec p : Decision (path_ok p).
Proof. unfold path_ok. apply _. Defined.

(** A rendered request is complete, and its line reads back. *)
Lemma rendered_request m v p h :
  m = HTTP_GET ∨ m = HTTP_HEAD → v = HTTP_1_0 ∨ v = HTTP_1_1 → path_ok p → NUL ∉ h →
  let b := render_request (method_name m) p (version_name v) h in
  ∃ e, strnstr b HEADER_END (length b) = Some e
       ∧ classify (first_line b (length b)) = Accept m v p
       ∧ length (first_line b (length b)) ≤ MAX_REQUEST_SIZE.
Proof.
  intros Hm Hv (Hh & Hsp & Hcr & Hnul & Hlen & Htr) Hnh b.
  assert (∀ c, c ∈ [SP; CR; NUL] → (c ∉ method_name m) ∧ c ∉ version_name v) as Hlit'.
  { apply Forall_forall. by destruct Hm as [-> | ->], Hv as [-> | ->];
      eapply bool_decide_unpack; vm_compute. }
  set (line := method_name m ++ [SP] ++ p ++ [SP] ++ version_name v).
  assert (words SP line = [method_name m; p; version_name v]) as Hw.
  { destruct (Hlit' SP) as [H1 H2]; [set_solver|]. unfold line. cbn [app].
    rewrite words_app, words_app, words_block; try done.
    - by destruct v.
    - by destruct p.
    - by destruct m. }
  assert (∀ c, c ∈ [CR; NUL] → c ∉ p → c ∉ line) as Hline.
  { intros c Hc Hp. destruct (Hlit' c) as [H1 H2]; [set_solver|].
    unfold line. rewrite !not_elem_of_app, !not_elem_of_cons.
    assert (c ≠ SP) by (intros ->; set_solver).
    split_and!; try done; apply not_elem_of_nil. }
  destruct (complete_request line h) as (e & He & Hf); [apply Hline; set_solver..|done|].
  assert (line ++ CRLF ++ h ++ HEADER_END = b) as Hb.
  { unfold b, line, render_request. by rewrite <-!app_assoc. }
  rewrite Hb in He, Hf.
  exists e. rewrite Hf. split_and!; [done| |].
  - unfold classify. rewrite Hw.
    apply check_words_accept. destruct Hm as [-> | ->], Hv as [-> | ->]; auto 10.
  - assert (length (method_name m) ≤ 4 ∧ length (version_name v) = 8) as [H4 H8]
      by (destruct Hm as [-> | ->], Hv as [-> | ->]; simpl; lia).
    unfold line. rewrite !length_app, H8. simpl length. size_lia.
Qed.

(** A rendered request is accepted, with the method, version and path it was made of. *)
Lemma parse_rendered g m v p h out resp le w t :
  gmtime_iso (e_now (w_env w)) = Some t →
  m = HTTP_GET ∨ m = HTTP_HEAD → v = HTTP_1_0 ∨ v = HTTP_1_1 →
  path_ok p → NUL ∉ h →
  let b := render_request (method_name m) p (version_name v) h in
  ∃ r, parse_request g (Some b) (length b) out resp le w = (Ret r, w)
       ∧ p_ret r = 0%Z ∧ method (p_out r) = m ∧ version (p_out r) = v ∧ path (p_out r) = p.
Proof.
  intros Ht Hm Hv Hp Hnh b. destruct (rendered_request m v p h Hm Hv Hp Hnh) as (e & He & Hc & Hl).
  pose proof (parse_request_eval g b (length b) out resp le w t Ht) as H.
  rewrite decide_False in H.
  2:{ intros [_ Hl']. unfold b in Hl'. lia. }
  destruct H as (r & Hr & Hverd).
  exists r. split; [done|]. unfold b, parses in *. rewrite He, Hc in Hverd.
  unfold verdict_of in Hverd. by case_decide; simplify_eq.
Qed.

(** C25. Round trip: what a client sends for a served method and version and a
    well-formed path is parsed back to the same method, version and path,
    whatever header lines come with it. *)
Theorem parse_request_roundtrip g m v p h out resp le w t :
  gmtime_iso (e_now (w_env w)) = Some t →
  m = HTTP_GET ∨ m = HTTP_HEAD → v = HTTP_1_0 ∨ v = HTTP_1_1 →
  path_ok p → NUL ∉ h →
  let b := render_request (method_name m) p (version_name v) h in
  ∃ r, parse_request g (Some b) (length b) out resp le w = (Ret r, w)
       ∧ p_ret r = 0%Z ∧ method (p_out r) = m ∧ version (p_out r) = v ∧ path (p_out r) = p.
Proof. apply parse_rendered. Qed.

Lemma parse_request_roundtrip_witness :
  ∃ r, parse_request globals_init
         (Some (render_request (B "HEAD") (B "/a/b?q") (B "HTTP/1.1") (B "Host: x")))
         (length (render_request (B "HEAD") (B "/a/b?q") (B "HTTP/1.1") (B "Host: x")))
         request_zero NUM_CLIENT_RESP log_zero quiet_world = (Ret r, quiet_world)
       ∧ p_ret r = 0%Z ∧ method (p_out r) = HTTP_HEAD ∧ version (p_out r) = HTTP_1_1
       ∧ path (p_out r) = B "/a/b?q".
Proof.
  apply (parse_request_roundtrip globals_init HTTP_HEAD HTTP_1_1 (B "/a/b?q") (B "Host: x")
    request_zero NUM_CLIENT_RESP log_zero quiet_world (B "2024-11-18T22:06:07Z"));
    [vm_compute; reflexivity|auto|auto| |]; eapply bool_decide_unpack; vm_compute; exact I.
Defined.

(** The text the parser logs is short enough for a fresh entry. *)
Lemma parse_log_ok g b len e out t le :
  strnstr b HEADER_END len = Some e → len ≤ MAX_REQUEST_SIZE →
  log_ok le → length (le_buf le) ≤ INET6_ADDRSTRLEN → length t ≤ 27 →
  let le' := if logging_on g
             then log_append le (time_received (set_time t out) ++ B " " ++ [dquote]
                    ++ first_line b len ++ [dquote] ++ B " ")
             else le in
  log_ok le' ∧ length (le_buf le') ≤ 77 + length (first_line b len).
Proof.
  intros He Hlen Hle Ha Ht. unfold INET6_ADDRSTRLEN in *.
  destruct (first_line_spec _ _ _ He) as (n & _ & _ & Hl & _ & Hn).
  rewrite length_take in Hn.
  assert (length (first_line b len) + 4 ≤ MAX_REQUEST_SIZE) as Hline.
  { rewrite Hl, length_take. size_lia. }
  simpl. destruct (logging_on g); [|split; [done|lia]].
  set (s := t ++ _).
  assert (length s ≤ 27 + 4 + length (first_line b len)) as Hs.
  { subst s. repeat (rewrite length_app || cbn [length]). change (length (B " ")) with 1. lia. }
  assert (zlen (le_buf le) + zlen s < Z.of_nat LOG_BUF_SIZE)%Z by log_lia.
  split; [by apply log_append_ok|].
  rewrite log_append_fits by done. simpl. rewrite length_app. lia.
Qed.

(** What the parser writes: the time stamp and the log entry are those it was
    given after logging, the path is untouched or cut to its array. *)
Lemma check_request_out out resp le :
  time_received (p_out (check_request out resp le)) = time_received out
  ∧ path (p_out (check_request out resp le)) = path out
  ∧ p_le (check_request out resp le) = le.
Proof. unfold check_request. by repeat case_match. Qed.

Lemma parse_line_out g b len out resp le e :
  strnstr b HEADER_END len = Some e →
  let r := parse_line g b len out resp le in
  time_received (p_out r) = time_received out
  ∧ (path (p_out r) = path out ∨ length (path (p_out r)) ≤ PATH_MAX - 1)
  ∧ p_le r = if logging_on g
             then log_append le (time_received out ++ B " " ++ [dquote]
                    ++ first_line b len ++ [dquote] ++ B " ")
             else le.
Proof.
  intros He. unfold parse_line. rewrite (cstr_first_line _ _ _ He).
  set (le' := if logging_on g then _ else _). clearbody le'.
  destruct (strtok SP (first_line b len)) as [m s1], (strtok SP s1) as [p s2],
    (strtok SP s2) as [v s3], (strtok SP s3) as [x s4].
  destruct m as [m|], p as [p|], v as [v|], x as [x|]; auto.
  unfold strlcpy. case_bool_decide; simpl.
  - rewrite length_take. split_and!; [done|right; lia|done].
  - destruct (check_request_out (mkRequest (method_from_token m) (version_from_token v)
      (time_received out) (take (PATH_MAX - 1) p)) resp le') as (-> & -> & ->).
    simpl. rewrite length_take. split_and!; [done|right; lia|done].
Qed.

(** C30. Memory safety of the parser's fixed arrays. On a request no longer than
    [MAX_REQUEST_SIZE], the copied line and its NUL fit [line_buf]; the stored
    path and time stamp fit their arrays; and on the entry that do_read starts
    (the peer address) the log text is stored whole, without running past the
    array, leaving the room the closing fields need. *)
Theorem parse_request_bounds g b len out resp le w r w' :
  parse_request g (Some b) len out resp le w = (Ret r, w') →
  len ≤ MAX_REQUEST_SIZE →
  length (path out) < PATH_MAX → length (time_received out) < TIME_RECEIVED_LENGTH →
  log_ok le → length (le_buf le) ≤ INET6_ADDRSTRLEN →
  (is_Some (strnstr b HEADER_END len) →
     length (first_line b len) + 1 ≤ MAX_REQUEST_SIZE + 1)
  ∧ length (path (p_out r)) < PATH_MAX
  ∧ length (time_received (p_out r)) < TIME_RECEIVED_LENGTH
  ∧ log_ok (p_le r)
  ∧ length (le_buf (p_le r)) + 20 ≤ LOG_BUF_SIZE.
Proof.
  intros Hr Hlen Hp Ht Hle Ha.
  assert (length (le_buf le) + 20 ≤ LOG_BUF_SIZE) as Hle20
    by (unfold INET6_ADDRSTRLEN in *; log_lia).
  assert (∀ e, strnstr b HEADER_END len = Some e →
            length (first_line b len) + 4 ≤ MAX_REQUEST_SIZE) as Hline.
  { intros e He. destruct (first_line_spec _ _ _ He) as (n & _ & _ & -> & _ & Hn).
    rewrite length_take in *. lia. }
  unfold parse_request, time, get, mbind, M_bind, mret, M_ret in Hr.
  split; [intros [e He]; specialize (Hline e He); lia|].
  destruct (_ || _) eqn:E; [by injection Hr as <- _|].
  apply orb_false_iff in E as [_ E]. apply bool_decide_eq_false, not_eq_None_Some in E as [e He].
  specialize (Hline e He).
  destruct (gmtime_iso (e_now (w_env w))) as [t|] eqn:Hg; [|done].
  destruct (decide _); [done|]. injection Hr as <- _. apply length_gmtime_iso in Hg.
  destruct (parse_log_ok g b len e out t le He Hlen Hle Ha Hg) as [Hlog Hlog2].
  destruct (parse_line_out g b len (set_time t out) resp le e He) as (H1 & H2 & H3).
  rewrite H1, H3. simpl time_received in *. simpl path in *. unfold TIME_RECEIVED_LENGTH.
  split_and!; [|lia|exact Hlog|log_lia].
  destruct H2 as [-> | H2]; [exact Hp|size_lia].
Qed.

Lemma parse_request_bounds_witness :
  ∃ r, parse_request globals_init (Some (B "GET /a HTTP/1.0" ++ HEADER_END)) 19 request_zero
         NUM_CLIENT_RESP log_zero quiet_world = (Ret r, quiet_world)
       ∧ length (path (p_out r)) < PATH_MAX.
Proof.
  eexists. split; [vm_compute; reflexivity|].
  apply (parse_request_bounds globals_init (B "GET /a HTTP/1.0" ++ HEADER_END) 19 request_zero
    NUM_CLIENT_RESP log_zero quiet_world _ quiet_world).
  - vm_compute. reflexivity.
  - eapply bool_decide_unpack; vm_compute; exact I.
  - eapply bool_decide_unpack; vm_compute; exact I.
  - eapply bool_decide_unpack; vm_compute; exact I.
  - apply log_zero_ok.
  - eapply bool_decide_unpack; vm_compute; exact I.
Defined.

(** ** What the server gets from the parser *)

(** Every rejection has a code of the error table, every acceptance a path that
    starts with a slash. *)
Lemma check_words_range m p v :
  match check_words m p v with
  | Accept _ _ p' => head p' = Some "/"%char
  | Reject r => r ≠ RESP_200 ∧ r ≠ NUM_CLIENT_RESP
  end.
Proof.
  unfold check_words. case_bool_decide; [done|].
  destruct (bool_decide (head p = _)) eqn:Hh; simpl; [|done].
  apply bool_decide_eq_true in Hh.
  assert (∀ v', match (if bool_decide (is_Some (find_sub (B "../") p)) then Reject RESP_403
    else match method_from_token m with
         | HTTP_METHOD_UNKNOWN | HTTP_POST => Reject RESP_501
         | meth => Accept meth v' p
         end) with
    | Accept _ _ p' => head p' = Some "/"%char
    | Reject r => r ≠ RESP_200 ∧ r ≠ NUM_CLIENT_RESP
    end) as Hrest.
  { intros v'. case_bool_decide; [done|]. by destruct (method_from_token m). }
  destruct (version_from_token v); try done; apply Hrest.
Qed.

Lemma classify_range line :
  match classify line with
  | Accept _ _ p' => head p' = Some "/"%char
  | Reject r => r ≠ RESP_200 ∧ r ≠ NUM_CLIENT_RESP
  end.
Proof.
  unfold classify. destruct (words SP line) as [|m [|p [|v [|x l]]]]; try done.
  apply check_words_range.
Qed.

(** The parse of a complete request, from a fresh Request and a short log entry. *)
Lemma parse_request_complete g b len e resp le w t :
  strnstr b HEADER_END len = Some e → len ≤ MAX_REQUEST_SIZE →
  gmtime_iso (e_now (w_env w)) = Some t → log_ok le → length (le_buf le) ≤ INET6_ADDRSTRLEN →
  ∃ r, parse_request g (Some b) len request_zero resp le w = (Ret r, w)
    ∧ verdict_of r = classify (first_line b len)
    ∧ time_received (p_out r) = t
    ∧ length (path (p_out r)) < PATH_MAX
    ∧ log_ok (p_le r) ∧ length (le_buf (p_le r)) + 20 ≤ LOG_BUF_SIZE
    ∧ r = parse_line g b len (set_time t request_zero) resp le.
Proof.
  intros He Hlen Ht Hle Ha.
  destruct (parse_request_fits g b len request_zero resp le w t Ht Hlen) as (r & Hr & Hv).
  unfold parses in Hv. rewrite He in Hv. exists r. split_and!; [done..| | | | |].
  all: pose proof (length_gmtime_iso _ _ Ht) as Hl;
    unfold parse_request, time in Hr; run_in Hr; rewrite He in Hr.
  all: rewrite (bool_decide_false (Some e = None)) in Hr by done.
  all: assert (len ≠ 0) as Hnz by (pose proof (strnstr_bound _ _ _ _ He) as Hb;
      rewrite length_take in Hb; simpl in Hb; lia).
  all: rewrite bool_decide_false in Hr by done; cbn [orb] in Hr; rewrite Ht in Hr.
  all: destruct (decide _) as [_|_]; [done|].
  all: injection Hr as <-.
  all: destruct (parse_line_out g b len (set_time t request_zero) resp le e He) as (H1 & H2 & H3).
  - by rewrite H1.
  - destruct H2 as [-> | H2]; [simpl; size_lia|size_lia].
  - rewrite H3. by apply (parse_log_ok g b len e request_zero t le).
  - rewrite H3.
    destruct (parse_log_ok g b len e request_zero t le He Hlen Hle Ha Hl) as [_ Hlog2].
    destruct (first_line_spec _ _ _ He) as (n & _ & _ & Hf & _ & Hn).
    assert (length (first_line b len) + 4 ≤ MAX_REQUEST_SIZE).
    { rewrite Hf. rewrite !length_take in *. lia. }
    eapply Nat.le_trans; [apply Nat.add_le_mono_r; exact Hlog2|]. log_lia.
  - done.
Qed.

(** The first line does not depend on how much of the buffer past the end of the
    headers is looked at. *)
Lemma first_line_exact b len e :
  strnstr b HEADER_END len = Some e → first_line b (e + 4) = first_line b len.
Proof.
  intros He. destruct (first_line_spec _ _ _ He) as (n & Hn & Hle & _).
  pose proof (strnstr_bound _ _ _ _ He) as Hb. rewrite length_take in Hb. simpl in Hb.
  unfold first_line, line_size. rewrite Hn.
  by rewrite (strnstr_shorter _ _ _ _ (e + 4) Hn) by (simpl; lia).
Qed.
