(* ===== verification/ResolvePath.v ===== *)
(** * ResolvePath: from a request path to a file (requests/resolve_path.c,
    requests/close_resolve_path.c)

    The mapping of a request path to a local path and query, the MIME table, the
    resolution of files, directories and CGI programs with the streams it opens,
    and an abstract description of its outcome. *)

From S2P Require Import Prelude CLib Types OS Flags ParseRequest.

Definition BASE_URL : bytes := B ".".
Definition DIR_INDEX : bytes := B "index.htm".
Definition DIR_INDEX2 : bytes := B "index.html".

(** ** MIME types *)

(** The extensions get_mime_type_by_ext compares with, in its order. *)
Definition mime_table : list (bytes * bytes) :=
  [ (B ".html", B "text/html"); (B ".htm", B "text/html");
    (B ".txt", B "text/plain; charset=utf-8"); (B ".csv", B "text/csv; charset=utf-8");
    (B ".md", B "text/markdown; charset=utf-8"); (B ".xml", B "application/xml");
    (B ".json", B "application/json"); (B ".map", B "application/json");
    (B ".wasm", B "application/wasm");
    (B ".mjs", B "text/javascript"); (B ".cjs", B "text/javascript");
    (B ".jpeg", B "image/jpeg"); (B ".jpg", B "image/jpeg"); (B ".gif", B "image/gif");
    (B ".svg", B "image/svg+xml"); (B ".webp", B "image/webp"); (B ".ico", B "image/x-icon");
    (B ".woff", B "font/woff"); (B ".woff2", B "font/woff2"); (B ".ttf", B "font/ttf");
    (B ".otf", B "font/otf");
    (B ".mp3", B "audio/mpeg"); (B ".wav", B "audio/wav"); (B ".mp4", B "video/mp4");
    (B ".webm", B "video/webm"); (B ".pdf", B "application/pdf");
    (B ".zip", B "application/zip"); (B ".gz", B "application/gzip");
    (B ".tgz", B "application/gzip"); (B ".tar", B "application/x-tar") ].

Fixpoint mime_lookup (ext : bytes) (table : list (bytes * bytes)) : option bytes :=
  match table with
  | [] => None
  | (e, m) :: table' => if strcaseeq ext e then Some m else mime_lookup ext table'
  end.

#[global] Arguments mime_lookup : simpl never.

(** magic_descriptor on the descriptor of a stream. *)
Definition magic_fd `{External} (f : nat) : M (option bytes) :=
  w ← get; mret (w_files w !! f ≫= λ s, magic_descriptor (s_rest s)).

Definition get_mime_type_by_ext `{External} (filename : bytes) (f : nat) : M (option bytes) :=
  match strrchr filename "."%char with
  | None => magic_fd f
  | Some ext =>
      match mime_lookup ext mime_table with
      | Some m => mret (Some m)
      | None => magic_fd f
      end
  end.

(** ** Local paths *)

Definition path_includes_cgi (path : bytes) : bool :=
  bool_decide (is_Some (strnstr path (B "./cgi-bin/") 10)).

Inductive trailing := TRAILING_SLASH | TRAILING_CHAR.

Definition get_last_char (path : bytes) : trailing :=
  if bool_decide (last path = Some "/"%char) then TRAILING_SLASH else TRAILING_CHAR.

(** The name get_file_path_slash and get_file_path_char open. *)
Definition index_name (t : trailing) (path dir_index : bytes) : bytes :=
  snprintf PATH_MAX
    match t with
    | TRAILING_SLASH => path ++ dir_index
    | TRAILING_CHAR => path ++ B "/" ++ dir_index
    end.

Definition get_file_path (t : trailing) (path dir_index : bytes) : M (errno + nat) :=
  fopen (index_name t path dir_index).

(** The two strtok calls on the path buffer: the local path and the query. *)
Definition split_path (path : bytes) : option bytes * option bytes :=
  let path_buffer := snprintf PATH_MAX (BASE_URL ++ path) in
  let '(local_path, saved) := strtok "?"%char path_buffer in
  (local_path, (strtok "?"%char saved).1).

(** ** resolve_path *)

Record resolved := mkResolved { rv_ret : Z; rv_client : Client; rv_rp : ResolvedPath }.

(** The macro HANDLE_DIR_INDEX and the return that follows it. *)
Definition handle_dir_index (c : Client) (rp : ResolvedPath) (index : nat) : M resolved :=
  let rp := set_rp_file rp (Some index) in
  st ← fstat index;
  match st with
  | None =>
      _ ← fclose index;
      mret (mkResolved (-1) (set_resp c RESP_500) rp)
  | Some st =>
      let rp := set_mime (set_rp_size rp (st_size st)) (Some (B "text/html")) in
      let c := set_file c (Some index) (st_size st) in
      mret (mkResolved 0 c (set_path_type (set_last_mod rp (st_mtime st)) IS_FILE))
  end.

(** The branch of a directory: one of the two index files, or a listing. *)
Definition resolve_dir (c : Client) (rp : ResolvedPath) (dir_fp : nat) (st : stat)
    (local_path : bytes) : M resolved :=
  let t := get_last_char local_path in
  index ← get_file_path t local_path DIR_INDEX;
  match index with
  | inr i => _ ← fclose dir_fp; handle_dir_index c rp i
  | inl _ =>
      index ← get_file_path t local_path DIR_INDEX2;
      match index with
      | inr i => _ ← fclose dir_fp; handle_dir_index c rp i
      | inl _ =>
          _ ← fclose dir_fp;
          let rp := set_path_type (set_last_mod rp (st_mtime st)) IS_DIR in
          mret (mkResolved 0 c (set_rp_file rp None))
      end
  end.

(** The branch of an opened path, once its fstat has succeeded. *)
Definition resolve_open `{External} (g : Globals) (c : Client) (rp : ResolvedPath) (f : nat)
    (st : stat) (local_path : bytes) : M resolved :=
  let cgi := path_includes_cgi local_path in
  if cgi && negb (has_flag g C_FLAG) then
    mret (mkResolved (-1) (set_resp c RESP_501) (set_path_type (set_rp_file rp None) UNKNOWN))
  else
    let rp := set_path_type rp (if cgi then IS_CGI else IS_FILE) in
    if st_isdir st then resolve_dir c rp f st local_path
    else
      let rp := set_last_mod rp (st_mtime st) in
      m ← get_mime_type_by_ext local_path f;
      let rp := set_rp_size (set_mime rp m) (st_size st) in
      mret (mkResolved 0 (set_file c (Some f) (st_size st)) rp).

Definition resolve_path `{External} (g : Globals) (c : Client) (req : Request)
    (rp : ResolvedPath) : M resolved :=
  match split_path (path req) with
  | (None, _) => crash
  | (Some local_path, query_buffer) =>
      let rp := match query_buffer with
                | Some q => set_query rp (strlcpy q PATH_MAX).1
                | None => rp
                end in
      r ← fopen local_path;
      match r with
      | inr f =>
          let rp := set_rp_file rp (Some f) in
          st ← fstat f;
          match st with
          | None => _ ← fclose f; mret (mkResolved (-1) (set_resp c RESP_500) rp)
          | Some st => resolve_open g c rp f st local_path
          end
      | inl e =>
          let code := if decide (e = EACCES) then RESP_403 else RESP_404 in
          mret (mkResolved (-1) (set_resp c code) (set_rp_file rp None))
      end
  end.

Definition close_resolve_path_ptr (rp : ResolvedPath) : M ResolvedPath :=
  match rp_file_ptr rp with
  | Some f => _ ← fclose f; mret (set_rp_file rp None)
  | None => mret rp
  end.

(** ** What resolution means *)

(** The outcome a path calls for in a file system: an error code, a file with
    its type and contents, a CGI program, or a directory to list. *)
Inductive resolution :=
| Failed (r : client_response)
| ServeFile (st : stat) (data : bytes) (mime : option bytes)
| RunCgi (st : stat)
| ListDir (st : stat).

Definition index_resolution (s : stream) : resolution :=
  match s_stat s with
  | None => Failed RESP_500
  | Some st => ServeFile st (s_rest s) (Some (B "text/html"))
  end.

(** The type of a file: the table on the extension of its name, else libmagic. *)
Definition mime_of `{External} (name data : bytes) : option bytes :=
  match strrchr name "."%char ≫= λ ext, mime_lookup ext mime_table with
  | Some m => Some m
  | None => magic_descriptor data
  end.

Definition resolution_of `{External} (fs : bytes → errno + stream) (cgi_on : bool)
    (local : bytes) : resolution :=
  match fs local with
  | inl e => Failed (if decide (e = EACCES) then RESP_403 else RESP_404)
  | inr s =>
      match s_stat s with
      | None => Failed RESP_500
      | Some st =>
          if path_includes_cgi local && negb cgi_on then Failed RESP_501
          else if st_isdir st then
            match fs (index_name (get_last_char local) local DIR_INDEX) with
            | inr s1 => index_resolution s1
            | inl _ =>
                match fs (index_name (get_last_char local) local DIR_INDEX2) with
                | inr s2 => index_resolution s2
                | inl _ => ListDir st
                end
            end
          else if path_includes_cgi local then RunCgi st
          else ServeFile st (s_rest s) (mime_of local (s_rest s))
      end
  end.

(** A stream served by a resolution started in [w0]: a new one, open in [w]. *)
Definition serves (w0 w : World) (v : resolved) (f : nat) (c : Client) (st : stat) (data : bytes)
    (mime : option bytes) : Prop :=
  rv_ret v = 0%Z
  ∧ w_next w0 ≤ f
  ∧ rv_client v = set_file c (Some f) (st_size st)
  ∧ rp_file_ptr (rv_rp v) = Some f
  ∧ rp_file_size (rv_rp v) = st_size st
  ∧ mime_type (rv_rp v) = mime
  ∧ last_mod (rv_rp v) = st_mtime st
  ∧ w_files w !! f = Some (mkStream (Some st) data).

(** What each resolution means for the out parameters and the world. *)
Definition realises `{External} (c : Client) (local : bytes) (res : resolution)
    (v : resolved) (w0 w : World) : Prop :=
  match res with
  | Failed r => rv_ret v = (-1)%Z ∧ rv_client v = set_resp c r
  | ServeFile st data mime => path_type (rv_rp v) = IS_FILE ∧ ∃ f, serves w0 w v f c st data mime
  | RunCgi st =>
      path_type (rv_rp v) = IS_CGI
      ∧ ∃ f data, serves w0 w v f c st data (mime_of local data)
  | ListDir st =>
      rv_ret v = 0%Z ∧ rv_client v = c ∧ path_type (rv_rp v) = IS_DIR
      ∧ rp_file_ptr (rv_rp v) = None ∧ last_mod (rv_rp v) = st_mtime st
  end.

(** * Lemmas *)

Section with_external.
Context `{External}.

(** The MIME type as a function of the name and the contents. *)
Lemma get_mime_type_by_ext_eq name f w s :
  w_files w !! f = Some s →
  get_mime_type_by_ext name f w = (Ret (mime_of name (s_rest s)), w).
Proof.
  intros Hf. unfold get_mime_type_by_ext, mime_of, magic_fd, get.
  destruct (strrchr name "."%char) as [ext|]; cbn [mbind option_bind].
  - destruct (mime_lookup ext mime_table); [done|]. run. by rewrite Hf.
  - run. by rewrite Hf.
Qed.

Lemma handle_dir_index_spec c rp i w0 w s :
  w_files w !! i = Some s → w_next w0 ≤ i →
  ∃ v w', handle_dir_index c rp i w = (Ret v, w')
    ∧ realises c [] (index_resolution s) v w0 w'
    ∧ query_string (rv_rp v) = query_string rp
    ∧ (s_stat s = None → w' = w_fclose i w) ∧ (is_Some (s_stat s) → w' = w).
Proof.
  intros Hi Hle. unfold handle_dir_index, fstat, fclose, index_resolution. run. rewrite Hi. simpl.
  destruct (s_stat s) as [st|] eqn:Es.
  - eexists _, _. split; [done|]. split_and!; try done. simpl. split; [done|].
    exists i. unfold serves; simpl. split_and!; try done. rewrite Hi. f_equal.
    by destruct s; simpl in *; subst.
  - eexists _, _. split; [done|]. split_and!; try done.
Qed.

(** The world after a resolution, by cases: the streams that stay open and the
    actions taken. *)
Definition resolution_world (w : World) (fs : bytes → errno + stream) (cgi_on : bool)
    (local : bytes) : World :=
  match fs local with
  | inl _ => w
  | inr s =>
      let w1 := w_open s w in
      match s_stat s with
      | None => w_fclose (w_next w) w1
      | Some st =>
          if path_includes_cgi local && negb cgi_on then w1
          else if st_isdir st then
            match fs (index_name (get_last_char local) local DIR_INDEX) with
            | inr s1 =>
                let w2 := w_fclose (w_next w) (w_open s1 w1) in
                match s_stat s1 with None => w_fclose (w_next w1) w2 | Some _ => w2 end
            | inl _ =>
                match fs (index_name (get_last_char local) local DIR_INDEX2) with
                | inr s2 =>
                    let w2 := w_fclose (w_next w) (w_open s2 w1) in
                    match s_stat s2 with None => w_fclose (w_next w1) w2 | Some _ => w2 end
                | inl _ => w_fclose (w_next w) w1
                end
            end
          else w1
      end
  end.

Lemma resolve_index_spec c rp w0 w1 s st local s1 :
  w1 = w_open s w0 → s_stat s = Some st → w_next w1 = S (w_next w0) →
  ∃ v w', (_ ← fclose (w_next w0); handle_dir_index c rp (w_next w1)) (w_open s1 w1)
            = (Ret v, w')
    ∧ realises c local (index_resolution s1) v w0 w'
    ∧ query_string (rv_rp v) = query_string rp
    ∧ w' = (let w2 := w_fclose (w_next w0) (w_open s1 w1) in
            match s_stat s1 with None => w_fclose (w_next w1) w2 | Some _ => w2 end).
Proof.
  intros -> Hs Hn. unfold fclose at 1. run.
  destruct (handle_dir_index_spec c rp (w_next (w_open s w0)) w0
              (w_fclose (w_next w0) (w_open s1 (w_open s w0))) s1)
    as (v & w' & -> & Hr & Hq & Hc & Ho).
  { simpl. rewrite lookup_delete_ne by lia. apply lookup_insert_eq. }
  { simpl. lia. }
  exists v, w'. split; [done|]. split_and!; [|done|].
  - unfold index_resolution in *. by destruct (s_stat s1).
  - simpl. destruct (s_stat s1); [by apply Ho|by apply Hc].
Qed.

Lemma resolve_dir_eval c rp w s st local :
  s_stat s = Some st →
  let t := get_last_char local in
  let fs := e_fopen (w_env w) in
  let w1 := w_open s w in
  ∃ v w', resolve_dir c rp (w_next w) st local w1 = (Ret v, w')
    ∧ realises c local
        match fs (index_name t local DIR_INDEX) with
        | inr s1 => index_resolution s1
        | inl _ => match fs (index_name t local DIR_INDEX2) with
                   | inr s2 => index_resolution s2
                   | inl _ => ListDir st
                   end
        end v w w'
    ∧ query_string (rv_rp v) = query_string rp
    ∧ w' = match fs (index_name t local DIR_INDEX) with
           | inr s1 =>
               let w2 := w_fclose (w_next w) (w_open s1 w1) in
               match s_stat s1 with None => w_fclose (w_next w1) w2 | Some _ => w2 end
           | inl _ =>
               match fs (index_name t local DIR_INDEX2) with
               | inr s2 =>
                   let w2 := w_fclose (w_next w) (w_open s2 w1) in
                   match s_stat s2 with None => w_fclose (w_next w1) w2 | Some _ => w2 end
               | inl _ => w_fclose (w_next w) w1
               end
           end.
Proof.
  intros Hst t fs w1. unfold resolve_dir, get_file_path. fold t.
  destruct (fs (index_name t local DIR_INDEX)) as [e1|s1] eqn:E1.
  - rewrite (bind_run _ _ _ _ _ (fopen_inl _ w1 _ E1)); cbv iota beta.
    destruct (fs (index_name t local DIR_INDEX2)) as [e2|s2] eqn:E2.
    + rewrite (bind_run _ _ _ _ _ (fopen_inl _ w1 _ E2)); cbv iota beta.
      rewrite fclose_run. eexists _, _. by split_and!.
    + rewrite (bind_run _ _ _ _ _ (fopen_inr _ w1 _ E2)); cbv iota beta.
      by apply (resolve_index_spec c rp w w1 s st local s2).
  - rewrite (bind_run _ _ _ _ _ (fopen_inr _ w1 _ E1)); cbv iota beta.
    by apply (resolve_index_spec c rp w w1 s st local s1).
Qed.

(** The index branch closes the directory, and the index when its fstat fails. *)
Lemma index_world_keeps w s s1 :
  world_ok w →
  let w1 := w_open s w in
  let w2 := w_fclose (w_next w) (w_open s1 w1) in
  let w' := match s_stat s1 with None => w_fclose (w_next w1) w2 | Some _ => w2 end in
  ∃ evs, world_ok w' ∧ w_blocks w' = w_blocks w ∧ w_env w' = w_env w
    ∧ extends w w' evs ∧ Forall ev_live evs
    ∧ w_files w' = match s_stat s1 with
                   | None => w_files w
                   | Some _ => <[S (w_next w) := s1]> (w_files w)
                   end.
Proof.
  intros Hw w1 w2 w'.
  assert (w_files w2 = <[S (w_next w) := s1]> (w_files w)) as H2.
  { simpl. rewrite delete_insert_ne by lia. by rewrite delete_insert_id by auto with server. }
  assert (w_trace w2 = w_trace w ++ [EvFclose (w_next w) true]) as Ht.
  { simpl. rewrite bool_decide_true; [done|]. rewrite lookup_insert_ne by lia.
    rewrite lookup_insert_eq. eauto. }
  assert (world_ok w2) as Hok by (unfold w2, w1; auto with server).
  subst w'. destruct (s_stat s1).
  - eexists. by split_and!; [..|exact Ht|repeat constructor|].
  - exists [EvFclose (w_next w) true; EvFclose (S (w_next w)) true].
    split_and!; [auto with server|done|done| |repeat constructor|].
    + unfold extends. change (w_trace (w_fclose ?f w2)) with
        (w_trace w2 ++ [EvFclose f (bool_decide (is_Some (w_files w2 !! f)))]).
      rewrite H2, Ht, <-app_assoc, bool_decide_true; [done|].
      simpl. rewrite lookup_insert_eq. eauto.
    + change (w_files (w_fclose ?f w2)) with (delete f (w_files w2)). rewrite H2.
      apply delete_insert_id. apply files_beyond; [done|simpl; lia].
Qed.

Lemma resolution_world_keeps w fs cgi_on local :
  world_ok w →
  let w' := resolution_world w fs cgi_on local in
  ∃ evs, world_ok w' ∧ w_blocks w' = w_blocks w ∧ w_env w' = w_env w
    ∧ extends w w' evs ∧ Forall ev_live evs
    ∧ match resolution_of fs cgi_on local with
      | ServeFile _ _ _ | RunCgi _ =>
          ∃ f s, w_files w !! f = None ∧ w_files w' = <[f := s]> (w_files w)
      | ListDir _ => w_files w' = w_files w
      | Failed r => r ≠ RESP_501 → w_files w' = w_files w
      end.
Proof.
  intros Hw w'. subst w'. unfold resolution_world, resolution_of.
  assert (w_files w !! w_next w = None) as Hfr by auto with server.
  assert (∀ s, extends w (w_fclose (w_next w) (w_open s w)) [EvFclose (w_next w) true]) as Hx.
  { intros s. unfold extends. simpl. by rewrite lookup_insert_eq. }
  destruct (fs local) as [e|s].
  { exists []. split_and!; try done. by apply extends_nil. }
  destruct (s_stat s) as [st|].
  2:{ eexists. split_and!; [auto with server|done|done|apply Hx|repeat constructor|].
      intros _. by apply fclose_open_files. }
  destruct (path_includes_cgi local && negb cgi_on).
  { exists []. split_and!; [auto with server|done|done|by apply extends_nil|done|done]. }
  destruct (st_isdir st).
  2:{ exists []. split_and!; [auto with server|done|done|by apply extends_nil|done|].
      destruct (path_includes_cgi local); eauto. }
  assert (∀ s1, ∃ evs,
    let w2 := w_fclose (w_next w) (w_open s1 (w_open s w)) in
    let w' := match s_stat s1 with
              | None => w_fclose (w_next (w_open s w)) w2 | Some _ => w2 end in
    world_ok w' ∧ w_blocks w' = w_blocks w ∧ w_env w' = w_env w
    ∧ extends w w' evs ∧ Forall ev_live evs
    ∧ match index_resolution s1 with
      | ServeFile _ _ _ | RunCgi _ =>
          ∃ f s, w_files w !! f = None ∧ w_files w' = <[f := s]> (w_files w)
      | ListDir _ => w_files w' = w_files w
      | Failed r => r ≠ RESP_501 → w_files w' = w_files w
      end) as Hidx.
  { intros s1. destruct (index_world_keeps w s s1 Hw) as (evs & H1 & H2 & H3 & H4 & H5 & H6).
    exists evs. split_and!; [done..|]. unfold index_resolution. destruct (s_stat s1); [|done].
    exists (S (w_next w)), s1. split; [auto with server|done]. }
  destruct (fs (index_name _ local DIR_INDEX)) as [e1|s1]; [|by apply Hidx].
  destruct (fs (index_name _ local DIR_INDEX2)) as [e2|s2]; [|by apply Hidx].
  eexists. split_and!; [auto with server|done|done|apply Hx|repeat constructor|].
  by apply fclose_open_files.
Qed.

Lemma resolution_world_next w fs cgi_on local :
  w_next w ≤ w_next (resolution_world w fs cgi_on local).
Proof. unfold resolution_world. repeat case_match; simpl; lia. Qed.

(** One evaluation of resolve_path covers every branch. *)
Lemma resolve_path_eval g c req rp w local q :
  split_path (path req) = (Some local, q) →
  ∃ v w', resolve_path g c req rp w = (Ret v, w')
    ∧ realises c local (resolution_of (e_fopen (w_env w)) (has_flag g C_FLAG) local) v w w'
    ∧ query_string (rv_rp v) = from_option (take (PATH_MAX - 1)) (query_string rp) q
    ∧ w' = resolution_world w (e_fopen (w_env w)) (has_flag g C_FLAG) local.
Proof.
  intros Hsp. unfold resolve_path. rewrite Hsp. unfold resolution_of, resolution_world.
  set (rp1 := match q with Some _ => _ | None => _ end).
  assert (query_string rp1 = from_option (take (PATH_MAX - 1)) (query_string rp) q) as Hq
    by by destruct q.
  clearbody rp1. destruct (e_fopen (w_env w) local) as [e|s] eqn:Hf.
  { rewrite (bind_run _ _ _ _ _ (fopen_inl _ _ _ Hf)). eexists _, _. by split_and!. }
  rewrite (bind_run _ _ _ _ _ (fopen_inr _ _ _ Hf)); cbv iota beta.
  rewrite (bind_run _ _ _ _ _ (fstat_open s w)).
  destruct (s_stat s) as [st|] eqn:Hst; [|eexists _, _; by split_and!].
  unfold resolve_open.
  destruct (path_includes_cgi local && negb (has_flag g C_FLAG)) eqn:Hcgi;
    [eexists _, _; by split_and!|].
  destruct (st_isdir st) eqn:Hd.
  - edestruct (resolve_dir_eval c) as (v & w' & Hv & Hr & Hq' & Hw'); [exact Hst|].
    exists v, w'. split; [exact Hv|]. split; [exact Hr|]. split; [|exact Hw'].
    rewrite Hq'. exact Hq.
  - rewrite (bind_run _ _ _ _ _
      (get_mime_type_by_ext_eq local (w_next w) (w_open s w) s (lookup_insert_eq _ _ _))).
    assert (∀ rt, serves w (w_open s w) rt (w_next w) c st (s_rest s) (mime_of local (s_rest s))
      ↔ rv_ret rt = 0%Z ∧ rv_client rt = set_file c (Some (w_next w)) (st_size st)
        ∧ rp_file_ptr (rv_rp rt) = Some (w_next w) ∧ rp_file_size (rv_rp rt) = st_size st
        ∧ mime_type (rv_rp rt) = mime_of local (s_rest s)
        ∧ last_mod (rv_rp rt) = st_mtime st) as Hserves.
    { intros rt. unfold serves. simpl. rewrite lookup_insert_eq.
      destruct s as [? ?]; simpl in *; subst. naive_solver lia. }
    eexists _, _. split; [done|]. destruct (path_includes_cgi local) eqn:Hi; simpl.
    + split_and!; try done. exists (w_next w), (s_rest s). by apply Hserves.
    + split_and!; try done. exists (w_next w). by apply Hserves.
Qed.
End with_external.

(** ** The MIME table *)

(** Each key is a lower-case extension with one dot, in front, and looking it up
    gives its own entry. *)
Definition mime_entry_ok (e : bytes * bytes) : Prop :=
  mime_lookup e.1 mime_table = Some e.2 ∧ tolower <$> e.1 = e.1
  ∧ head e.1 = Some "."%char ∧ "."%char ∉ tail e.1.

Lemma mime_table_ok ext m : (ext, m) ∈ mime_table → mime_entry_ok (ext, m).
Proof.
  revert ext m. assert (Forall mime_entry_ok mime_table) as H.
  { unfold mime_entry_ok. eapply bool_decide_unpack; vm_compute; exact I. }
  rewrite Forall_forall in H. intros ext m. apply H.
Qed.

Lemma strcaseeq_lower (a b k : bytes) : tolower <$> a = tolower <$> b → strcaseeq a k = strcaseeq b k.
Proof. unfold strcaseeq. by intros ->. Qed.

Lemma mime_lookup_lower (a b : bytes) t :
  tolower <$> a = tolower <$> b → mime_lookup a t = mime_lookup b t.
Proof.
  intros Hab. induction t as [|[k m] t IH]; [done|]. unfold mime_lookup; fold mime_lookup.
  by rewrite (strcaseeq_lower a b), IH.
Qed.

Lemma tolower_dot c : tolower c = "."%char ↔ c = "."%char.
Proof. by destruct c as [[] [] [] [] [] [] [] []]. Qed.

Lemma tolower_fmap_dot (s : bytes) : "."%char ∈ s → "."%char ∈ (tolower <$> s).
Proof. intros H. apply list_elem_of_fmap. exists "."%char. by split. Qed.

(** A name with a listed extension, in any case. *)
Lemma mime_lookup_ext e ext m :
  (ext, m) ∈ mime_table → tolower <$> e = ext →
  mime_lookup e mime_table = Some m ∧ ∃ e', e = "."%char :: e' ∧ "."%char ∉ e'.
Proof.
  intros Hin He. apply mime_table_ok in Hin as (Hl & Hlow & Hh & Hd). simpl in *. split.
  - rewrite (mime_lookup_lower e ext) by congruence. done.
  - destruct e as [|c e]; subst ext; [done|].
    
    assert (c = "."%char) as -> by (apply tolower_dot; by injection Hh).
    change (tail (tolower <$> "."%char :: e)) with (tolower <$> e) in Hd. exists e. split; [done|].
    intros Hin%tolower_fmap_dot. done.
Qed.

(** ** Local paths *)

(** The CGI test looks at the first ten bytes: it is a prefix test. *)
Lemma path_includes_cgi_spec local :
  path_includes_cgi local = true ↔ ∃ r, local = B "./cgi-bin/" ++ r.
Proof.
  unfold path_includes_cgi. rewrite bool_decide_eq_true. split.
  - intros [i Hi]. pose proof (strnstr_bound _ _ _ _ Hi) as Hb.
    rewrite length_take in Hb. change (length (B "./cgi-bin/")) with 10 in Hb.
    assert (i = 0) as -> by lia. apply strnstr_Some in Hi as [Hi _].
    exists (drop 10 local). rewrite <-(take_drop 10 local) at 1. f_equal.
    rewrite Hi. rewrite drop_ge; [done|].
    rewrite length_take. change (0 + length (B "./cgi-bin/")) with 10. lia.
  - intros [r ->]. exists 0. unfold strnstr. rewrite take_app_length' by done. done.
Qed.

(** The local path is the part before the question mark of the path, cut to the
    buffer and with a dot in front; the query is the next question-mark-free
    run of bytes. *)
Lemma split_path_eq p :
  split_path p =
  (Some (B "." ++ before "?"%char (take (PATH_MAX - 2) p)),
   (strtok "?"%char (strtok "?"%char (snprintf PATH_MAX (BASE_URL ++ p))).2).1).
Proof.
  unfold split_path. destruct (strtok _ (snprintf _ _)) as [l s] eqn:E. f_equal.
  unfold snprintf in E. replace (PATH_MAX - 1) with (S (PATH_MAX - 2)) in E by size_lia.
  change (BASE_URL ++ p) with ("."%char :: p) in E. cbn [take] in E.
  rewrite strtok_before in E by done. injection E as <- _. f_equal.
  unfold before. cbn [span]. rewrite bool_decide_true by done.
  by destruct (span (λ c, bool_decide (c ≠ "?"%char)) (take (PATH_MAX - 2) p)).
Qed.

(** The query of a request path: the first field between question marks after the
    first one that is not empty. *)
Definition query_text (p : bytes) : option bytes :=
  head (filter (λ f, f ≠ []) (tail (fields "?"%char p))).

Lemma tail_fields_cons d c s : c ≠ d → tail (fields d (c :: s)) = tail (fields d s).
Proof.
  intros Hc. cbn [fields]. rewrite decide_False by done.
  pose proof (fields_not_nil d s). by destruct (fields d s).
Qed.

(** The two strtok calls find the fields. *)
Lemma split_path_fields p :
  split_path p =
  (Some (B "." ++ before "?"%char (take (PATH_MAX - 2) p)), query_text (take (PATH_MAX - 2) p)).
Proof.
  rewrite split_path_eq. f_equal. unfold snprintf.
  replace (PATH_MAX - 1) with (S (PATH_MAX - 2)) by size_lia.
  change (BASE_URL ++ p) with ("."%char :: p). cbn [take]. set (t := take _ p).
  destruct (strtok_words "?"%char ("."%char :: t)) as (r1 & E1 & W1).
  destruct (strtok_words "?"%char r1) as (r2 & E2 & _). rewrite E1. simpl snd. rewrite E2, W1. simpl.
  unfold words, query_text. rewrite <-(tail_fields_cons _ "."%char) by done.
  cbn [fields]. rewrite decide_False by done.
  pose proof (fields_not_nil "?"%char t). destruct (fields "?"%char t) as [|f fs]; [done|].
  by rewrite filter_cons_True.
Qed.

Lemma query_text_length p q : query_text p = Some q → length q ≤ length p.
Proof.
  unfold query_text. intros Hq%head_Some_elem_of. apply list_elem_of_filter in Hq as [_ Hq].
  assert (q ∈ fields "?"%char p) as Hin by (destruct (fields _ p); [done|by right]).
  clear Hq. revert q Hin. induction p as [|c p IH]; intros q; cbn [fields].
  - intros ->%list_elem_of_singleton. done.
  - pose proof (fields_not_nil "?"%char p). destruct (decide (c = _)).
    + intros [->|Hin]%elem_of_cons; [simpl; lia|]. apply IH in Hin. simpl. lia.
    + destruct (fields "?"%char p) as [|f fs]; [done|].
      intros [->|Hin]%elem_of_cons; simpl.
      * specialize (IH f ltac:(by left)). lia.
      * specialize (IH q ltac:(by right)). lia.
Qed.

(** The path components of a local path, and whether walking along them stays
    under the directory the walk starts in, [d] levels down. *)
Abbreviation components := (fields "/"%char).

Fixpoint stays_inside (d : nat) (cs : list bytes) : bool :=
  match cs with
  | [] => true
  | c :: cs' =>
      if decide (c = B "..") then
        match d with 0 => false | S d' => stays_inside d' cs' end
      else if decide (c = [] ∨ c = B ".") then stays_inside d cs'
      else stays_inside (S d) cs'
  end.

Lemma stays_inside_no_up d cs x :
  B ".." ∉ cs →
  stays_inside d (cs ++ [x]) = false ↔
  d = 0 ∧ x = B ".." ∧ Forall (λ c, c = [] ∨ c = B ".") cs.
Proof.
  revert d; induction cs as [|c cs IH]; intros d Hcs; simpl.
  - case_decide; subst.
    + destruct d; simpl; [|naive_solver]. split; [|done]. intros _. by split_and!.
    + case_decide; naive_solver.
  - rewrite elem_of_cons in Hcs. rewrite decide_False by naive_solver.
    case_decide as Hc; rewrite IH by naive_solver; rewrite Forall_cons; naive_solver.
Qed.

Lemma fields_last cs : cs ≠ @nil bytes → cs = removelast cs ++ [List.last cs []].
Proof. intros. by apply app_removelast_last. Qed.

(** No component of an accepted path's local path but the last is "..". *)
Lemma accepted_no_up p :
  head p = Some "/"%char → find_sub (B "../") p = None →
  B ".." ∉ removelast (components (B "." ++ before "?"%char (take (PATH_MAX - 2) p))).
Proof.
  intros Hh Ht (a & b & Hab)%fields_inner.
  destruct (take_before "?"%char (PATH_MAX - 2) p) as [r Hr].
  set (l := before "?"%char (take (PATH_MAX - 2) p)) in *. clearbody l.
  destruct a as [|x a].
  - injection Hab as Hl. rewrite Hr, Hl in Hh. done.
  - injection Hab as _ Hl. rewrite find_sub_None in Ht.
    specialize (Ht (length a)). rewrite Hr, Hl in Ht.
    rewrite <-!app_assoc, drop_app_length in Ht.
    specialize (Ht ltac:(rewrite length_app; lia)). done.
Qed.

(** The stream that is served is the one new entry of the table. *)
Lemma served_stream w w' v f f' c st data m s :
  world_ok w → w_files w' = <[f := s]> (w_files w) → serves w w' v f' c st data m →
  w_files w !! f = None →
  ∃ f s, w_files w !! f = None ∧ w_files w' = <[f := s]> (w_files w)
         ∧ rp_file_ptr (rv_rp v) = Some f ∧ file_ptr (rv_client v) = Some f.
Proof.
  intros Hw Hf (_ & Hle & Hc & Hp & _ & _ & _ & Hl) Hn. rewrite Hc, Hp.
  exists f', s. assert (f' = f) as ->; [|by split_and!].
  rewrite Hf, lookup_insert in Hl. case_decide; [done|].
  by rewrite (files_beyond w f') in Hl.
Qed.

(** Components other than .. stay inside. *)
Lemma stays_inside_plain d cs : B ".." ∉ cs → stays_inside d cs = true.
Proof.
  revert d. induction cs as [|c cs IH]; intros d Hl; simpl; [done|].
  rewrite elem_of_cons in Hl. rewrite decide_False by naive_solver.
  case_decide; apply IH; naive_solver.
Qed.

(** A path less a leading slash. *)
Lemma path_ok_tail p : head p = Some "/"%char → path_ok ("/"%char :: p) → path_ok p.
Proof.
  intros Hh (_ & H1 & H2 & H3 & Hl & Ht). rewrite not_elem_of_cons in H1, H2, H3. simpl in Hl.
  split_and!; [done|apply H1|apply H2|apply H3|lia|].
  rewrite find_sub_None in Ht |- *. intros i Hi. apply (Ht (S i)). simpl. lia.
Qed.

(** Slashes and a final .. . *)
Lemma slashes_up_ok n :
  0 < n → n ≤ PATH_MAX - 4 → path_ok (replicate n "/"%char ++ B "..").
Proof.
  intros Hn Hl. assert (∀ c, c ≠ "/"%char → c ∉ B ".." → c ∉ replicate n "/"%char ++ B "..") as Hc.
  { intros c H1 H2. rewrite not_elem_of_app. split; [|done].
    intros Hin%elem_of_replicate. by destruct Hin. }
  split_and!.
  - by destruct n; [lia|].
  - apply Hc; by_eval.
  - apply Hc; by_eval.
  - apply Hc; by_eval.
  - rewrite length_app, length_replicate. simpl. size_lia.
  - clear. induction n as [|n IH]; [done|]. rewrite find_sub_None in IH |- *.
    intros [|i] Hi; [done|]. simpl in Hi |- *. apply IH. lia.
Qed.

Lemma slashes_up_leave n :
  0 < n → stays_inside 0 (components (B "." ++ replicate n "/"%char ++ B "..")) = false.
Proof.
  intros Hn. assert (∀ k, fields "/"%char (replicate k "/"%char ++ B "..") = replicate k [] ++ [B ".."])
    as Hf by (induction k as [|k IH]; [done|]; cbn [replicate app fields];
      by rewrite decide_True, IH).
  destruct n as [|n]; [lia|].
  change (B "." ++ replicate (S n) "/"%char ++ B "..")
    with (B "." ++ "/"%char :: replicate n "/"%char ++ B "..").
  rewrite fields_app by by_eval. rewrite Hf. simpl. clear. by induction n.
Qed.

Section properties.
Context `{External}.

(** A path without a question mark and short enough is resolved whole. *)
Lemma resolve_plain g c req rp w :
  "?"%char ∉ path req → length (path req) ≤ PATH_MAX - 2 →
  ∃ v w', resolve_path g c req rp w = (Ret v, w')
    ∧ realises c (B "." ++ path req)
        (resolution_of (e_fopen (w_env w)) (has_flag g C_FLAG) (B "." ++ path req)) v w w'.
Proof.
  intros Hq Hl. pose proof (split_path_eq (path req)) as Hs.
  rewrite take_ge in Hs by done. rewrite before_id in Hs by done.
  destruct (resolve_path_eval g c req rp w _ _ Hs) as (v & w' & Hv & Hr & _). eauto.
Qed.

(** C18. resolve_path implements its description. Whatever the request
    path, it returns. The local path it opens is a dot and what the path, cut to
    PATH_MAX - 2 bytes, holds before its first question mark; the query string it
    leaves is the text between that question mark and the next, passing over empty
    ones, or what it was when there is none. Its return value, client and
    ResolvedPath are those of [resolution_of] that local path: an error code for a
    failed open (403 for EACCES, else 404), a failed fstat (500) or a CGI path
    without the flag (501); an index file, then a listing, for a directory; a CGI
    program; or a file with its size, date, type and an open stream holding its
    contents. *)
Theorem resolve_path_refines g c req rp w :
  let p := take (PATH_MAX - 2) (path req) in
  let local := B "." ++ before "?"%char p in
  ∃ v w',
    resolve_path g c req rp w = (Ret v, w')
    ∧ realises c local (resolution_of (e_fopen (w_env w)) (has_flag g C_FLAG) local) v w w'
    ∧ query_string (rv_rp v) = default (query_string rp) (query_text p).
Proof.
  intros p local. pose proof (split_path_fields (path req)) as Hs. fold p in Hs.
  destruct (resolve_path_eval g c req rp w _ _ Hs) as (v & w' & Hv & Hr & Hq & _).
  exists v, w'. split; [exact Hv|split; [exact Hr|]]. rewrite Hq.
  destruct (query_text p) as [q|] eqn:E; [|done]. apply query_text_length in E. simpl.
  unfold p in E. rewrite length_take in E. apply take_ge. lia.
Qed.

(** C29. Streams of a resolution. Every stream or directory it opens it closes
    while open, except the one it hands over: after a served file or a CGI
    program the stream table has exactly one new entry, held by both the
    ResolvedPath and the client; after a listing or a failure other than 501 it
    is what it was. *)
Theorem resolve_path_streams g c req rp w local q :
  world_ok w →
  split_path (path req) = (Some local, q) →
  ∃ v w' evs,
    resolve_path g c req rp w = (Ret v, w')
    ∧ world_ok w' ∧ w_blocks w' = w_blocks w ∧ w_env w' = w_env w
    ∧ extends w w' evs ∧ Forall ev_live evs
    ∧ match resolution_of (e_fopen (w_env w)) (has_flag g C_FLAG) local with
      | ServeFile _ _ _ | RunCgi _ =>
          ∃ f s, w_files w !! f = None ∧ w_files w' = <[f := s]> (w_files w)
                 ∧ rp_file_ptr (rv_rp v) = Some f ∧ file_ptr (rv_client v) = Some f
      | ListDir _ => w_files w' = w_files w
      | Failed r => r ≠ RESP_501 → w_files w' = w_files w
      end.
Proof.
  intros Hw Hs.
  destruct (resolve_path_eval g c req rp w local q Hs) as (v & w' & Hv & Hr & _ & Hw').
  destruct (resolution_world_keeps w (e_fopen (w_env w)) (has_flag g C_FLAG) local Hw)
    as (evs & Hok & Hb & He & Hx & Hl & Hf).
  exists v, w', evs. subst w'. split_and!; try done.
  unfold realises in Hr. destruct (resolution_of _ _ local) as [r|st data m|st|st].
  - exact Hf.
  - destruct Hf as (f & s & Hn & Hf), Hr as (_ & f' & Hr).
    by apply (served_stream _ _ _ _ _ _ _ _ _ _ Hw Hf Hr).
  - destruct Hf as (f & s & Hn & Hf), Hr as (_ & f' & data & Hr).
    by apply (served_stream _ _ _ _ _ _ _ _ _ _ Hw Hf Hr).
  - exact Hf.
Qed.


(** C40. Extra slashes pass the CGI guard. The parser accepts a request for
    //cgi-bin/NAME as it does one for /cgi-bin/NAME. Where .//cgi-bin/NAME and
    ./cgi-bin/NAME are the same file, as POSIX says of repeated slashes, the two
    are treated apart with CGI disabled: the second is refused with 501, and for the
    first the program's own text is served as a file. *)
Theorem cgi_guard_bypassed g c rp out resp le w name h t s st :
  let p := B "/cgi-bin/" ++ name in
  let req q := render_request (B "GET") q (B "HTTP/1.0") h in
  path_ok ("/"%char :: p) → "?"%char ∉ name → length p < PATH_MAX - 2 → NUL ∉ h →
  gmtime_iso (e_now (w_env w)) = Some t →
  e_fopen (w_env w) (B "./" ++ p) = e_fopen (w_env w) (B "." ++ p) →
  e_fopen (w_env w) (B "." ++ p) = inr s → s_stat s = Some st → st_isdir st = false →
  has_flag g C_FLAG = false →
  (∃ r v w', parse_request g (Some (req p)) (length (req p)) out resp le w = (Ret r, w)
     ∧ p_ret r = 0%Z ∧ resolve_path g c (p_out r) rp w = (Ret v, w')
     ∧ rv_ret v = (-1)%Z ∧ rv_client v = set_resp c RESP_501)
  ∧ ∃ r v w',
      parse_request g (Some (req ("/"%char :: p))) (length (req ("/"%char :: p))) out resp le w
        = (Ret r, w)
      ∧ p_ret r = 0%Z ∧ resolve_path g c (p_out r) rp w = (Ret v, w')
      ∧ path_type (rv_rp v) = IS_FILE
      ∧ ∃ f, serves w w' v f c st (s_rest s) (mime_of (B "./" ++ p) (s_rest s)).
Proof.
  intros p req Hp Hq Hl Hnh Ht Hsame Hf Hst Hd Hg.
  assert ("?"%char ∉ p) as Hqp by (unfold p; rewrite not_elem_of_app; split; [by_eval|done]).
  split.
  - destruct (parse_rendered g HTTP_GET HTTP_1_0 p h out resp le w t) as (r & E & Hr & _ & _ & Hpath);
      [done|by left|by left|by eapply path_ok_tail|done|].
    destruct (resolve_plain g c (p_out r) rp w) as (v & w' & Ev & Hv); [by rewrite Hpath|rewrite Hpath; lia|].
    exists r, v, w'. split_and!; [exact E|done|exact Ev|..]; rewrite Hpath in Hv;
      unfold resolution_of in Hv; rewrite Hf, Hst, Hg in Hv;
      rewrite (proj2 (path_includes_cgi_spec _)) in Hv by (by exists name); apply Hv.
  - destruct (parse_rendered g HTTP_GET HTTP_1_0 ("/"%char :: p) h out resp le w t)
      as (r & E & Hr & _ & _ & Hpath); [done|by left|by left|done|done|].
    destruct (resolve_plain g c (p_out r) rp w) as (v & w' & Ev & Hv);
      [rewrite Hpath; by apply not_elem_of_cons|rewrite Hpath; cbn [length]; lia|].
    exists r, v, w'. split; [exact E|]. split; [done|]. split; [exact Ev|]. rewrite Hpath in Hv.
    change (B "." ++ "/"%char :: p) with (B "./" ++ p) in Hv.
    unfold resolution_of in Hv. rewrite Hsame, Hf, Hst, Hd in Hv.
    assert (path_includes_cgi (B "./" ++ p) = false) as Hi.
    { apply not_true_is_false. rewrite path_includes_cgi_spec.
      intros [x Hx]. apply (f_equal (take 3)) in Hx. by vm_compute in Hx. }
    rewrite Hi in Hv. exact Hv.
Qed.

(** C31. Containment. The path of a request the parser accepts stays, as a local path,
    in the directory the server runs in at every component but the last; it leaves
    that directory only by ending in the component .. after components that are all
    empty or a dot, and then by one level. *)
Theorem accepted_path_containment g b len out resp le w r w' local q :
  parse_request g (Some b) len out resp le w = (Ret r, w') → p_ret r = 0%Z →
  split_path (path (p_out r)) = (Some local, q) →
  let inner := removelast (components local) in
  stays_inside 0 inner = true
  ∧ (stays_inside 0 (components local) = false ↔
     List.last (components local) [] = B ".." ∧ Forall (λ c, c = [] ∨ c = B ".") inner).
Proof.
  intros Hr Hok Hs. destruct (parse_request_accepts _ _ _ _ _ _ _ _ _ Hr Hok)
    as (_ & _ & _ & Hh & _ & Ht).
  rewrite split_path_eq in Hs. injection Hs as <- _.
  pose proof (accepted_no_up _ Hh Ht) as Hno. cbv zeta.
  set (cs := components _) in *.
  assert (cs = removelast cs ++ [List.last cs []]) as Hcs
    by (apply fields_last; unfold cs; apply fields_not_nil).
  split; [by apply stays_inside_plain|].
  rewrite Hcs at 1. rewrite stays_inside_no_up by done. naive_solver.
Qed.


(** Truncation at the limit. A path short enough to leave room for the dot
    and the NUL is mapped whole; the longest path the parser accepts loses its
    last byte, so another file is opened. *)
Theorem split_path_truncates p :
  "?"%char ∉ p → length p < PATH_MAX →
  (split_path p).1 =
    Some (B "." ++ if decide (length p = PATH_MAX - 1) then take (PATH_MAX - 2) p else p).
Proof.
  intros Hq Hl. rewrite split_path_eq. simpl. rewrite before_id.
  - case_decide; [done|]. by rewrite take_ge by lia.
  - intros Hin. apply Hq. apply elem_of_take in Hin as (i & Hi & _).
    by eapply list_elem_of_lookup_2.
Qed.

(** A request with a query: the local path is what precedes the first
    question mark; the query handed on is the text up to the next one, so a
    query that itself holds a question mark is cut there. *)
Lemma split_path_query p q r :
  "?"%char ∉ p → "?"%char ∉ q → q ≠ [] → length (p ++ "?"%char :: q ++ r) ≤ PATH_MAX - 2 →
  r = [] ∨ head r = Some "?"%char →
  split_path (p ++ "?"%char :: q ++ r) = (Some (B "." ++ p), Some q).
Proof.
  intros Hp Hq Hne Hlen Hr. unfold split_path, snprintf.
  rewrite take_ge by (rewrite length_app; simpl; size_lia).
  rewrite app_assoc, strtok_app; [|set_solver|done].
  destruct Hr as [->|Hr].
  - rewrite app_nil_r, strtok_block by done. done.
  - destruct r as [|c r]; [done|]. injection Hr as ->. by rewrite strtok_app.
Qed.

(** The file type comes from the extension, in any letter case. A local path
    always holds a dot, so the extension table is always consulted; a listed
    extension decides the type whatever the file holds, and only otherwise is
    libmagic asked. *)
Theorem mime_of_extension p ext m data :
  (ext, m) ∈ mime_table →
  ∀ e, tolower <$> e = ext →
  mime_of (p ++ e) data = Some m
  ∧ ∀ local, is_Some (strrchr (B "." ++ local) "."%char).
Proof.
  intros Hin e He. split; [|intros local; apply strrchr_is_Some; apply list_elem_of_here].
  destruct (mime_lookup_ext e ext m Hin He) as (Hl & e' & -> & Hdot).
  unfold mime_of. rewrite strrchr_last by done. cbn [mbind option_bind]. by rewrite Hl.
Qed.

End properties.

(** * Witnesses *)

Definition get_req (p : bytes) : Request := mkRequest HTTP_GET HTTP_1_0 [] p.

Lemma resolve_path_refines_witness :
  ∃ v w', resolve_path globals_init blank_client (get_req (B "/d?x?y")) rp_zero sample_world
            = (Ret v, w')
    ∧ path_type (rv_rp v) = IS_FILE ∧ query_string (rv_rp v) = B "x".
Proof.
  destruct (resolve_path_refines globals_init blank_client (get_req (B "/d?x?y")) rp_zero sample_world)
    as (v & w' & H1 & H2 & H3).
  exists v, w'. split; [exact H1|]. split; [exact (proj1 H2)|exact H3].
Defined.

Lemma resolve_path_streams_witness :
  ∃ v w' evs,
    resolve_path globals_init blank_client (get_req (B "/d")) rp_zero sample_world = (Ret v, w')
    ∧ extends sample_world w' evs ∧ Forall ev_live evs.
Proof.
  destruct (resolve_path_streams globals_init blank_client (get_req (B "/d")) rp_zero sample_world
    (B "./d") None (world_of_ok _) ltac:(vm_compute; reflexivity))
    as (v & w' & evs & H1 & _ & _ & _ & H2 & H3 & _).
  exists v, w', evs. split; [exact H1|split; [exact H2|exact H3]].
Defined.


Lemma cgi_guard_bypassed_witness :
  ∃ r v w',
    parse_request globals_init (Some (B "GET //cgi-bin/run HTTP/1.0" ++ HEADER_END)) 30 request_zero
      NUM_CLIENT_RESP log_zero sample_world = (Ret r, sample_world)
    ∧ resolve_path globals_init blank_client (p_out r) rp_zero sample_world = (Ret v, w')
    ∧ path_type (rv_rp v) = IS_FILE.
Proof.
  destruct (cgi_guard_bypassed globals_init blank_client rp_zero request_zero NUM_CLIENT_RESP
    log_zero sample_world (B "run") [] (B "2024-11-18T22:06:07Z")
    (mkStream (Some (mkStat false 9 0)) (B "#!/bin/sh")) (mkStat false 9 0))
    as (_ & r & v & w' & H1 & _ & H2 & H3 & _);
    [by_eval|by_eval|by_eval|by_eval|vm_compute; reflexivity..|].
  exists r, v, w'. split; [exact H1|split; [exact H2|exact H3]].
Defined.

Lemma accepted_path_containment_witness :
  stays_inside 0 (components (B "./a/..")) = true.
Proof.
  destruct (parse_request globals_init (Some (B "GET /a/.. HTTP/1.0" ++ HEADER_END)) 22 request_zero
    NUM_CLIENT_RESP log_zero quiet_world) as [o w'] eqn:E.
  pose proof E as Ev. vm_compute in Ev. injection Ev as <- <-.
  destruct (accepted_path_containment globals_init (B "GET /a/.. HTTP/1.0" ++ HEADER_END) 22 request_zero
    NUM_CLIENT_RESP log_zero quiet_world _ _ (B "./a/..") None E
    ltac:(reflexivity) ltac:(vm_compute; reflexivity)) as [_ [H _]].
  destruct (stays_inside 0 (components (B "./a/.."))) eqn:Es; [reflexivity|].
  exfalso. destruct (H eq_refl) as [_ HF].
  apply (bool_decide_eq_true_2 _) in HF. vm_compute in HF. discriminate HF.
Defined.


Lemma split_path_truncates_witness :
  (split_path ("/"%char :: replicate (PATH_MAX - 2) "x"%char)).1
  = Some (B "./" ++ replicate (PATH_MAX - 3) "x"%char).
Proof.
  rewrite split_path_truncates; [vm_compute; reflexivity|by_eval|by_eval].
Defined.

Lemma mime_of_extension_witness :
  mime_of (B "./dir.zip/Page.HTML") (B "any") = Some (B "text/html").
Proof.
  apply (mime_of_extension (B "./dir.zip/Page") (B ".html") (B "text/html") (B "any")
    ltac:(by_eval) (B ".HTML") ltac:(vm_compute; reflexivity)).
Defined.
