(* ===== verification/Response.v ===== *)
(** * Response: building responses (response/build_error_response.c,
    response/build_okay_response.c)

    The error table and builder, the three builders of a 200 response (file,
    directory listing, CGI) and their dispatcher, each staging a complete HTTP
    message in the client's output buffer; a reference reader of such messages;
    and the theorems relating the two. *)

From S2P Require Import Prelude CLib Types OS Flags Logging ParseRequest ResolvePath.

Definition SERVER_VERSION : bytes := B "Simple_Server V2".

(** ** Error responses *)

Definition HTML_RESPONSE : bytes := B "text/html".
Definition TEXT_RESPONSE : bytes := B "text/plain".

Record Response := mkResponse { status_line : bytes; r_mime : bytes; r_body : bytes }.

(** The table [error_responses]; it has no entry for RESP_200 or past its end. *)
Definition error_responses (r : client_response) : option Response :=
  match r with
  | RESP_400 => Some (mkResponse (B "400 Bad Request") TEXT_RESPONSE [])
  | RESP_403 => Some (mkResponse (B "403 Forbidden") TEXT_RESPONSE [])
  | RESP_404 => Some (mkResponse (B "404 Not Found") HTML_RESPONSE
      (B "<html><body><h1>404 Not Found</h1><h3>Sorry, the file you are looking for doesn't exist</h3><br><br><p>Or does it?!?!</p><br><br><br><br><p>No... it doesn't</p></body></html>"))
  | RESP_414 => Some (mkResponse (B "414 URI Too Long") TEXT_RESPONSE [])
  | RESP_500 => Some (mkResponse (B "500 Internal Server Error") TEXT_RESPONSE [])
  | RESP_501 => Some (mkResponse (B "501 Not Implemented") HTML_RESPONSE
      (B "<html><body><h1>501 CGI Not Enabled on Server</h1><h3>CGI application requires the server to be run with the CGI flag</h3><p>Please restart the simple_server application with the -c flag and the location of the cgi-bin directory</p><p><b>Eg:<br/></b> ./simple_server -c ./cgi-bin</p></body></html>"))
  | RESP_505 => Some (mkResponse (B "505 HTTP Version Not Supported") TEXT_RESPONSE [])
  | RESP_200 | NUM_CLIENT_RESP => None
  end.

(** A header line, and a message head: its lines and the blank line. *)
Definition header (name : string) (value : bytes) : bytes := B name ++ B ": " ++ value.
Definition head_bytes (lines : list bytes) : bytes :=
  concat ((λ l, l ++ CRLF) <$> lines) ++ CRLF.

(** The lines the error builder prints. *)
Definition error_head (e : Response) (date : bytes) : list bytes :=
  [ B "HTTP/1.0 " ++ status_line e; header "Date" date; header "Server" SERVER_VERSION;
    header "Content-Type" (r_mime e); header "Content-Length" (fmt_zu (zlen (r_body e)));
    header "Connection" (B "close") ].

(** Results of the builders: the return value and the client. *)
Definition build_error_response (c : Client) (req : Request) : M (Z * Client) :=
  if (resp_num (resp_val c) <? resp_num RESP_400)
     || (resp_num NUM_CLIENT_RESP <=? resp_num (resp_val c))
  then mret (-1, c)%Z
  else match error_responses (resp_val c) with
  | None => crash
  | Some error_resp =>
      out_stream ← open_memstream;
      match out_stream with
      | None => mret (-1, c)%Z
      | Some (f, b) =>
          head ← stream_write [] (head_bytes (error_head error_resp (time_received req)));
          let c := set_header_len (set_out c (Some (Block b head)) (length head)) (length head) in
          if decide (method req = HTTP_HEAD) then
            let c := set_body_len c (zlen (r_body error_resp)) in
            _ ← fclose f; mret (0, c)%Z
          else
            out ← stream_write head (r_body error_resp);
            _ ← fclose f;
            let c := set_out c (Some (Block b out)) (length out) in
            mret (0%Z, set_body_len c (Z.of_nat (length out - header_len c)))
      end
  end.

(** ** Names *)

Definition method_to_string (m : http_method) : bytes :=
  match m with
  | HTTP_GET => B "GET"
  | HTTP_POST => B "POST"
  | HTTP_HEAD => B "HEAD"
  | _ => B "UNKNOWN"
  end.

Definition version_to_string (v : http_version) : bytes :=
  match v with
  | HTTP_1_0 => B "HTTP/1.0"
  | HTTP_1_1 => B "HTTP/1.1"
  | HTTP_VERSION_UNSUPPORTED => B "HTTP_UNSUPPORTED"
  | _ => B "HTTP_UNKNOWN"
  end.

(** ** Files *)

(** The lines of a 200 response that has a modification time. *)
Definition okay_head (date modified mime : bytes) (len : bytes) : list bytes :=
  [ B "HTTP/1.0 200 OK"; header "Date" date; header "Server" SERVER_VERSION;
    header "Last-Modified" modified; header "Content-Type" mime;
    header "Content-Length" len; header "Connection" (B "close") ].

(** The size of the local buffer of the fread loop, and of the first block for a
    CGI program's output. *)
Definition READ_SIZE : nat := Z.to_nat 8192.
Lemma READ_SIZE_pos : 0 < READ_SIZE.
Proof. unfold READ_SIZE. lia. Qed.
#[global] Opaque READ_SIZE.

(** The fread loop: 8192 bytes at a time until nothing is read, each written to the
    memory stream. *)
Fixpoint copy_file (fuel : nat) (f : fileptr) (out : bytes) : M bytes :=
  match fuel with
  | 0 => no_fuel
  | S fuel' =>
      buf ← fread READ_SIZE f;
      match buf with
      | [] => mret out
      | _ => out ← stream_write out buf; copy_file fuel' f out
      end
  end.

(** Fuel for the loop: one more than the bytes left to read. *)
Definition file_fuel (f : fileptr) (w : World) : nat :=
  S (from_option (λ s, length (s_rest s)) 0 (f ≫= λ i, w_files w !! i)).

Definition build_response_file (c : Client) (rp : ResolvedPath) (req : Request)
    : M (Z * Client) :=
  match gmtime_iso (last_mod rp) with
  | None => mret ((-1)%Z, set_resp c RESP_500)
  | Some mod_time =>
      out_stream ← open_memstream;
      match out_stream with
      | None => mret ((-1)%Z, c)
      | Some (f, b) =>
          head ← stream_write [] (head_bytes (okay_head (time_received req) mod_time
                   (default (B "(null)") (mime_type rp)) (fmt_zu (rp_file_size rp))));
          let c := set_header_len (set_out c (Some (Block b head)) (length head)) (length head) in
          if decide (method req = HTTP_HEAD) then
            let c := set_body_len c (u64 (file_size c)) in
            _ ← fclose f; mret (0%Z, c)
          else
            w ← get;
            out ← copy_file (file_fuel (rp_file_ptr rp) w) (rp_file_ptr rp) head;
            _ ← fclose f;
            let c := set_out c (Some (Block b out)) (length out) in
            mret (0%Z, set_body_len c (Z.of_nat (length out - header_len c)))
      end
  end.

(** ** Directory listings *)

Definition START_HTML_STRING : bytes := B "<html><body><h1>Directory:</h1><ul>".
Definition END_HTML_STRING : bytes := B "</ul></body></html>".
Definition EMPTY_DIR_HTML : bytes := B "<h2>Empty directory</h2>".
Definition DIR_ICON : bytes := dq "<svg xmlns='http://www.w3.org/2000/svg' width='16' height='16' fill='currentColor' class='bi bi-folder' viewBox='0 0 16 16'><path d='M.54 3.87.5 3a2 2 0 0 1 2-2h3.672a2 2 0 0 1 1.414.586l.828.828A2 2 0 0 0 9.828 3h3.982a2 2 0 0 1 1.992 2.181l-.637 7A2 2 0 0 1 13.174 14H2.826a2 2 0 0 1-1.991-1.819l-.637-7a2 2 0 0 1 .342-1.31zM2.19 4a1 1 0 0 0-.996 1.09l.637 7a1 1 0 0 0 .995.91h10.348a1 1 0 0 0 .995-.91l.637-7A1 1 0 0 0 13.81 4zm4.69-1.707A1 1 0 0 0 6.172 2H2.5a1 1 0 0 0-1 .981l.006.139q.323-.119.684-.12h5.396z'/></svg>".
Definition FILE_ICON : bytes := dq "<svg xmlns='http://www.w3.org/2000/svg' width='16' height='16' fill='currentColor' class='bi bi-file-earmark' viewBox='0 0 16 16'><path d='M14 4.5V14a2 2 0 0 1-2 2H4a2 2 0 0 1-2-2V2a2 2 0 0 1 2-2h5.5zm-3 0A1.5 1.5 0 0 1 9.5 3V1H4a1 1 0 0 0-1 1v12a1 1 0 0 0 1 1h8a1 1 0 0 0 1-1V4.5z'/></svg>".

(** The macro [HTML_STRING_LEN], added to [n]. *)
Definition html_string_len (n : nat) : nat :=
  n + length START_HTML_STRING + length END_HTML_STRING.

(** The item of one directory entry. *)
Definition dir_entry (dir_path : bytes) (d : dirent) : bytes :=
  B "<li>" ++ (if d_isdir d then DIR_ICON else FILE_ICON) ++ dq " <a href='/" ++ dir_path
  ++ B "/" ++ d_name d ++ dq "'>" ++ d_name d ++ B "</a></li>".

(** The readdir loop: entries whose name starts with a dot are skipped. *)
Fixpoint list_entries (dir_path : bytes) (ds : list dirent) (buf : bytes) : M bytes :=
  match ds with
  | [] => mret buf
  | d :: ds' =>
      if bool_decide (head (d_name d) = Some "."%char) then list_entries dir_path ds' buf
      else buf ← stream_write buf (dir_entry dir_path d); list_entries dir_path ds' buf
  end.

(** The releases of the error paths and of the end. *)
Definition release_dir (bf : nat) (dir_list : nat) (d : nat) : M unit :=
  _ ← fclose bf; _ ← free (Some dir_list); closedir d.

Definition build_response_dir (c : Client) (rp : ResolvedPath) (req : Request)
    : M (Z * Client) :=
  if negb (bool_decide (path_type rp = IS_DIR)) then mret ((-1)%Z, set_resp c RESP_500)
  else
    let dir_path := tail (path req) in
    dir ← opendir dir_path;
    match dir with
    | None => mret ((-1)%Z, set_resp c RESP_500)
    | Some (d, entries) =>
        body_buffer ← open_memstream;
        match body_buffer with
        | None => _ ← closedir d; mret ((-1)%Z, set_resp c RESP_500)
        | Some (bf, dir_list) =>
            list ← list_entries dir_path entries [];
            match gmtime_iso (last_mod rp) with
            | None => _ ← release_dir bf dir_list d; mret ((-1)%Z, set_resp c RESP_500)
            | Some mod_time =>
                out_stream ← open_memstream;
                match out_stream with
                | None => _ ← release_dir bf dir_list d; mret ((-1)%Z, set_resp c RESP_500)
                | Some (f, b) =>
                    let local_body_len :=
                      if decide (0 < length list) then html_string_len (length list)
                      else html_string_len 0 + length EMPTY_DIR_HTML in
                    head ← stream_write [] (head_bytes (okay_head (time_received req) mod_time
                             HTML_RESPONSE (fmt_zu (Z.of_nat local_body_len))));
                    let c := set_header_len (set_out c (Some (Block b head)) (length head))
                               (length head) in
                    if decide (method req = HTTP_HEAD) then
                      _ ← fclose f; _ ← release_dir bf dir_list d; mret (0%Z, c)
                    else
                      out ← stream_write head START_HTML_STRING;
                      out ← stream_write out
                              (if decide (0 < length list) then list else EMPTY_DIR_HTML);
                      out ← stream_write out END_HTML_STRING;
                      _ ← fclose f;
                      let c := set_out c (Some (Block b out)) (length out) in
                      _ ← release_dir bf dir_list d;
                      mret (0%Z, set_body_len c (Z.of_nat (length out - header_len c)))
                end
            end
        end
    end.

(** ** CGI programs *)

Definition MAX_HEADER_BUF : nat := 750.

(** The child's copy of the path, up to the question mark, with a dot in front. *)
Definition cgi_local_path (p : bytes) : bytes := "."%char :: before "?"%char p.

(** The program the child executes and the environment it sets. *)
Definition cgi_child (c : Client) (rp : ResolvedPath) (req : Request) : cgi_call :=
  mkCgiCall (cgi_local_path (path req)) [cgi_local_path (path req)]
    [ (B "QUERY_STRING", query_string rp);
      (B "REQUEST_METHOD", method_to_string (method req));
      (B "SCRIPT_NAME", cgi_local_path (path req));
      (B "SERVER_PROTOCOL", version_to_string (version req));
      (B "GATEWAY_INTERFACE", B "CGI/1.1");
      (B "REMOTE_ADDR", client_addr c);
      (B "SERVER_SOFTWARE", SERVER_VERSION) ].

(** The loop reading the child's output into a block of [capacity] bytes, doubled
    when full. A read takes at most the room left; what it leaves stays queued.
    [None] stands for the error exits, which release the block and the pipe. *)
Fixpoint read_cgi (fuel : nat) (q : list pipe_result) (pipe0 : Z) (b capacity : nat)
    (resp : bytes) : M (option (nat * bytes)) :=
  match fuel with
  | 0 => no_fuel
  | S fuel' =>
      grown ← (if decide (length resp = capacity) then
                 tmp ← realloc (Some b);
                 match tmp with
                 | None => _ ← free (Some b); _ ← close pipe0; mret None
                 | Some b' => mret (Some (b', capacity * 2))
                 end
               else mret (Some (b, capacity)));
      match grown with
      | None => mret None
      | Some (b, capacity) =>
          match q with
          | [] | PipeData [] :: _ => mret (Some (b, resp))
          | PipeData data :: q' =>
              let room := capacity - length resp in
              let rest := match drop room data with [] => q' | d => PipeData d :: q' end in
              read_cgi fuel' rest pipe0 b capacity (resp ++ take room data)
          | PipeErr e :: q' =>
              if decide (e = EINTR) then read_cgi fuel' q' pipe0 b capacity resp
              else _ ← free (Some b); _ ← close pipe0; mret None
          end
      end
  end.

(** Fuel for the loop: each turn consumes a byte or a queued result. *)
Definition pipe_size (r : pipe_result) : nat :=
  match r with PipeData d => S (length d) | PipeErr _ => 1 end.
Definition pipe_fuel (q : list pipe_result) : nat := S (sum_list (pipe_size <$> q)).

Definition cgi_head (date : bytes) (len : nat) : list bytes :=
  [ B "HTTP/1.0 200 OK"; header "Date" date; header "Server" SERVER_VERSION;
    header "Content-Type" HTML_RESPONSE;
    header "Content-Length" (fmt_zu (Z.of_nat len)); header "Connection" (B "close") ].

(** The parent once the output is read: waitpid, the exit status, the message. *)
Definition cgi_finish (c : Client) (req : Request) (cg : cgi_result) (b : nat) (resp : bytes)
    : M (Z * Client) :=
  if negb (cg_wait_ok cg) then _ ← free (Some b); mret ((-1)%Z, set_resp c RESP_500)
  else if negb (cg_exited cg) || negb (cg_status cg =? 0)%Z then
    _ ← free (Some b); mret ((-1)%Z, set_resp c RESP_500)
  else
    let text := head_bytes (cgi_head (time_received req) (length resp)) in
    let stored := snprintf MAX_HEADER_BUF text in
    out ← malloc;
    match out with
    | None =>
        _ ← free (Some b);
        mret ((-1)%Z, set_resp (set_out c None (output_length c)) RESP_500)
    | Some o =>
        let len := length text + length resp in
        let c := set_out c (Some (Block o (stored ++ resp))) len in
        mret (0%Z, set_header_len (set_body_len c (zlen resp)) (length text))
    end.

Definition build_response_cgi (g : Globals) (c : Client) (rp : ResolvedPath) (req : Request)
    : M (Z * Client) :=
  if negb (has_flag g C_FLAG) then mret ((-1)%Z, set_resp c RESP_501)
  else
    w ← get;
    let cg := e_cgi (w_env w) (cgi_child c rp req) in
    match cg_pipe cg with
    | None => mret ((-1)%Z, set_resp c RESP_500)
    | Some (pipe0, pipe1) =>
        if decide (PATH_MAX < length (query_string rp)) then
          mret ((-1)%Z, set_resp c RESP_414)
        else if negb (cg_fork_ok cg) then
          _ ← close pipe0; _ ← close pipe1; mret ((-1)%Z, set_resp c RESP_500)
        else
          _ ← emit (EvExec (cgi_child c rp req));
          _ ← close pipe1;
          cgi_response ← malloc;
          match cgi_response with
          | None => _ ← close pipe0; mret ((-1)%Z, set_resp c RESP_500)
          | Some b =>
              r ← read_cgi (pipe_fuel (cg_output cg)) (cg_output cg) pipe0 b READ_SIZE [];
              match r with
              | None => mret ((-1)%Z, set_resp c RESP_500)
              | Some (b, resp) => _ ← close pipe0; cgi_finish c req cg b resp
              end
          end
    end.

(** ** The dispatcher *)

(** After a failed builder: reset the sizes, free the output buffer (the pointer
    keeps its value) and build an error response. *)
Definition okay_failed (c : Client) (req : Request) : M (Z * Client) :=
  let c := if decide (resp_val c = RESP_200) then set_resp c RESP_500 else c in
  let c := set_file (set_body_len (set_header_len (set_out c (out_buf c) 0) 0) 0)
             (file_ptr c) 0 in
  _ ← free (b_id <$> out_buf c);
  build_error_response c req.

Definition build_okay_response (g : Globals) (c : Client) (rp : ResolvedPath) (req : Request)
    : M (Z * Client) :=
  let c := set_resp c RESP_200 in
  r ← match path_type rp with
      | IS_CGI => build_response_cgi g c rp req
      | IS_DIR => build_response_dir c rp req
      | IS_FILE => build_response_file c rp req
      | UNKNOWN => mret (0%Z, c)
      end;
  let '(status, c) := r in
  if (status <? 0)%Z then okay_failed c req else mret (status, c).

(** ** Reading a message *)

(** What an HTTP client does with the bytes: lines up to an empty one, then the
    content. *)
Definition split_line (s : bytes) : option (bytes * bytes) :=
  match find_sub CRLF s with
  | Some i => Some (take i s, drop (i + 2) s)
  | None => None
  end.

Fixpoint read_head (fuel : nat) (s : bytes) : option (list bytes * bytes) :=
  match fuel with
  | 0 => None
  | S fuel' =>
      match split_line s with
      | None => None
      | Some ([], r) => Some ([], r)
      | Some (l, r) =>
          match read_head fuel' r with
          | Some (ls, content) => Some (l :: ls, content)
          | None => None
          end
      end
  end.

Definition read_message (s : bytes) : option (list bytes * bytes) := read_head (S (length s)) s.

Fixpoint header_value (name : string) (lines : list bytes) : option bytes :=
  match lines with
  | [] => None
  | l :: ls =>
      if is_prefix (B name ++ B ": ") l then Some (drop (length (B name ++ B ": ")) l)
      else header_value name ls
  end.

(** The bytes form a message with this status, announced length and content,
    which also tells the client that the connection closes. *)
Definition http_message (s status : bytes) (len : Z) (content : bytes) : Prop :=
  ∃ lines, read_message s = Some (lines, content)
    ∧ head lines = Some (B "HTTP/1.0 " ++ status)
    ∧ digits_value 0 <$> header_value "Content-Length" lines = Some len
    ∧ header_value "Connection" lines = Some (B "close").

(** * Lemmas *)

Lemma split_line_app l r : CR ∉ l → split_line (l ++ CRLF ++ r) = Some (l, r).
Proof.
  intros H. unfold split_line. change (CRLF ++ r) with (CR :: [LF] ++ r).
  change CRLF with (CR :: [LF]). rewrite find_sub_fresh by done.
  rewrite take_app_length, <-drop_drop, drop_app_length. done.
Qed.

Definition line_ok (l : bytes) : Prop := l ≠ [] ∧ CR ∉ l.

Lemma read_head_lines lines content fuel :
  Forall line_ok lines → length lines < fuel →
  read_head fuel (head_bytes lines ++ content) = Some (lines, content).
Proof.
  unfold head_bytes. intros Hl. revert fuel.
  induction Hl as [|l ls [Hne Hcr] Hls IH]; intros [|fuel] Hf; simpl in Hf; try lia.
  - pose proof (split_line_app [] content (not_elem_of_nil CR)) as E. cbn [read_head].
    change ((concat _ ++ CRLF) ++ content) with ([] ++ CRLF ++ content). by rewrite E.
  - cbn [read_head fmap list_fmap concat]. rewrite <-!app_assoc, split_line_app by done.
    destruct l as [|c l]; [done|]. rewrite app_assoc, IH by lia. done.
Qed.

Lemma length_head_bytes lines : length lines ≤ length (head_bytes lines).
Proof.
  unfold head_bytes. rewrite length_app.
  induction lines as [|l ls IH]; [simpl; lia|].
  cbn [fmap list_fmap concat]. rewrite !length_app.
  change (length CRLF) with 2 in *. simpl. lia.
Qed.

Lemma read_message_head lines content :
  Forall line_ok lines → read_message (head_bytes lines ++ content) = Some (lines, content).
Proof.
  intros H. unfold read_message. apply read_head_lines; [done|].
  rewrite length_app. pose proof (length_head_bytes lines). lia.
Qed.

(** ** Values that can stand in a header line *)

Lemma CR_fmt_u n : CR ∉ fmt_u n.
Proof.
  intros Hin. pose proof (fmt_u_digits n) as HF. rewrite Forall_forall in HF.
  by specialize (HF _ Hin).
Qed.

Lemma CR_gmtime_iso t s : gmtime_iso t = Some s → CR ∉ s.
Proof.
  unfold gmtime_iso. destruct (civil_from_days (t / 86400)) as [[y m] d].
  case_decide; [|done]. intros [= <-].
  assert (CR ∉ fmt_d y) as Hy.
  { unfold fmt_d. case_decide; [|apply CR_fmt_u].
    rewrite not_elem_of_cons. split; [done|apply CR_fmt_u]. }
  assert (∀ z, CR ∉ two_digits z) as Ht.
  { intros z. unfold two_digits. rewrite not_elem_of_app. auto using CR_fmt_u. }
  assert (CR ∉ B "Z") as Hz by by_eval.
  repeat first [rewrite not_elem_of_app; split; [by auto|]
               |rewrite not_elem_of_cons; split; [done|]]. done.
Qed.

Lemma header_ok name v : CR ∉ B name → CR ∉ v → line_ok (header name v).
Proof.
  intros Hn Hv. split; unfold header.
  - destruct (B name); done.
  - rewrite !not_elem_of_app. split_and!; [done| |done]. by_eval.
Qed.

Lemma status_ok s : CR ∉ s → line_ok (B "HTTP/1.0 " ++ s).
Proof. intros H. split; [done|]. rewrite not_elem_of_app. split; [by_eval|done]. Qed.

Create HintDb http.
#[export] Hint Resolve CR_fmt_u CR_gmtime_iso header_ok status_ok : http.
#[export] Hint Extern 5 (_ ∉ _) => by_eval : http.
#[export] Hint Extern 0 (_ ∉ fmt_zu _) => apply CR_fmt_u : http.

Lemma digits_value_fmt_zu z : digits_value 0 (fmt_zu z) = u64 z.
Proof.
  unfold fmt_zu. rewrite digits_value_fmt_u, Z2N.id; [done|].
  unfold u64. pose proof (Z.mod_pos_bound z (2 ^ 64)). lia.
Qed.

(** The heads the builders print, with any content after them. *)
Lemma error_head_message e date content :
  CR ∉ status_line e → CR ∉ r_mime e → CR ∉ date →
  http_message (head_bytes (error_head e date) ++ content) (status_line e)
    (u64 (zlen (r_body e))) content.
Proof.
  intros Hs Hm Hd. eexists. split_and!.
  - apply read_message_head. unfold error_head. rewrite !Forall_cons.
    split_and!; auto with http.
  - done.
  - simpl. by rewrite <-digits_value_fmt_zu.
  - done.
Qed.

Lemma okay_head_message date modified mime n content :
  CR ∉ date → CR ∉ modified → CR ∉ mime →
  http_message (head_bytes (okay_head date modified mime (fmt_zu n)) ++ content) (B "200 OK")
    (u64 n) content.
Proof.
  intros Hd Hm Ht. eexists. split_and!.
  - apply read_message_head. unfold okay_head. rewrite !Forall_cons.
    split_and!; auto with http. by_eval.
  - done.
  - simpl. by rewrite <-digits_value_fmt_zu.
  - done.
Qed.

Lemma cgi_head_message date n content :
  CR ∉ date →
  http_message (head_bytes (cgi_head date n) ++ content) (B "200 OK") (u64 (Z.of_nat n)) content.
Proof.
  intros Hd. eexists. split_and!.
  - apply read_message_head. unfold cgi_head. rewrite !Forall_cons.
    split_and!; auto with http. by_eval.
  - done.
  - simpl. by rewrite <-digits_value_fmt_zu.
  - done.
Qed.

(** The client after a builder has staged [out], whose head is [hl] bytes long. *)
Definition staged (c : Client) (b : nat) (out : bytes) (hl : nat) (bl : Z) : Client :=
  set_body_len (set_header_len (set_out c (Some (Block b out)) (length out)) hl) bl.

Definition is_head (req : Request) : bool := bool_decide (method req = HTTP_HEAD).

(** The codes the error builder accepts are those of its table. *)
Lemma error_responses_range r :
  (resp_num r <? resp_num RESP_400) || (resp_num NUM_CLIENT_RESP <=? resp_num r)
  = bool_decide (error_responses r = None).
Proof. by destruct r. Qed.

(** The body is what a stream holds beyond the head. *)
Definition staged_body (c : Client) (b : nat) (head out : bytes) : Client :=
  staged c b out (length head) (Z.of_nat (length out - length head)).

(** The error builder: what was stored of the message staged, or nothing. *)
Lemma build_error_eval c req w :
  build_error_response c req w =
  match error_responses (resp_val c) with
  | None => (Ret (-1, c)%Z, w)
  | Some e =>
      if alloc_ok w then
        let w1 := w_memstream w in
        let head := stored w1 [] (head_bytes (error_head e (time_received req))) in
        let w2 := w_alloc_next w1 in
        if is_head req then
          (Ret (0%Z, staged c (S (w_next w)) head (length head) (zlen (r_body e))),
           w_fclose (w_next w) w2)
        else
          (Ret (0%Z, staged_body c (S (w_next w)) head (stored w2 head (r_body e))),
           w_fclose (w_next w) (w_alloc_next w2))
      else (Ret (-1, c)%Z, w_alloc_next w)
  end.
Proof.
  unfold build_error_response. rewrite error_responses_range.
  destruct (error_responses (resp_val c)) as [e|]; [|done].
  rewrite bool_decide_false by done. run. rewrite open_memstream_eq.
  destruct (alloc_ok w); [|done]. unfold is_head, fclose, stream_write, staged_body, staged.
  case_decide as Hm.
  - by rewrite bool_decide_true by done.
  - by rewrite bool_decide_false by done.
Qed.

(** The status lines agree with the codes the log prints, and hold no CR. *)
Lemma error_responses_ok r e :
  error_responses r = Some e →
  take 3 (status_line e) = resp_val_to_status_string r
  ∧ (CR ∉ status_line e) ∧ (CR ∉ r_mime e) ∧ (zlen (r_body e) < 2 ^ 64)%Z.
Proof.
  destruct r; intros [= <-]; split_and!; by_eval.
Qed.

Lemma error_responses_some r : r ≠ RESP_200 → r ≠ NUM_CLIENT_RESP → is_Some (error_responses r).
Proof. destruct r; try done; eauto. Qed.

(** ** Files *)

(** A stream read to its end. *)
Definition w_drained (f : nat) (st : option stat) (w : World) : World :=
  w_set_files (<[f := mkStream st []]> (w_files w)) w.

(** The loop writes what the stream had left, in pieces. *)
Lemma copy_file_spec fuel f out w s :
  w_files w !! f = Some s → length (s_rest s) < fuel →
  ∃ texts, concat texts = s_rest s
    ∧ copy_file fuel (Some f) out w
      = (Ret (stores w out texts), w_drained f (s_stat s) (w_allocs (length texts) w)).
Proof.
  revert out w s. induction fuel as [|fuel IH]; intros out w s Hf Hlen; [lia|].
  pose proof READ_SIZE_pos. cbn [copy_file]. unfold fread. run. rewrite Hf.
  assert (w_advance READ_SIZE f w =
    w_set_files (<[f := mkStream (s_stat s) (drop READ_SIZE (s_rest s))]> (w_files w)) w) as Hadv.
  { unfold w_advance. f_equal. apply map_eq. intros i. rewrite lookup_alter, lookup_insert.
    case_decide; [|done]. subst. by rewrite Hf. }
  destruct (s_rest s) as [|a rest] eqn:Hr.
  - exists []. split; [done|]. rewrite Hadv, take_nil, drop_nil. simpl length. by rewrite allocs_0.
  - destruct (take READ_SIZE (a :: rest)) as [|x buf] eqn:Ht.
    { destruct READ_SIZE; [lia|done]. }
    unfold stream_write. rewrite Hadv.
    destruct (IH (stored w out (x :: buf)) (w_alloc_next (w_set_files
      (<[f := mkStream (s_stat s) (drop READ_SIZE (a :: rest))]> (w_files w)) w))
      (mkStream (s_stat s) (drop READ_SIZE (a :: rest)))) as (texts & Hc & E).
    { apply lookup_insert_eq. }
    { cbn [s_rest]. rewrite length_drop. simpl in *. lia. }
    exists ((x :: buf) :: texts). split.
    { cbn [concat]. rewrite Hc, <-Ht. apply take_drop. }
    etransitivity; [exact E|]. apply (f_equal2 pair).
    { cbn [stores]. f_equal. by apply stores_env. }
    rewrite allocs_S. cbn [length].
    unfold w_drained, w_set_files, w_allocs, w_set_env. simpl. by rewrite insert_insert_eq.
Qed.

(** The file builder, when the date is representable and the stream open. *)
Lemma build_file_eval c rp req w mt f s :
  gmtime_iso (last_mod rp) = Some mt → rp_file_ptr rp = Some f →
  w_files w !! f = Some s → world_ok w →
  ∃ texts, concat texts = s_rest s ∧
  build_response_file c rp req w =
  if alloc_ok w then
    let w1 := w_memstream w in
    let head := stored w1 [] (head_bytes (okay_head (time_received req) mt
                  (default (B "(null)") (mime_type rp)) (fmt_zu (rp_file_size rp)))) in
    let w2 := w_alloc_next w1 in
    if is_head req then
      (Ret (0%Z, staged c (S (w_next w)) head (length head) (u64 (file_size c))),
       w_fclose (w_next w) w2)
    else
      (Ret (0%Z, staged_body c (S (w_next w)) head (stores w2 head texts)),
       w_fclose (w_next w) (w_drained f (s_stat s) (w_allocs (length texts) w2)))
  else (Ret (-1, c)%Z, w_alloc_next w).
Proof.
  intros Ht Hp Hf Hw. unfold build_response_file. rewrite Ht, Hp. run.
  rewrite open_memstream_eq.
  assert (w_files (w_alloc_next (w_memstream w)) !! f = Some s) as Hf'.
  { simpl. rewrite lookup_insert_ne; [done|]. intros <-. by rewrite (files_fresh w Hw) in Hf. }
  set (h := stored (w_memstream w) [] _).
  destruct (copy_file_spec (file_fuel (Some f) (w_alloc_next (w_memstream w))) f h _ s Hf')
    as (texts & Hc & E).
  { unfold file_fuel. cbn [mbind option_bind]. rewrite Hf'. simpl. lia. }
  exists texts. split; [done|]. destruct (alloc_ok w); [|done].
  unfold is_head, stream_write, get. fold h. case_decide as Hm.
  - by rewrite bool_decide_true by done.
  - rewrite bool_decide_false by done. rewrite E. done.
Qed.
