(* ===== verification/Messages.v ===== *)
(** * Messages: what the response builders stage

    The message each builder of Response leaves in the client's output buffer,
    read back with the reference reader; the resources the builders use; and the
    contract of build_okay_response. *)

From S2P Require Import Prelude CLib Types OS Flags Logging ParseRequest ResolvePath Response.

(** ** Vocabulary *)

(** The client holds, in a live block, a whole message with this status,
    announced length and content. *)
Definition holds (w : World) (c : Client) (status : bytes) (len : Z) (content : bytes) : Prop :=
  ∃ b out, out_buf c = Some (Block b out) ∧ b ∈ w_blocks w ∧ output_length c = length out
    ∧ header_len c + length content = length out ∧ http_message out status len content.

(** Something is ready to be sent: a live block, whose length is recorded and whose
    first bytes, [header_len] of them, are its header. *)
Definition ready (w : World) (c : Client) : Prop :=
  ∃ b out, out_buf c = Some (Block b out) ∧ b ∈ w_blocks w ∧ output_length c = length out
    ∧ header_len c ≤ length out.

(** A whole message is ready, and its status is the one the log prints. *)
Definition sendable (w : World) (c : Client) : Prop :=
  ∃ status len content, holds w c status len content
    ∧ take 3 status = resp_val_to_status_string (resp_val c).

(** The blocks there were before the step are still live. *)
Definition old_blocks (w w' : World) : Prop :=
  w_next w ≤ w_next w' ∧ ∀ b, b < w_next w → b ∈ w_blocks w → b ∈ w_blocks w'.

(** A sound step that leaves the same streams open and the old blocks live. *)
Definition keeps (w w' : World) : Prop :=
  sound w w' ∧ dom (w_files w') = dom (w_files w) ∧ old_blocks w w'.

(** What a builder started in [w] leaves of a client alone; the output block is
    one of its own. *)
Definition client_frame (w : World) (c c' : Client) : Prop :=
  in_buf c' = in_buf c ∧ fd c' = fd c ∧ output_sent c' = output_sent c
  ∧ file_ptr c' = file_ptr c
  ∧ ∀ blk, out_buf c' = Some blk → w_next w ≤ b_id blk.

(** The page of a directory: one item per entry whose name does not start with a
    dot. *)
Definition visible (d : dirent) : bool := negb (bool_decide (head (d_name d) = Some "."%char)).
Definition page_of (list : bytes) : bytes :=
  START_HTML_STRING ++ (if decide (list = []) then EMPTY_DIR_HTML else list)
  ++ END_HTML_STRING.
Definition listed (dir_path : bytes) (entries : list dirent) : list bytes :=
  dir_entry dir_path <$> filter (λ d, visible d = true) entries.
Definition listing_page (dir_path : bytes) (entries : list dirent) : bytes :=
  page_of (concat (listed dir_path entries)).

(** What the loop over a CGI program's output collects: the data up to the end of
    file; nothing if a read fails. *)
Fixpoint cgi_text (q : list pipe_result) : option bytes :=
  match q with
  | [] | PipeData [] :: _ => Some []
  | PipeData d :: q' => app d <$> cgi_text q'
  | PipeErr e :: q' => if decide (e = EINTR) then cgi_text q' else None
  end.

(** A read interrupted by a signal. *)
Definition interrupted (r : pipe_result) : bool :=
  match r with PipeErr e => bool_decide (e = EINTR) | PipeData _ => false end.

(** * Lemmas *)

Lemma old_blocks_same w w' :
  w_next w ≤ w_next w' → w_blocks w ⊆ w_blocks w' → old_blocks w w'.
Proof. intros Hn Hb. split; [done|]. set_solver. Qed.

Lemma old_blocks_trans w1 w2 w3 : old_blocks w1 w2 → old_blocks w2 w3 → old_blocks w1 w3.
Proof.
  intros [N1 B1] [N2 B2]. split; [lia|]. intros b Hlt Hb. apply B2; [lia|]. by apply B1.
Qed.

Lemma keeps_refl w : world_ok w → keeps w w.
Proof. intros H. split_and!; [by apply sound_refl|done|by apply old_blocks_same]. Qed.

Lemma keeps_trans w1 w2 w3 : keeps w1 w2 → keeps w2 w3 → keeps w1 w3.
Proof.
  intros (S1 & D1 & B1) (S2 & D2 & B2).
  split_and!; [by eapply sound_trans|by rewrite D2|by eapply old_blocks_trans].
Qed.

Lemma keeps_ok w w' : keeps w w' → world_ok w'.
Proof. intros [H _]. by eapply sound_ok. Qed.

Lemma keeps_old w w' : keeps w w' → old_blocks w w'.
Proof. by intros (_ & _ & ?). Qed.

Lemma keeps_alloc_next w w' : keeps w w' → keeps w (w_alloc_next w').
Proof. intros (H & D & B). split_and!; [auto with server|done|done]. Qed.

Lemma keeps_new_block w w' : keeps w w' → keeps w (w_new_block w').
Proof.
  intros (H & D & B). split_and!; [auto with server|done|].
  eapply old_blocks_trans; [exact B|]. apply old_blocks_same; simpl; [lia|set_solver].
Qed.

Lemma keeps_drop_block b w w' : w_next w ≤ b → keeps w w' → keeps w (w_drop_block b w').
Proof.
  intros Hn (H & D & [N B]). split_and!; [auto with server|done|].
  split; [done|]. intros x Hx Hin. simpl. rewrite elem_of_difference, elem_of_singleton.
  split; [by apply B|lia].
Qed.

Lemma keeps_emit ev w w' : ev_live ev → keeps w w' → keeps w (w_emit ev w').
Proof. intros Hev (H & D & B). split_and!; [by apply sound_emit|done|done]. Qed.

Lemma keeps_free b w w' :
  w_next w ≤ b → b ∈ w_blocks w' → keeps w w' → keeps w (w_free b w').
Proof.
  intros Hn Hb (H & D & [N B]). split_and!; [by apply sound_free|done|].
  split; [done|]. intros x Hx Hin. simpl. rewrite elem_of_difference, elem_of_singleton.
  split; [by apply B|lia].
Qed.

Lemma keeps_allocs n w w' : keeps w w' → keeps w (w_allocs n w').
Proof. intros (H & D & B). split_and!; [auto with server|done|done]. Qed.

(** A memory stream opened, written to and closed: one more block, the same streams. *)
Lemma keeps_memstream n w w' :
  keeps w w' → keeps w (w_fclose (w_next w') (w_allocs n (w_memstream w'))).
Proof.
  intros H. pose proof (keeps_ok _ _ H) as Hok. apply (keeps_trans _ _ _ H). split_and!.
  - apply sound_fclose; [by apply memstream_stream|auto with server].
  - by rewrite <-(memstream_closed_files w') by done.
  - apply old_blocks_same; simpl; [lia|set_solver].
Qed.

Lemma keeps_drained f s w w' :
  w_files w' !! f = Some s → keeps w w' → keeps w (w_drained f (s_stat s) w').
Proof.
  intros Hf H. pose proof (keeps_ok _ _ H) as [Hok1 Hok2]. apply (keeps_trans _ _ _ H).
  assert (dom (w_files (w_drained f (s_stat s) w')) = dom (w_files w')) as Hd.
  { simpl. rewrite dom_insert_L. apply elem_of_dom_2 in Hf. set_solver. }
  split_and!; [|done|by apply old_blocks_same]. apply sound_silent; [|by apply same_env|done].
  constructor; [|done]. intros i Hi. apply Hok1. apply elem_of_dom. rewrite <-Hd.
  by apply elem_of_dom.
Qed.

Lemma drained_memstream n f st w :
  f ≠ w_next w →
  w_drained f st (w_allocs n (w_memstream w)) = w_allocs n (w_memstream (w_drained f st w)).
Proof.
  intros Hne. unfold w_allocs, w_memstream, w_new_block, w_drained, w_open, w_alloc_next, w_set_files,
    w_set_env. simpl. f_equal. by rewrite insert_insert_ne.
Qed.

#[export] Hint Extern 0 (ev_live _) => exact I : server.
#[export] Hint Extern 2 (old_blocks _ _) =>
  (apply old_blocks_same; simpl; [lia|set_solver]) : server.
#[export] Hint Resolve keeps_emit keeps_refl keeps_alloc_next keeps_new_block keeps_drop_block
  keeps_free keeps_memstream keeps_drained keeps_allocs : server.

Lemma memstream_block w : S (w_next w) ∈ w_blocks (w_memstream w).
Proof. simpl. set_solver. Qed.
#[export] Hint Resolve memstream_block : server.

Lemma holds_ready w c status len content : holds w c status len content → ready w c.
Proof. intros (b & out & Ho & Hb & Hl & Hh & _). exists b, out. split_and!; [done..|lia]. Qed.

Lemma staged_ready w c b hd out bl :
  b ∈ w_blocks w → hd `prefix_of` out → ready w (staged c b out (length hd) bl).
Proof. intros Hb Hp%prefix_length. by exists b, out. Qed.

Lemma staged_frame w c b out hl bl : w_next w ≤ b → client_frame w c (staged c b out hl bl).
Proof. intros Hb. split_and!; try done. by intros blk [= <-]. Qed.

Lemma stored_more w buf text : buf `prefix_of` stored w buf text.
Proof. by eexists. Qed.

(** What memory streams hold while memory does not run out. *)
Lemma stored_all w buf text : plenty w → stored w buf text = buf ++ text.
Proof. intros Hp. unfold stored. by rewrite plenty_alloc_ok. Qed.

Lemma staged_body_all c b hd body :
  staged_body c b hd (hd ++ body) = staged c b (hd ++ body) (length hd) (zlen body).
Proof.
  unfold staged_body. rewrite length_app.
  by replace (length hd + length body - length hd) with (length body) by lia.
Qed.

Lemma memstream_plenty n w : world_ok w → plenty w → plenty (w_allocs n (w_memstream w)).
Proof.
  intros Hw Hp. eapply plenty_step; [|exact Hp].
  apply (sound_allocs n w (w_memstream w)). auto with server.
Qed.

Lemma staged_holds w c b hd content bl status len :
  b ∈ w_blocks w → http_message (hd ++ content) status len content →
  holds w (staged c b (hd ++ content) (length hd) bl) status len content.
Proof.
  intros Hb Hm. exists b, (hd ++ content). simpl. by rewrite length_app.
Qed.

Lemma staged_head_holds w c b hd bl status len :
  b ∈ w_blocks w → http_message (hd ++ []) status len [] →
  holds w (staged c b hd (length hd) bl) status len [].
Proof. rewrite app_nil_r. intros Hb Hm. exists b, hd. simpl. by rewrite Nat.add_0_r. Qed.

Lemma holds_frame w c w' c' status len content :
  w_blocks w' = w_blocks w → out_buf c' = out_buf c → output_length c' = output_length c →
  header_len c' = header_len c → holds w c status len content → holds w' c' status len content.
Proof.
  intros Hb Ho Hl Hh (b & out & H1 & H2 & H3). exists b, out. by rewrite Hb, Ho, Hl, Hh.
Qed.

(** ** The error builder *)

Lemma error_built c req w e :
  world_ok w → error_responses (resp_val c) = Some e → CR ∉ time_received req →
  alloc_ok w = true →
  ∃ c' w', build_error_response c req w = (Ret (0%Z, c'), w') ∧ keeps w w' ∧ ready w' c'
    ∧ (plenty w →
       holds w' c' (status_line e) (zlen (r_body e)) (if is_head req then [] else r_body e)
       ∧ body_len c' = zlen (r_body e))
    ∧ resp_val c' = resp_val c ∧ client_frame w c c'.
Proof.
  intros Hw He Hd Ha. destruct (error_responses_ok _ _ He) as (_ & Hs & Hm & Hb).
  pose proof (error_head_message e (time_received req)
    (if is_head req then [] else r_body e) Hs Hm Hd) as Hmsg.
  rewrite u64_small in Hmsg by lia. rewrite build_error_eval, He, Ha. cbv zeta.
  set (hd := head_bytes _) in *. clearbody hd. rewrite (allocs_1 (w_memstream w)), (allocs_1 (w_allocs _ _)), allocs_allocs.
  assert (plenty w → stored (w_memstream w) [] hd = hd) as Hst
    by (intros Hp; rewrite stored_all; [done|rewrite <-(allocs_0 (w_memstream w)); by apply memstream_plenty]).
  destruct (is_head req); do 2 eexists; (split; [reflexivity|]); split_and!;
    try done; auto with server; try (apply staged_frame; simpl; lia).
  - apply staged_ready; [simpl; set_solver|done].
  - intros Hp. rewrite (Hst Hp). split; [|done]. apply staged_head_holds; [simpl; set_solver|done].
  - apply staged_ready; [simpl; set_solver|apply stored_more].
  - intros Hp. rewrite (Hst Hp), stored_all, staged_body_all by by apply memstream_plenty.
    split; [|done]. apply staged_holds; [simpl; set_solver|done].
Qed.

(** ** The file builder *)

Lemma file_built c rp req w mt f s :
  world_ok w → CR ∉ time_received req → CR ∉ default [] (mime_type rp) →
  gmtime_iso (last_mod rp) = Some mt → rp_file_ptr rp = Some f → w_files w !! f = Some s →
  alloc_ok w = true →
  ∃ c' w', build_response_file c rp req w = (Ret (0%Z, c'), w') ∧ keeps w w' ∧ ready w' c'
    ∧ (plenty w →
       holds w' c' (B "200 OK") (u64 (rp_file_size rp)) (if is_head req then [] else s_rest s)
       ∧ body_len c' = (if is_head req then u64 (file_size c) else zlen (s_rest s)))
    ∧ resp_val c' = resp_val c ∧ client_frame w c c'.
Proof.
  intros Hw Hd Hm Ht Hp Hf Ha.
  destruct (build_file_eval c rp req w mt f s Ht Hp Hf Hw) as (texts & Hx & ->). rewrite Ha. cbv zeta.
  assert (CR ∉ default (B "(null)") (mime_type rp)) as Hm' by (destruct (mime_type rp); [done|by_eval]).
  pose proof (okay_head_message (time_received req) mt _ (rp_file_size rp)
    (if is_head req then [] else s_rest s) Hd (CR_gmtime_iso _ _ Ht) Hm') as Hmsg.
  set (hd := head_bytes _) in *. clearbody hd.
  rewrite (allocs_1 (w_memstream w)), allocs_allocs.
  assert (plenty w → stored (w_memstream w) [] hd = hd) as Hst
    by (intros Hpl; rewrite stored_all; [done|rewrite <-(allocs_0 (w_memstream w)); by apply memstream_plenty]).
  destruct (is_head req); do 2 eexists; (split; [reflexivity|]); split_and!;
    try done; auto with server; try (apply staged_frame; simpl; lia).
  - apply staged_ready; [simpl; set_solver|done].
  - intros Hpl. rewrite (Hst Hpl). split; [|done]. apply staged_head_holds; [simpl; set_solver|done].
  - assert (keeps w (w_drained f (s_stat s) w)) as HD by auto with server.
    rewrite drained_memstream; [exact (keeps_memstream _ _ _ HD)|].
    intros ->. by rewrite files_fresh in Hf.
  - apply staged_ready; [simpl; set_solver|apply stores_more].
  - intros Hpl. rewrite (Hst Hpl), stores_plenty, Hx, staged_body_all by by apply memstream_plenty.
    split; [|done]. apply staged_holds; [simpl; set_solver|done].
Qed.

(** ** The directory builder *)

Lemma list_entries_eq dir_path ds buf w :
  list_entries dir_path ds buf w
  = (Ret (stores w buf (listed dir_path ds)), w_allocs (length (listed dir_path ds)) w).
Proof.
  unfold listed. revert buf w. induction ds as [|d ds IH]; intros buf w; cbn [list_entries].
  - rewrite filter_nil. cbn [fmap list_fmap length stores]. by rewrite allocs_0.
  - rewrite filter_cons. destruct (bool_decide (head (d_name d) = _)) eqn:Hh.
    + rewrite decide_False; [apply IH|]. unfold visible. by rewrite Hh.
    + rewrite decide_True; [|unfold visible; by rewrite Hh]. unfold stream_write. run.
      rewrite IH. cbn [fmap list_fmap length stores]. by rewrite allocs_S.
Qed.

Lemma announced_page_length (list : bytes) :
  (if decide (0 < length list) then html_string_len (length list)
   else html_string_len 0 + length EMPTY_DIR_HTML) = length (page_of list).
Proof.
  unfold page_of. rewrite !length_app. unfold html_string_len.
  destruct list as [|x l].
  - rewrite decide_False, decide_True by (simpl; try done; lia). lia.
  - rewrite decide_True, decide_False by (simpl; try done; lia). lia.
Qed.

(** The releases at the end of the listing. *)
Definition w_released (d : nat) (w : World) : World :=
  w_closedir d (w_free (S (S d)) (w_fclose (S d) w)).

(** The three parts of the page. *)
Definition page_parts (items : bytes) : list bytes :=
  [START_HTML_STRING; if decide (items = []) then EMPTY_DIR_HTML else items; END_HTML_STRING].

Lemma concat_page_parts list : concat (page_parts list) = page_of list.
Proof. unfold page_parts, page_of. cbn [concat]. by rewrite app_nil_r. Qed.

Lemma build_dir_eval c rp req w :
  path_type rp = IS_DIR →
  build_response_dir c rp req w =
  let dir_path := tail (path req) in
  let d := w_next w in
  match e_opendir (w_env w) dir_path with
  | None => (Ret (-1, set_resp c RESP_500)%Z, w)
  | Some entries =>
      let wd := w_open (mkStream None []) w in
      if alloc_ok wd then
        let items := listed dir_path entries in
        let list := stores (w_memstream wd) [] items in
        let w1 := w_allocs (length items) (w_memstream wd) in
        match gmtime_iso (last_mod rp) with
        | None => (Ret (-1, set_resp c RESP_500)%Z, w_released d w1)
        | Some mt =>
            if alloc_ok w1 then
              let w2 := w_memstream w1 in
              let head := stored w2 [] (head_bytes (okay_head (time_received req) mt HTML_RESPONSE
                                          (fmt_zu (zlen (page_of list))))) in
              let w3 := w_alloc_next w2 in
              if is_head req then
                (Ret (0%Z, staged c (S (w_next w1)) head (length head) (body_len c)),
                 w_released d (w_fclose (w_next w1) w3))
              else
                (Ret (0%Z, staged_body c (S (w_next w1)) head (stores w3 head (page_parts list))),
                 w_released d (w_fclose (w_next w1) (w_allocs 3 w3)))
            else (Ret (-1, set_resp c RESP_500)%Z, w_released d (w_alloc_next w1))
        end
      else (Ret (-1, set_resp c RESP_500)%Z, w_closedir d (w_alloc_next wd))
  end.
Proof.
  intros Hp. unfold build_response_dir. rewrite bool_decide_true by done. cbn [negb].
  run. unfold opendir. cbv zeta. destruct (e_opendir _ _) as [entries|]; [|done].
  rewrite open_memstream_eq. destruct (alloc_ok (w_open _ w)); [|done].
  set (wd := w_open _ w). rewrite list_entries_eq.
  set (items := listed _ _). set (list := stores (w_memstream wd) [] items).
  set (w1 := w_allocs _ _).
  destruct (gmtime_iso (last_mod rp)) as [mt|]; [|done].
  rewrite open_memstream_eq. destruct (alloc_ok w1); [|done].
  rewrite announced_page_length.
  assert ((if decide (0 < length list) then list else EMPTY_DIR_HTML)
          = (if decide (list = []) then EMPTY_DIR_HTML else list)) as ->.
  { destruct list; [by rewrite decide_False by (simpl; lia)|].
    by rewrite decide_True by (simpl; lia). }
  unfold is_head, release_dir, closedir, fclose, free, stream_write. run. case_decide as Hm.
  - by rewrite bool_decide_true by done.
  - rewrite bool_decide_false by done. cbv zeta. rewrite <-allocs_S, <-allocs_S, <-allocs_S, allocs_0.
    reflexivity.
Qed.

Lemma released_keeps w w' :
  world_ok w → sound w w' →
  w_files w' = w_files (w_memstream (w_open (mkStream None []) w)) →
  S (S (w_next w)) ∈ w_blocks w' → old_blocks w w' → keeps w (w_released (w_next w) w').
Proof.
  intros Hw Hs Hf Hb [N B]. unfold w_released. split_and!.
  - apply sound_closedir, sound_free, sound_fclose; simpl; rewrite ?Hf; simpl;
      rewrite ?lookup_delete_ne, ?lookup_insert_eq, ?lookup_insert_ne, ?lookup_insert_eq by lia;
      eauto.
  - simpl. rewrite Hf. simpl. rewrite delete_insert_id; [by rewrite delete_insert_id by auto with server|].
    rewrite lookup_insert_ne by lia. auto with server.
  - split; [done|]. intros x Hx Hin. simpl. rewrite elem_of_difference, elem_of_singleton.
    split; [by apply B|lia].
Qed.

(** A listing, once its two memory streams are open. *)
Lemma page_built c rp req w mt entries :
  world_ok w → CR ∉ time_received req → path_type rp = IS_DIR →
  gmtime_iso (last_mod rp) = Some mt → e_opendir (w_env w) (tail (path req)) = Some entries →
  let wd := w_open (mkStream None []) w in
  alloc_ok wd = true →
  alloc_ok (w_allocs (length (listed (tail (path req)) entries)) (w_memstream wd)) = true →
  ∃ c' w', build_response_dir c rp req w = (Ret (0%Z, c'), w') ∧ keeps w w' ∧ ready w' c'
    ∧ (plenty w →
       holds w' c' (B "200 OK") (u64 (zlen (listing_page (tail (path req)) entries)))
         (if is_head req then [] else listing_page (tail (path req)) entries)
       ∧ body_len c' = (if is_head req then body_len c
                        else zlen (listing_page (tail (path req)) entries)))
    ∧ resp_val c' = resp_val c ∧ client_frame w c c'.
Proof.
  intros Hw Hd Hp Ht He wd Ha1 Ha2. rewrite build_dir_eval by done. cbv zeta. rewrite He, Ht.
  fold wd. rewrite Ha1, Ha2. unfold listing_page. set (items := listed _ _) in *.
  assert (sound w wd) as Hs by (unfold wd; auto with server).
  assert (world_ok wd) as Hwd by (by eapply sound_ok).
  set (w1 := w_allocs (length items) (w_memstream wd)) in *.
  assert (sound w w1) as Hs1 by (unfold w1; auto with server).
  assert (world_ok w1) as Hw1 by (by eapply sound_ok).
  assert (plenty w → plenty w1) as Hpl by (intros; eapply plenty_step; [apply Hs1|done]).
  assert (plenty w → stores (w_memstream wd) [] items = concat items) as Hlist.
  { intros Hp'. rewrite stores_plenty; [done|]. rewrite <-(allocs_0 (w_memstream wd)).
    apply memstream_plenty; [done|]. eapply plenty_step; [apply Hs|done]. }
  set (list := stores (w_memstream wd) [] items) in *. clearbody list.
  rewrite (allocs_1 (w_memstream w1)), allocs_allocs.
  assert (∀ n, keeps w (w_released (w_next w) (w_fclose (w_next w1) (w_allocs n (w_memstream w1))))) as K.
  { intros n. apply released_keeps; [done| | |simpl; set_solver|].
    - apply sound_fclose; [by apply memstream_stream|auto with server].
    - exact (memstream_closed_files w1 Hw1).
    - unfold w1, wd. auto with server. }
  assert (∀ n x, x = S (w_next w1) →
    x ∈ w_blocks (w_released (w_next w) (w_fclose (w_next w1) (w_allocs n (w_memstream w1))))) as Hb.
  { intros n x ->. unfold w_released. simpl. rewrite elem_of_difference, elem_of_singleton.
    split; [set_solver|lia]. }
  assert (plenty w → ∀ head, stored (w_memstream w1) [] head = head) as Hst.
  { intros Hp' head. rewrite stored_all; [done|]. rewrite <-(allocs_0 (w_memstream w1)).
    apply memstream_plenty; auto. }
  pose proof (λ len content, okay_head_message (time_received req) mt HTML_RESPONSE len content
    Hd (CR_gmtime_iso _ _ Ht) ltac:(by_eval)) as Hmsg.
  destruct (is_head req); do 2 eexists; (split; [reflexivity|]); split_and!;
    try done; try (apply staged_frame; simpl; lia); try apply K.
  - apply staged_ready; [by apply Hb|done].
  - intros Hp'. rewrite (Hst Hp'), (Hlist Hp'). split; [|done]. apply staged_head_holds; [by apply Hb|].
    apply Hmsg.
  - apply staged_ready; [by apply Hb|apply stores_more].
  - intros Hp'. rewrite (Hst Hp'), stores_plenty by (apply memstream_plenty; auto).
    rewrite concat_page_parts, staged_body_all, (Hlist Hp'). split; [|done].
    apply staged_holds; [by apply Hb|apply Hmsg].
Qed.

(** ** The CGI builder *)

Lemma cgi_text_split k d q :
  d ≠ [] → 0 < k →
  cgi_text (PipeData d :: q)
  = app (take k d) <$> cgi_text (match drop k d with [] => q | d' => PipeData d' :: q end).
Proof.
  intros Hd Hk. destruct d as [|x d]; [done|]. cbn [cgi_text].
  rewrite <-(take_drop k (x :: d)) at 1. destruct (drop k (x :: d)) as [|y d'] eqn:E.
  - rewrite app_nil_r. done.
  - cbn [cgi_text]. destruct (cgi_text q); simpl; [|done]. f_equal. by rewrite <-app_assoc.
Qed.

Lemma pipe_rest_size k d q :
  d ≠ [] → 0 < k →
  sum_list (pipe_size <$> match drop k d with [] => q | d' => PipeData d' :: q end)
  < sum_list (pipe_size <$> PipeData d :: q).
Proof.
  intros Hd Hk. assert (length (drop k d) < length d).
  { rewrite length_drop. destruct d; [done|]. simpl. lia. }
  destruct (drop k d) as [|y d'] eqn:E; cbn [fmap list_fmap sum_list pipe_size]; simpl in *; lia.
Qed.

(** What the loop leaves, counting from an earlier world [w0]: the whole text in a
    live block younger than [w0], or, after a failed read or allocation, the block
    released and the pipe closed. *)
Definition cgi_read (w0 : World) (pipe0 : Z) (pre : bytes) (text : option bytes)
    (r : option (nat * bytes)) (w' : World) : Prop :=
  keeps w0 w' ∧
  match r with
  | Some (b, resp) =>
      closes w0 w' [] ∧ b ∈ w_blocks w' ∧ w_next w0 ≤ b ∧ (pre ++.) <$> text = Some resp
  | None => closes w0 w' [pipe0] ∧ (plenty w0 → text = None)
  end.

Lemma cgi_read_step w0 pipe0 pre t pre' t' r w' :
  (pre ++.) <$> t = (pre' ++.) <$> t' →
  cgi_read w0 pipe0 pre' t' r w' → cgi_read w0 pipe0 pre t r w'.
Proof.
  intros Ht [Hk Hr]. split; [done|]. destruct r as [[b resp]|].
  - by rewrite Ht.
  - destruct Hr as [Hc Hp]. split; [done|]. intros H. rewrite Hp in Ht by done. by destruct t.
Qed.

Lemma cgi_read_give_up w0 w pipe0 b pre text :
  keeps w0 w → closes w0 w [] → b ∈ w_blocks w → w_next w0 ≤ b → (plenty w0 → text = None) →
  cgi_read w0 pipe0 pre text None (w_emit (EvClose pipe0) (w_free b w)).
Proof.
  intros Hk Hc Hb Hn Ht. split; [auto with server|]. split; [|done].
  apply (closes_event w0 (w_free b w) _ (EvClose pipe0) []); [|done].
  by apply (closes_event w0 w _ (EvFree b (bool_decide (b ∈ w_blocks w))) []).
Qed.

Lemma cgi_read_end w0 w pipe0 b resp :
  keeps w0 w → closes w0 w [] → b ∈ w_blocks w → w_next w0 ≤ b →
  cgi_read w0 pipe0 resp (Some []) (Some (b, resp)) w.
Proof. intros Hk Hc Hb Hn. split; [done|]. split_and!; [done..|]. simpl. by rewrite app_nil_r. Qed.

Section read_cgi.
Context (w0 : World) (pipe0 : Z).

(** The loop from [w] on ends in a world described by [cgi_read]. *)
Definition reads (m : M (option (nat * bytes))) (w : World) (resp : bytes)
    (q : list pipe_result) : Prop :=
  ∃ r w', m w = (Ret r, w') ∧ cgi_read w0 pipe0 resp (cgi_text q) r w'.

Definition reading_from (b : nat) (w : World) : Prop :=
  keeps w0 w ∧ closes w0 w [] ∧ b ∈ w_blocks w ∧ w_next w0 ≤ b.

(** A turn of the loop once there is room in the block. *)
Lemma read_cgi_turn fuel q b capacity resp w :
  (∀ q resp, sum_list (pipe_size <$> q) < fuel → length resp ≤ capacity →
     reads (read_cgi fuel q pipe0 b capacity resp) w resp q) →
  sum_list (pipe_size <$> q) < S fuel → length resp < capacity → reading_from b w →
  reads (match q with
         | [] | PipeData [] :: _ => mret (Some (b, resp))
         | PipeData data :: q' =>
             let room := capacity - length resp in
             let rest := match drop room data with [] => q' | d => PipeData d :: q' end in
             read_cgi fuel rest pipe0 b capacity (resp ++ take room data)
         | PipeErr e :: q' =>
             if decide (e = EINTR) then read_cgi fuel q' pipe0 b capacity resp
             else _ ← free (Some b); _ ← close pipe0; mret None
         end) w resp q.
Proof.
  intros IH Hf Hl (Hk & Hcl & Hb & Hn). destruct q as [|[[|x data]|e] q'].
  - exists (Some (b, resp)), w. split; [done|]. by apply cgi_read_end.
  - exists (Some (b, resp)), w. split; [done|]. by apply cgi_read_end.
  - cbv zeta. set (room := capacity - length resp).
    assert (0 < room) as Hr by lia.
    pose proof (pipe_rest_size room (x :: data) q' ltac:(done) Hr) as Hsz.
    pose proof (cgi_text_split room (x :: data) q' ltac:(done) Hr) as Htx.
    set (rest := match drop room _ with [] => q' | _ => _ end) in *.
    destruct (IH rest (resp ++ take room (x :: data))) as (r & w' & E & H); [lia| |].
    { rewrite length_app, length_take. lia. }
    exists r, w'. split; [exact E|]. eapply cgi_read_step; [|exact H].
    rewrite Htx. destruct (cgi_text rest); [|done]. simpl. by rewrite <-app_assoc.
  - unfold reads. cbn [cgi_text fmap list_fmap sum_list pipe_size] in *. case_decide as He.
    + apply (IH q'); [simpl in Hf; lia|lia].
    + do 2 eexists. split; [reflexivity|]. by apply cgi_read_give_up.
Qed.

Lemma read_cgi_total fuel q b capacity resp w :
  sum_list (pipe_size <$> q) < fuel → 0 < capacity → length resp ≤ capacity →
  reading_from b w → reads (read_cgi fuel q pipe0 b capacity resp) w resp q.
Proof.
  revert q b capacity resp w.
  induction fuel as [|fuel IH]; intros q b capacity resp w Hf Hc Hl Hw; [lia|].
  pose proof Hw as (Hk & Hcl & Hb & Hn). unfold reads. cbn [read_cgi]. case_decide as Hfull.
  - unfold realloc. run. destruct (alloc_ok w) eqn:Ha.
    + assert (reading_from (w_next w) (w_new_block (w_drop_block b (w_alloc_next w)))) as Hw'.
      { split_and!; [auto with server|by apply (closes_silent _ w)|set_solver|].
        by destruct Hk as (_ & _ & ? & _). }
      apply (read_cgi_turn fuel q (w_next w) (capacity * 2)); [|done|lia|done].
      intros q1 resp1 Hf1 Hl1. apply IH; [done|lia|done|done].
    + do 2 eexists. split; [reflexivity|].
      apply cgi_read_give_up; [auto with server|by apply (closes_silent _ w)|done|done|].
      intros Hp%(plenty_step w0 w ltac:(apply Hk))%plenty_alloc_ok. congruence.
  - apply (read_cgi_turn fuel q b capacity); [|done|lia|done].
    intros q1 resp1 Hf1 Hl1. by apply IH.
Qed.
End read_cgi.

(** The lengths of the literals in the goal. *)
Ltac literal_lengths :=
  change (length CRLF) with 2;
  repeat match goal with
  | |- context [length (B ?s)] =>
      let k := eval vm_compute in (length (B s)) in change (length (B s)) with k
  end.

(** The head of a CGI response fits its array, so snprintf stores all of it. *)
Lemma cgi_head_fits date len :
  length date < TIME_RECEIVED_LENGTH →
  snprintf MAX_HEADER_BUF (head_bytes (cgi_head date len)) = head_bytes (cgi_head date len).
Proof.
  intros Hd. unfold snprintf. apply take_ge.
  assert (length (fmt_zu (Z.of_nat len)) ≤ 20) as Hl.
  { unfold fmt_zu. apply length_fmt_u. unfold u64.
    pose proof (Z.mod_pos_bound (Z.of_nat len) (2 ^ 64)). lia. }
  unfold head_bytes, cgi_head, header, SERVER_VERSION, HTML_RESPONSE.
  cbn [fmap list_fmap concat]. rewrite !length_app. literal_lengths.
  unfold TIME_RECEIVED_LENGTH in Hd. unfold MAX_HEADER_BUF. simpl length. lia.
Qed.

(** What a builder called with an empty output buffer returns: a message in the
    buffer, or a code to report and the buffer still empty. *)
Definition served (w : World) (c c' : Client) (len : Z) (content : bytes) : Prop :=
  holds w c' (B "200 OK") len content ∧ resp_val c' = resp_val c.
Definition refused (c c' : Client) : Prop :=
  out_buf c' = None
  ∧ (resp_val c' = resp_val c ∨ is_Some (error_responses (resp_val c'))).

Lemma frame_refl w c : out_buf c = None → client_frame w c c.
Proof. intros Ho. split_and!; try done. by rewrite Ho. Qed.

Lemma refused_with w c r :
  out_buf c = None → is_Some (error_responses r) →
  refused c (set_resp c r) ∧ client_frame w c (set_resp c r).
Proof.
  intros Ho Hr. split; [split; [done|by right]|]. split_and!; try done.
  intros blk. simpl. by rewrite Ho.
Qed.

(** The condition under which the parent answers with the program's output. *)
Definition cgi_succeeds (cg : cgi_result) : bool :=
  cg_wait_ok cg && cg_exited cg && (cg_status cg =? 0)%Z.

(** The end of the CGI builder, which owns the block [b] its output is in. *)
Lemma cgi_finish_total w0 c req cg b resp w :
  keeps w0 w → b ∈ w_blocks w → w_next w0 ≤ b → CR ∉ time_received req →
  length (time_received req) < TIME_RECEIVED_LENGTH → out_buf c = None →
  ∃ st c' w', cgi_finish c req cg b resp w = (Ret (st, c'), w') ∧ keeps w0 w'
    ∧ closes w w' [] ∧ client_frame w0 c c'
    ∧ ((st = 0%Z ∧ cgi_succeeds cg = true ∧ served w' c c' (u64 (zlen resp)) resp
        ∧ body_len c' = zlen resp ∧ b ∈ w_blocks w' ∧ Some b ≠ b_id <$> out_buf c')
       ∨ (st = (-1)%Z ∧ refused c c' ∧ (plenty w0 → cgi_succeeds cg = false))).
Proof.
  intros K Hb Hn Hcr Hl Ho. pose proof (keeps_ok _ _ K) as Hw.
  unfold cgi_finish, cgi_succeeds. run.
  assert (∀ P : Prop, (plenty w0 → P) → ∃ st c' w',
    (Ret ((-1)%Z, set_resp c RESP_500), w_free b w) = (Ret (st, c'), w') ∧ keeps w0 w'
    ∧ closes w w' [] ∧ client_frame w0 c c'
    ∧ ((st = 0%Z ∧ False) ∨ (st = (-1)%Z ∧ refused c c' ∧ (plenty w0 → P)))) as Hfail.
  { intros P HP. destruct (refused_with w0 c RESP_500 Ho ltac:(by eexists)) as [Hr Hf].
    do 3 eexists. split; [reflexivity|].
    split_and!; [auto with server|by eexists [EvFree b _]|apply Hf..|]. right. done. }
  unfold free at 1 2. destruct (cg_wait_ok cg); cbn [negb andb].
  2:{ destruct (Hfail (false = false) ltac:(done)) as (st & c' & w' & H). naive_solver. }
  destruct (negb (cg_exited cg) || negb (cg_status cg =? 0)%Z) eqn:Hs.
  { assert (cg_exited cg && (cg_status cg =? 0)%Z = false) as Hx
      by (by destruct (cg_exited cg), (cg_status cg =? 0)%Z).
    destruct (Hfail _ (λ _, Hx)) as (st & c' & w' & H). naive_solver. }
  assert (cg_exited cg && (cg_status cg =? 0)%Z = true) as Hx
    by (by destruct (cg_exited cg), (cg_status cg =? 0)%Z).
  rewrite cgi_head_fits by done.
  pose proof (cgi_head_message (time_received req) (length resp) resp Hcr) as Hmsg.
  set (text := head_bytes _) in *. clearbody text.
  unfold malloc. destruct (alloc_ok w) eqn:Ha; (do 3 eexists; split; [reflexivity|]; split_and!).
  - auto with server.
  - by apply closes_same.
  - split_and!; try done. intros blk [= <-]. simpl. by destruct K as (_ & _ & ? & _).
  - left. split_and!; try done.
    + split; [|done]. exists (w_next w), (text ++ resp). split_and!; [done|set_solver| | |done].
      * simpl. by rewrite length_app.
      * simpl. by rewrite length_app.
    + set_solver.
    + simpl. intros [= ->]. by apply (blocks_fresh w Hw).
  - auto with server.
  - by eexists [EvFree b _].
  - split_and!; try done.
  - right. split_and!; [done|split; [done|right; by eexists]|].
    intros H%(plenty_step w0 w ltac:(apply K))%plenty_alloc_ok. congruence.
Qed.

Lemma pipe_fuel_enough q : sum_list (pipe_size <$> q) < pipe_fuel q.
Proof. unfold pipe_fuel. lia. Qed.

(** Both ends of the pipe are closed, once, and nothing else. *)
Definition pipe_closed (p0 p1 : Z) (w w' : World) : Prop :=
  ∃ fds, closes w w' fds ∧ fds ≡ₚ [p0; p1].

Lemma pipe_closed_later p0 p1 w w' w'' :
  pipe_closed p0 p1 w w' → closes w' w'' [] → pipe_closed p0 p1 w w''.
Proof.
  intros (fds & H & Hp) H'. exists (fds ++ []). split; [by eapply closes_trans|by rewrite app_nil_r].
Qed.

Definition cgi_of (w : World) (c : Client) (rp : ResolvedPath) (req : Request) : cgi_result :=
  e_cgi (w_env w) (cgi_child c rp req).

(** The conditions under which a program's output is answered. *)
Definition cgi_runs (g : Globals) (cg : cgi_result) : bool :=
  has_flag g C_FLAG && bool_decide (is_Some (cg_pipe cg)) && cg_fork_ok cg
  && bool_decide (is_Some (cgi_text (cg_output cg))) && cgi_succeeds cg.

(** The outcome of the CGI builder: the program's output staged, and the block it was
    read into; or a code to report. [closed] is what it leaves of the pipe, [runs]
    the condition for an answer. *)
Definition cgi_outcome_ok (w : World) (c : Client) (cg : cgi_result) (closed : World → Prop)
    (runs : bool) (r : outcome (Z * Client) * World) : Prop :=
  ∃ st c' w', r = (Ret (st, c'), w') ∧ keeps w w' ∧ closed w' ∧ client_frame w c c'
    ∧ ((st = 0%Z ∧ runs = true ∧ ∃ text b,
          cgi_text (cg_output cg) = Some text ∧ served w' c c' (u64 (zlen text)) text
          ∧ body_len c' = zlen text ∧ b ∈ w_blocks w' ∧ Some b ≠ b_id <$> out_buf c'
          ∧ b ∉ w_blocks w)
       ∨ (st = (-1)%Z ∧ refused c c' ∧ (plenty w → runs = false))).

Lemma cgi_refused w c cg closed runs r w' :
  out_buf c = None → is_Some (error_responses r) → keeps w w' → closed w' →
  (plenty w → runs = false) →
  cgi_outcome_ok w c cg closed runs (Ret ((-1)%Z, set_resp c r), w').
Proof.
  intros Ho Hr K Hcl Hruns. destruct (refused_with w c r Ho Hr) as [H1 H2].
  do 3 eexists. split; [reflexivity|]. naive_solver.
Qed.

(** The parent, from the allocation of the block for the output. *)
Lemma cgi_parent c req cg p0 p1 w w1 :
  world_ok w → keeps w w1 → w_next w1 = w_next w → closes w w1 [p1] →
  CR ∉ time_received req → length (time_received req) < TIME_RECEIVED_LENGTH → out_buf c = None →
  cgi_outcome_ok w c cg (pipe_closed p0 p1 w)
    (bool_decide (is_Some (cgi_text (cg_output cg))) && cgi_succeeds cg)
    ((cgi_response ← malloc;
      match cgi_response with
      | None => _ ← close p0; mret ((-1)%Z, set_resp c RESP_500)
      | Some b =>
          r ← read_cgi (pipe_fuel (cg_output cg)) (cg_output cg) p0 b READ_SIZE [];
          match r with
          | None => mret ((-1)%Z, set_resp c RESP_500)
          | Some (b, resp) => _ ← close p0; cgi_finish c req cg b resp
          end
      end) w1).
Proof.
  intros Hw K1 Hnx C1 Hcr Hl Ho. unfold malloc. run. destruct (alloc_ok w1) eqn:Ha1.
  2:{ apply cgi_refused; [done|by eexists|auto with server| |].
      { exists [p1; p0]. split; [|solve_Permutation]. by apply (closes_event w w1 _ (EvClose p0) [p1]). }
      intros H%(plenty_step w w1 ltac:(apply K1))%plenty_alloc_ok. congruence. }
  set (w2 := w_new_block (w_alloc_next w1)).
  assert (reading_from w1 (w_next w1) w2) as H2.
  { split_and!; [|by apply closes_same|set_solver|lia]. unfold w2.
    apply keeps_new_block, keeps_alloc_next, keeps_refl. by eapply keeps_ok. }
  destruct (read_cgi_total w1 p0 (pipe_fuel (cg_output cg)) (cg_output cg) (w_next w1) READ_SIZE []
    w2) as (r & w3 & E & K13 & Hr); [apply pipe_fuel_enough|apply READ_SIZE_pos|simpl; lia|done|].
  rewrite E.
  assert (keeps w w3) as K3 by (by eapply keeps_trans).
  assert (plenty w → plenty w1) as Hpl by (apply plenty_step; apply K1).
  destruct r as [[b resp]|].
  2:{ destruct Hr as [Hc Hp2]. apply cgi_refused; [done|by eexists|done| |].
      { exists ([p1] ++ [p0]). split; [by eapply closes_trans|solve_Permutation]. }
      intros H. rewrite Hp2; [done|auto]. }
  destruct Hr as (C3 & Hb & Hbn & Ht).
  assert (cgi_text (cg_output cg) = Some resp) as Ht'.
  { destruct (cgi_text (cg_output cg)); simpl in Ht; congruence. }
  clear Ht. rewrite Hnx in Hbn.
  destruct (cgi_finish_total w c req cg b resp (w_emit (EvClose p0) w3))
    as (st & c' & w' & E' & K' & Hx & Hfr & Hres); [auto with server|done..|].
  exists st, c', w'. split; [exact E'|]. split; [done|]. split.
  { apply (pipe_closed_later _ _ _ (w_emit (EvClose p0) w3)); [|exact Hx].
    exists (([p1] ++ []) ++ [p0]). split; [|solve_Permutation].
    apply (closes_event w w3 _ (EvClose p0)); [by eapply closes_trans|done]. }
  split; [exact Hfr|]. rewrite Ht', bool_decide_true by eauto. cbn [andb].
  destruct Hres as [(-> & Hs & Hsv & Hbl & Hbb & Hne)|(-> & Hrf & Hs)]; [left|by right].
  split_and!; [done..|]. exists resp, b. split_and!; [done|exact Hsv|done..|].
  intros Hin. apply (ok_blocks w Hw) in Hin. lia.
Qed.

Lemma cgi_built g c rp req w :
  world_ok w → CR ∉ time_received req → length (time_received req) < TIME_RECEIVED_LENGTH →
  length (query_string rp) ≤ PATH_MAX → out_buf c = None →
  let cg := cgi_of w c rp req in
  cgi_outcome_ok w c cg
    (λ w', has_flag g C_FLAG = true → ∀ p0 p1, cg_pipe cg = Some (p0, p1) → pipe_closed p0 p1 w w')
    (cgi_runs g cg) (build_response_cgi g c rp req w).
Proof.
  intros Hw Hcr Hl Hq Ho. unfold build_response_cgi, cgi_runs. fold (cgi_of w c rp req).
  destruct (has_flag g C_FLAG); cbn [negb andb].
  2:{ apply cgi_refused; [done|by eexists|auto with server|done|done]. }
  unfold get. run. fold (cgi_of w c rp req). set (cg := cgi_of w c rp req).
  destruct (cg_pipe cg) as [[p0 p1]|] eqn:Hp; cbn [andb].
  2:{ apply cgi_refused; [done|by eexists|auto with server|done|done]. }
  rewrite decide_False by lia. rewrite bool_decide_true by eauto. cbn [andb].
  destruct (cg_fork_ok cg); cbn [negb andb].
  2:{ apply cgi_refused; [done|by eexists|auto with server| |done].
      intros _ ? ? [= <- <-]. exists [p0; p1]. split; [|done].
      exists [EvClose p0; EvClose p1]. split; [|done]. unfold extends. simpl. by rewrite <-app_assoc. }
  unfold emit at 1, close at 1. unfold emit at 1. cbv beta iota.
  set (w1 := w_emit (EvClose p1) (w_emit (EvExec _) w)).
  destruct (cgi_parent c req cg p0 p1 w w1) as (st & c' & w' & E & K & Hcl & H);
    [done|unfold w1; auto with server|done| |done..|].
  { exists [EvExec (cgi_child c rp req); EvClose p1]. split; [|done]. unfold extends. simpl.
    by rewrite <-app_assoc. }
  exists st, c', w'. split; [exact E|]. split; [done|]. split; [|exact H].
  intros _ ? ? [= -> ->]. exact Hcl.
Qed.

(** With CGI enabled and a query that fits, the only code of a failure is 500. *)
Lemma cgi_failed_500 g c rp req w st c' w' :
  has_flag g C_FLAG = true → length (query_string rp) ≤ PATH_MAX →
  build_response_cgi g c rp req w = (Ret (st, c'), w') → st = 0%Z ∨ resp_val c' = RESP_500.
Proof.
  intros Hc Hq. unfold build_response_cgi, get. rewrite Hc. cbn [negb]. run.
  destruct (cg_pipe _) as [[p0 p1]|]; [|intros [= <- <- <-]; by right].
  rewrite decide_False by lia. destruct (cg_fork_ok _); cbn [negb];
    [|intros [= <- <- <-]; by right].
  unfold emit at 1, close at 1. unfold emit at 1. cbv beta iota.
  destruct (malloc _) as [[[b|]| | |] w1]; [|intros [= <- <- <-]; by right|done..].
  destruct (read_cgi _ _ _ _ _ _ _) as [[[[b' resp]|]| | |] w2];
    [|intros [= <- <- <-]; by right|done..].
  unfold close, emit at 1, cgi_finish. cbv beta iota zeta.
  destruct (negb (cg_wait_ok _)); [intros [= <- <- <-]; by right|].
  destruct (negb _ || negb _); [intros [= <- <- <-]; by right|].
  run. destruct (malloc _) as [[[o|]| | |] w3]; intros [= <- <- <-]; auto.
Qed.

(** ** Every builder, every branch *)

(** The stream of a file or program being served is open. *)
Definition stream_live (w : World) (rp : ResolvedPath) : Prop :=
  ∃ f s, rp_file_ptr rp = Some f ∧ w_files w !! f = Some s.

(** The outcome of a builder that starts with an empty output buffer. *)
Definition builder_outcome (w : World) (c : Client) (r : outcome (Z * Client) * World) : Prop :=
  ∃ st c' w', r = (Ret (st, c'), w') ∧ keeps w w' ∧ client_frame w c c'
    ∧ ((st = 0%Z ∧ ready w' c' ∧ resp_val c' = resp_val c
        ∧ (plenty w → ∃ len content, holds w' c' (B "200 OK") len content))
       ∨ (st = (-1)%Z ∧ refused c c')).

Lemma refused_outcome w w' c r :
  keeps w w' → out_buf c = None → is_Some (error_responses r) →
  builder_outcome w c (Ret ((-1)%Z, set_resp c r), w').
Proof.
  intros K Ho Hr. destruct (refused_with w c r Ho Hr) as [H1 H2].
  do 3 eexists. split; [reflexivity|]. naive_solver.
Qed.

Lemma refused_same w w' c :
  keeps w w' → out_buf c = None → builder_outcome w c (Ret ((-1)%Z, c), w').
Proof.
  intros K Ho. exists (-1)%Z, c, w'. split; [done|]. split; [done|]. split.
  - by apply frame_refl.
  - right. split; [done|]. split; [done|by left].
Qed.

Lemma file_outcome c rp req w :
  world_ok w → CR ∉ time_received req → CR ∉ default [] (mime_type rp) → out_buf c = None →
  stream_live w rp → builder_outcome w c (build_response_file c rp req w).
Proof.
  intros Hw Hd Hm Ho (f & s & Hp & Hf). destruct (gmtime_iso (last_mod rp)) as [mt|] eqn:Ht.
  - destruct (alloc_ok w) eqn:Ha.
    + destruct (file_built c rp req w mt f s) as (c' & w' & E & K & H & Hh & Hr & Hfr); [done..|].
      exists 0%Z, c', w'. split_and!; [done|done|apply Hfr..|]. left. split_and!; [done..|].
      intros Hpl. do 2 eexists. by apply Hh.
    + destruct (build_file_eval c rp req w mt f s Ht Hp Hf Hw) as (texts & _ & ->). rewrite Ha.
      apply refused_same; auto with server.
  - unfold build_response_file. rewrite Ht.
    apply refused_outcome; [auto with server|done|by eexists].
Qed.

Lemma dir_outcome c rp req w :
  world_ok w → CR ∉ time_received req → path_type rp = IS_DIR → out_buf c = None →
  builder_outcome w c (build_response_dir c rp req w).
Proof.
  intros Hw Hd Hp Ho. pose proof (build_dir_eval c rp req w Hp) as Heval. cbv zeta in Heval.
  assert (∀ w', keeps w w' → builder_outcome w c (Ret ((-1)%Z, set_resp c RESP_500), w')) as Refuse
    by (intros; apply refused_outcome; [done|done|by eexists]).
  destruct (e_opendir _ _) as [entries|] eqn:He; [|rewrite Heval; apply Refuse; auto with server].
  set (wd := w_open _ w) in *. assert (sound w wd) as Hs by (unfold wd; auto with server).
  assert (world_ok wd) as Hwd by (by eapply sound_ok).
  destruct (alloc_ok wd) eqn:Ha1.
  2:{ rewrite Heval. apply Refuse. split_and!; [| |unfold wd; auto with server].
      - apply sound_closedir; [simpl; rewrite lookup_insert_eq; eauto|]. auto with server.
      - simpl. by rewrite delete_insert_id by auto with server. }
  set (w1 := w_allocs _ (w_memstream wd)) in *.
  assert (sound w w1) as Hs1 by (unfold w1; auto with server).
  destruct (gmtime_iso (last_mod rp)) as [mt|] eqn:Ht.
  2:{ rewrite Heval.
      apply Refuse, released_keeps; [done|done|done|simpl; set_solver|unfold w1, wd; auto with server]. }
  destruct (alloc_ok w1) eqn:Ha2.
  2:{ rewrite Heval. apply Refuse, released_keeps;
        [done|by auto with server|done|simpl; set_solver|unfold w1, wd; auto with server]. }
  clear Heval. destruct (page_built c rp req w mt entries) as (c' & w' & E & K & H & Hh & Hr & Hfr);
    [done..|].
  exists 0%Z, c', w'. split_and!; [done|done|apply Hfr..|]. left. split_and!; [done..|].
  intros Hpl. do 2 eexists. by apply Hh.
Qed.

Lemma cgi_outcome g c rp req w :
  world_ok w → CR ∉ time_received req → length (time_received req) < TIME_RECEIVED_LENGTH →
  length (query_string rp) ≤ PATH_MAX → out_buf c = None →
  builder_outcome w c (build_response_cgi g c rp req w).
Proof.
  intros Hw Hd Hl Hq Ho.
  destruct (cgi_built g c rp req w) as (st & c' & w' & E & K & _ & Hfr & H); [done..|].
  exists st, c', w'. split_and!; [done|done|apply Hfr..|].
  destruct H as [(Hst & _ & text & b & _ & [Hh Hr] & _)|(Hst & Hr & _)]; [left|right]; [|done].
  split_and!; [done|by eapply holds_ready|done|]. intros _. by do 2 eexists.
Qed.

Lemma error_sendable c req w :
  world_ok w → CR ∉ time_received req → is_Some (error_responses (resp_val c)) →
  out_buf c = None →
  ∃ st c' w', build_error_response c req w = (Ret (st, c'), w') ∧ keeps w w'
    ∧ client_frame w c c'
    ∧ ((st = 0%Z ∧ ready w' c' ∧ (plenty w → sendable w' c'))
       ∨ (st = (-1)%Z ∧ c' = c ∧ ¬ plenty w)).
Proof.
  intros Hw Hd [e He] Ho. destruct (alloc_ok w) eqn:Ha.
  - destruct (error_built c req w e) as (c' & w' & E & K & H & Hh & Hr & Hfr); [done..|].
    exists 0%Z, c', w'. split_and!; [done|done|apply Hfr..|]. left. split_and!; [done..|].
    intros Hp. do 3 eexists. split; [by apply Hh|]. rewrite Hr. by apply error_responses_ok.
  - rewrite build_error_eval, He, Ha. do 3 eexists. split; [reflexivity|].
    split; [auto with server|]. split; [by apply frame_refl|].
    right. split_and!; [done..|]. intros H%plenty_alloc_ok. congruence.
Qed.

(** What the dispatcher needs of its arguments; resolve_path provides it. *)
Record okay_args (w : World) (c : Client) (rp : ResolvedPath) (req : Request) : Prop := {
  oa_out : out_buf c = None;
  oa_date : CR ∉ time_received req;
  oa_date_len : length (time_received req) < TIME_RECEIVED_LENGTH;
  oa_query : length (query_string rp) ≤ PATH_MAX;
  oa_mime : path_type rp = IS_FILE → CR ∉ default [] (mime_type rp);
  oa_type : path_type rp ≠ UNKNOWN;
  oa_stream : path_type rp = IS_FILE → stream_live w rp
}.

Lemma okay_outcome g c rp req w :
  world_ok w → okay_args w c rp req →
  ∃ st c' w', build_okay_response g c rp req w = (Ret (st, c'), w') ∧ keeps w w'
    ∧ client_frame w c c'
    ∧ ((st = 0%Z ∧ ready w' c' ∧ (plenty w → sendable w' c'))
       ∨ (st = (-1)%Z ∧ out_buf c' = None ∧ ¬ plenty w)).
Proof.
  intros Hw [Ho Hd Hl Hq Hm Ht Hst]. unfold build_okay_response.
  set (c1 := set_resp c RESP_200).
  assert (builder_outcome w c1 (match path_type rp with
      | IS_CGI => build_response_cgi g c1 rp req
      | IS_DIR => build_response_dir c1 rp req
      | IS_FILE => build_response_file c1 rp req
      | UNKNOWN => mret (0%Z, c1)
      end w)) as (st & c2 & w2 & E & K & (Fi & Ff & Fs & Fp & Fo) & H).
  { destruct (path_type rp) eqn:Hp; [done|..].
    - apply file_outcome; auto.
    - by apply dir_outcome.
    - by apply cgi_outcome. }
  rewrite (bind_run _ _ _ _ _ E).
  destruct H as [(-> & Hrd & Hr & Hh)|(-> & Ho2 & Hr)].
  - exists 0%Z, c2, w2. split_and!; [done..|]. left. split_and!; [done..|].
    intros Hp. destruct (Hh Hp) as (len & content & Hh'). do 3 eexists.
    split; [exact Hh'|]. rewrite Hr. reflexivity.
  - change (-1 <? 0)%Z with true. cbv iota. unfold okay_failed.
    set (c3 := if decide (resp_val c2 = RESP_200) then _ else c2).
    assert (client_frame w2 c2 c3 ∧ out_buf c3 = None
            ∧ is_Some (error_responses (resp_val c3))) as ((Gi & Gf & Gs & Gp & _) & Ho3 & Hr3).
    { unfold c3. case_decide as H2; (split; [split_and!; try done; simpl; by rewrite Ho2|]).
      - split; [done|by eexists].
      - split; [done|]. by destruct Hr. }
    unfold free. cbn [out_buf set_out set_header_len set_body_len set_file]. rewrite Ho3.
    run. cbn [fmap option_fmap option_map].
    destruct (error_sendable
      (set_file (set_body_len (set_header_len (set_out c3 None 0) 0) 0) (file_ptr c3) 0)
      req w2) as (st & c' & w' & E' & K' & (Ei & Ef & Es & Ep & Eo) & H');
      [by eapply keeps_ok|done..|].
    exists st, c', w'. split; [exact E'|]. split; [by eapply keeps_trans|]. split.
    + split_and!.
      * rewrite Ei. simpl. by rewrite Gi, Fi.
      * rewrite Ef. simpl. by rewrite Gf, Ff.
      * rewrite Es. simpl. by rewrite Gs, Fs.
      * rewrite Ep. simpl. by rewrite Gp, Fp.
      * intros blk Hblk. specialize (Eo blk Hblk). destruct (keeps_old _ _ K) as [Hn _]. lia.
    + assert (plenty w → plenty w2) as Hpl by (apply plenty_step; apply K).
      destruct H' as [(-> & Hrd & H')|(-> & -> & Hnp)]; [left; by auto|right]. split_and!; [done..|].
      intros Hp. apply Hnp. eapply plenty_step; [apply K|done].
Qed.

(** ** HEAD against GET *)

(** The request with its method replaced by HEAD. *)
Definition as_head (req : Request) : Request :=
  mkRequest HTTP_HEAD (version req) (time_received req) (path req).

(** The second result stages the header of the message the first one stages, or
    both fail alike. *)
Definition head_rel (r1 r2 : outcome (Z * Client) * World) : Prop :=
  (∃ c1 w1 c2 w2 b out, r1 = (Ret (0%Z, c1), w1) ∧ r2 = (Ret (0%Z, c2), w2)
     ∧ out_buf c1 = Some (Block b out) ∧ out_buf c2 = Some (Block b (take (header_len c1) out))
     ∧ output_length c2 = header_len c1 ∧ resp_val c1 = resp_val c2)
  ∨ ∃ c' w', r1 = (Ret ((-1)%Z, c'), w') ∧ r2 = (Ret ((-1)%Z, c'), w').

Lemma head_rel_staged c b hd out bl bl' w1 w2 :
  hd `prefix_of` out →
  head_rel (Ret (0%Z, staged c b out (length hd) bl), w1)
           (Ret (0%Z, staged c b hd (length hd) bl'), w2).
Proof.
  intros [body ->]. left. exists (staged c b (hd ++ body) (length hd) bl), w1,
    (staged c b hd (length hd) bl'), w2, b, (hd ++ body).
  split_and!; try done. cbn [header_len staged set_body_len set_header_len out_buf set_out].
  by rewrite take_app_length.
Qed.

Lemma head_rel_failed c w : head_rel (Ret ((-1)%Z, c), w) (Ret ((-1)%Z, c), w).
Proof. right. by exists c, w. Qed.

Section head_of.
Context (c : Client) (rp : ResolvedPath) (req : Request) (w : World).
Context (Hget : is_head req = false).

Lemma error_head_rel :
  head_rel (build_error_response c req w) (build_error_response c (as_head req) w).
Proof.
  rewrite !build_error_eval, Hget. destruct (error_responses _) as [e|];
    [|apply head_rel_failed].
  destruct (alloc_ok w); [|apply head_rel_failed].
  apply head_rel_staged, stored_more.
Qed.

Lemma file_head_rel :
  world_ok w → stream_live w rp →
  head_rel (build_response_file c rp req w) (build_response_file c rp (as_head req) w).
Proof.
  intros Hw (f & s & Hp & Hf). destruct (gmtime_iso (last_mod rp)) as [mt|] eqn:Ht.
  - destruct (build_file_eval c rp req w mt f s Ht Hp Hf Hw) as (texts & _ & ->).
    destruct (build_file_eval c rp (as_head req) w mt f s Ht Hp Hf Hw) as (texts' & _ & ->).
    rewrite Hget. destruct (alloc_ok w); [|apply head_rel_failed].
    apply head_rel_staged, stores_more.
  - unfold build_response_file. rewrite Ht. apply head_rel_failed.
Qed.

Lemma dir_head_rel :
  path_type rp = IS_DIR →
  head_rel (build_response_dir c rp req w) (build_response_dir c rp (as_head req) w).
Proof.
  intros Hp. rewrite !build_dir_eval, Hget by done. cbn [path as_head]. cbv zeta.
  destruct (e_opendir _ _) as [entries|]; [|apply head_rel_failed].
  destruct (alloc_ok _); [|apply head_rel_failed].
  destruct (gmtime_iso _); [|apply head_rel_failed].
  destruct (alloc_ok _); [|apply head_rel_failed].
  apply head_rel_staged, stores_more.
Qed.
End head_of.

Lemma okay_failed_head_rel c req w :
  is_head req = false → head_rel (okay_failed c req w) (okay_failed c (as_head req) w).
Proof.
  intros Hg. unfold okay_failed. set (c3 := set_file _ _ _). unfold free. run.
  by apply error_head_rel.
Qed.

Lemma error_closes_nothing c req w r w' :
  build_error_response c req w = (r, w') → closes w w' [].
Proof.
  rewrite build_error_eval. intros E. apply (f_equal snd) in E. simpl in E. subst w'.
  destruct (error_responses _) as [e|]; [|by apply closes_same].
  destruct (alloc_ok w); [|by apply closes_same].
  destruct (is_head req); by eexists [EvFclose _ _].
Qed.

(** After a failed builder no descriptor is closed and the code is not 200. *)
Lemma okay_failed_run c req w st c' w' :
  out_buf c = None → okay_failed c req w = (Ret (st, c'), w') →
  closes w w' [] ∧ resp_val c' ≠ RESP_200.
Proof.
  intros Ho. unfold okay_failed.
  set (c3 := if decide (resp_val c = RESP_200) then _ else c).
  assert (out_buf c3 = None ∧ resp_val c3 ≠ RESP_200) as [Ho3 Hr3] by (unfold c3; by case_decide).
  unfold free. cbn [out_buf set_out set_header_len set_body_len set_file]. rewrite Ho3.
  run. cbn [fmap option_fmap option_map]. intros E. split; [by eapply error_closes_nothing|].
  rewrite build_error_eval in E. cbn [resp_val set_file set_body_len set_header_len set_out] in E.
  destruct (error_responses _) as [e|]; [|by injection E as _ <- _].
  destruct (alloc_ok w); [|by injection E as _ <- _].
  by destruct (is_head req); injection E as _ <- _.
Qed.

(** * Properties *)

(** C21. A request that resolved is answered, whole as long as memory lasts. Whatever
    the resource, the file system, the CGI program and the allocator do,
    build_okay_response returns without crashing, closes and frees only live objects
    and leaves no stream open of its own. When no allocation fails it returns 0 and
    the output buffer holds a whole HTTP message whose status line starts with the
    code that is logged. When one fails, either it gives up with an empty buffer or it
    returns 0 with what the memory stream could store, which may be less than the
    message, since the results of fprintf, fwrite and fclose are not looked at. *)
Theorem okay_response_answers g c rp req w :
  world_ok w → okay_args w c rp req →
  ∃ st c' w', build_okay_response g c rp req w = (Ret (st, c'), w')
    ∧ sound w w' ∧ dom (w_files w') = dom (w_files w)
    ∧ (st = 0%Z ∧ ready w' c' ∨ st = (-1)%Z ∧ out_buf c' = None ∧ ¬ plenty w)
    ∧ (plenty w → st = 0%Z ∧ sendable w' c').
Proof.
  intros Hw Ha. destruct (okay_outcome g c rp req w Hw Ha) as (st & c' & w' & E & (K & D & _) & _ & H).
  exists st, c', w'. naive_solver.
Qed.

(** An error code from the table is reported: the message carries the
    table's status line, whose number is the one logged, announces the length of
    the table's body, and holds that body, or nothing for HEAD; the stream it is
    printed through is closed again. *)
Theorem error_response_message c req w e :
  world_ok w → error_responses (resp_val c) = Some e → CR ∉ time_received req →
  plenty w →
  ∃ c' w', build_error_response c req w = (Ret (0%Z, c'), w')
    ∧ holds w' c' (status_line e) (zlen (r_body e)) (if is_head req then [] else r_body e)
    ∧ take 3 (status_line e) = resp_val_to_status_string (resp_val c')
    ∧ body_len c' = zlen (r_body e)
    ∧ sound w w' ∧ dom (w_files w') = dom (w_files w).
Proof.
  intros Hw He Hd Hp.
  destruct (error_built c req w e) as (c' & w' & E & (K & D & _) & _ & H & Hr & _);
    [done..|by apply plenty_alloc_ok|]. destruct (H Hp) as [Hh Hb].
  exists c', w'. rewrite Hr. split_and!; try done. by apply error_responses_ok.
Qed.

Section okay_properties.
Context (g : Globals) (c : Client) (rp : ResolvedPath) (req : Request) (w : World).
Context (Hw : world_ok w) (Hargs : okay_args w c rp req) (Hplenty : plenty w).

Lemma okay_run st c' w' :
  (match path_type rp with
   | IS_CGI => build_response_cgi g (set_resp c RESP_200) rp req
   | IS_DIR => build_response_dir (set_resp c RESP_200) rp req
   | IS_FILE => build_response_file (set_resp c RESP_200) rp req
   | UNKNOWN => mret (0%Z, set_resp c RESP_200)
   end) w = (Ret (st, c'), w') →
  (0 ≤ st)%Z → build_okay_response g c rp req w = (Ret (st, c'), w').
Proof.
  intros E Hst. unfold build_okay_response. rewrite (bind_run _ _ _ _ _ E).
  rewrite (proj2 (Z.ltb_ge st 0)) by done. done.
Qed.

(** A builder that failed with [c2] is followed by the error response for its code, or
    for 500 when it left the code at 200. *)
Lemma okay_refused c2 w2 r e :
  (match path_type rp with
   | IS_CGI => build_response_cgi g (set_resp c RESP_200) rp req
   | IS_DIR => build_response_dir (set_resp c RESP_200) rp req
   | IS_FILE => build_response_file (set_resp c RESP_200) rp req
   | UNKNOWN => mret (0%Z, set_resp c RESP_200)
   end) w = (Ret ((-1)%Z, c2), w2) →
  keeps w w2 → out_buf c2 = None →
  r = (if decide (resp_val c2 = RESP_200) then RESP_500 else resp_val c2) →
  error_responses r = Some e →
  ∃ c' w', build_okay_response g c rp req w = (Ret (0%Z, c'), w') ∧ keeps w2 w'
    ∧ holds w' c' (status_line e) (zlen (r_body e)) (if is_head req then [] else r_body e)
    ∧ resp_val c' = r ∧ body_len c' = zlen (r_body e).
Proof.
  intros E K Ho Hr He. unfold build_okay_response. rewrite (bind_run _ _ _ _ _ E).
  change (-1 <? 0)%Z with true. cbv iota. unfold okay_failed.
  set (c3 := if decide (resp_val c2 = RESP_200) then _ else c2).
  assert (out_buf c3 = None ∧ resp_val c3 = r) as (Ho3 & Hr3).
  { unfold c3. rewrite Hr. by case_decide. }
  unfold free. cbn [out_buf set_out set_header_len set_body_len set_file]. rewrite Ho3.
  run. cbn [fmap option_fmap option_map].
  destruct (error_built
    (set_file (set_body_len (set_header_len (set_out c3 None 0) 0) 0) (file_ptr c3) 0)
    req w2 e) as (c' & w' & E' & K' & _ & H & Hr' & _);
    [by eapply keeps_ok|by simpl; rewrite Hr3|apply Hargs
    |eapply plenty_alloc_ok, plenty_step; [apply K|done]|].
  destruct H as [Hh Hb]; [eapply plenty_step; [apply K|done]|].
  exists c', w'. split_and!; [exact E'|apply K'..|exact Hh|by rewrite Hr'|exact Hb].
Qed.

(** C26. A file is sent whole. While memory does not run out, for any content and length, the 200 message holds
    exactly the bytes the stream had left, or nothing for HEAD, and announces the
    size fstat gave, which is the content's length when the file did not change;
    except for HEAD, the length logged is the content's. *)
Theorem file_response_message mt s f :
  path_type rp = IS_FILE → gmtime_iso (last_mod rp) = Some mt →
  rp_file_ptr rp = Some f → w_files w !! f = Some s →
  (0 ≤ rp_file_size rp < 2 ^ 64)%Z →
  ∃ c' w', build_okay_response g c rp req w = (Ret (0%Z, c'), w')
    ∧ holds w' c' (B "200 OK") (rp_file_size rp) (if is_head req then [] else s_rest s)
    ∧ resp_val c' = RESP_200
    ∧ (is_head req = false → body_len c' = zlen (s_rest s)).
Proof.
  intros Hp Ht Hfp Hf Hsz. destruct Hargs as [Ho Hd _ _ Hm _ _]. specialize (Hm Hp).
  destruct (file_built (set_resp c RESP_200) rp req w mt f s) as (c' & w' & E & _ & _ & H & Hr & _);
    [done..|by apply plenty_alloc_ok|]. destruct (H Hplenty) as [Hh Hb]. clear H.
  exists c', w'. rewrite u64_small in Hh by done. split_and!; [|done..|].
  - apply okay_run; [by rewrite Hp|lia].
  - intros Hhd. by rewrite Hhd in Hb.
Qed.

(** A directory is listed: one item per entry whose name does not start with a
    dot, in the order readdir gives them, or the empty-directory text; the
    length computed before the page is printed is the page's length exactly. *)
Theorem directory_response_message mt entries :
  path_type rp = IS_DIR → gmtime_iso (last_mod rp) = Some mt →
  e_opendir (w_env w) (tail (path req)) = Some entries →
  (zlen (listing_page (tail (path req)) entries) < 2 ^ 64)%Z →
  ∃ c' w', build_okay_response g c rp req w = (Ret (0%Z, c'), w')
    ∧ holds w' c' (B "200 OK") (zlen (listing_page (tail (path req)) entries))
        (if is_head req then [] else listing_page (tail (path req)) entries)
    ∧ resp_val c' = RESP_200 ∧ dom (w_files w') = dom (w_files w).
Proof.
  intros Hp Ht He Hsz. destruct Hargs as [Ho Hd _ _ Hm _ _].
  destruct (page_built (set_resp c RESP_200) rp req w mt entries)
    as (c' & w' & E & (_ & K & _) & _ & H & Hr & _); [done..| | |].
  { by apply plenty_alloc_ok. }
  { apply plenty_alloc_ok, memstream_plenty; [auto with server|done]. }
  destruct (H Hplenty) as [Hh _]. exists c', w'. rewrite u64_small in Hh by lia. split_and!; try done.
  apply okay_run; [by rewrite Hp|lia].
Qed.

(** A directory that cannot be opened by the request path less its first byte,
    query included, is answered with 500: that is what happens to / when it has
    no index, since the name is then empty, and to a directory asked with a
    query. *)
Theorem directory_unopened_500 :
  path_type rp = IS_DIR → e_opendir (w_env w) (tail (path req)) = None →
  ∃ c' w', build_okay_response g c rp req w = (Ret (0%Z, c'), w')
    ∧ holds w' c' (B "500 Internal Server Error") 0 [] ∧ resp_val c' = RESP_500.
Proof.
  intros Hp He. destruct Hargs as [Ho _ _ _ _ _ _].
  destruct (okay_refused (set_resp c RESP_500) w RESP_500
    (mkResponse (B "500 Internal Server Error") TEXT_RESPONSE []))
    as (c' & w' & E' & _ & H & Hr & _); [|by apply keeps_refl|done..|].
  - rewrite Hp, build_dir_eval by done. cbv zeta. by rewrite He.
  - exists c', w'. split; [exact E'|]. split; [|done]. by destruct (is_head req).
Qed.

End okay_properties.

(** The dispatcher after the CGI builder. *)
Lemma okay_cgi_run g c rp req w st c2 w2 :
  path_type rp = IS_CGI →
  build_response_cgi g (set_resp c RESP_200) rp req w = (Ret (st, c2), w2) →
  (st = 0%Z → build_okay_response g c rp req w = (Ret (st, c2), w2))
  ∧ (st = (-1)%Z → build_okay_response g c rp req w = okay_failed c2 req w2).
Proof.
  intros Hp E. unfold build_okay_response. rewrite Hp, (bind_run _ _ _ _ _ E).
  by split; intros ->.
Qed.

(** C27. A CGI program's output is the content of a 200 message, and only then is the
    code 200, when CGI is enabled, the pipe and the child could be created, the
    output could be read to its end and the program exited with status 0; and while
    no allocation fails it is so exactly then, an error being reported otherwise.
    Whatever happens, a failed allocation included, once the pipe is made both its
    ends are closed, each once. With each answer a block is lost: one that is new
    and still live, and not the client's. *)
Theorem cgi_response_message g c rp req w :
  world_ok w → okay_args w c rp req → path_type rp = IS_CGI →
  let cg := cgi_of w (set_resp c RESP_200) rp req in
  ∃ st c' w', build_okay_response g c rp req w = (Ret (st, c'), w')
    ∧ (has_flag g C_FLAG = true → ∀ p0 p1, cg_pipe cg = Some (p0, p1) → pipe_closed p0 p1 w w')
    ∧ (resp_val c' = RESP_200 → st = 0%Z ∧ cgi_runs g cg = true
         ∧ ∃ text b, cgi_text (cg_output cg) = Some text
             ∧ holds w' c' (B "200 OK") (u64 (zlen text)) text
             ∧ b ∈ w_blocks w' ∧ (b ∉ w_blocks w) ∧ Some b ≠ b_id <$> out_buf c')
    ∧ (plenty w → st = 0%Z ∧ (resp_val c' = RESP_200 ↔ cgi_runs g cg = true)
         ∧ (resp_val c' ≠ RESP_200 → sendable w' c')).
Proof.
  intros Hw Hargs Hp. cbv zeta. pose proof Hargs as [Ho Hd Hl Hq Hm _ _].
  destruct (okay_outcome g c rp req w Hw Hargs) as (st0 & c0 & w0 & E0 & _ & _ & Hok).
  destruct (cgi_built g (set_resp c RESP_200) rp req w) as (st & c2 & w2 & E & K & Hpipe & _ & H);
    [done..|].
  destruct (okay_cgi_run _ _ _ _ _ _ _ _ Hp E) as [E1 E2]. rewrite E0 in E1, E2.
  rewrite E0. exists st0, c0, w0. split; [done|].
  destruct H as [(-> & Hrun & text & b & Ht & (Hh & Hr) & _ & Hb)|(-> & (Ho2 & Hr) & Hrun)].
  - specialize (E1 eq_refl). injection E1 as -> -> ->. simpl in Hr. split; [done|]. rewrite Hrun, Hr. split.
    + intros _. split_and!; [done..|]. exists text, b. naive_solver.
    + intros _. split_and!; [done..|]. by intros [].
  - destruct (okay_failed_run c2 req w2 st0 c0 w0 Ho2 (eq_sym (E2 eq_refl))) as [Hcl Hcode].
    split; [|split].
    + intros Hc p0 p1 Hpp. eapply pipe_closed_later; [by apply Hpipe|done].
    + by intros ?%Hcode.
    + intros Hpl. rewrite (Hrun Hpl). destruct Hok as [(-> & _ & Hs)|(_ & _ & Hn)]; [|done].
      split_and!; [done| |by intros _; apply Hs]. split; [by intros ?%Hcode|done].
Qed.

(** C33. HEAD answers with the header of GET: for files and directories, and for every
    error code, however the request failed, the bytes staged for HEAD are the header
    part of those staged for GET, with the same code, and nothing else; an error
    message's header is followed by its body for GET. *)
Theorem head_is_get_header g c rp req w :
  world_ok w → plenty w → is_head req = false →
  (okay_args w c rp req → path_type rp ≠ IS_CGI →
   ∃ c1 w1 c2 w2 b out,
     build_okay_response g c rp req w = (Ret (0%Z, c1), w1)
     ∧ build_okay_response g c rp (as_head req) w = (Ret (0%Z, c2), w2)
     ∧ out_buf c1 = Some (Block b out) ∧ out_buf c2 = Some (Block b (take (header_len c1) out))
     ∧ output_length c2 = header_len c1 ∧ resp_val c1 = resp_val c2)
  ∧ ∀ e, error_responses (resp_val c) = Some e →
    let head := head_bytes (error_head e (time_received req)) in
    ∃ c1 w1 c2 w2 b,
      build_error_response c req w = (Ret (0%Z, c1), w1)
      ∧ build_error_response c (as_head req) w = (Ret (0%Z, c2), w2)
      ∧ out_buf c1 = Some (Block b (head ++ r_body e)) ∧ header_len c1 = length head
      ∧ out_buf c2 = Some (Block b head) ∧ output_length c2 = length head
      ∧ resp_val c1 = resp_val c ∧ resp_val c2 = resp_val c.
Proof.
  intros Hw Hp Hg. split.
  - intros Ha Hcgi.
    assert (head_rel (build_okay_response g c rp req w)
              (build_okay_response g c rp (as_head req) w)) as [H|(c' & w' & H & _)].
    + unfold build_okay_response. set (c1 := set_resp c RESP_200).
      assert (∀ m1 m2 : M (Z * Client), head_rel (m1 w) (m2 w) →
        let k := λ req' r, let '(status, c') := r in
          if (status <? 0)%Z then okay_failed c' req' else mret (status, c') in
        head_rel ((m1 ≫= k req) w) ((m2 ≫= k (as_head req)) w)) as Hk.
      { intros m1 m2 [(c2 & w2 & c3 & w3 & b & out & E1 & E2 & H)|(c2 & w2 & E1 & E2)];
          cbv zeta; rewrite (bind_run _ _ _ _ _ E1), (bind_run _ _ _ _ _ E2).
        - left. by exists c2, w2, c3, w3, b, out.
        - by apply okay_failed_head_rel. }
      destruct Ha as [_ _ _ _ _ Ht Hst].
      destruct (path_type rp) eqn:Hpt; [done|apply Hk..|done].
      * apply file_head_rel; auto.
      * by apply dir_head_rel.
    + exact H.
    + destruct (okay_outcome g c rp req w Hw Ha) as (st & c1 & w1 & E & _ & _ & Hst).
      rewrite E in H. injection H as -> _ _. naive_solver.
  - intros e He head. rewrite !build_error_eval, He, plenty_alloc_ok, Hg by done.
    cbn [is_head as_head method]. cbv zeta. cbn [time_received as_head]. fold head.
    change (is_head (as_head req)) with true. cbv iota.
    assert (plenty (w_memstream w)) as Hp1
      by (rewrite <-(allocs_0 (w_memstream w)); by apply memstream_plenty).
    rewrite !stored_all by auto with server.
    do 5 eexists. split_and!; reflexivity.
Qed.

(** The output of a CGI program is collected whole, however it is cut: from
    any sequence of non-empty reads, interrupted or not, the loop ends with the
    concatenation of the data in a live block; it always ends, growing the block
    as often as needed. *)
Theorem cgi_output_collected chunks q pipe0 w :
  world_ok w → plenty w → Forall (λ d, d ≠ []) chunks →
  filter (λ r, interrupted r = false) q = PipeData <$> chunks →
  ∃ b w', (p ← malloc;
           match p with
           | Some b => read_cgi (pipe_fuel q) q pipe0 b READ_SIZE []
           | None => mret None
           end) w = (Ret (Some (b, concat chunks)), w')
    ∧ b ∈ w_blocks w' ∧ sound w w'.
Proof.
  intros Hw Hp Hne Hq. unfold malloc. run. rewrite plenty_alloc_ok by done.
  assert (reading_from w (w_next w) (w_new_block (w_alloc_next w))) as Hfrom.
  { split_and!; [auto with server|by apply closes_same|set_solver|done]. }
  destruct (read_cgi_total w pipe0 (pipe_fuel q) q (w_next w) READ_SIZE [] _
    (pipe_fuel_enough q) READ_SIZE_pos ltac:(simpl; lia) Hfrom) as (r & w' & E & K & Hr).
  assert (cgi_text q = Some (concat chunks)) as Ht.
  { clear E Hr K. revert chunks Hne Hq. induction q as [|r0 q IH]; intros chunks Hne Hq.
    - by destruct chunks.
    - rewrite filter_cons in Hq. case_decide as Hr.
      + destruct chunks as [|d chunks]; [done|]. injection Hq as -> Hq.
        apply Forall_cons in Hne as [Hd Hne]. cbn [cgi_text].
        rewrite (IH chunks) by done. by destruct d.
      + destruct r0 as [d|e]; [by destruct Hr|]. cbn [cgi_text].
        rewrite decide_True; [by apply IH|]. cbn [interrupted] in Hr.
        by destruct (bool_decide_reflect (e = EINTR)). }
  destruct r as [[b' resp]|]; [|destruct Hr as [_ Hr]; by rewrite Hr in Ht].
  destruct Hr as (_ & Hb' & _ & Hr). rewrite Ht in Hr. injection Hr as <-.
  exists b', w'. split; [exact E|]. split; [done|apply K].
Qed.

(** The block a CGI program's output was read into is never released: after a
    200 response it is still live, and it is not the block the client owns. *)
Lemma cgi_buffer_leaked g c rp req w :
  world_ok w → okay_args w c rp req → plenty w → path_type rp = IS_CGI →
  cgi_runs g (cgi_of w (set_resp c RESP_200) rp req) = true →
  ∃ c' w' b, build_okay_response g c rp req w = (Ret (0%Z, c'), w')
    ∧ b ∈ w_blocks w' ∧ Some b ≠ b_id <$> out_buf c' ∧ b ∉ w_blocks w.
Proof.
  intros Hw [Ho Hd Hl Hq Hm _ _] Hp Ht Hrun.
  destruct (cgi_built g (set_resp c RESP_200) rp req w) as (st & c' & w' & E & K & _ & _ & H); [done..|].
  destruct H as [(-> & _ & text & b & _ & _ & _ & Hb)|(_ & _ & Hn)];
    [|by rewrite Hn in Hrun].
  exists c', w', b. split; [|done]. apply okay_run; [by rewrite Ht|lia].
Qed.

(** * Witnesses *)

(** A file open for a request, and the arguments resolve_path leaves for it. *)
Definition file_world : World :=
  w_open (mkStream (Some (mkStat false 5 0)) (B "hello")) sample_world.
Definition file_rp : ResolvedPath := mkRP [] (Some 0) 5 (Some (B "text/html")) 0 IS_FILE.
Definition dir_rp : ResolvedPath := mkRP [] None 0 None 0 IS_DIR.
Definition cgi_rp : ResolvedPath := mkRP (B "a=1") (Some 0) 9 None 0 IS_CGI.
Definition cgi_globals : Globals := set_app_flags C_FLAG globals_init.

Lemma file_world_ok : world_ok file_world.
Proof. unfold file_world, sample_world. auto with server. Qed.

Lemma sample_args w rp req :
  time_received req = [] → CR ∉ default [] (mime_type rp) → length (query_string rp) ≤ 10 →
  path_type rp ≠ UNKNOWN → (path_type rp = IS_FILE → stream_live w rp) →
  okay_args w blank_client rp req.
Proof.
  intros Hd Hm Hq Ht Hs. constructor; try done.
  - rewrite Hd. apply not_elem_of_nil.
  - rewrite Hd. unfold TIME_RECEIVED_LENGTH. simpl. lia.
  - size_lia.
Qed.

Lemma file_args m : okay_args file_world blank_client file_rp (mkRequest m HTTP_1_0 [] (B "/a.html")).
Proof. apply sample_args; [done|by_eval|simpl; lia|done|]. intros _. by do 2 eexists. Qed.
Lemma dir_args p : okay_args sample_world blank_client dir_rp (get_req p).
Proof. apply sample_args; [done|by_eval|simpl; lia|done|done]. Qed.
Lemma cgi_args : okay_args sample_world blank_client cgi_rp (get_req (B "/cgi-bin/run?a=1")).
Proof. apply sample_args; [done|by_eval|simpl; lia|done|done]. Qed.
Lemma sample_plenty : plenty sample_world.
Proof. constructor. Qed.
Lemma file_plenty : plenty file_world.
Proof. constructor. Qed.

Lemma okay_response_answers_witness :
  ∃ st c' w', build_okay_response globals_init blank_client file_rp (get_req (B "/a.html")) file_world
    = (Ret (st, c'), w') ∧ st = 0%Z ∧ sendable w' c'.
Proof.
  destruct (okay_response_answers globals_init blank_client file_rp (get_req (B "/a.html"))
    file_world file_world_ok (file_args _)) as (st & c' & w' & H1 & _ & _ & _ & H2).
  exists st, c', w'. split; [exact H1|exact (H2 file_plenty)].
Defined.

(** A memory stream that cannot grow: the response is cut, and returned as a success. *)
Example truncated_response :
  let w := mkWorld (e_set_alloc [true; false; false] (w_env file_world)) (w_next file_world)
             (w_files file_world) (w_blocks file_world) [] in
  match build_okay_response globals_init blank_client file_rp (get_req (B "/a.html")) w with
  | (Ret (st, c'), _) => st = 0%Z ∧ (b_data <$> out_buf c') = Some [] ∧ output_length c' = 0
  | _ => False
  end.
Proof. vm_compute. auto. Qed.

Lemma error_response_message_witness :
  ∃ c' w', build_error_response (set_resp blank_client RESP_404) (get_req (B "/x")) sample_world
           = (Ret (0%Z, c'), w') ∧ body_len c' = 174%Z.
Proof.
  edestruct (error_response_message (set_resp blank_client RESP_404) (get_req (B "/x"))
    sample_world) as (c' & w' & H1 & _ & _ & H2 & _);
    [apply world_of_ok|reflexivity|apply not_elem_of_nil|apply sample_plenty|].
  exists c', w'. split; [exact H1|]. rewrite H2. vm_compute. reflexivity.
Defined.

Lemma file_response_message_witness :
  ∃ c' w', build_okay_response globals_init blank_client file_rp (get_req (B "/a.html")) file_world
    = (Ret (0%Z, c'), w') ∧ holds w' c' (B "200 OK") 5 (B "hello").
Proof.
  edestruct (file_response_message globals_init blank_client file_rp (get_req (B "/a.html"))
    file_world file_world_ok (file_args _) file_plenty) as (c' & w' & H1 & H2 & _);
    [reflexivity|vm_compute; reflexivity|reflexivity|reflexivity|by_eval|].
  exists c', w'. split; [exact H1|exact H2].
Defined.

Lemma directory_response_message_witness :
  ∃ c' w', build_okay_response globals_init blank_client dir_rp (get_req (B "/e")) sample_world
    = (Ret (0%Z, c'), w') ∧ resp_val c' = RESP_200.
Proof.
  edestruct (directory_response_message globals_init blank_client dir_rp (get_req (B "/e"))
    sample_world (world_of_ok _) (dir_args _) sample_plenty) as (c' & w' & H1 & _ & H2 & _);
    [reflexivity|vm_compute; reflexivity|vm_compute; reflexivity|by_eval|].
  exists c', w'. split; [exact H1|exact H2].
Defined.

Lemma directory_unopened_500_witness :
  ∃ c' w', build_okay_response globals_init blank_client dir_rp (get_req (B "/")) sample_world
    = (Ret (0%Z, c'), w') ∧ resp_val c' = RESP_500.
Proof.
  edestruct (directory_unopened_500 globals_init blank_client dir_rp (get_req (B "/"))
    sample_world (world_of_ok _) (dir_args _) sample_plenty) as (c' & w' & H1 & _ & H2);
    [reflexivity|vm_compute; reflexivity|].
  exists c', w'. split; [exact H1|exact H2].
Defined.

Lemma cgi_response_message_witness :
  ∃ c' w', build_okay_response cgi_globals blank_client cgi_rp (get_req (B "/cgi-bin/run?a=1"))
      sample_world = (Ret (0%Z, c'), w')
    ∧ holds w' c' (B "200 OK") 9 (B "<p>hi</p>").
Proof.
  destruct (cgi_response_message cgi_globals blank_client cgi_rp (get_req (B "/cgi-bin/run?a=1"))
    sample_world (world_of_ok _) cgi_args eq_refl) as (st & c' & w' & H1 & _ & H2 & H3).
  destruct (H3 sample_plenty) as (-> & Hcode & _). exists c', w'. split; [exact H1|].
  destruct H2 as (_ & _ & text & b & H2 & H4 & _).
  { apply Hcode. vm_compute. reflexivity. }
  vm_compute in H2. injection H2 as <-. exact H4.
Defined.

Lemma head_is_get_header_witness :
  (∃ c1 w1 c2 w2,
    build_okay_response globals_init blank_client file_rp (get_req (B "/a.html")) file_world
    = (Ret (0%Z, c1), w1)
    ∧ build_okay_response globals_init blank_client file_rp (as_head (get_req (B "/a.html")))
        file_world = (Ret (0%Z, c2), w2)
    ∧ output_length c2 = header_len c1)
  ∧ ∃ c2 w2, build_error_response (set_resp blank_client RESP_404) (as_head (get_req (B "/x")))
        file_world = (Ret (0%Z, c2), w2)
      ∧ output_length c2 = 125.
Proof.
  split.
  - destruct (head_is_get_header globals_init blank_client file_rp (get_req (B "/a.html"))
      file_world file_world_ok file_plenty eq_refl) as [H _].
    destruct (H (file_args _) ltac:(discriminate))
      as (c1 & w1 & c2 & w2 & _ & _ & H1 & H2 & _ & _ & H3 & _).
    exists c1, w1, c2, w2. split; [exact H1|split; [exact H2|exact H3]].
  - destruct (head_is_get_header globals_init (set_resp blank_client RESP_404) file_rp
      (get_req (B "/x")) file_world file_world_ok file_plenty eq_refl) as [_ H].
    destruct (H _ eq_refl) as (_ & _ & c2 & w2 & _ & _ & H1 & _ & _ & _ & H2 & _).
    exists c2, w2. split; [exact H1|]. rewrite H2. vm_compute. reflexivity.
Defined.

Lemma cgi_output_collected_witness :
  ∃ b' w', read_cgi 7 [PipeData (B "a"); PipeErr EINTR; PipeData (B "bc")] 7 0 READ_SIZE []
             (w_new_block (w_alloc_next quiet_world)) = (Ret (Some (b', B "abc")), w').
Proof.
  destruct (cgi_output_collected [B "a"; B "bc"]
    [PipeData (B "a"); PipeErr EINTR; PipeData (B "bc")] 7 quiet_world) as (b' & w' & H & _);
    [unfold quiet_world; auto with server|constructor
    |repeat constructor; discriminate|vm_compute; reflexivity|].
  exists b', w'. exact H.
Defined.

