(* ===== verification/Connections.v ===== *)
(** * Connections: the connection table (client_conn/connections.c,
    client_conn/accept_new_conn.c)

    The parallel pollfd and Client arrays, the operations that add and remove a
    connection and the loop that accepts them; the table invariants and the
    refinement to a collection of connections. *)

From S2P Require Import Prelude CLib Types OS.

(** poll(2) events. *)
Definition POLLIN : Z := 1.
Definition POLLOUT : Z := 4.
Definition POLLERR : Z := 8.
Definition POLLHUP : Z := 16.
Definition POLLNVAL : Z := 32.

(** The arrays with their heap blocks, the number of entries in use and the
    number of slots allocated. Slots past [fd_count] hold leftovers. *)
Record Table := mkTable {
  pfds_block : nat;
  clients_block : nat;
  pfds : list PollFd;
  clients : list Client;
  fd_count : nat;
  fd_size : nat
}.

Definition set_client (i : nat) (c : Client) (t : Table) : Table :=
  mkTable (pfds_block t) (clients_block t) (pfds t) (<[i := c]> (clients t)) (fd_count t) (fd_size t).
Definition set_pfd (i : nat) (p : PollFd) (t : Table) : Table :=
  mkTable (pfds_block t) (clients_block t) (<[i := p]> (pfds t)) (clients t) (fd_count t) (fd_size t).

(** ** Removing a connection *)

Definition free_buf (b : option block) : M unit := free (b_id <$> b).

(** Indices outside the arrays are a crash. *)
Definition close_conn (i : nat) (t : Table) : M Table :=
  if decide (i = 0) then mret t
  else
    match clients t !! i, fd_count t with
    | Some c, S last =>
        _ ← close (fd c);
        _ ← match file_ptr c with Some f => fclose f | None => mret () end;
        _ ← free_buf (in_buf c);
        _ ← free_buf (out_buf c);
        if decide (i ≠ last) then
          match pfds t !! last, clients t !! last with
          | Some p, Some c' =>
              mret (mkTable (pfds_block t) (clients_block t) (<[i := p]> (pfds t))
                      (<[i := c']> (clients t)) last (fd_size t))
          | _, _ => crash
          end
        else mret (mkTable (pfds_block t) (clients_block t) (pfds t) (clients t) last (fd_size t))
    | _, _ => crash
    end.

(** ** Adding a connection *)

(** The fields add_to_lists assigns in a slot; the timestamp and the address keep
    what the slot held. *)
Definition fresh_client (newfd : Z) (old : Client) : Client :=
  mkClient None None None 0 0 0 0 0 0 0 0 0 newfd READING NUM_CLIENT_RESP
    (timestamp old) (client_addr old).

(** Double both arrays. The new slots hold what realloc(3) finds there. *)
Definition grow (t : Table) : M Table :=
  w ← get;
  pb ← realloc (Some (pfds_block t));
  match pb with
  | None => exit EXIT_FAILURE
  | Some pb =>
      cb ← realloc (Some (clients_block t));
      match cb with
      | None => exit EXIT_FAILURE
      | Some cb =>
          mret (mkTable pb cb
            (pfds t ++ replicate (fd_size t) (e_junk_pfd (w_env w)))
            (clients t ++ replicate (fd_size t) (e_junk_client (w_env w)))
            (fd_count t) (fd_size t * 2))
      end
  end.

Definition add_to_lists (newfd : Z) (t : Table) : M (nat * Table) :=
  t ← (if decide (fd_count t = fd_size t) then grow t else mret t);
  let index := fd_count t in
  match pfds t !! index, clients t !! index with
  | Some _, Some old =>
      mret (index,
        mkTable (pfds_block t) (clients_block t)
          (<[index := mkPollFd newfd POLLIN 0]> (pfds t))
          (<[index := fresh_client newfd old]> (clients t))
          (S (fd_count t)) (fd_size t))
  | _, _ => crash
  end.

(** ** Accepting *)

(** The address the client gets: what inet_ntop wrote, or a fixed text. *)
Definition peer_name (n : new_conn) : bytes :=
  match nc_addr n with
  | Some a => a
  | None => (strlcpy (B "Unknown IP") INET6_ADDRSTRLEN).1
  end.

(** Add the connection and record its peer's address. *)
Definition register (n : new_conn) (t : Table) : M Table :=
  r ← add_to_lists (nc_fd n) t;
  let '(idx, t) := r in
  match clients t !! idx with
  | None => crash
  | Some c => mret (set_client idx (set_client_addr c (peer_name n)) t)
  end.

Fixpoint accept_loop (fuel : nat) (listener_fd : Z) (t : Table) : M Table :=
  match fuel with
  | 0 => no_fuel
  | S fuel' =>
      r ← accept listener_fd;
      match r with
      | AcceptErr e =>
          if would_block e then mret t
          else if decide (e = EINTR) then accept_loop fuel' listener_fd t
          else mret t
      | Accepted n =>
          if negb (nc_getfl_ok n) || negb (nc_setfl_ok n) then
            _ ← close (nc_fd n); accept_loop fuel' listener_fd t
          else
            t ← register n t; accept_loop fuel' listener_fd t
      end
  end.

(** Fuel for the loop: one turn per queued result, and the turn that blocks. *)
Definition accept_fuel (listener_fd : Z) (w : World) : nat :=
  S (length (e_accept (w_env w) listener_fd)).

Definition accept_new_conn (listener_fd : Z) (t : Table) : M Table :=
  w ← get; accept_loop (accept_fuel listener_fd w) listener_fd t.

(** * The table as a collection of connections *)

(** The entries in use, each a pollfd with its client; those after the [nl]
    listeners are the connections. *)
Definition active (t : Table) : list (PollFd * Client) :=
  take (fd_count t) (zip (pfds t) (clients t)).
Definition conns (nl : nat) (t : Table) : list (PollFd * Client) := drop nl (active t).

(** The reference for removal: the last entry takes the place of the removed one. *)
Definition swap_remove {A} (i : nat) (l : list A) : list A :=
  match last l with
  | Some x => take (pred (length l)) (<[i := x]> l)
  | None => []
  end.

(** The arrays are as long as recorded, the count fits, and entry by entry the two
    arrays speak of the same descriptor. *)
Record table_ok (nl : nat) (t : Table) : Prop := {
  to_pfds : length (pfds t) = fd_size t;
  to_clients : length (clients t) = fd_size t;
  to_pos : 0 < fd_size t;
  to_listeners : 0 < nl ≤ fd_count t;
  to_count : fd_count t ≤ fd_size t;
  to_sync : Forall (λ pc, pfd_fd pc.1 = fd pc.2) (conns nl t)
}.

(** The heap blocks a client owns, and those the table owns. *)
Definition owned (c : Client) : list nat :=
  option_list (b_id <$> in_buf c) ++ option_list (b_id <$> out_buf c).
Definition conn_blocks (l : list (PollFd * Client)) : list nat := l ≫= λ pc, owned pc.2.
Definition table_blocks (nl : nat) (t : Table) : list nat :=
  pfds_block t :: clients_block t :: conn_blocks (conns nl t).

(** Every block has one owner and is live. *)
Definition heap_ok (nl : nat) (t : Table) (w : World) : Prop :=
  NoDup (table_blocks nl t) ∧ Forall (λ b, b ∈ w_blocks w) (table_blocks nl t).

(** * Lemmas *)

Lemma swap_remove_snoc {A} i (l : list A) y :
  swap_remove i (l ++ [y]) = <[i := y]> l.
Proof.
  unfold swap_remove. rewrite last_snoc, length_app, Nat.add_comm. cbn [length Nat.add pred].
  destruct (decide (i < length l)) as [Hi|Hi].
  - rewrite insert_app_l, take_app_length' by (rewrite ?length_insert; lia). done.
  - rewrite insert_app_r_alt, take_app_length by lia. by rewrite list_insert_ge by lia.
Qed.

Lemma swap_remove_perm {A} i (l : list A) x :
  l !! i = Some x → x :: swap_remove i l ≡ₚ l.
Proof.
  destruct l as [|y l] using rev_ind; [done|]. intros Hx. rewrite swap_remove_snoc.
  destruct (decide (i < length l)) as [Hi|Hi].
  - rewrite lookup_app_l in Hx by done.
    rewrite insert_take_drop by done.
    transitivity ((take i l ++ x :: drop (S i) l) ++ [y]);
      [solve_Permutation|by rewrite take_drop_middle].
  - rewrite lookup_app_r in Hx by lia.
    destruct (i - length l) eqn:E; [|done]. injection Hx as <-.
    rewrite list_insert_ge by lia. apply Permutation_cons_append.
Qed.

Lemma swap_remove_drop {A} n i (l : list A) :
  n ≤ i → i < length l → swap_remove (i - n) (drop n l) = drop n (swap_remove i l).
Proof.
  destruct l as [|y l] using rev_ind; [simpl; lia|]. rewrite length_app. simpl. intros Hn Hi.
  rewrite drop_app_le, !swap_remove_snoc by lia. by rewrite drop_insert_ge.
Qed.

Lemma length_swap_remove {A} i (l : list A) : length (swap_remove i l) = pred (length l).
Proof.
  destruct l as [|y l] using rev_ind; [done|].
  rewrite swap_remove_snoc, length_insert, length_app. simpl. lia.
Qed.

Lemma swap_remove_take {A} i (l : list A) : i < length l → take i (swap_remove i l) = take i l.
Proof.
  destruct l as [|y l] using rev_ind; [done|]. rewrite length_app. simpl. intros Hi.
  rewrite swap_remove_snoc, take_insert_ge, take_app_le by lia. done.
Qed.

Lemma swap_remove_drop_perm {A} i (l : list A) :
  i < length l → drop i (swap_remove i l) ≡ₚ drop (S i) l.
Proof.
  intros Hi. destruct (lookup_lt_is_Some_2 l i Hi) as [x Hx].
  apply (Permutation_cons_inv (a := x)), (Permutation_app_inv_l (take i l)).
  rewrite <-(swap_remove_take i l Hi) at 1.
  rewrite <-Permutation_middle, take_drop, swap_remove_perm by done. by rewrite take_drop_middle.
Qed.

(** The other entries keep their place, but for the last one. *)
Lemma swap_remove_other {A} i j (l : list A) :
  j < pred (length l) → j ≠ i → swap_remove i l !! j = l !! j.
Proof.
  destruct l as [|y l] using rev_ind; [simpl; lia|]. rewrite length_app. simpl. intros Hj Hne.
  rewrite swap_remove_snoc, list_lookup_insert_ne, lookup_app_l by lia. done.
Qed.

Lemma length_active nl t : table_ok nl t → length (active t) = fd_count t.
Proof.
  intros [H1 H2 _ _ H3 _]. unfold active. rewrite length_take, length_zip_with. lia.
Qed.

Lemma active_lookup t i :
  i < fd_count t → active t !! i = p ← pfds t !! i; c ← clients t !! i; Some (p, c).
Proof.
  intros Hi. unfold active. rewrite lookup_take_lt by done. apply lookup_zip_with.
Qed.

Lemma active_entry nl t i :
  table_ok nl t → i < fd_count t →
  ∃ p c, pfds t !! i = Some p ∧ clients t !! i = Some c ∧ active t !! i = Some (p, c).
Proof.
  intros [H1 H2 _ _ H3 _] Hi.
  destruct (lookup_lt_is_Some_2 (pfds t) i) as [p Hp]; [lia|].
  destruct (lookup_lt_is_Some_2 (clients t) i) as [c Hc]; [lia|].
  exists p, c. by rewrite active_lookup, Hp, Hc.
Qed.

Lemma conns_lookup nl t i : nl ≤ i → conns nl t !! (i - nl) = active t !! i.
Proof. intros Hi. unfold conns. rewrite lookup_drop. f_equal. lia. Qed.

(** The entries after the last client changed: its slot updated in place. *)
Lemma active_update i p c t :
  active (mkTable (pfds_block t) (clients_block t) (<[i := p]> (pfds t)) (<[i := c]> (clients t))
            (fd_count t) (fd_size t)) = <[i := (p, c)]> (active t).
Proof.
  unfold active. simpl. rewrite <-insert_zip_with.
  destruct (decide (i < fd_count t)) as [Hi|Hi].
  - by rewrite take_insert_lt.
  - rewrite take_insert_ge by lia. rewrite list_insert_ge; [done|]. rewrite length_take. lia.
Qed.

(** ** Removing *)

(** The world once the client's resources are released. *)
Definition w_free_buf (b : option block) (w : World) : World :=
  match b with Some b => w_free (b_id b) w | None => w end.
Definition w_closed (c : Client) (w : World) : World :=
  let w := w_emit (EvClose (fd c)) w in
  let w := match file_ptr c with Some f => w_fclose f w | None => w end in
  w_free_buf (out_buf c) (w_free_buf (in_buf c) w).

Lemma Forall_swap_remove {A} (P : A → Prop) i (l : list A) :
  Forall P l → Forall P (swap_remove i l).
Proof.
  intros H. destruct (l !! i) as [x|] eqn:E.
  - rewrite <-(swap_remove_perm i l x E) in H. by inversion H.
  - destruct l as [|y l] using rev_ind; [done|]. rewrite swap_remove_snoc.
    apply Forall_app in H as [Hl Hy]. apply Forall_insert; [done|]. by inversion Hy.
Qed.

Lemma close_conn_run nl i t c w :
  table_ok nl t → nl ≤ i < fd_count t → clients t !! i = Some c →
  ∃ t', close_conn i t w = (Ret t', w_closed c w)
    ∧ active t' = swap_remove i (active t) ∧ table_ok nl t'
    ∧ fd_count t = S (fd_count t') ∧ fd_size t' = fd_size t
    ∧ pfds_block t' = pfds_block t ∧ clients_block t' = clients_block t.
Proof.
  intros Ht [Hnl Hi] Hc. pose proof Ht as [H1 H2 H3 H4 H5 H6].
  unfold close_conn. rewrite decide_False by lia. rewrite Hc.
  destruct (fd_count t) as [|n] eqn:Hn; [lia|].
  destruct (active_entry nl t n Ht ltac:(lia)) as (pn & cn & Hpn & Hcn & Han).
  set (t' := mkTable (pfds_block t) (clients_block t)
    (if decide (i ≠ n) then <[i := pn]> (pfds t) else pfds t)
    (if decide (i ≠ n) then <[i := cn]> (clients t) else clients t) n (fd_size t)).
  assert (active t' = swap_remove i (active t)) as Hact.
  { unfold swap_remove. rewrite (length_active nl) by done.
    assert (last (active t) = Some (pn, cn)) as ->.
    { rewrite last_lookup, (length_active nl), Hn by done. exact Han. }
    rewrite Hn. cbn [pred]. rewrite <-active_update.
    unfold active. simpl. rewrite Hn, take_take, Nat.min_l by lia.
    destruct (decide (i ≠ n)) as [Hne|Heq]; [done|].
    apply dec_stable in Heq as ->. by rewrite !list_insert_id. }
  assert (table_ok nl t') as Hok.
  { constructor; simpl; try lia.
    - case_decide; [by rewrite length_insert|done].
    - case_decide; [by rewrite length_insert|done].
    - unfold conns. rewrite Hact, <-swap_remove_drop by (rewrite ?(length_active nl); lia || done).
      by apply Forall_swap_remove. }
  exists t'. split; [|done]. unfold close, fclose, free_buf, free, emit, w_closed, w_free_buf.
  run. destruct (file_ptr c), (in_buf c), (out_buf c); cbn [fmap option_fmap option_map];
    subst t'; (destruct (decide (i ≠ n)); [by rewrite Hpn, Hcn|done]).
Qed.

Lemma w_closed_calm c w :
  world_ok w → NoDup (owned c) → Forall (λ b, b ∈ w_blocks w) (owned c) →
  calm w (w_closed c w) ∧ w_blocks (w_closed c w) = w_blocks w ∖ list_to_set (owned c).
Proof.
  intros Hw Hnd Hl. unfold w_closed, owned in *. cbv zeta.
  set (w1 := match file_ptr c with Some f => _ | None => _ end).
  assert (calm w w1) as K by (unfold w1; destruct (file_ptr c); auto with server).
  assert (w_blocks w1 = w_blocks w) as Hb by (unfold w1; by destruct (file_ptr c)).
  clearbody w1. destruct (in_buf c) as [bi|], (out_buf c) as [bo|]; simpl in *.
  - rewrite !Forall_cons in Hl. destruct Hl as (Hi & Ho & _).
    apply NoDup_cons in Hnd as [Hnd _]. split; [|rewrite Hb; set_solver].
    apply calm_free, calm_free; [simpl; rewrite Hb; set_solver|by rewrite Hb|done].
  - rewrite Forall_singleton in Hl. split; [|rewrite Hb; set_solver].
    apply calm_free; [by rewrite Hb|done].
  - rewrite Forall_singleton in Hl. split; [|rewrite Hb; set_solver].
    apply calm_free; [by rewrite Hb|done].
  - split; [done|]. rewrite Hb. set_solver.
Qed.

(** What closing a client does after close(2): it closes its file and frees. *)
Definition releases (ev : event) : Prop :=
  match ev with EvFclose _ _ | EvFree _ _ => True | _ => False end.

Lemma w_closed_trace c w :
  ∃ tl, extends w (w_closed c w) (EvClose (fd c) :: tl) ∧ Forall releases tl.
Proof.
  unfold extends, w_closed. destruct (file_ptr c), (in_buf c), (out_buf c); simpl;
    rewrite <-?app_assoc; simpl; eexists; (split; [reflexivity|repeat constructor]).
Qed.

Lemma conn_blocks_perm l1 l2 : l1 ≡ₚ l2 → conn_blocks l1 ≡ₚ conn_blocks l2.
Proof. unfold conn_blocks. by intros ->. Qed.

Lemma close_conn_correct nl i t p c w :
  table_ok nl t → heap_ok nl t w → world_ok w → nl ≤ i → active t !! i = Some (p, c) →
  ∃ t', close_conn i t w = (Ret t', w_closed c w)
    ∧ active t' = swap_remove i (active t)
    ∧ (p, c) :: conns nl t' ≡ₚ conns nl t
    ∧ fd_count t = S (fd_count t')
    ∧ table_ok nl t' ∧ heap_ok nl t' (w_closed c w) ∧ calm w (w_closed c w).
Proof.
  intros Ht [Hnd Hl] Hw Hnl Ha.
  assert (i < fd_count t) as Hi.
  { rewrite <-(length_active nl) by done. by eapply lookup_lt_Some. }
  assert (clients t !! i = Some c) as Hc.
  { rewrite active_lookup in Ha by done.
    destruct (pfds t !! i), (clients t !! i); simpl in Ha; congruence. }
  destruct (close_conn_run nl i t c w) as (t' & E & Hact & Hok & Hn & _ & Hpb & Hcb); [done..|].
  assert (conns nl t' = swap_remove (i - nl) (conns nl t)) as Hconns.
  { unfold conns. rewrite Hact, <-swap_remove_drop; [done..|].
    by rewrite (length_active nl). }
  assert ((p, c) :: conns nl t' ≡ₚ conns nl t) as Hperm.
  { rewrite Hconns. apply swap_remove_perm. by rewrite conns_lookup. }
  assert (table_blocks nl t ≡ₚ owned c ++ table_blocks nl t') as Hb.
  { unfold table_blocks. rewrite Hpb, Hcb, <-(conn_blocks_perm _ _ Hperm).
    unfold conn_blocks. cbn [mbind list_bind]. solve_Permutation. }
  rewrite Hb in Hnd, Hl. apply NoDup_app in Hnd as (Hnd1 & Hdis & Hnd2).
  apply Forall_app in Hl as [Hl1 Hl2].
  destruct (w_closed_calm c w Hw Hnd1 Hl1) as [K Hblk].
  exists t'. split_and!; try done. split; [done|]. rewrite Hblk.
  rewrite Forall_forall in Hl2 |- *. intros b Hb'.
  rewrite elem_of_difference, elem_of_list_to_set. split; [by apply Hl2|].
  intros Hin. by apply (Hdis b).
Qed.

(** ** Updating an entry *)

Definition set_entry (i : nat) (p : PollFd) (c : Client) (t : Table) : Table :=
  set_pfd i p (set_client i c t).

Lemma active_set_entry i p c t : active (set_entry i p c t) = <[i := (p, c)]> (active t).
Proof. exact (active_update i p c t). Qed.

Lemma set_client_entry i p c t :
  pfds t !! i = Some p → set_client i c t = set_entry i p c t.
Proof.
  intros Hp. unfold set_entry, set_client, set_pfd. simpl. by rewrite (list_insert_id (pfds t)).
Qed.

Lemma set_entry_ok nl i p c t :
  table_ok nl t → nl ≤ i → pfd_fd p = fd c → table_ok nl (set_entry i p c t).
Proof.
  intros Ht Hi Hfd. pose proof Ht as [H1 H2 H3 H4 H5 H6].
  constructor; simpl; rewrite ?length_insert; try done.
  unfold conns. rewrite active_set_entry, drop_insert_ge by done. by apply Forall_insert.
Qed.

(** The blocks of the other owners. *)
Lemma table_blocks_entry nl i p c t :
  nl ≤ i → active t !! i = Some (p, c) →
  ∃ rest, table_blocks nl t ≡ₚ owned c ++ rest
    ∧ ∀ p' c', table_blocks nl (set_entry i p' c' t) ≡ₚ owned c' ++ rest.
Proof.
  intros Hi Ha. rewrite <-(conns_lookup nl) in Ha by done.
  exists (pfds_block t :: clients_block t
    :: conn_blocks (take (i - nl) (conns nl t) ++ drop (S (i - nl)) (conns nl t))).
  assert (∀ p' c', conn_blocks (take (i - nl) (conns nl t) ++ (p', c') :: drop (S (i - nl)) (conns nl t))
    ≡ₚ owned c' ++ conn_blocks (take (i - nl) (conns nl t) ++ drop (S (i - nl)) (conns nl t))) as H.
  { intros p' c'.
    exact (conn_blocks_perm _ _ (Permutation_sym (Permutation_middle _ _ (p', c')))). }
  split.
  - unfold table_blocks. rewrite <-(take_drop_middle _ _ _ Ha) at 1. rewrite H. solve_Permutation.
  - intros p' c'. unfold table_blocks, conns at 1.
    rewrite active_set_entry, drop_insert_ge by done. fold (conns nl t).
    rewrite insert_take_drop by (by eapply lookup_lt_Some). rewrite H. simpl. solve_Permutation.
Qed.

(** An entry's new blocks replace its old ones: they are live, have no other owner,
    and the step spares the blocks of the others. *)
Lemma heap_set_entry nl i p c p' c' t w w' :
  nl ≤ i → active t !! i = Some (p, c) → heap_ok nl t w → world_ok w →
  NoDup (owned c') → Forall (λ b, b ∈ w_blocks w') (owned c') →
  (∀ b, b ∈ owned c' → b ∈ owned c ∨ w_next w ≤ b) →
  (∀ b, b ∈ w_blocks w → b ∉ owned c → b ∈ w_blocks w') →
  heap_ok nl (set_entry i p' c' t) w'.
Proof.
  intros Hi Ha [Hnd Hl] Hw Hnd' Hl' Hnew Hkeep.
  destruct (table_blocks_entry nl i p c t Hi Ha) as (rest & H1 & H2).
  rewrite H1 in Hnd, Hl. apply NoDup_app in Hnd as (_ & Hdis & Hnd).
  apply Forall_app in Hl as [_ Hl]. rewrite Forall_forall in Hl.
  unfold heap_ok. rewrite H2, NoDup_app, Forall_app. split_and!; try done.
  - intros b Hb Hr. destruct (Hnew b Hb) as [Ho|Hge]; [by apply (Hdis b)|].
    specialize (Hl b Hr). apply (ok_blocks w Hw) in Hl. lia.
  - rewrite Forall_forall. intros b Hb. apply Hkeep; [by apply Hl|].
    intros Ho. by apply (Hdis b).
Qed.

(** ** Ownership *)

(** The client's blocks are live and distinct. *)
Definition owns (w : World) (c : Client) : Prop :=
  NoDup (owned c) ∧ Forall (λ b, b ∈ w_blocks w) (owned c).

(** A step that turns a client into another: the blocks it owns afterwards are
    live, its own or new, and the other blocks there were are still live. *)
Definition hands (w : World) (c : Client) (w' : World) (c' : Client) : Prop :=
  calm w w' ∧ owns w' c'
  ∧ (∀ b, b ∈ owned c' → b ∈ owned c ∨ w_next w ≤ b)
  ∧ (∀ b, b < w_next w → b ∈ w_blocks w → b ∉ owned c → b ∈ w_blocks w')
  ∧ w_next w ≤ w_next w'.

Lemma hands_refl w c : world_ok w → owns w c → hands w c w c.
Proof. intros Hw Ho. split_and!; auto with server; [apply Ho..]. Qed.

Lemma hands_trans w1 c1 w2 c2 w3 c3 :
  hands w1 c1 w2 c2 → hands w2 c2 w3 c3 → hands w1 c1 w3 c3.
Proof.
  intros (K1 & _ & N1 & P1 & L1) (K2 & O2 & N2 & P2 & L2).
  split; [by eapply calm_trans|]. split; [done|]. split_and!; [| |lia].
  - intros b [Hb|Hb]%N2; [by apply N1|right; lia].
  - intros b Hlt Hb Hno. apply P2; [lia|by apply P1|].
    intros [Ho|Hge]%N1; [done|lia].
Qed.

(** A step that changes neither the world's blocks nor the client's buffers. *)
Lemma hands_same w c w' c' :
  calm w w' → owns w c → w_blocks w' = w_blocks w → w_next w ≤ w_next w' →
  owned c' = owned c → hands w c w' c'.
Proof.
  intros K [Hn Hl] Hb Hx Ho. split; [done|]. unfold owns. rewrite Ho, Hb.
  split_and!; auto.
Qed.

Lemma heap_entry_owns nl i p c t w :
  nl ≤ i → active t !! i = Some (p, c) → heap_ok nl t w → owns w c.
Proof.
  intros Hi Ha [Hnd Hl]. destruct (table_blocks_entry nl i p c t Hi Ha) as (rest & Hr & _).
  rewrite Hr in Hnd, Hl. apply NoDup_app in Hnd as [Hnd _]. by apply Forall_app in Hl as [Hl _].
Qed.

Lemma heap_hands nl i p c p' c' t w w' :
  nl ≤ i → active t !! i = Some (p, c) → heap_ok nl t w → world_ok w →
  hands w c w' c' → heap_ok nl (set_entry i p' c' t) w'.
Proof.
  intros Hi Ha Hh Hw (K & [Hnd Hl] & Hnew & Hkeep & _).
  eapply heap_set_entry; [done|exact Ha|exact Hh|done..|].
  intros b Hb Hno. apply Hkeep; [by apply (ok_blocks w Hw)|done|done].
Qed.

(** ** Adding *)

Lemma replicate_zip_take {A C} (l : list A) (k : list C) n x y :
  n ≤ length l → length l = length k →
  take n (zip (l ++ x) (k ++ y)) = take n (zip l k).
Proof.
  intros Hn Hl. rewrite zip_with_app by done. rewrite take_app_le; [done|].
  rewrite length_zip_with. lia.
Qed.

Lemma grow_safe nl t w :
  table_ok nl t → heap_ok nl t w → world_ok w →
  safe (¬ plenty w) w (grow t w) (λ t' w',
    env_step w w' ∧ w_trace w' = w_trace w
    ∧ active t' = active t ∧ fd_count t' = fd_count t ∧ fd_size t' = fd_size t * 2
    ∧ table_ok nl t' ∧ heap_ok nl t' w').
Proof.
  intros Ht [Hnd Hl] Hw. pose proof Ht as [H1 H2 H3 H4 H5 H6].
  unfold grow, get, realloc. run.
  destruct (alloc_ok w) eqn:Ha1; simpl.
  2:{ split_and!; [auto with server|done|]. intros H%plenty_alloc_ok. congruence. }
  set (w1 := w_new_block (w_drop_block (pfds_block t) (w_alloc_next w))).
  assert (calm w w1) as K1 by (unfold w1; auto with server).
  destruct (alloc_ok w1) eqn:Ha2; simpl.
  2:{ split_and!; [auto with server|done|].
      intros H%(calm_plenty _ _ K1)%plenty_alloc_ok. congruence. }
  set (w2 := w_new_block (w_drop_block (clients_block t) (w_alloc_next w1))).
  assert (calm w w2) as K2 by (unfold w2; auto with server).
  split; [done|].
  set (t' := mkTable _ _ _ _ _ _).
  assert (active t' = active t) as Hact.
  { unfold active, t'. simpl. apply replicate_zip_take; lia. }
  split_and!; try done.
  - apply (env_step_trans _ (w_alloc_next w)); [apply alloc_next_env|].
    apply (env_step_trans _ w1); [by apply same_env|].
    apply (env_step_trans _ (w_alloc_next w1)); [apply alloc_next_env|by apply same_env].
  - constructor; simpl; rewrite ?length_app, ?length_replicate; try lia.
    unfold conns. by rewrite Hact.
  - unfold heap_ok, table_blocks in *. unfold conns in *. rewrite Hact.
    set (bs := conn_blocks _) in *. clearbody bs. simpl.
    rewrite !Forall_cons in Hl. destruct Hl as (Hp & Hc & Hl).
    rewrite !NoDup_cons in Hnd |- *. destruct Hnd as (Hn1 & Hn2 & Hnd).
    pose proof (ok_blocks w Hw) as Hlt. rewrite Forall_forall in Hl.
    assert (∀ b, b ∈ bs → b < w_next w) as Hbs by auto.
    specialize (Hlt _ Hc) as Hclt. split_and!.
    + rewrite elem_of_cons. intros [Hin|Hin%Hbs]; lia.
    + intros Hin%Hbs. lia.
    + done.
    + rewrite !Forall_cons. split_and!; [set_solver by lia|set_solver|].
      rewrite Forall_forall. intros b Hb. specialize (Hl b Hb).
      rewrite !elem_of_union, !elem_of_difference, !elem_of_union, !elem_of_difference,
        !elem_of_singleton. set_solver.
Qed.

(** The entry a new connection gets. *)
Definition new_entry (newfd : Z) (old : Client) : PollFd * Client :=
  (mkPollFd newfd POLLIN 0, fresh_client newfd old).

Lemma add_room_run nl newfd t w :
  table_ok nl t → heap_ok nl t w → fd_count t < fd_size t →
  ∃ t' old p, pfds t !! fd_count t = Some p ∧ clients t !! fd_count t = Some old
    ∧ t' = mkTable (pfds_block t) (clients_block t)
          (<[fd_count t := mkPollFd newfd POLLIN 0]> (pfds t))
          (<[fd_count t := fresh_client newfd old]> (clients t)) (S (fd_count t)) (fd_size t)
    ∧ active t' = active t ++ [new_entry newfd old]
    ∧ conns nl t' = conns nl t ++ [new_entry newfd old]
    ∧ table_ok nl t' ∧ heap_ok nl t' w.
Proof.
  intros Ht Hh Hlt. pose proof Ht as [H1 H2 H3 H4 H5 H6].
  destruct (lookup_lt_is_Some_2 (pfds t) (fd_count t)) as [p Hp]; [lia|].
  destruct (lookup_lt_is_Some_2 (clients t) (fd_count t)) as [old Ho]; [lia|].
  set (t' := mkTable (pfds_block t) (clients_block t)
          (<[fd_count t := mkPollFd newfd POLLIN 0]> (pfds t))
          (<[fd_count t := fresh_client newfd old]> (clients t)) (S (fd_count t)) (fd_size t)).
  exists t', old, p.
  assert (active t' = active t ++ [new_entry newfd old]) as Hact.
  { unfold active, t'. simpl. rewrite <-insert_zip_with, (take_S_r _ _ (new_entry newfd old)).
    - by rewrite take_insert_ge.
    - apply list_lookup_insert_eq. rewrite length_zip_with. lia. }
  assert (conns nl t' = conns nl t ++ [new_entry newfd old]) as Hc.
  { unfold conns. rewrite Hact, drop_app_le; [done|]. rewrite (length_active nl) by done. lia. }
  split_and!; try done.
  - constructor; simpl; rewrite ?length_insert; try lia.
    rewrite Hc. apply Forall_app. split; [done|]. by constructor.
  - unfold heap_ok, table_blocks in *. rewrite Hc. unfold conn_blocks in *.
    rewrite bind_app. simpl. by rewrite app_nil_r.
Qed.

Lemma add_to_lists_safe nl newfd t w :
  table_ok nl t → heap_ok nl t w → world_ok w →
  safe (¬ plenty w) w (add_to_lists newfd t w) (λ '(idx, t') w',
    env_step w w' ∧ w_trace w' = w_trace w ∧ idx = fd_count t
    ∧ ∃ old p, pfds t' !! idx = Some p ∧ clients t' !! idx = Some (fresh_client newfd old)
      ∧ p = mkPollFd newfd POLLIN 0
      ∧ active t' = active t ++ [new_entry newfd old]
      ∧ conns nl t' = conns nl t ++ [new_entry newfd old]
      ∧ table_ok nl t' ∧ heap_ok nl t' w').
Proof.
  intros Ht Hh Hw. unfold add_to_lists.
  apply (safe_bind _ _ _ _ _ (λ t1 w1, env_step w w1 ∧ w_trace w1 = w_trace w
    ∧ active t1 = active t ∧ fd_count t1 = fd_count t ∧ fd_count t1 < fd_size t1
    ∧ table_ok nl t1 ∧ heap_ok nl t1 w1)).
  - case_decide as Hfull.
    + apply (safe_weaken (¬ plenty w) _ w w _ (λ t' w', env_step w w' ∧ w_trace w' = w_trace w
        ∧ active t' = active t ∧ fd_count t' = fd_count t ∧ fd_size t' = fd_size t * 2
        ∧ table_ok nl t' ∧ heap_ok nl t' w')); [auto with server|done| |by apply grow_safe].
      intros t1 w1 _ (He & Htr & Ha & Hc & Hs & Hok & Hheap). split_and!; try done.
      destruct Ht. lia.
    + split; [auto with server|]. split_and!; try done; [by apply same_env|].
      destruct Ht. lia.
  - intros t1 w1 K (He & Htr & Ha & Hc & Hs & Hok & Hheap).
    destruct (add_room_run nl newfd t1 w1 Hok Hheap Hs)
      as (t' & old & p & Hp & Ho & Ht' & Ha' & Hc' & Hok' & Hh').
    rewrite Hp, Ho, <-Ht'. split; [done|]. split_and!; try done.
    exists old, (mkPollFd newfd POLLIN 0). rewrite Ha in Ha'.
    assert (conns nl t1 = conns nl t) as Hcc by (unfold conns; by rewrite Ha).
    rewrite Hcc in Hc'. rewrite Ht' at 1 2. simpl.
    rewrite !list_lookup_insert_eq by (destruct Hok; lia). done.
Qed.

(** ** Accepting *)

(** The connections taken from the queue before the loop stops, and those that are
    kept: the ones fcntl(2) could make non-blocking. *)
Fixpoint taken (q : list accept_result) : list new_conn :=
  match q with
  | [] => []
  | Accepted n :: q' => n :: taken q'
  | AcceptErr e :: q' =>
      if would_block e then [] else if decide (e = EINTR) then taken q' else []
  end.

(** What the loop leaves in the queue: it goes on after a connection and after EINTR, and
    stops at any other error. *)
Fixpoint left_over (q : list accept_result) : list accept_result :=
  match q with
  | [] => []
  | Accepted n :: q' => left_over q'
  | AcceptErr e :: q' => if decide (e = EINTR) then left_over q' else q'
  end.
Definition usable (n : new_conn) : bool := nc_getfl_ok n && nc_setfl_ok n.

(** The entry of an accepted connection: ready to read a request, with nothing
    received, staged or sent. *)
Definition accepted_as (n : new_conn) (pc : PollFd * Client) : Prop :=
  ∃ old, pc = (mkPollFd (nc_fd n) POLLIN 0,
               set_client_addr (fresh_client (nc_fd n) old) (peer_name n)).

Lemma register_safe nl n t w :
  table_ok nl t → heap_ok nl t w → world_ok w →
  safe (¬ plenty w) w (register n t w) (λ t' w',
    env_step w w' ∧ w_trace w' = w_trace w
    ∧ ∃ e, accepted_as n e ∧ active t' = active t ++ [e] ∧ conns nl t' = conns nl t ++ [e]
      ∧ table_ok nl t' ∧ heap_ok nl t' w').
Proof.
  intros Ht Hh Hw. unfold register.
  eapply safe_bind; [by apply add_to_lists_safe|].
  intros [idx t1] w2 K (He & Htr & -> & old & p & Hp & Hc & -> & Ha & Hcs & Ht1 & Hh1).
  rewrite Hc. set (c := set_client_addr (fresh_client (nc_fd n) old) (peer_name n)).
  rewrite (set_client_entry _ _ _ _ Hp). split; [done|]. split_and!; [done..|].
  set (e := (mkPollFd (nc_fd n) POLLIN 0, c)). set (t2 := set_entry _ _ _ _).
  exists e. split; [by exists old|].
  assert (fd_count t = length (active t)) as Hlen by (by rewrite (length_active nl)).
  assert (active t2 = active t ++ [e]) as Ha2.
  { unfold t2. by rewrite active_set_entry, Ha, Hlen, insert_app_r_alt, Nat.sub_diag by done. }
  assert (conns nl t2 = conns nl t ++ [e]) as Hc2.
  { unfold conns. rewrite Ha2, drop_app_le; [done|]. rewrite <-Hlen. destruct Ht. lia. }
  split_and!; [done..|apply set_entry_ok; [done|destruct Ht; lia|done]|].
  unfold heap_ok, table_blocks in *. rewrite Hc2. rewrite Hcs in Hh1.
  unfold conn_blocks in *. rewrite bind_app in *. exact Hh1.
Qed.

(** What the queue [q] of [lfd] makes of the table: the usable connections are appended
    in order, the descriptors of the others closed. *)
Definition accepted_all (lfd : Z) (nl : nat) (q : list accept_result) (t : Table) (w : World)
    (t' : Table) (w' : World) : Prop :=
  ∃ new, active t' = active t ++ new ∧ conns nl t' = conns nl t ++ new
    ∧ Forall2 accepted_as (filter (λ n, usable n = true) (taken q)) new
    ∧ extends w w' ((λ n, EvClose (nc_fd n)) <$> filter (λ n, usable n = false) (taken q))
    ∧ table_ok nl t' ∧ heap_ok nl t' w' ∧ e_accept (w_env w') lfd = left_over q.

Lemma accepted_stop lfd nl q t w w' :
  taken q = [] → w_trace w' = w_trace w → table_ok nl t → heap_ok nl t w' →
  e_accept (w_env w') lfd = left_over q → accepted_all lfd nl q t w t w'.
Proof.
  intros Hq Htr Ht Hh Hl. exists []. rewrite Hq, !app_nil_r.
  split_and!; try done. by apply extends_nil.
Qed.

Lemma accepted_retry lfd nl e q t w w1 t' w' :
  e = EINTR → w_trace w1 = w_trace w →
  accepted_all lfd nl q t w1 t' w' → accepted_all lfd nl (AcceptErr e :: q) t w t' w'.
Proof.
  intros -> Htr (new & Ha & Hc & Hn & Hx & Hok & Hheap & Hl). exists new.
  change (taken (AcceptErr EINTR :: q)) with (taken q).
  change (left_over (AcceptErr EINTR :: q)) with (left_over q). unfold extends in *. rewrite <-Htr. by split_and!.
Qed.

Lemma accepted_unusable lfd nl n q t w w1 t' w' :
  usable n = false → extends w w1 [EvClose (nc_fd n)] →
  accepted_all lfd nl q t w1 t' w' → accepted_all lfd nl (Accepted n :: q) t w t' w'.
Proof.
  intros Hn Hx1 (new & Ha & Hc & Hnew & Hx & Hok & Hheap & Hl). exists new. cbn [taken].
  rewrite !filter_cons, (decide_False (P := usable n = true)), (decide_True (P := usable n = false))
    by congruence.
  split_and!; try done. by apply (extends_trans w w1 w' [_]).
Qed.

Lemma accepted_usable lfd nl n q t w e t1 w1 t' w' :
  usable n = true → w_trace w1 = w_trace w → accepted_as n e →
  active t1 = active t ++ [e] → conns nl t1 = conns nl t ++ [e] →
  accepted_all lfd nl q t1 w1 t' w' → accepted_all lfd nl (Accepted n :: q) t w t' w'.
Proof.
  intros Hn Htr He Ha1 Hc1 (new & Ha & Hc & Hnew & Hx & Hok & Hheap & Hl). exists (e :: new). cbn [taken].
  rewrite !filter_cons, (decide_True (P := usable n = true)), (decide_False (P := usable n = false))
    by congruence.
  rewrite Ha, Ha1, Hc, Hc1, <-!app_assoc. split_and!; try done; [by constructor|].
  unfold extends in *. by rewrite Hx, Htr.
Qed.

Lemma accept_loop_safe nl lfd fuel t w :
  table_ok nl t → heap_ok nl t w → world_ok w →
  length (e_accept (w_env w) lfd) < fuel →
  safe (¬ plenty w) w (accept_loop fuel lfd t w)
    (accepted_all lfd nl (e_accept (w_env w) lfd) t w).
Proof.
  revert t w. induction fuel as [|fuel IH]; intros t w Ht Hh Hw Hf; [lia|].
  cbn [accept_loop]. unfold accept. run.
  destruct (e_accept (w_env w) lfd) as [|r q] eqn:Hq;
    [split; [auto with server|by apply accepted_stop]|].
  simpl in Hf. set (w1 := w_set_env _ w).
  assert (calm w w1) as K1 by (apply calm_set_env; [done|by eapply same_accept|auto with server]).
  assert (e_accept (w_env w1) lfd = q) as Hq1 by (simpl; by rewrite decide_True).
  assert (∀ t2 w2, calm w w2 → e_accept (w_env w2) lfd = q → table_ok nl t2 → heap_ok nl t2 w2 →
    (∀ t' w', accepted_all lfd nl q t2 w2 t' w' → accepted_all lfd nl (r :: q) t w t' w') →
    safe (¬ plenty w) w (accept_loop fuel lfd t2 w2) (accepted_all lfd nl (r :: q) t w)) as Hgo.
  { intros t2 w2 K Hq2 Ht2 Hh2 Hpost.
    eapply (safe_weaken _ _ w w2); [done| | |apply (IH t2 w2)];
      [intros Hp Hp'; apply Hp; by eapply calm_plenty| |done..|by eapply calm_ok|by rewrite Hq2; lia].
    rewrite Hq2. auto. }
  destruct r as [n|e].
  - destruct (negb (nc_getfl_ok n) || negb (nc_setfl_ok n)) eqn:Hu.
    { unfold close, emit. apply Hgo; [auto with server|done|done|done|].
      intros t' w'. apply accepted_unusable; [|done].
      unfold usable. by destruct (nc_getfl_ok n), (nc_setfl_ok n). }
    assert (usable n = true) as Hn by (unfold usable; by destruct (nc_getfl_ok n), (nc_setfl_ok n)).
    pose proof (register_safe nl n t w1 Ht Hh ltac:(by eapply calm_ok)) as HA.
    destruct (register n t w1) as [[t2|code| |] w2]; simpl in HA; [| |done..].
    2:{ destruct HA as (K & Hcode & Hnp). split_and!; [exact (calm_trans _ _ _ K1 K)|by eapply failure_before|].
        intros Hp. apply Hnp. by eapply calm_plenty. }
    destruct HA as (K2 & [k He] & Htr & e & Hacc & Ha2 & Hc2 & Ht2 & Hh2).
    apply Hgo; [exact (calm_trans _ _ _ K1 K2)|rewrite He; exact Hq1|done|done|].
    intros t' w'. by apply (accepted_usable lfd nl n q t w e).
  - destruct (would_block e) eqn:Hb; [|case_decide as He].
    + split; [done|]. apply accepted_stop; try done; cbn [taken left_over]; [by rewrite Hb|].
      rewrite decide_False; [done|]. by intros ->.
    + apply Hgo; [done..|]. intros t' w'. by apply accepted_retry.
    + split; [done|]. apply accepted_stop; try done; cbn [taken left_over].
      * by rewrite Hb, decide_False.
      * by rewrite decide_False.
Qed.

(** * Properties *)

(** C22. Closing a connection removes exactly that entry. For any connection of a
    well-formed table, close_conn returns; the last entry takes the freed place
    and every other one keeps its own; the descriptor is closed and the buffers
    the client owned are released, each of them live, and no other connection
    loses a block; the two arrays still agree entry by entry. *)
Theorem close_conn_removes nl i t p c w :
  table_ok nl t → heap_ok nl t w → world_ok w → nl ≤ i → active t !! i = Some (p, c) →
  ∃ t' w', close_conn i t w = (Ret t', w')
    ∧ (p, c) :: conns nl t' ≡ₚ conns nl t
    ∧ (∀ j, j < fd_count t' → j ≠ i → active t' !! j = active t !! j)
    ∧ table_ok nl t' ∧ heap_ok nl t' w'
    ∧ (∀ b, b ∈ owned c → b ∉ w_blocks w')
    ∧ ∃ evs, extends w w' (EvClose (fd c) :: evs) ∧ Forall free_live evs.
Proof.
  intros Ht Hh Hw Hi Ha.
  destruct (close_conn_correct nl i t p c w Ht Hh Hw Hi Ha)
    as (t' & E & Hact & Hp & Hn & Ht' & Hh' & K & _ & evs & Hx & Hl).
  exists t', (w_closed c w). split_and!; try done.
  - intros j Hj Hne. rewrite Hact, swap_remove_other; [done| |done].
    rewrite (length_active nl), Hn by done. simpl. lia.
  - destruct Hh as [Hnd Hlive]. destruct (table_blocks_entry nl i p c t Hi Ha) as (rest & Hr & _).
    rewrite Hr in Hnd, Hlive. apply NoDup_app in Hnd as [Hnd _]. apply Forall_app in Hlive as [Hlive _].
    intros b Hb. rewrite (proj2 (w_closed_calm c w Hw Hnd Hlive)).
    rewrite elem_of_difference, elem_of_list_to_set. naive_solver.
  - destruct (w_closed_trace c w) as (tl & Htl & _).
    exists tl. split; [exact Htl|]. unfold extends in Hx. rewrite Htl in Hx.
    simplify_list_eq. by apply Forall_cons in Hl as [_ ?].
Qed.

(** Adding a connection appends one fresh entry. Full arrays are doubled first,
    keeping every entry; the index returned is in bounds and holds the new
    descriptor in state READING with nothing received, staged or sent; the
    process exits only when an allocation fails. *)
Theorem add_to_lists_appends nl newfd t w :
  table_ok nl t → heap_ok nl t w → world_ok w → plenty w →
  ∃ idx t' w' old, add_to_lists newfd t w = (Ret (idx, t'), w')
    ∧ idx = fd_count t ∧ active t' = active t ++ [new_entry newfd old]
    ∧ fd_count t' = S (fd_count t)
    ∧ table_ok nl t' ∧ heap_ok nl t' w' ∧ w_trace w' = w_trace w.
Proof.
  intros Ht Hh Hw Hp.
  destruct (safe_total _ _ _ _ (λ H, H Hp) (add_to_lists_safe nl newfd t w Ht Hh Hw))
    as ([idx t'] & w' & E & _ & _ & Htr & -> & old & p & _ & _ & _ & Ha & _ & Ht' & Hh').
  exists (fd_count t), t', w', old. split_and!; try done.
  apply (f_equal length) in Ha. rewrite length_app, !(length_active nl) in Ha by done.
  simpl in Ha. lia.
Qed.

(** The results the loop goes through, and what they hold. *)
Definition goes_on (r : accept_result) : Prop :=
  match r with Accepted _ => True | AcceptErr e => e = EINTR end.
Definition connections (q : list accept_result) : list new_conn :=
  omap (λ r, match r with Accepted n => Some n | AcceptErr _ => None end) q.

Lemma queue_split q :
  ∃ pre, Forall goes_on pre ∧ taken q = connections pre
    ∧ (q = pre ∧ left_over q = [] ∨ ∃ e, e ≠ EINTR ∧ q = pre ++ AcceptErr e :: left_over q).
Proof.
  induction q as [|[n|e] q (pre & HF & Ht & Hq)]; [exists []; auto| |].
  - exists (Accepted n :: pre). split; [by constructor|]. cbn [taken left_over].
    split; [by rewrite Ht|]. destruct Hq as [[<- H]|(e & He & H)]; [by left|right].
    exists e. split; [done|]. by rewrite H at 1.
  - destruct (decide (e = EINTR)) as [->|He].
    + exists (AcceptErr EINTR :: pre). split; [by constructor|].
      change (taken (AcceptErr EINTR :: q)) with (taken q).
      change (left_over (AcceptErr EINTR :: q)) with (left_over q). split; [done|].
      destruct Hq as [[<- H]|(e & He & H)]; [by left|right]. exists e. split; [done|].
      by rewrite H at 1.
    + exists []. split; [constructor|]. cbn [taken left_over]. rewrite !decide_False by done.
      split; [by destruct (would_block e)|]. right. by exists e.
Qed.

(** C24. Accepting takes connections up to the first error. While memory does not run
    out, and whatever accept and fcntl answer, the loop ends. It goes through
    connections and EINTR up to the first other error, or the end of the queue, and
    leaves what is queued behind that error; each connection it went through is
    either added, in order and ready to read, or, when it could not be made
    non-blocking, closed; the connections already there are untouched. *)
Theorem accept_new_conn_drains nl lfd t w :
  table_ok nl t → heap_ok nl t w → world_ok w → plenty w →
  ∃ pre rest t' w' new, accept_new_conn lfd t w = (Ret t', w')
    ∧ Forall goes_on pre
    ∧ (e_accept (w_env w) lfd = pre ∧ rest = []
       ∨ ∃ e, e ≠ EINTR ∧ e_accept (w_env w) lfd = pre ++ AcceptErr e :: rest)
    ∧ e_accept (w_env w') lfd = rest
    ∧ conns nl t' = conns nl t ++ new
    ∧ Forall2 accepted_as (filter (λ n, usable n = true) (connections pre)) new
    ∧ extends w w' ((λ n, EvClose (nc_fd n)) <$> filter (λ n, usable n = false) (connections pre))
    ∧ table_ok nl t' ∧ heap_ok nl t' w'.
Proof.
  intros Ht Hh Hw Hp. unfold accept_new_conn, get. run.
  destruct (safe_total _ _ _ _ (λ H, H Hp)
    (accept_loop_safe nl lfd (accept_fuel lfd w) t w Ht Hh Hw ltac:(unfold accept_fuel; lia)))
    as (t' & w' & E & _ & new & _ & Hc & Hn & Hx & Ht' & Hh' & Hl).
  destruct (queue_split (e_accept (w_env w) lfd)) as (pre & HF & Hpre & Hq). rewrite Hpre in Hn, Hx.
  exists pre, (left_over (e_accept (w_env w) lfd)), t', w', new. by split_and!.
Qed.

(** * Witnesses *)

(** A table of one listener and two connections, of which the first holds a
    buffer, in arrays that are full. *)
Definition listener_entry : PollFd := mkPollFd 3 POLLIN 0.
Definition conn_a : Client := set_in (fresh_client 4 blank_client) (Some (Block 2 (B "GET"))) 3 1024.
Definition conn_b : Client := fresh_client 5 blank_client.
Definition sample_table : Table :=
  mkTable 0 1 [listener_entry; mkPollFd 4 POLLIN 0; mkPollFd 5 POLLIN 0]
    [blank_client; conn_a; conn_b] 3 3.
Definition accept_env : Environment :=
  e_set_accept 3 [Accepted (mkConn 6 true true true (Some (B "10.0.0.1")));
                  AcceptErr EINTR; Accepted (mkConn 7 true false true None);
                  Accepted (mkConn 8 true true false None); AcceptErr EOTHER;
                  Accepted (mkConn 9 true true false None)] quiet_env.
Definition table_world : World := mkWorld accept_env 3 ∅ {[0; 1; 2]} [].

Lemma sample_table_ok : table_ok 1 sample_table.
Proof. constructor; simpl; try lia. repeat constructor. Qed.
Lemma table_world_ok : world_ok table_world.
Proof.
  constructor; simpl; [intros f Hf; rewrite lookup_empty in Hf; by destruct Hf|].
  intros b Hb. assert (b = 0 ∨ b = 1 ∨ b = 2) by set_solver. lia.
Qed.
Lemma sample_heap_ok : heap_ok 1 sample_table table_world.
Proof.
  split; [by apply (bool_decide_unpack _); vm_compute|].
  unfold table_blocks, sample_table. simpl. repeat constructor; set_solver.
Qed.

Lemma close_conn_removes_witness :
  ∃ t' w', close_conn 1 sample_table table_world = (Ret t', w')
    ∧ (mkPollFd 4 POLLIN 0, conn_a) :: conns 1 t' ≡ₚ conns 1 sample_table ∧ 2 ∉ w_blocks w'.
Proof.
  destruct (close_conn_removes 1 1 sample_table (mkPollFd 4 POLLIN 0) conn_a table_world
    sample_table_ok sample_heap_ok table_world_ok ltac:(lia) eq_refl)
    as (t' & w' & H1 & H2 & _ & _ & _ & H3 & _).
  exists t', w'. split; [exact H1|split; [exact H2|]]. apply H3. simpl. set_solver.
Defined.

Lemma add_to_lists_appends_witness :
  ∃ idx t' w', add_to_lists 9 sample_table table_world = (Ret (idx, t'), w')
    ∧ idx = 3 ∧ fd_count t' = 4.
Proof.
  destruct (add_to_lists_appends 1 9 sample_table table_world sample_table_ok sample_heap_ok
    table_world_ok ltac:(constructor)) as (idx & t' & w' & old & H1 & H2 & _ & H3 & _).
  exists idx, t', w'. split; [exact H1|split; [exact H2|exact H3]].
Defined.

Lemma accept_new_conn_drains_witness :
  ∃ t' w' new, accept_new_conn 3 sample_table table_world = (Ret t', w')
    ∧ conns 1 t' = conns 1 sample_table ++ new
    ∧ e_accept (w_env w') 3 = [Accepted (mkConn 9 true true false None)].
Proof.
  destruct (accept_new_conn_drains 1 3 sample_table table_world sample_table_ok sample_heap_ok
    table_world_ok ltac:(constructor)) as (pre & rest & t' & w' & new & H1 & H2 & H3 & H4 & H5 & _).
  exists t', w', new. split; [exact H1|split; [exact H5|]]. rewrite H4. clear H4.
  assert (∀ pre' : list accept_result, Forall goes_on pre' → AcceptErr EOTHER ∉ pre') as Hno.
  { intros pre' HF Hin. rewrite Forall_forall in HF. discriminate (HF _ Hin). }
  specialize (Hno pre H2). change (e_accept (w_env table_world) 3) with
    ([Accepted (mkConn 6 true true true (Some (B "10.0.0.1"))); AcceptErr EINTR;
      Accepted (mkConn 7 true false true None); Accepted (mkConn 8 true true false None);
      AcceptErr EOTHER; Accepted (mkConn 9 true true false None)]) in H3.
  destruct H3 as [[<- _]|(e & He & H3)]; [exfalso; apply Hno; set_solver|].
  destruct pre as [|? [|? [|? [|? [|? [|? ?]]]]]]; simplify_eq/=; [done|].
  exfalso. apply Hno. set_solver.
Defined.
