(* ===== verification/DoRead.v ===== *)
(** * DoRead: receiving a request and answering it (client_conn/do_read.c)

    The growing input buffer, the loop that drains the socket, and the handler
    that parses a complete request, resolves its path, stages the response and
    logs it. *)

From S2P Require Import Prelude CLib Types OS Flags Logging ParseRequest ResolvePath Response.
From S2P Require Import Messages Connections.

(** ** The input buffer *)

(** The size of the scratch buffer of one recv, and of the first input block. *)
Definition TEMP_BUFFER : nat := Z.to_nat 2048.
Definition FIRST_CAPACITY : nat := Z.to_nat 1024.
Lemma TEMP_BUFFER_pos : 0 < TEMP_BUFFER.
Proof. unfold TEMP_BUFFER. lia. Qed.
Lemma FIRST_CAPACITY_val : Z.of_nat FIRST_CAPACITY = 1024%Z.
Proof. reflexivity. Qed.
#[global] Opaque TEMP_BUFFER FIRST_CAPACITY.

(** The loop that doubles the capacity. A [size_t] doubles at most 64 times. *)
Definition DOUBLINGS : nat := 64.
Fixpoint grow_capacity (fuel new_cap need : nat) : option nat :=
  match fuel with
  | 0 => None
  | S fuel' => if decide (new_cap < need) then grow_capacity fuel' (new_cap * 2) need
               else Some new_cap
  end.

(** memcpy to the end of the input. *)
Definition copy_in (c : Client) (data : bytes) : M Client :=
  match in_buf c with
  | Some b =>
      mret (set_in c (Some (Block (b_id b) (take (input_length c) (b_data b) ++ data)))
              (input_length c + length data) (input_capacity c))
  | None => if decide (data = []) then mret c else crash
  end.

Definition append (c : Client) (data : bytes) : M Client :=
  let need := input_length c + length data in
  if decide (MAX_REQUEST_SIZE < need) then
    mret (set_state (set_resp c RESP_414) PROCESSING)
  else if decide (input_capacity c < need) then
    match grow_capacity DOUBLINGS
            (if decide (input_capacity c = 0) then FIRST_CAPACITY else input_capacity c * 2) need with
    | None => no_fuel
    | Some new_cap =>
        p ← realloc (b_id <$> in_buf c);
        match p with
        | None => mret (set_state c CLOSING)
        | Some b =>
            copy_in (set_in c (Some (Block b (from_option b_data [] (in_buf c))))
                       (input_length c) new_cap) data
        end
    end
  else copy_in c data.

(** ** Draining the socket *)

(** The loop: true when do_read returns from inside it. *)
Fixpoint recv_loop (fuel : nat) (c : Client) : M (bool * Client) :=
  match fuel with
  | 0 => no_fuel
  | S fuel' =>
      r ← recv (fd c) TEMP_BUFFER;
      match r with
      | RecvData [] => mret (true, set_state c CLOSING)
      | RecvData data =>
          c ← append c data;
          if decide (state c = READING) then recv_loop fuel' c else mret (true, c)
      | RecvErr e =>
          if would_block e then mret (false, c)
          else if decide (e = EINTR) then recv_loop fuel' c
          else mret (false, set_state c CLOSING)
      end
  end.

(** Fuel for the loop: each turn consumes a byte or a queued result. *)
Definition recv_size (r : recv_result) : nat :=
  match r with RecvData d => S (length d) | RecvErr _ => 1 end.
Definition recv_fuel (fd : Z) (w : World) : nat :=
  S (sum_list (recv_size <$> e_recv (w_env w) fd)).

(** ** Answering *)

(** The peer's address in the log entry. *)
Definition open_entry (g : Globals) (c : Client) : LogEntry :=
  if logging_on g then log_append log_zero (client_addr c ++ B " ") else log_zero.

(** The response code and the length, printed with %d although it is a size_t, and
    the write to the log. *)
Definition close_entry (g : Globals) (c : Client) (le : LogEntry) : M unit :=
  if logging_on g then
    do_logging g (log_append le
      (resp_val_to_status_string (resp_val c) ++ B " " ++ fmt_d (i32 (body_len c)) ++ [LF]))
  else mret ().

(** The condition of do_read and its two branches: the client and the resolved
    path. The builders' return values are not used. *)
Definition answer `{External} (g : Globals) (c : Client) (r : parsed) : M (Client * ResolvedPath) :=
  let req := p_out r in
  if decide (p_ret r = 0)%Z then
    v ← resolve_path g c req rp_zero;
    if decide (rv_ret v = 0)%Z then
      s ← build_okay_response g (rv_client v) (rv_rp v) req;
      mret (s.2, rv_rp v)
    else
      s ← build_error_response (rv_client v) req;
      mret (s.2, rv_rp v)
  else
    s ← build_error_response c req;
    mret (s.2, rp_zero).

(** do_read from the point where a whole request is in the buffer. *)
Definition respond `{External} (g : Globals) (c : Client) (buf : bytes) : M Client :=
  let le := open_entry g c in
  r ← parse_request g (Some buf) (header_len c) request_zero (resp_val c) le;
  a ← answer g (set_resp c (p_resp r)) r;
  let '(c, rp) := a in
  _ ← close_entry g c (p_le r);
  _ ← close_resolve_path_ptr rp;
  mret (set_state c SENDING_HEADER).

Definition read_client `{External} (g : Globals) (c : Client) (p : PollFd) : M (Client * PollFd) :=
  w ← get;
  d ← recv_loop (recv_fuel (fd c) w) c;
  let '(returned, c) := d in
  if (returned : bool) then mret (c, p)
  else
    match in_buf c with
    | None => mret (c, p)
    | Some b =>
        if decide (input_length c = 0) then mret (c, p)
        else
          match strnstr (b_data b) HEADER_END (input_length c) with
          | None => mret (c, p)
          | Some e =>
              c ← respond g (set_header_len c (e + 4)) (b_data b);
              mret (c, mkPollFd (pfd_fd p) POLLOUT (pfd_revents p))
          end
    end.

(** do_read works in place on the entry [i] of the two arrays. *)
Definition do_read `{External} (g : Globals) (i : nat) (t : Table) : M Table :=
  match clients t !! i, pfds t !! i with
  | Some c, Some p =>
      r ← read_client g c p;
      mret (set_pfd i r.2 (set_client i r.1 t))
  | _, _ => crash
  end.

(** * Lemmas *)

(** ** The input buffer *)

(** The capacities the doubling reaches below the limit. *)
Definition valid_capacity (n : nat) : Prop :=
  (Z.of_nat n = 1024 ∨ Z.of_nat n = 2048 ∨ Z.of_nat n = 4096 ∨ Z.of_nat n = 8192)%Z.

Definition input_data (c : Client) : bytes := from_option b_data [] (in_buf c).

(** The buffer holds the bytes received, within its capacity. *)
Definition input_ok (c : Client) : Prop :=
  length (input_data c) = input_length c ∧ input_length c ≤ input_capacity c
  ∧ (input_capacity c = 0 ∧ in_buf c = None ∨ valid_capacity (input_capacity c) ∧ is_Some (in_buf c)).

(** A client waiting for its request. *)
Record reading (c : Client) : Prop := {
  rd_state : state c = READING;
  rd_out : out_buf c = None;
  rd_sent : output_sent c = 0;
  rd_file : file_ptr c = None;
  rd_input : input_ok c;
  rd_addr : length (client_addr c) < INET6_ADDRSTRLEN
}.

Lemma grow_capacity_spec fuel cap need :
  4 ≤ fuel → valid_capacity cap → need ≤ MAX_REQUEST_SIZE →
  ∃ cap', grow_capacity fuel cap need = Some cap' ∧ valid_capacity cap' ∧ need ≤ cap'.
Proof.
  intros Hf Hc Hn. unfold valid_capacity in *.
  do 4 (destruct fuel as [|fuel]; [lia|]). cbn [grow_capacity].
  do 4 (case_decide; [|eexists; split; [reflexivity|size_lia]]). exfalso. size_lia.
Qed.

(** The client with [data] added to its input, in a block of some identity and
    capacity. *)
Definition received (c c' : Client) (data : bytes) : Prop :=
  ∃ b cap, c' = set_in c b (input_length c + length data) cap
    ∧ input_data c' = input_data c ++ data ∧ input_ok c'.

Lemma copy_in_run c data b w :
  in_buf c = Some b → length (b_data b) = input_length c →
  input_length c + length data ≤ input_capacity c → valid_capacity (input_capacity c) →
  ∃ c', copy_in c data w = (Ret c', w)
    ∧ c' = set_in c (Some (Block (b_id b) (b_data b ++ data)))
             (input_length c + length data) (input_capacity c)
    ∧ input_data c' = input_data c ++ data ∧ input_ok c'.
Proof.
  intros Hb Hl Hlen Hv. unfold copy_in. rewrite Hb. rewrite take_ge by lia.
  eexists. split; [reflexivity|]. split; [done|]. unfold input_ok, input_data. simpl.
  rewrite Hb. simpl. rewrite length_app. split_and!; [done|lia|done|].
  right. split; [done|]. by eexists.
Qed.

(** The outcomes of append: the bytes are added, or they do not fit the limit, or
    there is no memory. *)
Inductive append_result (c : Client) (data : bytes) (w : World) : Client → World → Prop :=
| append_added c' w' :
    input_length c + length data ≤ MAX_REQUEST_SIZE →
    received c c' data → hands w c w' c' → env_step w w' → w_trace w' = w_trace w →
    w_files w' = w_files w →
    append_result c data w c' w'
| append_too_long :
    MAX_REQUEST_SIZE < input_length c + length data →
    append_result c data w (set_state (set_resp c RESP_414) PROCESSING) w
| append_no_memory :
    ¬ plenty w → append_result c data w (set_state c CLOSING) (w_alloc_next w).

(** The world after a successful realloc of the input buffer. *)
Definition w_regrown (c : Client) (w : World) : World :=
  w_new_block (match b_id <$> in_buf c with
               | Some b => w_drop_block b (w_alloc_next w)
               | None => w_alloc_next w
               end).

Lemma regrown_hands c c' w :
  world_ok w → owns w c → out_buf c = None → owned c' = [w_next w] →
  hands w c (w_regrown c w) c'.
Proof.
  intros Hw Hown Ho Hown'. unfold w_regrown.
  split; [destruct (in_buf c); simpl; auto with server|]. unfold owns. rewrite Hown'. split_and!.
  - apply NoDup_singleton.
  - rewrite Forall_singleton. destruct (in_buf c); apply elem_of_union_l; by apply elem_of_singleton.
  - intros b ->%list_elem_of_singleton. by right.
  - intros b Hlt Hin Hno. unfold owned in Hno. rewrite Ho, app_nil_r in Hno.
    apply elem_of_union_r. destruct (in_buf c) as [b0|]; [|done].
    apply elem_of_difference. split; [done|]. rewrite elem_of_singleton.
    intros ->. apply Hno, list_elem_of_here.
  - destruct (in_buf c); simpl; lia.
Qed.

Lemma regrown_same c w :
  env_step w (w_regrown c w) ∧ w_trace (w_regrown c w) = w_trace w
  ∧ w_files (w_regrown c w) = w_files w.
Proof.
  unfold w_regrown. destruct (alloc_next_env w) as [k Hk].
  by destruct (in_buf c); (split; [exists k|]).
Qed.

Lemma append_run c data w :
  input_ok c → out_buf c = None → world_ok w → owns w c → data ≠ [] →
  ∃ c' w', append c data w = (Ret c', w') ∧ append_result c data w c' w'.
Proof.
  intros Hi Ho Hw Hown Hne. pose proof Hi as (Hl & Hcap & Hb). unfold append.
  case_decide as Hmax; [do 2 eexists; split; [reflexivity|by constructor]|].
  case_decide as Hfull.
  - destruct (grow_capacity_spec DOUBLINGS
      (if decide (input_capacity c = 0) then FIRST_CAPACITY else input_capacity c * 2)
      (input_length c + length data)) as (cap & Hg & Hv & Hn); [unfold DOUBLINGS; lia| |lia|].
    { unfold valid_capacity in *. pose proof FIRST_CAPACITY_val. case_decide; [lia|].
      destruct Hb as [[? _]|[Hb _]]; [done|]. size_lia. }
    rewrite Hg. unfold realloc. run. fold (w_regrown c w). destruct (alloc_ok w) eqn:Ha.
    2:{ do 2 eexists. split; [reflexivity|]. apply append_no_memory.
        intros Hp%plenty_alloc_ok. congruence. }
    set (c1 := set_in c (Some (Block (w_next w) (from_option b_data [] (in_buf c))))
                 (input_length c) cap).
    destruct (copy_in_run c1 data (Block (w_next w) (input_data c)) (w_regrown c w))
      as (c2 & E & Hc2 & Hd & Hok); [done|exact Hl|exact Hn|exact Hv|].
    exists c2, (w_regrown c w). split; [exact E|].
    apply append_added; [lia| | |apply regrown_same..].
    + exists (in_buf c2), cap. split; [by rewrite Hc2|]. by split.
    + apply regrown_hands; try done. rewrite Hc2. unfold owned. simpl. by rewrite Ho.
  - destruct Hb as [[Hz _]|[Hv [b Hb]]].
    { destruct data; [done|]. simpl in *. lia. }
    destruct (copy_in_run c data b w) as (c' & E & Hc' & Hd & Hok); [done| |lia|done|].
    { unfold input_data in Hl. by rewrite Hb in Hl. }
    exists c', w. split; [exact E|]. apply append_added; [lia| | |by apply same_env|done|done].
    + exists (in_buf c'), (input_capacity c). split; [by rewrite Hc'|]. by split.
    + apply hands_same; [auto with server|done..|]. rewrite Hc'. unfold owned. simpl.
      by rewrite Hb.
Qed.

(** ** Draining the socket *)

(** The bytes a queue of results delivers before it blocks, ends or fails, and what
    do_read makes of that end: whether it returns at once, and the state. *)
Fixpoint arriving (q : list recv_result) : bytes :=
  match q with
  | [] | RecvData [] :: _ => []
  | RecvData d :: q' => d ++ arriving q'
  | RecvErr e :: q' =>
      if would_block e then [] else if decide (e = EINTR) then arriving q' else []
  end.
Fixpoint ending (q : list recv_result) : bool * client_state :=
  match q with
  | [] => (false, READING)
  | RecvData [] :: _ => (true, CLOSING)
  | RecvData _ :: q' => ending q'
  | RecvErr e :: q' =>
      if would_block e then (false, READING)
      else if decide (e = EINTR) then ending q' else (false, CLOSING)
  end.

(** What stays in the queue when do_read stops. *)
Fixpoint remaining (q : list recv_result) : list recv_result :=
  match q with
  | [] => []
  | RecvData [] :: q' => q'
  | RecvData _ :: q' => remaining q'
  | RecvErr e :: q' => if would_block e then q' else if decide (e = EINTR) then remaining q' else q'
  end.

Definition left_over (d : bytes) (q : list recv_result) : list recv_result :=
  match drop TEMP_BUFFER d with [] => q | rest => RecvData rest :: q end.

Lemma left_over_spec d q :
  d ≠ [] →
  arriving (RecvData d :: q) = take TEMP_BUFFER d ++ arriving (left_over d q)
  ∧ ending (RecvData d :: q) = ending (left_over d q)
  ∧ remaining (RecvData d :: q) = remaining (left_over d q)
  ∧ sum_list (recv_size <$> left_over d q) < sum_list (recv_size <$> RecvData d :: q)
  ∧ take TEMP_BUFFER d ≠ [].
Proof.
  intros Hd. pose proof TEMP_BUFFER_pos as Hp. unfold left_over.
  assert (length (drop TEMP_BUFFER d) < length d).
  { rewrite length_drop. destruct d; [done|]. simpl. lia. }
  split_and!.
  - rewrite <-(take_drop TEMP_BUFFER d) at 1. destruct d as [|x d]; [done|].
    destruct (take TEMP_BUFFER (x :: d)) eqn:Et; [by destruct TEMP_BUFFER; [lia|]|].
    destruct (drop TEMP_BUFFER (x :: d)); [by rewrite app_nil_r|].
    cbn [arriving app]. by rewrite <-app_assoc.
  - destruct d as [|x d]; [done|]. by destruct (drop TEMP_BUFFER (x :: d)).
  - destruct d as [|x d]; [done|]. by destruct (drop TEMP_BUFFER (x :: d)).
  - destruct (drop TEMP_BUFFER d); cbn [fmap list_fmap sum_list recv_size]; simpl in *; lia.
  - destruct d; [done|]. by destruct TEMP_BUFFER; [lia|].
Qed.

(** What holds of a client until it is answered. *)
Record receiving (c : Client) : Prop := {
  rc_out : out_buf c = None;
  rc_sent : output_sent c = 0;
  rc_file : file_ptr c = None;
  rc_input : input_ok c;
  rc_addr : length (client_addr c) < INET6_ADDRSTRLEN
}.

Lemma reading_receiving c : reading c → receiving c.
Proof. by intros []. Qed.

Lemma received_receiving c c' data :
  received c c' data → receiving c → receiving c' ∧ fd c' = fd c ∧ state c' = state c
    ∧ resp_val c' = resp_val c
    ∧ (client_addr c' = client_addr c ∧ body_len c' = body_len c)
    ∧ input_length c' = input_length c + length data.
Proof. intros (b & cap & -> & _ & Hok) []. by split_and!. Qed.

Lemma receiving_set_state c s : receiving c → receiving (set_state c s).
Proof. by intros []. Qed.
Lemma receiving_set_resp c r : receiving c → receiving (set_resp c r).
Proof. by intros []. Qed.
#[export] Hint Resolve receiving_set_state receiving_set_resp : server.

(** The outcome of the loop. *)
Record drained (c : Client) (w : World) (ret : bool) (c' : Client) (w' : World) : Prop := {
  dr_hands : hands w c w' c';
  dr_receiving : receiving c';
  dr_fd : fd c' = fd c;
  dr_logged : client_addr c' = client_addr c ∧ body_len c' = body_len c;
  dr_files : w_files w' = w_files w;
  dr_trace : w_trace w' = w_trace w;
  dr_state : if ret then state c' = CLOSING ∨ state c' = PROCESSING
             else state c' = READING ∨ state c' = CLOSING;
  dr_data : plenty w →
    let q := e_recv (w_env w) (fd c) in
    if decide (MAX_REQUEST_SIZE < input_length c + length (arriving q))
    then ret = true ∧ state c' = PROCESSING ∧ resp_val c' = RESP_414
    else input_data c' = input_data c ++ arriving q ∧ (ret, state c') = ending q
         ∧ resp_val c' = resp_val c ∧ e_recv (w_env w') (fd c) = remaining q
}.

Lemma hands_set_env e c w :
  e_alloc e = e_alloc (w_env w) → same_outside (w_env w) e → world_ok w → owns w c →
  hands w c (w_set_env e w) c.
Proof. intros. apply hands_same; [apply calm_set_env; auto with server|done..]. Qed.

(** A turn that takes a result and goes on: what the rest of the loop does is what
    the whole loop does. *)
Lemma drained_step c w c1 w1 d ret c' w' :
  hands w c w1 c1 → fd c1 = fd c → w_files w1 = w_files w → w_trace w1 = w_trace w →
  (plenty w → input_data c1 = input_data c ++ d) →
  (plenty w → arriving (e_recv (w_env w) (fd c)) = d ++ arriving (e_recv (w_env w1) (fd c))) →
  (plenty w → ending (e_recv (w_env w) (fd c)) = ending (e_recv (w_env w1) (fd c))
              ∧ remaining (e_recv (w_env w) (fd c)) = remaining (e_recv (w_env w1) (fd c))) →
  input_length c1 = input_length c + length d → resp_val c1 = resp_val c →
  client_addr c1 = client_addr c ∧ body_len c1 = body_len c →
  drained c1 w1 ret c' w' → drained c w ret c' w'.
Proof.
  intros Hh Hfd Hf Ht Hd Ha He Hl Hr [Hca Hbl] [R1 R2 R3 [R8 R9] R4 R5 R6 R7].
  constructor; [by eapply hands_trans|done|congruence|split; congruence|congruence..|done|].
  intros Hp. specialize (Hd Hp). specialize (Ha Hp). specialize (He Hp) as [He Hrem].
  rewrite Hfd in R7. specialize (R7 ltac:(destruct Hh as [K _]; by eapply calm_plenty)).
  cbv zeta in *. rewrite Ha, He, Hrem, length_app, Nat.add_assoc, <-Hl.
  case_decide; [done|]. destruct R7 as (R71 & R72 & R73 & R74). rewrite R71, Hd, R73, <-app_assoc. done.
Qed.

Lemma owns_same w c c' : owned c' = owned c → owns w c → owns w c'.
Proof. intros E H. unfold owns. by rewrite E. Qed.

Lemma input_bound c : input_ok c → input_length c ≤ MAX_REQUEST_SIZE.
Proof.
  intros (_ & Hle & [[? _]|[Hv _]]); [size_lia|]. unfold valid_capacity in Hv. size_lia.
Qed.

Lemma set_state_reading c : reading c → set_state c READING = c.
Proof. intros [Hs _ _ _ _ _]. destruct c. simpl in *. by subst. Qed.

(** A turn that ends the loop without new bytes. *)
Lemma drained_stop c w w1 (ret : bool) s :
  reading c → hands w c w1 c → w_files w1 = w_files w → w_trace w1 = w_trace w →
  (if ret then s = CLOSING ∨ s = PROCESSING else s = READING ∨ s = CLOSING) →
  arriving (e_recv (w_env w) (fd c)) = [] → ending (e_recv (w_env w) (fd c)) = (ret, s) →
  e_recv (w_env w1) (fd c) = remaining (e_recv (w_env w) (fd c)) →
  drained c w ret (set_state c s) w1.
Proof.
  intros Hc Hh Hfs Htr Hs Ha He Hrem. pose proof (input_bound c (rd_input _ Hc)).
  constructor; try done; [apply receiving_set_state, reading_receiving, Hc|].
  intros _. cbv zeta. rewrite Ha, He. rewrite decide_False by (simpl; lia).
  by rewrite app_nil_r.
Qed.

(** A turn that receives bytes, given what the rest of the loop does. *)
Lemma data_turn fuel c w x d q :
  (∀ c w, reading c → world_ok w → owns w c →
    sum_list (recv_size <$> e_recv (w_env w) (fd c)) < fuel →
    ∃ ret c' w', recv_loop fuel c w = (Ret (ret, c'), w') ∧ drained c w ret c' w') →
  reading c → e_recv (w_env w) (fd c) = RecvData (x :: d) :: q →
  sum_list (recv_size <$> RecvData (x :: d) :: q) < S fuel →
  let w1 := w_set_env (e_set_recv (fd c) (left_over (x :: d) q) (w_env w)) w in
  hands w c w1 c →
  ∃ ret c' w', (c ← append c (take TEMP_BUFFER (x :: d));
                if decide (state c = READING) then recv_loop fuel c else mret (true, c)) w1
               = (Ret (ret, c'), w') ∧ drained c w ret c' w'.
Proof.
  intros IH Hc Hq Hf w1 H1. pose proof (reading_receiving c Hc) as Hrc.
  assert (e_recv (w_env w1) (fd c) = left_over (x :: d) q) as Hq1 by (simpl; by rewrite decide_True).
  destruct (left_over_spec (x :: d) q ltac:(done)) as (Ha & He & Hrem & Hs & Hne).
  destruct (append_run c (take TEMP_BUFFER (x :: d)) w1) as (c2 & w2 & E & Happ);
    [apply Hrc|apply Hrc|by eapply calm_ok, H1|apply H1|done|].
  rewrite (bind_run _ _ _ _ _ E). destruct Happ as [c2 w2 Hfit Hrec Hh2 Henv Htr Hfs|Hlong|Hnp].
  - destruct (received_receiving _ _ _ Hrec Hrc) as (Hrc2 & Hfd2 & Hst2 & Hr2 & Hlg2 & Hlen2).
    rewrite decide_True by (rewrite Hst2; apply Hc).
    assert (e_recv (w_env w2) (fd c) = left_over (x :: d) q) as Hq2 by (destruct Henv as [k ->]; exact Hq1).
    destruct (IH c2 w2) as (ret & c' & w' & E' & Hd);
      [destruct Hrc2; constructor; try done; rewrite Hst2; apply Hc
      |by eapply calm_ok, Hh2|apply Hh2|rewrite Hfd2, Hq2; lia|].
    exists ret, c', w'. split; [exact E'|].
    refine (drained_step c w c2 w2 (take TEMP_BUFFER (x :: d)) ret c' w'
      (hands_trans _ _ _ _ _ _ H1 Hh2) Hfd2 Hfs Htr _ _ _ Hlen2 Hr2 Hlg2 Hd).
    + intros _. by destruct Hrec as (_ & _ & _ & ? & _).
    + intros _. by rewrite Hq2, Hq, Ha.
    + intros _. rewrite Hq2, Hq, He. by split.
  - exists true. do 2 eexists. rewrite decide_False by done. split; [reflexivity|].
    constructor; try done; [auto with server|by right|].
    intros _. cbv zeta. rewrite Hq, decide_True; [done|]. rewrite Ha, length_app. lia.
  - exists true. do 2 eexists. rewrite decide_False by done. split; [reflexivity|].
    constructor; [|auto with server|done|done|done|done|by left|].
    + eapply hands_trans; [exact H1|]. pose proof (calm_ok _ _ (proj1 H1)).
      apply hands_same; [auto with server|apply H1|done..].
    + intros Hp. destruct Hnp. by eapply calm_plenty; [apply H1|].
Qed.

Lemma recv_loop_run fuel c w :
  reading c → world_ok w → owns w c →
  sum_list (recv_size <$> e_recv (w_env w) (fd c)) < fuel →
  ∃ ret c' w', recv_loop fuel c w = (Ret (ret, c'), w') ∧ drained c w ret c' w'.
Proof.
  revert c w. induction fuel as [|fuel IH]; intros c w Hc Hw Ho Hf; [lia|].
  cbn [recv_loop]. unfold recv. run. destruct (e_recv (w_env w) (fd c)) as [|r q] eqn:Hq.
  { exists false, c, w. split; [done|]. rewrite <-(set_state_reading c Hc) at 2.
    apply drained_stop; [done|by apply hands_refl|done..|by left|by rewrite Hq|by rewrite Hq|by rewrite Hq]. }
  set (q1 := match r with RecvData d => left_over d q | RecvErr _ => q end).
  set (w1 := w_set_env (e_set_recv (fd c) q1 (w_env w)) w).
  assert (hands w c w1 c) as H1 by (apply hands_set_env; auto with server).
  destruct r as [[|x d]|e].
  - do 3 eexists. split; [reflexivity|]. apply (drained_stop c w _ true CLOSING);
      [done|apply hands_set_env; auto with server|done|done|by left|by rewrite Hq|by rewrite Hq|].
    rewrite Hq. simpl. by rewrite decide_True.
  - destruct (left_over_spec (x :: d) q ltac:(done)) as (_ & _ & _ & _ & Hne).
    destruct (data_turn fuel c w x d q IH Hc Hq Hf H1) as (ret & c' & w' & E & Hd).
    exists ret, c', w'. split; [|exact Hd]. rewrite <-E.
    by destruct (take TEMP_BUFFER (x :: d)).
  - destruct (would_block e) eqn:Hwb.
    { exists false, c, w1. split; [done|]. rewrite <-(set_state_reading c Hc) at 2.
      apply drained_stop; [done|done|done..|by left| | |]; rewrite Hq; simpl;
        rewrite ?Hwb, ?decide_True; done. }
    case_decide as He.
    + destruct (IH c w1 Hc) as (ret & c' & w' & E & Hd);
        [by eapply calm_ok, H1|apply H1|simpl; rewrite decide_True by done;
         unfold q1; change (1 + sum_list (recv_size <$> q) < S fuel) in Hf; lia|].
      exists ret, c', w'. split; [exact E|].
      apply (drained_step c w c w1 [] ret c' w'); try done; intros _;
        rewrite ?app_nil_r, ?Hq; simpl; rewrite ?decide_True by done; by rewrite ?Hwb.
    + do 3 eexists. split; [reflexivity|].
      apply drained_stop; [done|done|done..|by right| | |];
        rewrite Hq; simpl; rewrite ?Hwb, ?(decide_False (P := e = EINTR)), ?decide_True; done.
Qed.

(** ** Answering *)

(** A builder's step, for a client with nothing staged. *)
Lemma frame_hands w c w' c' :
  world_ok w → owns w c → out_buf c = None → keeps w w' → client_frame w c c' →
  (∀ blk, out_buf c' = Some blk → b_id blk ∈ w_blocks w') → hands w c w' c'.
Proof.
  intros Hw [Hnd Hl] Ho (Hs & _ & Hn & Hb) (Fi & _ & _ & _ & Fo) Hlive.
  assert (owned c = option_list (b_id <$> in_buf c)) as E by (unfold owned; by rewrite Ho, app_nil_r).
  assert (owned c' = owned c ++ option_list (b_id <$> out_buf c')) as E'
    by (rewrite E; unfold owned; by rewrite Fi).
  rewrite Forall_forall in Hl.
  split; [by apply sound_calm|]. unfold owns. rewrite E', NoDup_app, Forall_app.
  destruct (out_buf c') as [blk|]; simpl.
  - specialize (Fo _ eq_refl). specialize (Hlive _ eq_refl). split_and!; try done.
    + intros b Hin ->%list_elem_of_singleton. apply Hl, (ok_blocks w Hw) in Hin. lia.
    + apply NoDup_singleton.
    + rewrite Forall_forall. intros b Hin. pose proof (Hl b Hin) as Hin'.
      apply Hb; [by apply (ok_blocks w Hw)|done].
    + by rewrite Forall_singleton.
    + intros b [Hin|Hin]%elem_of_app; [by left|right].
      by apply list_elem_of_singleton in Hin as ->.
    + intros b Hlt Hin _. by apply Hb.
  - rewrite app_nil_r. split_and!; try done.
    + intros b Hin Hin'. by apply elem_of_nil in Hin'.
    + apply NoDup_nil_2.
    + rewrite Forall_forall. intros b Hin. pose proof (Hl b Hin) as Hin'.
      apply Hb; [by apply (ok_blocks w Hw)|done].
    + intros b Hin. by left.
    + intros b Hlt Hin _. by apply Hb.
Qed.

Lemma ready_live w c blk : ready w c → out_buf c = Some blk → b_id blk ∈ w_blocks w.
Proof. intros (b & out & Ho & Hb & _) E. by rewrite Ho in E; injection E as <-. Qed.

(** What is staged does not change with the parts of the client it does not lie in. *)
Lemma ready_same w w' c c' :
  w_blocks w' = w_blocks w → out_buf c' = out_buf c → output_length c' = output_length c →
  header_len c' = header_len c → ready w c → ready w' c'.
Proof. intros Hb Ho Hl Hh (b & out & H). exists b, out. by rewrite Hb, Ho, Hl, Hh. Qed.
Lemma sendable_same w w' c c' :
  w_blocks w' = w_blocks w → out_buf c' = out_buf c → output_length c' = output_length c →
  header_len c' = header_len c → resp_val c' = resp_val c → sendable w c → sendable w' c'.
Proof.
  intros Hb Ho Hl Hh Hr (st & len & ct & H & Hs). exists st, len, ct. rewrite Hr.
  split; [by eapply holds_frame|done].
Qed.

(** What the answer to a request leaves: a whole message, or, when memory ran out,
    what could be stored or nothing. *)
Definition answered (w : World) (c : Client) (w' : World) (c' : Client) : Prop :=
  hands w c w' c' ∧ fd c' = fd c ∧ output_sent c' = output_sent c
  ∧ (ready w' c' ∨ out_buf c' = None ∧ ¬ plenty w) ∧ (plenty w → sendable w' c').

(** libmagic answers with a text that fits a header line. *)
Definition magic_ok `{External} : Prop := ∀ d m, magic_descriptor d = Some m → CR ∉ m.

Section answering.
Context `{External} (g : Globals).
Context (Hmagic : magic_ok).

Lemma mime_of_header name data : CR ∉ default [] (mime_of name data).
Proof.
  unfold mime_of. destruct (strrchr name "."%char ≫= _) as [m|] eqn:E.
  - apply bind_Some in E as (ext & _ & E). simpl.
    assert (∀ t, Forall (λ e : bytes * bytes, CR ∉ e.2) t → mime_lookup ext t = Some m → CR ∉ m) as Ht.
    { induction t as [|[e v] t IH]; intros HF; [done|]. apply Forall_cons in HF as [Hv HF].
      unfold mime_lookup. fold mime_lookup. destruct (strcaseeq ext e); [by intros [= ->]|auto]. }
    eapply Ht; [|exact E]. by_eval.
  - destruct (magic_descriptor data) as [m|] eqn:Em; simpl; [by eapply Hmagic|].
    apply not_elem_of_nil.
Qed.

(** The request handed on by the parser. *)
Record good_request (req : Request) : Prop := {
  gr_date : CR ∉ time_received req;
  gr_date_len : length (time_received req) < TIME_RECEIVED_LENGTH
}.

Lemma build_answered_error c req w :
  world_ok w → owns w c → out_buf c = None → good_request req →
  is_Some (error_responses (resp_val c)) →
  ∃ s w', build_error_response c req w = (Ret s, w') ∧ answered w c w' s.2
    ∧ file_ptr s.2 = file_ptr c ∧ keeps w w'.
Proof.
  intros Hw Hown Ho [Hd Hl] Hr.
  destruct (error_sendable c req w Hw Hd Hr Ho) as (st & c' & w' & E & K & Hf & Hst).
  exists (st, c'), w'. split; [exact E|]. pose proof Hf as (_ & Ffd & Fs & Fp & _).
  assert (hands w c w' c') as Hh.
  { apply frame_hands; try done. intros blk Hblk. destruct Hst as [(_ & Hs & _)|(_ & -> & _)].
    - by eapply ready_live.
    - by rewrite Ho in Hblk. }
  split; [|done]. split; [exact Hh|]. split; [done|]. split; [done|].
  destruct Hst as [(_ & Hs & Hp)|(_ & -> & Hnp)]; [auto|]. split; [by right|done].
Qed.

Lemma build_answered_okay c rp req w :
  world_ok w → owns w c → okay_args w c rp req →
  ∃ s w', build_okay_response g c rp req w = (Ret s, w') ∧ answered w c w' s.2
    ∧ file_ptr s.2 = file_ptr c ∧ keeps w w'.
Proof.
  intros Hw Hown Ha.
  destruct (okay_outcome g c rp req w Hw Ha) as (st & c' & w' & E & K & Hf & Hst).
  exists (st, c'), w'. split; [exact E|]. pose proof Hf as (_ & Ffd & Fs & Fp & _).
  assert (hands w c w' c') as Hh.
  { apply frame_hands; try done; [apply Ha|]. intros blk Hblk. destruct Hst as [(_ & Hs & _)|(_ & Hn & _)].
    - by eapply ready_live.
    - by rewrite Hn in Hblk. }
  split; [|done]. split; [exact Hh|]. split; [done|]. split; [done|].
  destruct Hst as [(_ & Hs & Hp)|(_ & Hn & Hnp)]; [auto|]. split; [by right|done].
Qed.

Lemma resolution_failed_code fs cgi_on local r :
  resolution_of fs cgi_on local = Failed r → is_Some (error_responses r).
Proof.
  unfold resolution_of, index_resolution. intros E.
  repeat case_match; try discriminate E; injection E as <-; by eexists.
Qed.

(** resolve_path hands build_okay_response what it needs, or a code to report. *)
Lemma resolve_step c req w :
  world_ok w → owns w c → out_buf c = None → good_request req →
  ∃ local q v w1, split_path (path req) = (Some local, q)
    ∧ resolve_path g c req rp_zero w = (Ret v, w1)
    ∧ realises c local (resolution_of (e_fopen (w_env w)) (has_flag g C_FLAG) local) v w w1
    ∧ hands w c w1 (rv_client v) ∧ w_env w1 = w_env w
    ∧ out_buf (rv_client v) = None ∧ fd (rv_client v) = fd c
    ∧ output_sent (rv_client v) = output_sent c
    ∧ query_string (rv_rp v) = from_option (take (PATH_MAX - 1)) [] q
    ∧ (rv_ret v = 0%Z → okay_args w1 (rv_client v) (rv_rp v) req)
    ∧ (rv_ret v ≠ 0%Z → is_Some (error_responses (resp_val (rv_client v)))).
Proof.
  intros Hw Hown Ho [Hd Hl]. pose proof (split_path_eq (path req)) as Hs.
  destruct (resolve_path_eval g c req rp_zero w _ _ Hs) as (v & w1 & E & Hr & Hq & Hw1).
  eexists _, _, v, w1. split; [exact Hs|]. split; [exact E|]. split; [exact Hr|].
  set (local := B "." ++ _) in *.
  pose proof (resolution_world_keeps w (e_fopen (w_env w)) (has_flag g C_FLAG) local Hw) as Hk.
  pose proof (resolution_world_next w (e_fopen (w_env w)) (has_flag g C_FLAG) local) as Hnx.
  rewrite <-Hw1 in Hk, Hnx. destruct Hk as (evs & Hok & Hb & He & Hx & Hlv & _).
  assert (calm w w1) as K.
  { apply sound_calm. split; [done|]. split; [by apply same_env|]. by exists evs. }
  assert (length (query_string (rv_rp v)) ≤ PATH_MAX) as Hql.
  { rewrite Hq. match goal with |- context [from_option _ _ ?q] => destruct q end;
      simpl; [rewrite length_take|]; size_lia. }
  assert (∀ c', owned c' = owned c → hands w c w1 c') as Hh by (intros; by apply hands_same).
  clear Hw1 E. unfold realises in Hr.
  destruct (resolution_of _ _ local) as [r|st data m|st|st] eqn:Hres.
  - destruct Hr as [Hret ->]. split; [by apply Hh|]. split_and!; try done.
    + intros H0. by rewrite H0 in Hret.
    + intros _. by eapply resolution_failed_code.
  - destruct Hr as (Hpt & f & Hret & _ & -> & Hfp & _ & Hm & _ & Hf).
    split; [by apply Hh|]. split_and!; try done. intros _. constructor; try done.
    + intros _. rewrite Hm. clear -Hres Hmagic. unfold resolution_of, index_resolution in Hres.
      repeat case_match; try discriminate Hres; injection Hres as <- <- <-;
        first [apply mime_of_header|by_eval].
    + by rewrite Hpt.
    + intros _. by exists f, (mkStream (Some st) data).
  - destruct Hr as (Hpt & f & data & Hret & _ & -> & Hfp & _ & Hm & _ & Hf).
    split; [by apply Hh|]. split_and!; try done. intros _. constructor; try done.
    + by rewrite Hpt.
    + by rewrite Hpt.
    + by rewrite Hpt.
  - destruct Hr as (Hret & -> & Hpt & Hfp & _).
    split; [by apply Hh|]. split_and!; try done. intros _. constructor; try done.
    + by rewrite Hpt.
    + by rewrite Hpt.
    + by rewrite Hpt.
Qed.

Lemma answered_after w c w1 c1 w' c' :
  hands w c w1 c1 → fd c1 = fd c → output_sent c1 = output_sent c →
  answered w1 c1 w' c' → answered w c w' c'.
Proof.
  intros H1 Hf Hs (H2 & Hf2 & Hs2 & Hr & Hp). split; [by eapply hands_trans|].
  assert (plenty w → plenty w1) as Hpl by (apply calm_plenty, H1).
  split; [congruence|]. split; [congruence|]. split; [|by auto].
  destruct Hr as [Hr|[Hr Hnp]]; [by left|right]. split; [done|]. auto.
Qed.

Lemma answer_run c r w :
  world_ok w → owns w c → out_buf c = None → good_request (p_out r) →
  (p_ret r ≠ 0%Z → is_Some (error_responses (resp_val c))) →
  ∃ c' rp w', answer g c r w = (Ret (c', rp), w') ∧ answered w c w' c'.
Proof.
  intros Hw Hown Ho Hreq Herr. unfold answer. case_decide as Hret.
  - destruct (resolve_step c (p_out r) w Hw Hown Ho Hreq)
      as (local & q & v & w1 & _ & E & _ & Hh & _ & Ho1 & Hf1 & Hs1 & _ & Hok & Hko).
    rewrite (bind_run _ _ _ _ _ E). pose proof Hh as (K & Hown1 & _).
    pose proof (calm_ok _ _ K) as Hw1. case_decide as Hv.
    + destruct (build_answered_okay (rv_client v) (rv_rp v) (p_out r) w1 Hw1 Hown1 (Hok Hv))
        as (s & w' & E' & Ha & _). rewrite (bind_run _ _ _ _ _ E').
      do 3 eexists. split; [reflexivity|]. by eapply answered_after.
    + destruct (build_answered_error (rv_client v) (p_out r) w1 Hw1 Hown1 Ho1 Hreq (Hko Hv))
        as (s & w' & E' & Ha & _). rewrite (bind_run _ _ _ _ _ E').
      do 3 eexists. split; [reflexivity|]. by eapply answered_after.
  - destruct (build_answered_error c (p_out r) w Hw Hown Ho Hreq (Herr Hret))
      as (s & w' & E' & Ha & _). rewrite (bind_run _ _ _ _ _ E').
    do 3 eexists. split; [reflexivity|done].
Qed.

(** The log stream is there when requests are logged. *)
Definition log_ready : Prop := logging_on g = true → log_ptr g ≠ LogNull.

Lemma open_entry_ok c :
  length (client_addr c) < INET6_ADDRSTRLEN →
  log_ok (open_entry g c) ∧ length (le_buf (open_entry g c)) ≤ INET6_ADDRSTRLEN.
Proof.
  intros Ha. unfold INET6_ADDRSTRLEN in *.
  assert (length (client_addr c ++ B " ") ≤ 46) as Hl.
  { rewrite length_app. change (length (B " ")) with 1. lia. }
  unfold open_entry. destruct (logging_on g); [|split; [apply log_zero_ok|simpl; lia]].
  rewrite log_append_fits; [|apply log_zero_ok|simpl; log_lia]. simpl.
  split; [|done]. split_and!; simpl; [done|log_lia|done].
Qed.

(** The status, the length and the newline fit the 20 bytes the parser leaves. *)
Lemma close_text_length r n :
  length (resp_val_to_status_string r ++ B " " ++ fmt_d (i32 n) ++ [LF]) ≤ 19.
Proof.
  pose proof (i32_range n). rewrite !length_app.
  assert (length (fmt_d (i32 n)) ≤ 12) by (apply (length_fmt_d _ 10); lia).
  assert (length (resp_val_to_status_string r) ≤ 3) by (destruct r; by_eval).
  change (length (B " ")) with 1. simpl. lia.
Qed.

Lemma close_entry_run c le w :
  log_ready → log_ok le → length (le_buf le) + 20 ≤ LOG_BUF_SIZE →
  ∃ w', close_entry g c le w = (Ret (), w')
    ∧ if logging_on g
      then w' = w_emit (EvLog (le_buf le ++ resp_val_to_status_string (resp_val c) ++ B " "
                               ++ fmt_d (i32 (body_len c)) ++ [LF])) w
      else w' = w.
Proof.
  intros Hlog Hle Hroom. unfold close_entry. destruct (logging_on g) eqn:Hon; [|by exists w].
  pose proof (close_text_length (resp_val c) (body_len c)) as Hl.
  rewrite log_append_fits by (done || log_lia).
  unfold do_logging, emit. specialize (Hlog Hon).
  destruct (log_ptr g) eqn:Hp; [done|by eexists..].
Qed.

Definition w_close_ptr (p : fileptr) (w : World) : World :=
  match p with Some f => w_fclose f w | None => w end.

Lemma close_ptr_run rp w :
  ∃ rp', close_resolve_path_ptr rp w = (Ret rp', w_close_ptr (rp_file_ptr rp) w).
Proof.
  unfold close_resolve_path_ptr, w_close_ptr, fclose. run. destruct (rp_file_ptr rp); by eexists.
Qed.

(** The end of the handler: the log and the stream. *)
Lemma answered_finish w c w1 c1 w' c' :
  answered w c w1 c1 → calm w1 w' → w_blocks w' = w_blocks w1 → w_next w1 ≤ w_next w' →
  out_buf c' = out_buf c1 → in_buf c' = in_buf c1 → fd c' = fd c1 →
  output_sent c' = output_sent c1 → output_length c' = output_length c1 →
  header_len c' = header_len c1 → resp_val c' = resp_val c1 → answered w c w' c'.
Proof.
  intros (Hh & Hf & Hs & Hr & Hp) K Hb Hn Eo Ei Ef Es El Ehl Er.
  split; [|split; [congruence|split; [congruence|]]].
  - eapply hands_trans; [exact Hh|]. destruct Hh as (_ & Hown & _).
    apply hands_same; try done. unfold owned. by rewrite Eo, Ei.
  - rewrite Eo. split; [destruct Hr as [Hr|Hr]; [left; by eapply ready_same|by right]|].
    intros Hpl. eapply sendable_same; [done..|]. by apply Hp.
Qed.

Lemma owned_header c n : owned (set_header_len c n) = owned c.
Proof. done. Qed.

Lemma respond_run c buf e t w :
  log_ready → world_ok w → owns w c → receiving c →
  gmtime_iso (e_now (w_env w)) = Some t →
  strnstr buf HEADER_END (header_len c) = Some e → header_len c ≤ MAX_REQUEST_SIZE →
  ∃ c' w', respond g c buf w = (Ret c', w') ∧ answered w c w' c' ∧ state c' = SENDING_HEADER
    ∧ (logging_on g = true →
       ∃ line, length line < LOG_BUF_SIZE ∧ EvLog line ∈ w_trace w').
Proof.
  intros Hlog Hw Hown [Ho Hs Hfp Hi Ha] Ht He Hlen. unfold respond.
  destruct (open_entry_ok c Ha) as [Hle Hle'].
  destruct (parse_request_complete g buf (header_len c) e (resp_val c) (open_entry g c) w t
    He Hlen Ht Hle Hle') as (r & E & Hv & Hd & _ & Hle2 & Hroom & _).
  rewrite (bind_run _ _ _ _ _ E).
  assert (good_request (p_out r)) as Hreq.
  { constructor; rewrite Hd; [by eapply CR_gmtime_iso|].
    apply length_gmtime_iso in Ht. unfold TIME_RECEIVED_LENGTH. lia. }
  assert (p_ret r ≠ 0%Z → is_Some (error_responses (p_resp r))) as Herr.
  { intros Hret. unfold verdict_of in Hv. rewrite decide_False in Hv by done.
    pose proof (classify_range (first_line buf (header_len c))) as Hc. rewrite <-Hv in Hc.
    destruct Hc. by apply error_responses_some. }
  destruct (answer_run (set_resp c (p_resp r)) r w Hw Hown Ho Hreq Herr)
    as (c1 & rp & w1 & E1 & Hans).
  rewrite (bind_run _ _ _ _ _ E1). cbv iota beta.
  destruct (close_entry_run c1 (p_le r) w1 Hlog Hle2 Hroom) as (w2 & E2 & Hw2).
  rewrite (bind_run _ _ _ _ _ E2).
  destruct (close_ptr_run rp w2) as (rp' & E3). rewrite (bind_run _ _ _ _ _ E3).
  do 2 eexists. split; [reflexivity|].
  assert (calm w1 w2 ∧ w_blocks w2 = w_blocks w1 ∧ w_next w2 = w_next w1) as (K2 & Hb2 & Hn2).
  { assert (world_ok w1) by (destruct Hans as [[K _] _]; by eapply calm_ok).
    destruct (logging_on g); rewrite Hw2; auto with server. }
  split; [|split; [done|]].
  - apply (answered_finish w c w1 c1); [exact Hans| |by destruct (rp_file_ptr rp)
      |destruct (rp_file_ptr rp); simpl; lia|done..].
    destruct (rp_file_ptr rp); simpl; auto with server.
  - intros Hon. rewrite Hon in Hw2. set (line := le_buf _ ++ _) in Hw2.
    assert (EvLog line ∈ w_trace w2) as Hin.
    { rewrite Hw2. apply elem_of_app. right. apply list_elem_of_here. }
    exists line. split.
    + unfold line. rewrite length_app.
      pose proof (close_text_length (resp_val c1) (body_len c1)). lia.
    + destruct (rp_file_ptr rp); [|done]. apply elem_of_app. by left.
Qed.

(** A client whose response is being sent. *)
Definition sending (c : Client) : Prop :=
  output_sent c ≤ output_length c
  ∧ ∀ blk, out_buf c = Some blk → output_length c = length (b_data blk).

(** What holds of a client in each state of the event loop. SENDING_BODY is a state
    nothing sets. *)
Definition client_ok (c : Client) : Prop :=
  match state c with
  | READING => reading c
  | SENDING_HEADER => sending c
  | PROCESSING | CLOSING => True
  | SENDING_BODY | NUM_CLIENT_STATE => False
  end.

Lemma ready_sending w c : ready w c → output_sent c = 0 → sending c.
Proof.
  intros (b & out & H1 & _ & H2 & _) Hs. split; [lia|].
  intros blk Hb. rewrite H1 in Hb. by injection Hb as <-.
Qed.

Lemma reading_intro c : receiving c → state c = READING → reading c.
Proof. by intros [] ?. Qed.

(** do_read on any client that is waiting for its request. *)
Lemma read_client_run c p w t :
  log_ready → world_ok w → owns w c → reading c →
  gmtime_iso (e_now (w_env w)) = Some t →
  ∃ c' p' w', read_client g c p w = (Ret (c', p'), w')
    ∧ hands w c w' c' ∧ fd c' = fd c ∧ pfd_fd p' = pfd_fd p ∧ client_ok c' ∧ output_sent c' = 0
    ∧ (state c' = SENDING_HEADER → pfd_events p' = POLLOUT ∧ (plenty w → sendable w' c')).
Proof.
  intros Hlog Hw Hown Hc Ht. unfold read_client, get. run.
  destruct (recv_loop_run (recv_fuel (fd c) w) c w Hc Hw Hown ltac:(unfold recv_fuel; lia))
    as (ret & c1 & w1 & E & [Hh Hrc Hfd _ Hfs Htr Hst _]).
  rewrite E.
  assert (client_ok c1 ∧ state c1 ≠ SENDING_HEADER) as [Hok Hnot].
  { unfold client_ok. destruct ret; destruct Hst as [Hst|Hst]; rewrite Hst; split; try done.
    by apply reading_intro. }
  assert (∃ c' p' w', (Ret (c1, p), w1) = (Ret (c', p'), w') ∧ hands w c w' c'
    ∧ fd c' = fd c ∧ pfd_fd p' = pfd_fd p ∧ client_ok c' ∧ output_sent c' = 0
    ∧ (state c' = SENDING_HEADER → pfd_events p' = POLLOUT ∧ (plenty w → sendable w' c'))) as Hkeep.
  { exists c1, p, w1. split_and!; try done; [apply Hh..|apply Hrc]. }
  destruct ret; [exact Hkeep|].
  destruct (in_buf c1) as [b|] eqn:Hb; [|exact Hkeep].
  case_decide; [exact Hkeep|].
  destruct (strnstr (b_data b) HEADER_END (input_length c1)) as [e|] eqn:He; [|exact Hkeep].
  pose proof Hh as (K1 & Hown1 & _).
  assert (e_now (w_env w1) = e_now (w_env w)) as Hnow by (by destruct K1 as (_ & [_ [[? _] _]] & _)).
  pose proof (strnstr_bound _ _ _ _ He) as Hbound. rewrite length_take in Hbound.
  pose proof (input_bound _ (rc_input _ Hrc)) as Hmax.
  change (length HEADER_END) with 4 in Hbound.
  apply (strnstr_shorter _ _ _ _ (e + 4)) in He; [|simpl; lia|lia].
  destruct (respond_run (set_header_len c1 (e + 4)) (b_data b) e t w1 Hlog)
    as (c2 & w2 & E2 & (Hh2 & Hf2 & Hs2 & Hr2 & Hp2) & Hst2 & _);
    [by eapply calm_ok|done|by destruct Hrc|by rewrite Hnow|done|simpl; lia|].
  rewrite E2. do 3 eexists. split; [reflexivity|].
  assert (hands w c w2 c2) as Hh' by (by eapply hands_trans).
  split; [exact Hh'|]. split; [by rewrite Hf2|]. split; [done|].
  assert (output_sent c2 = 0) as Hs2' by (rewrite Hs2; apply Hrc).
  split.
  - unfold client_ok. rewrite Hst2. destruct Hr2 as [Hr2|[Hr2 _]]; [by eapply ready_sending|].
    split; [lia|]. by rewrite Hr2.
  - split; [done|]. intros _. split; [done|]. intros Hp. apply Hp2. by eapply calm_plenty.
Qed.
End answering.
