(* ===== verification/EndToEnd.v ===== *)
(** * EndToEnd: from the bytes received to the bytes staged

    What do_read makes of a connection, over every part it calls: how requests are
    assembled, a file asked for and answered, and the ways the handler goes
    wrong. *)

From S2P Require Import Prelude CLib Types OS Flags Logging ParseRequest ResolvePath Response.
From S2P Require Import Messages Connections DoRead.

(** ** A request for a file *)

(** The connection [c] is fresh and is sent a well-formed request, with any header
    lines [h], whose path resolves to a file with these attributes and bytes. *)
Record file_request `{External} (g : Globals) (c : Client) (w : World) (m : http_method)
    (v : http_version) (p h : bytes) (st : stat) (data : bytes) (mime : option bytes) : Prop := {
  fr_world : world_ok w;
  fr_owns : owns w c;
  fr_reading : reading c;
  fr_plenty : plenty w;
  fr_fresh : in_buf c = None;
  fr_time : is_Some (gmtime_iso (e_now (w_env w)));
  fr_method : m = HTTP_GET ∨ m = HTTP_HEAD;
  fr_version : v = HTTP_1_0 ∨ v = HTTP_1_1;
  fr_path : path_ok p;
  fr_headers : NUL ∉ h;
  fr_length : length (render_request (method_name m) p (version_name v) h) ≤ MAX_REQUEST_SIZE;
  fr_arrives : arriving (e_recv (w_env w) (fd c))
               = render_request (method_name m) p (version_name v) h;
  fr_resolves : ∃ local q, split_path p = (Some local, q)
    ∧ resolution_of (e_fopen (w_env w)) (has_flag g C_FLAG) local = ServeFile st data mime;
  fr_mtime : is_Some (gmtime_iso (st_mtime st))
}.

(** * Lemmas *)

Section end_to_end.
Context `{External} (g : Globals).
Context (Hmagic : magic_ok).

(** A request for a file that resolves to one is answered with the file. *)
Lemma file_answer c r w local q st data mime mt :
  world_ok w → owns w c → out_buf c = None → good_request (p_out r) → p_ret r = 0%Z → plenty w →
  split_path (path (p_out r)) = (Some local, q) →
  resolution_of (e_fopen (w_env w)) (has_flag g C_FLAG) local = ServeFile st data mime →
  gmtime_iso (st_mtime st) = Some mt →
  ∃ c' rp w' f, answer g c r w = (Ret (c', rp), w')
    ∧ holds w' c' (B "200 OK") (u64 (st_size st)) (if is_head (p_out r) then [] else data)
    ∧ resp_val c' = RESP_200 ∧ answered w c w' c'
    ∧ rp_file_ptr rp = Some f ∧ file_ptr c' = Some f ∧ is_Some (w_files w' !! f).
Proof.
  intros Hw Hown Ho Hreq Hret Hp Hsp Hres Hmt. unfold answer. rewrite decide_True by done.
  destruct (resolve_step g Hmagic c (p_out r) w Hw Hown Ho Hreq)
    as (local' & q' & v & w1 & Hsp' & E & Hr & Hh & He & Ho1 & Hf1 & Hs1 & _ & Hok & _).
  rewrite Hsp in Hsp'. injection Hsp' as <- <-. rewrite Hres in Hr.
  destruct Hr as (Hpt & f & Hv0 & _ & Hcl & Hfp & Hsz & Hm & Hlm & Hf).
  rewrite (bind_run _ _ _ _ _ E). rewrite decide_True by done.
  pose proof Hh as (K & Hown1 & _). pose proof (calm_ok _ _ K) as Hw1.
  pose proof (Hok Hv0) as Hargs.
  assert (plenty w1) as Hp1 by (by eapply calm_plenty).
  destruct (build_answered_okay g (rv_client v) (rv_rp v) (p_out r) w1 Hw1 Hown1 Hargs)
    as (s & w2 & E2 & Ha & Hfp2 & _ & Hdom & _).
  destruct (file_built (set_resp (rv_client v) RESP_200) (rv_rp v) (p_out r) w1 mt f
      (mkStream (Some st) data)) as (c2 & w2' & E2' & _ & _ & Hholds & Hresp & _);
    [done|apply Hargs|by apply Hargs|by rewrite Hlm|done|done|by apply plenty_alloc_ok|].
  destruct (Hholds Hp1) as [Hh2 _]. clear Hholds.
  assert (build_okay_response g (rv_client v) (rv_rp v) (p_out r) w1 = (Ret (0%Z, c2), w2')) as E3.
  { apply okay_run; [by rewrite Hpt|lia]. }
  rewrite E2 in E3. injection E3 as -> ->. rewrite (bind_run _ _ _ _ _ E2).
  exists c2, (rv_rp v), w2', f. split; [done|]. rewrite <-Hsz. split; [exact Hh2|].
  split; [done|]. split; [by eapply answered_after|]. split; [done|]. split.
  - simpl in Hfp2. by rewrite Hfp2, Hcl.
  - apply elem_of_dom. rewrite Hdom. apply elem_of_dom. by eexists.
Qed.

(** A complete GET or HEAD request in the buffer, for such a path. *)
Lemma file_respond c buf e w t m v p local q st data mime mt :
  log_ready g → world_ok w → owns w c → receiving c → plenty w →
  gmtime_iso (e_now (w_env w)) = Some t →
  strnstr buf HEADER_END (header_len c) = Some e → header_len c ≤ MAX_REQUEST_SIZE →
  classify (first_line buf (header_len c)) = Accept m v p →
  split_path p = (Some local, q) →
  resolution_of (e_fopen (w_env w)) (has_flag g C_FLAG) local = ServeFile st data mime →
  gmtime_iso (st_mtime st) = Some mt →
  ∃ c' w' f, respond g c buf w = (Ret c', w')
    ∧ state c' = SENDING_HEADER ∧ resp_val c' = RESP_200
    ∧ holds w' c' (B "200 OK") (u64 (st_size st)) (if decide (m = HTTP_HEAD) then [] else data)
    ∧ file_ptr c' = Some f ∧ w_files w' !! f = None ∧ EvFclose f true ∈ w_trace w'.
Proof.
  intros Hlog Hw Hown [Ho Hs Hfp Hi Ha] Hp Ht He Hlen Hc Hsp Hres Hmt. unfold respond.
  destruct (open_entry_ok g c Ha) as [Hle Hle'].
  destruct (parse_request_complete g buf (header_len c) e (resp_val c) (open_entry g c) w t
    He Hlen Ht Hle Hle') as (r & E & Hv & Hd & _ & Hle2 & Hroom & _).
  rewrite (bind_run _ _ _ _ _ E). rewrite Hc in Hv. unfold verdict_of in Hv.
  case_decide as Hret; [|done]. injection Hv as Hm _ Hpath.
  assert (good_request (p_out r)) as Hreq.
  { constructor; rewrite Hd; [by eapply CR_gmtime_iso|].
    apply length_gmtime_iso in Ht. unfold TIME_RECEIVED_LENGTH. lia. }
  destruct (file_answer (set_resp c (p_resp r)) r w local q st data mime mt)
    as (c1 & rp & w1 & f & E1 & Hh & Hr & Hans & Hrp & Hf & Hopen); try done;
    [by rewrite Hpath|].
  rewrite (bind_run _ _ _ _ _ E1). cbv iota beta.
  destruct (close_entry_run g c1 (p_le r) w1 Hlog Hle2 Hroom) as (w2 & E2 & Hw2).
  rewrite (bind_run _ _ _ _ _ E2).
  destruct (close_ptr_run rp w2) as (rp' & E3). rewrite (bind_run _ _ _ _ _ E3), Hrp.
  do 2 eexists. exists f. split; [reflexivity|].
  assert (w_blocks w2 = w_blocks w1 ∧ w_files w2 = w_files w1) as [Hb2 Hf2]
    by (by destruct (logging_on g); rewrite Hw2).
  split; [done|]. split; [done|]. split.
  - apply (holds_frame w1 c1); try done. unfold is_head in Hh. rewrite Hm in Hh.
    destruct (decide (m = HTTP_HEAD)); [by rewrite bool_decide_true in Hh|].
    by rewrite bool_decide_false in Hh.
  - split; [done|]. simpl. rewrite Hf2. split; [apply lookup_delete_eq|].
    rewrite bool_decide_true by done. apply elem_of_app. right. apply list_elem_of_here.
Qed.

(** The client that has received a whole request and nothing of another. *)
Lemma received_client c w b :
  reading c → world_ok w → owns w c → plenty w → in_buf c = None →
  arriving (e_recv (w_env w) (fd c)) = b → length b ≤ MAX_REQUEST_SIZE →
  ∃ ret c1 w1, recv_loop (recv_fuel (fd c) w) c w = (Ret (ret, c1), w1)
    ∧ drained c w ret c1 w1 ∧ input_data c1 = b ∧ input_length c1 = length b
    ∧ (ret, state c1) = ending (e_recv (w_env w) (fd c)).
Proof.
  intros Hc Hw Hown Hp Hin Hb Hlen.
  destruct (recv_loop_run (recv_fuel (fd c) w) c w Hc Hw Hown ltac:(unfold recv_fuel; lia))
    as (ret & c1 & w1 & E & Hdr).
  exists ret, c1, w1. split; [done|]. split; [done|].
  destruct Hdr as [_ Hrc _ _ _ _ _ Hd]. specialize (Hd Hp). cbv zeta in Hd. rewrite Hb in Hd.
  assert (input_data c = [] ∧ input_length c = 0) as [Hi Hl].
  { destruct (rc_input _ (reading_receiving _ Hc)) as (Hl & _ & _).
    unfold input_data in *. by rewrite Hin in *. }
  rewrite Hl, decide_False in Hd by lia. rewrite Hi in Hd. destruct Hd as (Hd & He & _).
  split_and!; [done| |done]. destruct (rc_input _ Hrc) as (Hl1 & _ & _). by rewrite <-Hl1, Hd.
Qed.

(** A rendered request for a file, received before the loop stops without
    returning. *)
Lemma file_request_run c p0 w m v p h st data mime :
  log_ready g → file_request g c w m v p h st data mime →
  (ending (e_recv (w_env w) (fd c))).1 = false →
  ∃ c' p' w' f, read_client g c p0 w = (Ret (c', p'), w')
    ∧ state c' = SENDING_HEADER ∧ pfd_events p' = POLLOUT ∧ resp_val c' = RESP_200
    ∧ holds w' c' (B "200 OK") (u64 (st_size st)) (if decide (m = HTTP_HEAD) then [] else data)
    ∧ file_ptr c' = Some f ∧ w_files w' !! f = None ∧ EvFclose f true ∈ w_trace w'.
Proof.
  intros Hlog [Hw Hown Hc Hp Hin [t Ht] Hm Hv Hpath Hnh Hlen Harr (local & q & Hsp & Hres) [mt Hmt]] Hend.
  set (b := render_request _ _ _ _) in *.
  destruct (received_client c w b Hc Hw Hown Hp Hin Harr Hlen)
    as (ret & c1 & w1 & E & Hdr & Hdata & Hil & He).
  rewrite <-He in Hend. simpl in Hend. subst ret.
  destruct Hdr as [Hh Hrc _ _ _ _ _ _]. pose proof Hh as (K & Hown1 & _).
  destruct (rendered_request m v p h Hm Hv Hpath Hnh) as (e & Hfound & Hcl & _). fold b in Hfound, Hcl.
  assert (∃ blk, in_buf c1 = Some blk ∧ b_data blk = b) as (blk & Hblk & Hbd).
  { unfold input_data in Hdata. destruct (in_buf c1) as [blk|]; [by exists blk|].
    simpl in Hdata. rewrite <-Hdata in Hfound. done. }
  pose proof (strnstr_bound _ _ _ _ Hfound) as Hbound. rewrite length_take in Hbound.
  change (length HEADER_END) with 4 in Hbound.
  unfold read_client, get. run. rewrite E. cbv iota beta. rewrite Hblk, Hil, Hbd.
  rewrite decide_False by lia. rewrite Hfound.
  assert (e_now (w_env w1) = e_now (w_env w) ∧ e_fopen (w_env w1) = e_fopen (w_env w))
    as [Hnow Hfs] by (by destruct K as (_ & [_ [(? & ? & _) _]] & _)).
  destruct (file_respond (set_header_len c1 (e + 4)) b e w1 t m v p local q st data mime mt)
    as (c2 & w2 & f & E2 & H1 & H2 & H3 & H4 & H5 & H6); try done.
  - by eapply calm_ok.
  - by destruct Hrc.
  - by eapply calm_plenty.
  - by rewrite Hnow.
  - apply (strnstr_shorter _ _ _ _ (e + 4) Hfound); simpl; lia.
  - simpl. lia.
  - simpl. by rewrite (first_line_exact _ _ _ Hfound).
  - by rewrite Hfs.
  - rewrite E2. by exists c2, (mkPollFd (pfd_fd p0) POLLOUT (pfd_revents p0)), w2, f.
Qed.

(** A file is served end to end: when a connection delivers, in any pieces, a
    well-formed GET or HEAD request with any header lines for a path that
    resolves to a file, do_read leaves the connection ready to send, waiting to
    be writable, and in its output buffer a 200 message that announces the file's
    size and holds the file's bytes, or no content for HEAD. *)
Lemma file_request_served c p0 w m v p h st data mime :
  log_ready g → file_request g c w m v p h st data mime →
  ending (e_recv (w_env w) (fd c)) = (false, READING) → (0 ≤ st_size st < 2 ^ 64)%Z →
  ∃ c' p' w', read_client g c p0 w = (Ret (c', p'), w')
    ∧ state c' = SENDING_HEADER ∧ pfd_events p' = POLLOUT ∧ resp_val c' = RESP_200
    ∧ holds w' c' (B "200 OK") (st_size st) (if decide (m = HTTP_HEAD) then [] else data).
Proof.
  intros Hlog Hreq Hend Hsz.
  destruct (file_request_run c p0 w m v p h st data mime)
    as (c' & p' & w' & f & E & H1 & H2 & H3 & H4 & _); try done; [by rewrite Hend|].
  rewrite u64_small in H4 by done. by exists c', p', w'.
Qed.

(** More bytes than the limit: state PROCESSING, code 414, nothing staged. *)
Lemma oversized_run c p w :
  reading c → world_ok w → owns w c → plenty w →
  MAX_REQUEST_SIZE < input_length c + length (arriving (e_recv (w_env w) (fd c))) →
  ∃ c' w', read_client g c p w = (Ret (c', p), w')
    ∧ state c' = PROCESSING ∧ resp_val c' = RESP_414 ∧ out_buf c' = None.
Proof.
  intros Hc Hw Hown Hp Hlen.
  destruct (recv_loop_run (recv_fuel (fd c) w) c w Hc Hw Hown ltac:(unfold recv_fuel; lia))
    as (ret & c' & w' & E & [_ Hrc _ _ _ _ _ Hd]).
  specialize (Hd Hp). cbv zeta in Hd. rewrite decide_True in Hd by done.
  destruct Hd as (-> & Hst & Hr). exists c', w'. unfold read_client, get. run. rewrite E.
  split_and!; try done. apply Hrc.
Qed.
End end_to_end.

(** * Properties *)

Section properties.
Context `{External} (g : Globals).
Context (Hmagic : magic_ok) (Hlog : log_ready g).

(** C37. The stream of a served file is closed twice. do_read closes it through the
    ResolvedPath and leaves the client's copy of the pointer; when the connection
    is closed later, close_conn calls fclose on it again. *)
Theorem served_file_closed_twice c p0 w m v p h st data mime :
  file_request g c w m v p h st data mime →
  ending (e_recv (w_env w) (fd c)) = (false, READING) →
  ∃ c' p' w' f, read_client g c p0 w = (Ret (c', p'), w')
    ∧ EvFclose f true ∈ w_trace w'
    ∧ ∀ nl i tb, table_ok nl tb → nl ≤ i < fd_count tb → clients tb !! i = Some c' →
      ∃ tb' w'', close_conn i tb w' = (Ret tb', w'') ∧ EvFclose f false ∈ w_trace w''.
Proof.
  intros Hreq Hend.
  destruct (file_request_run g Hmagic c p0 w m v p h st data mime)
    as (c' & p' & w' & f & E & _ & _ & _ & _ & Hf & Hclosed & Hev); try done; [by rewrite Hend|].
  exists c', p', w', f. split; [done|]. split; [done|]. intros nl i tb Htb Hi Hci.
  destruct (close_conn_run nl i tb c' w' Htb Hi Hci) as (tb' & E' & _).
  exists tb', (w_closed c' w'). split; [done|]. unfold w_closed. rewrite Hf.
  assert (EvFclose f false ∈ w_trace (w_fclose f (w_emit (EvClose (fd c')) w'))) as Hin'.
  { simpl. rewrite Hclosed, bool_decide_false by (by intros []).
    apply elem_of_app. right. apply list_elem_of_here. }
  destruct (in_buf c'), (out_buf c'); simpl in *; rewrite ?elem_of_app in *; tauto.
Qed.

(** A receive error after a complete request is forgotten: the loop sets
    CLOSING, but the request in the buffer is answered all the same and the
    connection goes on to send. *)
Theorem recv_error_overridden c p0 w m v p h st data mime :
  file_request g c w m v p h st data mime →
  ending (e_recv (w_env w) (fd c)) = (false, CLOSING) →
  ∃ c1 w1 c' p' w', recv_loop (recv_fuel (fd c) w) c w = (Ret (false, c1), w1)
    ∧ state c1 = CLOSING
    ∧ read_client g c p0 w = (Ret (c', p'), w') ∧ state c' = SENDING_HEADER.
Proof.
  intros Hreq Hend. pose proof Hreq as [Hw Hown Hc Hp Hin _ _ _ _ _ Hlen Harr _ _].
  destruct (received_client c w _ Hc Hw Hown Hp Hin Harr Hlen)
    as (ret & c1 & w1 & E1 & _ & _ & _ & He).
  rewrite Hend in He. injection He as -> Hst1.
  destruct (file_request_run g Hmagic c p0 w m v p h st data mime)
    as (c' & p' & w' & f & E & H1 & _); try done; [by rewrite Hend|].
  by exists c1, w1, c', p', w'.
Qed.

(** A request is assembled from its pieces. However the bytes are cut into
    receive results, and whatever interruptions come between them, the loop ends;
    as long as the bytes fit the limit the input is what was there followed by
    all of them in order, and how the client is left depends only on what ended
    the sequence. *)
Theorem request_assembled c w :
  reading c → world_ok w → owns w c → plenty w →
  let q := e_recv (w_env w) (fd c) in
  input_length c + length (arriving q) ≤ MAX_REQUEST_SIZE →
  ∃ ret c' w', recv_loop (recv_fuel (fd c) w) c w = (Ret (ret, c'), w')
    ∧ input_data c' = input_data c ++ arriving q ∧ input_ok c'
    ∧ (ret, state c') = ending q.
Proof.
  intros Hc Hw Hown Hp q Hlen.
  destruct (recv_loop_run (recv_fuel (fd c) w) c w Hc Hw Hown ltac:(unfold recv_fuel; lia))
    as (ret & c' & w' & E & [_ Hrc _ _ _ _ _ Hd]).
  specialize (Hd Hp). cbv zeta in Hd. rewrite decide_False in Hd by (fold q; lia).
  exists ret, c', w'. split_and!; [done|apply Hd|apply Hrc|apply Hd].
Qed.

(** A client that stops sending is dropped, even when its request is complete:
    if the end of the stream arrives in the same round, the connection is closed
    without an answer. *)
Theorem request_with_eof_dropped c p w :
  reading c → world_ok w → owns w c → plenty w →
  let q := e_recv (w_env w) (fd c) in
  input_length c + length (arriving q) ≤ MAX_REQUEST_SIZE → ending q = (true, CLOSING) →
  ∃ c' w', read_client g c p w = (Ret (c', p), w')
    ∧ state c' = CLOSING ∧ out_buf c' = None ∧ input_data c' = input_data c ++ arriving q.
Proof.
  intros Hc Hw Hown Hp q Hlen Hend.
  destruct (recv_loop_run (recv_fuel (fd c) w) c w Hc Hw Hown ltac:(unfold recv_fuel; lia))
    as (ret & c' & w' & E & [_ Hrc _ _ _ _ _ Hd]).
  specialize (Hd Hp). cbv zeta in Hd. rewrite decide_False in Hd by (fold q; lia).
  destruct Hd as (Hdat & Hst & _). fold q in Hst. rewrite Hend in Hst. injection Hst as -> Hst.
  exists c', w'. unfold read_client, get. run. rewrite E. split_and!; try done. apply Hrc.
Qed.

(** C19. do_read keeps every invariant. On any client that waits for its request, in
    any environment, it returns without crashing; the client is left in a state
    the event loop knows how to go on with, its blocks and those of the others
    are live and separate, no block is freed twice, and a response that is
    announced is a whole message unless memory ran out. *)
Theorem do_read_safe nl i tb p c w t :
  table_ok nl tb → heap_ok nl tb w → world_ok w → nl ≤ i → active tb !! i = Some (p, c) →
  reading c → gmtime_iso (e_now (w_env w)) = Some t →
  ∃ p' c' w', do_read g i tb w = (Ret (set_entry i p' c' tb), w')
    ∧ table_ok nl (set_entry i p' c' tb) ∧ heap_ok nl (set_entry i p' c' tb) w'
    ∧ client_ok c' ∧ fd c' = fd c
    ∧ (∃ evs, extends w w' evs ∧ Forall free_live evs)
    ∧ (state c' = SENDING_HEADER → pfd_events p' = POLLOUT ∧ (plenty w → sendable w' c')).
Proof.
  intros Htb Hh Hw Hi Ha Hc Ht.
  assert (i < fd_count tb) as Hlt.
  { rewrite <-(length_active nl) by done. by eapply lookup_lt_Some. }
  assert (pfds tb !! i = Some p ∧ clients tb !! i = Some c) as [Hpi Hci].
  { rewrite active_lookup in Ha by done.
    destruct (pfds tb !! i), (clients tb !! i); simpl in Ha; naive_solver. }
  destruct (read_client_run g Hmagic c p w t Hlog Hw (heap_entry_owns _ _ _ _ _ _ Hi Ha Hh) Hc Ht)
    as (c' & p' & w' & E & Hhands & Hfd & Hpfd & Hok & _ & Hsend).
  exists p', c', w'. unfold do_read. rewrite Hci, Hpi, (bind_run _ _ _ _ _ E).
  split; [done|]. split; [apply set_entry_ok; [done|done|]|].
  - rewrite Hpfd, Hfd. destruct Htb as [_ _ _ _ _ Hsync].
    rewrite <-(conns_lookup nl) in Ha by done. rewrite Forall_lookup in Hsync.
    exact (Hsync _ _ Ha).
  - split; [by eapply heap_hands|]. destruct Hhands as ((_ & _ & evs & Hx & Hl) & _).
    split_and!; try done. by exists evs.
Qed.
End properties.

(** * Witnesses *)

(** A request in three pieces, with an interruption, and the ways it can end. *)
Definition sample_request : bytes :=
  render_request (B "GET") (B "/a.html") (B "HTTP/1.0") (B "Host: x").
Definition request_queue (tail : list recv_result) : list recv_result :=
  [RecvData (take 9 sample_request); RecvErr EINTR; RecvData (take 20 (drop 9 sample_request));
   RecvData (drop 29 sample_request)] ++ tail.
Definition read_env (q : list recv_result) : Environment := e_set_recv 5 q sample_env.
Definition read_world (q : list recv_result) : World := mkWorld (read_env q) 3 ∅ {[0; 1; 2]} [].

Lemma read_world_ok q : world_ok (read_world q).
Proof.
  constructor; simpl; [intros f Hf; rewrite lookup_empty in Hf; by destruct Hf|].
  intros b Hb. assert (b = 0 ∨ b = 1 ∨ b = 2) by set_solver. lia.
Qed.
Lemma conn_b_reading : reading conn_b.
Proof. constructor; try done; [|by_eval]. split_and!; [done|done|by left]. Qed.
Lemma conn_b_owns w : owns w conn_b.
Proof. split; constructor. Qed.
Lemma read_world_plenty q : plenty (read_world q).
Proof. constructor. Qed.
Lemma sample_magic_ok : magic_ok.
Proof. intros d m [= <-]. by_eval. Qed.
Lemma quiet_log_ready : log_ready globals_init.
Proof. intros H. vm_compute in H. discriminate. Qed.

Lemma sample_file_request tail :
  arriving (request_queue tail) = sample_request →
  file_request globals_init conn_b (read_world (request_queue tail)) HTTP_GET HTTP_1_0
    (B "/a.html") (B "Host: x") (mkStat false 5 0) (B "hello") (Some (B "text/html")).
Proof.
  intros Ha. constructor.
  - apply read_world_ok.
  - apply conn_b_owns.
  - apply conn_b_reading.
  - apply read_world_plenty.
  - done.
  - eexists. vm_compute. reflexivity.
  - by left.
  - by left.
  - by_eval.
  - by_eval.
  - by_eval.
  - exact Ha.
  - exists (B "./a.html"), None. split; vm_compute; reflexivity.
  - eexists. vm_compute. reflexivity.
Qed.

Lemma served_file_closed_twice_witness :
  ∃ c' p' w' f, read_client globals_init conn_b (mkPollFd 5 POLLIN POLLIN)
      (read_world (request_queue [])) = (Ret (c', p'), w') ∧ EvFclose f true ∈ w_trace w'.
Proof.
  destruct (served_file_closed_twice globals_init sample_magic_ok quiet_log_ready conn_b
    (mkPollFd 5 POLLIN POLLIN) (read_world (request_queue [])) HTTP_GET HTTP_1_0 (B "/a.html")
    (B "Host: x") (mkStat false 5 0) (B "hello") (Some (B "text/html")))
    as (c' & p' & w' & f & H1 & H2 & _);
    [apply sample_file_request; vm_compute; reflexivity|vm_compute; reflexivity|].
  exists c', p', w', f. split; [exact H1|exact H2].
Defined.

Lemma recv_error_overridden_witness :
  ∃ c' p' w', read_client globals_init conn_b (mkPollFd 5 POLLIN POLLIN)
      (read_world (request_queue [RecvErr EOTHER])) = (Ret (c', p'), w')
    ∧ state c' = SENDING_HEADER.
Proof.
  destruct (recv_error_overridden globals_init sample_magic_ok quiet_log_ready conn_b
    (mkPollFd 5 POLLIN POLLIN) (read_world (request_queue [RecvErr EOTHER])) HTTP_GET HTTP_1_0
    (B "/a.html") (B "Host: x") (mkStat false 5 0) (B "hello") (Some (B "text/html")))
    as (_ & _ & c' & p' & w' & _ & _ & H1 & H2);
    [apply sample_file_request; vm_compute; reflexivity|vm_compute; reflexivity|].
  exists c', p', w'. split; [exact H1|exact H2].
Defined.

Lemma request_assembled_witness :
  ∃ ret c' w', recv_loop (recv_fuel (fd conn_b) (read_world (request_queue []))) conn_b
      (read_world (request_queue [])) = (Ret (ret, c'), w')
    ∧ input_data c' = sample_request.
Proof.
  destruct (request_assembled conn_b (read_world (request_queue [])) conn_b_reading
    (read_world_ok _) (conn_b_owns _) (read_world_plenty _)) as (ret & c' & w' & H1 & H2 & _);
    [by_eval|].
  exists ret, c', w'. split; [exact H1|]. rewrite H2. vm_compute. reflexivity.
Defined.

Lemma request_with_eof_dropped_witness :
  ∃ c' w', read_client globals_init conn_b (mkPollFd 5 POLLIN POLLIN)
      (read_world (request_queue [RecvData []])) = (Ret (c', mkPollFd 5 POLLIN POLLIN), w')
    ∧ state c' = CLOSING ∧ out_buf c' = None.
Proof.
  destruct (request_with_eof_dropped globals_init conn_b (mkPollFd 5 POLLIN POLLIN)
    (read_world (request_queue [RecvData []])) conn_b_reading
    (read_world_ok _) (conn_b_owns _) (read_world_plenty _)) as (c' & w' & H1 & H2 & H3 & _);
    [by_eval|vm_compute; reflexivity|].
  exists c', w'. split; [exact H1|split; [exact H2|exact H3]].
Defined.

Lemma do_read_safe_witness :
  ∃ p' c' w', do_read globals_init 2 sample_table (read_world (request_queue []))
      = (Ret (set_entry 2 p' c' sample_table), w') ∧ client_ok c'.
Proof.
  destruct (do_read_safe globals_init sample_magic_ok quiet_log_ready 1 2 sample_table
    (mkPollFd 5 POLLIN 0) conn_b (read_world (request_queue [])) (B "2024-11-18T22:06:07Z"))
    as (p' & c' & w' & H1 & _ & _ & H2 & _);
    [exact sample_table_ok|exact sample_heap_ok|apply read_world_ok|lia|reflexivity
    |exact conn_b_reading|vm_compute; reflexivity|].
  exists p', c', w'. split; [exact H1|exact H2].
Defined.
