(* ===== verification/DoWrite.v ===== *)
(** * DoWrite: sending a response (client_conn/do_write.c)

    The loop that sends the output buffer, the shutdown that follows, and the
    theorems that it sends exactly that buffer. *)

From S2P Require Import Prelude CLib Types OS Flags Logging ParseRequest ResolvePath Response.
From S2P Require Import Messages Connections DoRead.

(** The loop over [send]. The bytes passed lie in the output buffer; reading past
    it is a crash. A result that is not positive ends the process: the code that
    tells EAGAIN and EINTR apart comes after the exit and is never reached. *)
Fixpoint send_loop (fuel : nat) (c : Client) (buf : bytes) : M Client :=
  match fuel with
  | 0 => no_fuel
  | S fuel' =>
      if decide (output_sent c < output_length c) then
        if decide (length buf < output_length c) then crash
        else
          r ← send (fd c) (take (output_length c - output_sent c) (drop (output_sent c) buf));
          match r with
          | SendN 0 | SendErr _ => exit EXIT_FAILURE
          | SendN n => send_loop fuel' (set_sent c (output_sent c + n)) buf
          end
      else mret c
  end.

(** Fuel for the loop: each turn sends a byte. *)
Definition send_fuel (c : Client) : nat := S (output_length c - output_sent c).

Definition write_client (c : Client) : M Client :=
  match out_buf c with
  | None => mret (set_state c CLOSING)
  | Some b =>
      if decide (output_length c = 0) then mret (set_state c CLOSING)
      else
        c ← send_loop (send_fuel c) c (b_data b);
        _ ← shutdown_wr (fd c);
        mret (set_state c CLOSING)
  end.

Definition do_write (i : nat) (t : Table) : M Table :=
  match clients t !! i with
  | Some c => c ← write_client c; mret (set_client i c t)
  | None => crash
  end.

(** * Lemmas *)

(** What was sent on a descriptor, in order. *)
Definition sent_bytes (fd : Z) (evs : list event) : bytes :=
  evs ≫= λ ev, match ev with EvSend x d => if decide (x = fd) then d else [] | _ => [] end.

(** A queue of results that never refuses. *)
Definition accepting (q : list send_result) : Prop :=
  Forall (λ r, match r with SendN n => 0 < n | SendErr _ => False end) q.

#[export] Instance accepting_dec q : Decision (accepting q).
Proof.
  unfold accepting. apply Forall_dec. intros [n|e]; apply _.
Defined.

Lemma sent_bytes_app fd e1 e2 : sent_bytes fd (e1 ++ e2) = sent_bytes fd e1 ++ sent_bytes fd e2.
Proof. apply bind_app. Qed.

(** A step of the loop: it only talks to the socket. *)
Definition sends (w w' : World) (fd : Z) (d : bytes) : Prop :=
  calm w w' ∧ w_blocks w' = w_blocks w ∧ w_files w' = w_files w ∧ w_next w' = w_next w
  ∧ ∃ evs, extends w w' evs ∧ sent_bytes fd evs = d ∧ closed_fds evs = [].

Lemma sends_refl w fd : world_ok w → sends w w fd [].
Proof.
  intros Hw. split_and!; auto with server. exists []. split; [by apply extends_nil|done].
Qed.

Lemma sends_trans w1 w2 w3 fd d1 d2 :
  sends w1 w2 fd d1 → sends w2 w3 fd d2 → sends w1 w3 fd (d1 ++ d2).
Proof.
  intros (K1 & B1 & F1 & N1 & e1 & X1 & S1 & C1) (K2 & B2 & F2 & N2 & e2 & X2 & S2 & C2).
  split; [by eapply calm_trans|]. split_and!; [congruence..|].
  exists (e1 ++ e2). split; [by eapply extends_trans|]. by rewrite sent_bytes_app, closed_fds_app, S1, S2, C1, C2.
Qed.

(** One call of send. *)
Lemma send_run fd d w :
  world_ok w →
  safe (¬ accepting (e_send (w_env w) fd)) w (send fd d w) (λ r w',
    match r with
    | SendN n => n ≤ length d ∧ sends w w' fd (take n d)
                 ∧ (accepting (e_send (w_env w) fd) → d ≠ [] →
                    0 < n ∧ accepting (e_send (w_env w') fd))
    | SendErr _ => ¬ accepting (e_send (w_env w) fd)
    end).
Proof.
  intros Hw. unfold send.
  assert (∀ n w1, calm w w1 → w_blocks w1 = w_blocks w → w_files w1 = w_files w →
    w_next w1 = w_next w → w_trace w1 = w_trace w →
    sends w (w_emit (EvSend fd (take n d)) w1) fd (take n d)) as Hsends.
  { intros n w1 K B F N T. split; [auto with server|]. split_and!; try done.
    exists [EvSend fd (take n d)]. split; [unfold extends; simpl; by rewrite T|].
    split; [|done].
    simpl. rewrite decide_True by done. apply app_nil_r. }
  destruct (e_send (w_env w) fd) as [|[n|e] q] eqn:Hq.
  - split; [auto with server|]. split; [done|]. split.
    + rewrite <-(take_ge d (length d)) at 1 by done. apply Hsends; auto with server.
    + intros _ Hd. split; [destruct d; [done|simpl; lia]|]. simpl. rewrite Hq. constructor.
  - set (w1 := w_set_env (e_set_send fd q (w_env w)) w).
    assert (calm w w1) as K by (apply calm_set_env; [done|by eapply same_send|auto with server]).
    split; [auto with server|]. split; [lia|]. split.
    + assert (take (n `min` length d) d = take n d) as ->.
      { destruct (decide (n ≤ length d)); [by rewrite Nat.min_l|].
        rewrite Nat.min_r by lia. rewrite (take_ge d (length d)), (take_ge d n) by lia. done. }
      by apply Hsends.
    + intros Ha Hd. apply Forall_cons in Ha as [Hn Ha].
      split; [destruct d; [done|simpl; lia]|]. simpl. by rewrite decide_True.
  - assert (calm w (w_set_env (e_set_send fd q (w_env w)) w)) as K
      by (apply calm_set_env; [done|by eapply same_send|auto with server]).
    assert (¬ accepting (SendErr e :: q)) as Hn by (by intros [? _]%Forall_cons).
    case_decide as He; [|by split]. split_and!; [done| |done]. right. split; [done|].
    exists fd. rewrite Hq, He. by left.
Qed.

(** The loop sends what is left, all of it unless the process exits. *)
Lemma send_loop_run fuel c buf w :
  world_ok w → output_length c - output_sent c < fuel → output_sent c ≤ output_length c →
  output_length c = length buf →
  safe (¬ accepting (e_send (w_env w) (fd c))) w (send_loop fuel c buf w)
    (λ c' w', c' = set_sent c (output_length c)
              ∧ sends w w' (fd c) (drop (output_sent c) buf)).
Proof.
  revert c w. induction fuel as [|fuel IH]; intros c w Hw Hf Hs Hl; [lia|].
  cbn [send_loop]. case_decide as Hlt.
  - rewrite decide_False by lia.
    rewrite (take_ge (drop _ _)) by (rewrite length_drop; lia).
    set (d := drop (output_sent c) buf).
    assert (d ≠ []) as Hd.
    { intros E. apply (f_equal length) in E. unfold d in E. rewrite length_drop in E. simpl in E. lia. }
    pose proof (send_run (fd c) d w Hw) as Hr. run.
    destruct (send (fd c) d w) as [[[[|n]|e]|code| |] w1]; cbn [safe] in Hr; [| | | |done..].
    + destruct Hr as (_ & _ & (K & _) & Ha). split; [done|]. split; [done|].
      intros Hacc. destruct (Ha Hacc Hd). lia.
    + destruct Hr as (_ & Hn & Hsd & Ha). pose proof Hsd as (K & _).
      assert (length d = output_length c - output_sent c) as Hld
        by (unfold d; rewrite length_drop; lia).
      eapply (safe_weaken _ _ w w1); [done| | |apply (IH (set_sent c (output_sent c + S n)) w1)].
      * intros Hnot Hacc. apply Hnot. by apply Ha.
      * intros c' w' _ [-> Hsd']. split; [done|].
        rewrite <-(take_drop (S n) d). unfold d at 2. rewrite drop_drop.
        by eapply sends_trans.
      * by eapply calm_ok.
      * simpl. lia.
      * simpl. lia.
      * done.
    + destruct Hr as [K Hnot]. split; [done|]. by split.
    + exact Hr.
  - split; [auto with server|]. assert (output_sent c = output_length c) as E by lia. split.
    + destruct c. simpl in *. by subst.
    + rewrite drop_ge by lia. by apply sends_refl.
Qed.

Lemma write_client_run c w :
  world_ok w → sending c →
  safe (¬ accepting (e_send (w_env w) (fd c))) w (write_client c w) (λ c' w',
    state c' = CLOSING ∧ fd c' = fd c ∧ owned c' = owned c
    ∧ sends w w' (fd c) (drop (output_sent c) (from_option b_data [] (out_buf c)))).
Proof.
  intros Hw [Hs Hl]. unfold write_client. destruct (out_buf c) as [b|] eqn:Hb.
  2:{ split; [auto with server|]. simpl. rewrite drop_nil. split_and!; try done.
      by apply sends_refl. }
  specialize (Hl b eq_refl). case_decide as Hz.
  - split; [auto with server|]. split_and!; try done. simpl. rewrite drop_ge by lia.
    by apply sends_refl.
  - eapply safe_bind; [apply send_loop_run; try done; unfold send_fuel; lia|].
    intros c' w' K [-> Hsd]. unfold shutdown_wr, emit. run.
    split; [auto with server|]. split_and!; try done.
    simpl. rewrite <-(app_nil_r (drop _ _)). eapply sends_trans; [exact Hsd|].
    split; [apply calm_emit; [done|apply calm_refl; by eapply calm_ok]|]. split_and!; try done.
    exists [EvShutdown (fd c)]. by split.
Qed.

(** * Properties *)

(** C23. do_write sends the response and nothing else. Whatever sizes the socket
    takes at a time, when it takes something each time the bytes sent on the
    connection are exactly the part of the output buffer not sent yet, in order;
    the connection is then to be closed. When the process exits instead, the
    socket refused a send. *)
Theorem do_write_sends c w :
  world_ok w → sending c → accepting (e_send (w_env w) (fd c)) →
  ∃ c' w' evs, write_client c w = (Ret c', w') ∧ state c' = CLOSING
    ∧ extends w w' evs
    ∧ sent_bytes (fd c) evs = drop (output_sent c) (from_option b_data [] (out_buf c)).
Proof.
  intros Hw Hs Ha.
  destruct (safe_total _ _ _ _ (λ H, H Ha) (write_client_run c w Hw Hs))
    as (c' & w' & E & _ & Hst & _ & _ & (_ & _ & _ & _ & evs & Hx & Hd & _)).
  by exists c', w', evs.
Qed.

(** C35. One refused send ends the server. If the socket is not ready, or the call
    is interrupted or fails in any other way, at the first byte still to be sent,
    do_write calls exit(EXIT_FAILURE), whatever other connections are open; the
    checks for EAGAIN and EINTR are not reached. If the peer has gone, it is the
    signal of send, SIGPIPE, that ends the process, before send returns. Nothing is
    sent in either case. *)
Theorem do_write_exits_on_refusal c b w e q :
  out_buf c = Some b → output_length c = length (b_data b) → output_sent c < output_length c →
  e_send (w_env w) (fd c) = SendErr e :: q →
  ∃ w', write_client c w
        = (Exit (if decide (e = EPIPE) then SIGPIPE_STATUS else EXIT_FAILURE), w')
    ∧ w_trace w' = w_trace w.
Proof.
  intros Hb Hl Hs Hq. unfold write_client. rewrite Hb, decide_False by lia.
  unfold send_fuel. cbn [send_loop]. rewrite decide_True, decide_False by lia.
  unfold send. run. rewrite Hq. case_decide; by eexists.
Qed.

(** * Witnesses *)

Definition sending_client : Client :=
  set_state (set_out (fresh_client 4 blank_client) (Some (Block 2 (B "HTTP/1.0 200 OK"))) 15)
    SENDING_HEADER.
Definition send_world (q : list send_result) : World :=
  mkWorld (e_set_send 4 q quiet_env) 3 ∅ {[0; 1; 2]} [].

Lemma send_world_ok q : world_ok (send_world q).
Proof.
  constructor; simpl; [intros f Hf; rewrite lookup_empty in Hf; by destruct Hf|].
  intros b Hb. assert (b = 0 ∨ b = 1 ∨ b = 2) by set_solver. lia.
Qed.

Lemma do_write_sends_witness :
  ∃ c' w' evs, write_client sending_client (send_world [SendN 4; SendN 1]) = (Ret c', w')
    ∧ state c' = CLOSING ∧ sent_bytes 4 evs = B "HTTP/1.0 200 OK".
Proof.
  destruct (do_write_sends sending_client (send_world [SendN 4; SendN 1]))
    as (c' & w' & evs & H1 & H2 & _ & H3);
    [apply send_world_ok|split; [vm_compute; lia|intros b [= <-]; reflexivity]|by_eval|].
  exists c', w', evs. split; [exact H1|split; [exact H2|exact H3]].
Defined.

Lemma do_write_exits_on_refusal_witness :
  (∃ w', write_client sending_client (send_world [SendErr EAGAIN]) = (Exit EXIT_FAILURE, w'))
  ∧ ∃ w', write_client sending_client (send_world [SendErr EPIPE]) = (Exit SIGPIPE_STATUS, w').
Proof.
  split.
  - destruct (do_write_exits_on_refusal sending_client (Block 2 (B "HTTP/1.0 200 OK"))
      (send_world [SendErr EAGAIN]) EAGAIN []) as (w' & H1 & _);
      [reflexivity|reflexivity|vm_compute; lia|reflexivity|].
    exists w'. exact H1.
  - destruct (do_write_exits_on_refusal sending_client (Block 2 (B "HTTP/1.0 200 OK"))
      (send_world [SendErr EPIPE]) EPIPE []) as (w' & H1 & _);
      [reflexivity|reflexivity|vm_compute; lia|reflexivity|].
    exists w'. exact H1.
Defined.
