(* ===== verification/Sockets.v ===== *)
(** * Sockets: the listening sockets (sockets/get_listener_v4.c,
    sockets/get_listener_v6.c)

    Creating, binding and listening on the two sockets, from the configuration
    setFlags leaves. *)

From S2P Require Import Prelude CLib Types OS Flags.

(** What the socket calls answer for one listener: the descriptor of socket(2)
    ([None]: it failed), and whether fcntl(2), bind(2), getsockname(2) and
    listen(2) succeed. *)
Record socket_calls := mkCalls {
  sc_socket : option Z;
  sc_fcntl_ok : bool;
  sc_bind_ok : bool;
  sc_name_ok : bool;
  sc_listen_ok : bool
}.

(** The port field of the address: [htons(port_addr)], which keeps 16 bits. *)
Definition sin_port (g : Globals) : Z := u16 (port_addr g).

(** From the address on, the two functions are alike; [None] is the wildcard
    address. *)
Definition bind_and_listen (s : socket_calls) (fd : Z) (v6 : bool) (addr : option bytes)
    (port : Z) : M Z :=
  _ ← emit (EvBind fd v6 addr port);
  if negb (sc_bind_ok s) then exit EXIT_FAILURE
  else if negb (sc_name_ok s) then exit EXIT_FAILURE
  else if negb (sc_listen_ok s) then exit EXIT_FAILURE
  else _ ← emit (EvListen fd); mret fd.

Definition get_listener_v4 `{External} (s : socket_calls) (g : Globals) : M Z :=
  match sc_socket s with
  | None => exit EXIT_FAILURE
  | Some fd =>
      if negb (sc_fcntl_ok s) then exit EXIT_FAILURE
      else if has_flag g B4_FLAG then
        match bind_addr4 g with
        | None => crash
        | Some a =>
            match inet_pton4 a with
            | None => mret (-1)%Z
            | Some addr => bind_and_listen s fd false (Some addr) (sin_port g)
            end
        end
      else bind_and_listen s fd false None (sin_port g)
  end.

Definition get_listener_v6 `{External} (s : socket_calls) (g : Globals) : M Z :=
  match sc_socket s with
  | None => exit EXIT_FAILURE
  | Some fd =>
      if negb (sc_fcntl_ok s) then exit EXIT_FAILURE
      else if has_flag g B6_FLAG then
        match bind_addr6 g with
        | None => crash
        | Some a =>
            match inet_pton6 a with
            | None => mret (-1)%Z
            | Some addr => bind_and_listen s fd true (Some addr) (sin_port g)
            end
        end
      else bind_and_listen s fd true None (sin_port g)
  end.

(** * Lemmas *)

(** The address a flag and its argument stand for. *)
Definition chosen (on : bool) (a : option bytes) (pton : bytes → option bytes) : option bytes :=
  if on then a ≫= pton else None.

(** What a listener leaves: bound to its address and listening. *)
Definition listens (w : World) (s : socket_calls) (v6 : bool) (addr : option bytes) (port : Z)
    (fd : Z) (w' : World) : Prop :=
  sc_socket s = Some fd ∧ w' = w_emit (EvListen fd) (w_emit (EvBind fd v6 addr port) w).

Lemma bind_and_listen_run w s fd v6 addr port :
  world_ok w → sc_socket s = Some fd →
  safe (sc_bind_ok s && sc_name_ok s && sc_listen_ok s = false) w
    (bind_and_listen s fd v6 addr port w) (listens w s v6 addr port).
Proof.
  intros Hw Hs. unfold bind_and_listen, emit. run.
  destruct (sc_bind_ok s), (sc_name_ok s), (sc_listen_ok s); simpl; auto 10 with server.
  split; [auto with server|done].
Qed.

Section listeners.
Context `{External} (g : Globals).

(** All the calls succeed. *)
Definition calls_ok (s : socket_calls) : bool :=
  bool_decide (is_Some (sc_socket s)) && sc_fcntl_ok s && sc_bind_ok s && sc_name_ok s
  && sc_listen_ok s.

Lemma listener_v4_run s w :
  world_ok w → globals_ok g w →
  safe (calls_ok s = false) w (get_listener_v4 s g w)
    (listens w s false (chosen (has_flag g B4_FLAG) (bind_addr4 g) inet_pton4) (sin_port g)).
Proof.
  intros Hw [_ _ H4 _ _ _]. unfold get_listener_v4, calls_ok, chosen.
  destruct (sc_socket s) as [fd|] eqn:Hs; [|split; [auto with server|done]].
  rewrite bool_decide_true by eauto.
  destruct (sc_fcntl_ok s); [|split; [auto with server|done]]. cbn [negb andb].
  destruct (has_flag g B4_FLAG).
  - destruct (H4 eq_refl) as (a & -> & addr & Ha). simpl. rewrite Ha.
    by apply bind_and_listen_run.
  - by apply bind_and_listen_run.
Qed.

Lemma listener_v6_run s w :
  world_ok w → globals_ok g w →
  safe (calls_ok s = false) w (get_listener_v6 s g w)
    (listens w s true (chosen (has_flag g B6_FLAG) (bind_addr6 g) inet_pton6) (sin_port g)).
Proof.
  intros Hw [_ _ _ H6 _ _]. unfold get_listener_v6, calls_ok, chosen.
  destruct (sc_socket s) as [fd|] eqn:Hs; [|split; [auto with server|done]].
  rewrite bool_decide_true by eauto.
  destruct (sc_fcntl_ok s); [|split; [auto with server|done]]. cbn [negb andb].
  destruct (has_flag g B6_FLAG).
  - destruct (H6 eq_refl) as (a & -> & addr & Ha). simpl. rewrite Ha.
    by apply bind_and_listen_run.
  - by apply bind_and_listen_run.
Qed.

End listeners.

(** * Properties *)

(** C38. The privileged-port check can be walked around. With any port from 65537 to
    66560, which setFlags accepts from every user, the listener is bound to that
    port less 65536, one of the ports setFlags refuses to other users than
    root. *)
Theorem privileged_port_reached `{External} prog port s fd w :
  (65536 < port ≤ 65536 + 1024)%Z → world_ok w → calls_ok s = true → sc_socket s = Some fd →
  e_euid (w_env w) ≠ 0%Z →
  ∃ g' w', setFlags [prog; B "-p"; fmt_d port] w = (Ret g', w)
    ∧ get_listener_v4 s g' w = (Ret fd, w')
    ∧ EvBind fd false None (port - 65536) ∈ w_trace w'
    ∧ (∃ w'', setFlags [prog; B "-p"; fmt_d (port - 65536)] w = (Exit EXIT_FAILURE, w'')).
Proof.
  intros Hp Hw Hc Hs He.
  assert (Z.eqb (e_euid (w_env w)) 0 = false) as Hroot by (by apply Z.eqb_neq).
  set (g' := mkGlobals 0 port None None None None LogNull).
  assert (globals_ok g' w) as Hg by (constructor; try done; simpl; lia).
  assert (¬ calls_ok s = false) as Hok by (by rewrite Hc).
  destruct (safe_total _ _ _ _ Hok (listener_v4_run g' s w Hw Hg))
    as (fd' & w' & E & _ & Hfd & ->).
  rewrite Hs in Hfd. injection Hfd as <-.
  exists g'. eexists. rewrite !setFlags_port_run by lia. rewrite Hroot.
  rewrite (proj2 (Z.leb_gt port 1024)), (proj2 (Z.leb_le (port - 65536) 1024)) by lia. cbn [andb negb].
  split; [done|]. split; [exact E|]. split; [|by eexists].
  assert (sin_port g' = port - 65536)%Z as ->.
  { unfold sin_port, u16. cbn [port_addr]. change (2 ^ 16)%Z with 65536%Z. simpl.
    rewrite <-(Z.mod_unique port 65536 1 (port - 65536)); lia. }
  apply elem_of_app. left. apply elem_of_app. right. apply list_elem_of_here.
Qed.

(** * Witnesses *)

Definition good_calls : socket_calls := mkCalls (Some 3%Z) true true true true.

Lemma privileged_port_reached_witness :
  ∃ g' w', setFlags [B "server"; B "-p"; fmt_d 65616] quiet_world = (Ret g', quiet_world)
    ∧ get_listener_v4 good_calls g' quiet_world = (Ret 3%Z, w')
    ∧ EvBind 3 false None 80 ∈ w_trace w'.
Proof.
  destruct (privileged_port_reached (B "server") 65616 good_calls 3 quiet_world ltac:(lia)
    (world_of_ok _) eq_refl eq_refl ltac:(discriminate)) as (g' & w' & H1 & H2 & H3 & _).
  exists g', w'. split; [exact H1|split; [exact H2|exact H3]].
Defined.
