(* ===== verification/Main.v ===== *)
(** * Main: the server process (main.c)

    Start-up, the event loop over poll(2) and the shutdown, composed of the other
    components. Its theorems are in Loop and Server. *)

From S2P Require Import Prelude CLib Types OS Flags Logging ParseRequest ResolvePath Response.
From S2P Require Import Messages Connections DoRead EndToEnd DoWrite Sockets.

Definition INITIAL_SIZE : nat := 32.

(** ** Start-up *)

Definition use_v4 (g : Globals) : bool := has_flag g B4_FLAG || negb (has_flag g B6_FLAG).
Definition use_v6 (g : Globals) : bool := has_flag g B6_FLAG || negb (has_flag g B4_FLAG).

(** What the calls of start-up answer, outside the world of the other components:
    whether the handlers of SIGTERM and SIGINT are installed, whether libmagic's
    database loads, and the two listeners. *)
Record startup := mkStartup {
  su_term_ok : bool; su_int_ok : bool; su_magic_ok : bool; su_v4 : socket_calls; su_v6 : socket_calls
}.

Definition setup_signal_handler (su : startup) : M unit :=
  if negb (su_term_ok su) then exit EXIT_FAILURE
  else if negb (su_int_ok su) then exit EXIT_FAILURE
  else mret ().

(** The first slots of the pollfd array get the listeners that were created. *)
Definition place_listener (fd : Z) (r : nat * list PollFd) : nat * list PollFd :=
  let '(n, ps) := r in
  if decide (fd = -1)%Z then r else (S n, <[n := mkPollFd fd POLLIN 0]> ps).

(** The number of listeners, the table and the two descriptors. *)
Definition start_up `{External} (su : startup) (g : Globals) : M (nat * Table * Z * Z) :=
  if negb (su_magic_ok su) then exit EXIT_FAILURE
  else
    w ← get;
    pb ← malloc;
    cb ← malloc;
    match pb, cb with
    | Some pb, Some cb =>
        listener_v4 ← (if use_v4 g then get_listener_v4 (su_v4 su) g else mret (-1)%Z);
        listener_v6 ← (if use_v6 g then get_listener_v6 (su_v6 su) g else mret (-1)%Z);
        let '(num_listeners, ps) :=
          place_listener listener_v6 (place_listener listener_v4
            (0, replicate INITIAL_SIZE (e_junk_pfd (w_env w)))) in
        if decide (num_listeners = 0) then exit EXIT_FAILURE
        else
          mret (num_listeners,
                mkTable pb cb ps (replicate INITIAL_SIZE (e_junk_client (w_env w)))
                  num_listeners INITIAL_SIZE,
                listener_v4, listener_v6)
    | _, _ => exit EXIT_FAILURE
    end.

(** ** The event loop *)

Definition has_event (revents ev : Z) : bool := negb (Z.land revents ev =? 0)%Z.
Definition BROKEN : Z := Z.lor POLLERR (Z.lor POLLHUP POLLNVAL).

(** One result of poll(2): the events of each entry, or an error. *)
Inductive poll_result := PollReady (revents : nat → Z) | PollFailed (e : errno).

Definition poll_update (revents : nat → Z) (t : Table) : Table :=
  mkTable (pfds_block t) (clients_block t)
    (imap (λ i p, if decide (i < fd_count t)
                  then mkPollFd (pfd_fd p) (pfd_events p) (revents i) else p) (pfds t))
    (clients t) (fd_count t) (fd_size t).

Definition state_of (i : nat) (t : Table) : option client_state := state <$> clients t !! i.

(** The body of the for loop on a client's entry that has events: true when the
    connection was closed, so that the index is looked at again. *)
Definition serve_client `{External} (g : Globals) (i : nat) (revents : Z) (t : Table)
    : M (bool * Table) :=
  if has_event revents BROKEN then t ← close_conn i t; mret (true, t)
  else
    t ← (if has_event revents POLLIN && bool_decide (state_of i t = Some READING)
         then do_read g i t else mret t);
    t ← (if has_event revents POLLOUT
              && (bool_decide (state_of i t = Some SENDING_HEADER)
                  || bool_decide (state_of i t = Some SENDING_BODY))
         then do_write i t else mret t);
    if bool_decide (state_of i t = Some CLOSING) then t ← close_conn i t; mret (true, t)
    else mret (false, t).

(** The for loop of one round, from index [i]. *)
Fixpoint poll_round `{External} (fuel : nat) (g : Globals) (nl i : nat) (t : Table) : M Table :=
  match fuel with
  | 0 => no_fuel
  | S fuel' =>
      if decide (fd_count t ≤ i) then mret t
      else
        match pfds t !! i with
        | None => crash
        | Some p =>
            if decide (i < nl) then
              t ← (if has_event (pfd_revents p) POLLIN
                   then accept_new_conn (pfd_fd p) t else mret t);
              poll_round fuel' g nl (S i) t
            else if (pfd_revents p =? 0)%Z then poll_round fuel' g nl (S i) t
            else
              r ← serve_client g i (pfd_revents p) t;
              let '(closed, t) := r in
              poll_round fuel' g nl (if (closed : bool) then i else S i) t
        end
  end.

(** Fuel for a round: the entries left, and the connections the listeners left
    may add. *)
Definition waiting (t : Table) (nl i : nat) (w : World) : nat :=
  sum_list ((λ pc, length (e_accept (w_env w) (pfd_fd pc.1))) <$> drop i (take nl (active t))).
Definition round_fuel (t : Table) (nl : nat) (w : World) : nat :=
  S (fd_count t + waiting t nl 0 w).

(** The while loop, over the results of poll; at the end of them a signal has
    cleared [running] (Process justifies this reading). *)
Fixpoint event_loop `{External} (g : Globals) (nl : nat) (polls : list poll_result) (t : Table)
    : M Table :=
  match polls with
  | [] => mret t
  | PollFailed e :: polls =>
      if decide (e = EINTR) then event_loop g nl polls t else exit EXIT_FAILURE
  | PollReady revents :: polls =>
      let t := poll_update revents t in
      w ← get;
      t ← poll_round (round_fuel t nl w) g nl 0 t;
      event_loop g nl polls t
  end.

(** ** Shutdown *)

(** The loop that closes the connections: the index stays at the first one. *)
Fixpoint close_all (fuel nl : nat) (t : Table) : M Table :=
  match fuel with
  | 0 => no_fuel
  | S fuel' =>
      if decide (fd_count t ≤ nl) then mret t
      else t ← close_conn nl t; close_all fuel' nl t
  end.

(** fclose of the log; standard output is not among the streams of the world. *)
Definition close_log (p : log_stream) : M unit :=
  match p with LogFile f => fclose f | _ => mret () end.

Definition shut_down (g : Globals) (nl : nat) (listener_v4 listener_v6 : Z) (t : Table) : M unit :=
  t ← close_all (S (fd_count t - nl)) nl t;
  _ ← close listener_v4;
  _ ← close listener_v6;
  _ ← free (Some (pfds_block t));
  _ ← free (Some (clients_block t));
  close_log (log_ptr g).

(** The whole process, up to exit(EXIT_SUCCESS). *)
Definition server `{External} (su : startup) (polls : list poll_result) (argv : list bytes) : M unit :=
  _ ← setup_signal_handler su;
  g ← setFlags argv;
  s ← start_up su g;
  let '(nl, t, listener_v4, listener_v6) := s in
  t ← event_loop g nl polls t;
  shut_down g nl listener_v4 listener_v6 t.

Definition main `{External} (su : startup) (polls : list poll_result) (argv : list bytes) : M unit :=
  _ ← server su polls argv; exit EXIT_SUCCESS.
