(* ===== verification/Footprint.v ===== *)
(** * Footprint: the effects of each part of the server

    The effects (Effects) of resolving, building, receiving, sending and serving:
    which actions each may show, which sockets it may use, and that a connection
    keeps its descriptor. *)

From S2P Require Import Prelude CLib Types OS Flags Logging ParseRequest ResolvePath Response.
From S2P Require Import Messages Connections DoRead DoWrite Sockets Main Effects.

(** Memory, streams and the processes of CGI programs. *)
Definition building : effects := mkEffects
  (λ ev, match ev with
         | EvFclose _ _ | EvClosedir _ _ | EvFree _ _ | EvExec _ | EvClose _ => True
         | _ => False
         end)
  (λ _, False) (λ _, False).

(** The same, the log, and receiving from [x]. *)
Definition receives (x : Z) : effects := mkEffects
  (λ ev, match ev with
         | EvFclose _ _ | EvClosedir _ _ | EvFree _ _ | EvExec _ | EvClose _ | EvLog _ => True
         | _ => False
         end)
  (λ y, y = x) (λ _, False).

(** Sending on [x] and ending its stream. *)
Definition transmits (x : Z) : effects := mkEffects
  (λ ev, match ev with EvSend y _ | EvShutdown y => y = x | _ => False end)
  (λ y, y = x) (λ _, False).

(** All that serving the connection on [x] may do. *)
Definition serves_only (x : Z) : effects := mkEffects
  (λ ev, match ev with
         | EvSend y _ | EvShutdown y => y = x
         | EvBind _ _ _ _ | EvListen _ => False
         | _ => True
         end)
  (λ y, y = x) (λ _, False).

(** Accepting from the listener [x]. *)
Definition accepts (x : Z) : effects := mkEffects
  (λ ev, match ev with EvClose _ | EvFree _ _ => True | _ => False end) (λ y, y = x)
  (λ y, y = x).

(** Starting: no socket is used, and nothing is sent, logged or closed. *)
Definition setting_up : effects := mkEffects
  (λ ev, match ev with
         | EvSend _ _ | EvShutdown _ | EvLog _ | EvExec _ | EvClose _ => False
         | _ => True
         end)
  (λ _, False) (λ _, False).

(** The lines written to the log among some actions. *)
Definition log_lines (evs : list event) : list bytes :=
  omap (λ ev, match ev with EvLog l => Some l | _ => None end) evs.

(** * Lemmas *)

Lemma log_lines_app e1 e2 : log_lines (e1 ++ e2) = log_lines e1 ++ log_lines e2.
Proof. apply omap_app. Qed.

(** The actions of a computation that does not write to the log. *)
Lemma does_no_log {A} E (m : M A) Q w r w' :
  (∀ l, ¬ shows E (EvLog l)) → does E m Q → m w = (r, w') →
  ∃ evs, extends w w' evs ∧ log_lines evs = [].
Proof.
  intros Hno H Hr. destruct (H w) as [[(evs & Hx & HF) _ _] _]. rewrite Hr in Hx.
  exists evs. split; [done|]. clear -HF Hno. induction HF as [|ev evs Hev _ IH]; [done|].
  destruct ev; try exact IH. by destruct (Hno line).
Qed.

(** The same for sending. *)
Lemma does_no_send {A} E (m : M A) Q w r w' x evs :
  (∀ d, ¬ shows E (EvSend x d)) → does E m Q → m w = (r, w') → extends w w' evs →
  sent_bytes x evs = [].
Proof.
  intros Hno H Hr Hx'. destruct (H w) as [[(evs' & Hx & HF) _ _] _]. rewrite Hr in Hx.
  simpl in Hx. unfold extends in *. rewrite Hx in Hx'. apply app_inv_head in Hx' as <-. clear -HF Hno.
  induction HF as [|ev evs Hev _ IH]; [done|]. unfold sent_bytes in *. csimpl. rewrite IH.
  destruct ev; try done. case_decide; [|done]. subst. by destruct (Hno data).
Qed.

(** Sockets a computation may not use are left alone. *)
Lemma does_elsewhere {A} E (m : M A) Q w r w' x :
  does E m Q → m w = (r, w') → ¬ uses E x → same_socket x (w_env w) (w_env w').
Proof. intros H Hr Hx. destruct (H w) as [[_ _ S] _]. rewrite Hr in S. by apply S. Qed.

Lemma building_no_log l : ¬ shows building (EvLog l).
Proof. exact id. Qed.
Lemma building_no_send y d : ¬ shows building (EvSend y d).
Proof. exact id. Qed.
Lemma receives_no_send x y d : ¬ shows (receives x) (EvSend y d).
Proof. exact id. Qed.
Lemma transmits_no_log x l : ¬ shows (transmits x) (EvLog l).
Proof. exact id. Qed.
Lemma transmits_elsewhere x y d : y ≠ x → ¬ shows (transmits x) (EvSend y d).
Proof. exact id. Qed.
Lemma building_receives x : building ⊆ receives x.
Proof. by split_and!; [intros []|intros ? []|]. Qed.
Lemma receives_serves x : receives x ⊆ serves_only x.
Proof. split_and!; [by intros []|done..]. Qed.
Lemma transmits_serves x : transmits x ⊆ serves_only x.
Proof. split_and!; [by intros []|done..]. Qed.
Lemma building_serves x : building ⊆ serves_only x.
Proof. etransitivity; [apply building_receives|apply receives_serves]. Qed.
#[export] Hint Resolve building_receives receives_serves transmits_serves : effects.

(** ** Resolving *)

Section resolving.
Context `{External}.

Lemma does_mime name f : does building (get_mime_type_by_ext name f) (λ _, True).
Proof. unfold get_mime_type_by_ext, magic_fd. does_auto. Qed.
Lemma does_file_path t p i : does building (get_file_path t p i) (λ _, True).
Proof. unfold get_file_path. does_auto. Qed.
#[local] Hint Resolve does_mime does_file_path : effects.

Lemma does_dir_index c rp i :
  does building (handle_dir_index c rp i) (λ v, fd (rv_client v) = fd c).
Proof. unfold handle_dir_index. does_auto; done. Qed.
#[local] Hint Resolve does_dir_index : effects.

Lemma does_resolve_path g c req rp :
  does building (resolve_path g c req rp) (λ v, fd (rv_client v) = fd c).
Proof. unfold resolve_path, resolve_open, resolve_dir. does_auto; done. Qed.
End resolving.

(** ** Building *)

(** A builder: it keeps the client's descriptor. *)
Definition builds (c : Client) (m : M (Z * Client)) : Prop := does building m (λ r, fd r.2 = fd c).

Lemma does_error c req : builds c (build_error_response c req).
Proof. unfold builds, build_error_response. does_auto; done. Qed.

Lemma does_copy_file E fuel f out : does E (copy_file fuel f out) (λ _, True).
Proof.
  revert out. induction fuel as [|fuel IH]; intros out; simpl; does_auto.
Qed.
#[local] Hint Resolve does_copy_file : effects.

Lemma does_file c rp req : builds c (build_response_file c rp req).
Proof. unfold builds, build_response_file. does_auto; done. Qed.

Lemma does_release bf l d : does building (release_dir bf l d) (λ _, True).
Proof. unfold release_dir. does_auto. Qed.
Lemma does_list_entries E dir ds buf : does E (list_entries dir ds buf) (λ _, True).
Proof. revert buf. induction ds as [|d ds IH]; intros buf; cbn [list_entries]; does_auto. Qed.
#[local] Hint Resolve does_release does_list_entries : effects.

Lemma does_dir c rp req : builds c (build_response_dir c rp req).
Proof. unfold builds, build_response_dir. does_auto; done. Qed.

Lemma does_close E x : shows E (EvClose x) → does E (close x) (λ _, True).
Proof. apply does_emit. Qed.
#[local] Hint Resolve does_close : effects.

Lemma does_read_cgi fuel q p b cap resp : does building (read_cgi fuel q p b cap resp) (λ _, True).
Proof.
  revert q b cap resp. induction fuel as [|fuel IH]; intros q b cap resp; cbn [read_cgi];
    [does_auto|].
  eapply does_bind; [instantiate (1 := λ _, True); does_auto|].
  intros grown _. does_auto.
Qed.
#[local] Hint Resolve does_read_cgi : effects.

Lemma does_cgi_finish c req cg b resp : builds c (cgi_finish c req cg b resp).
Proof. unfold builds, cgi_finish. does_auto; done. Qed.

Lemma does_cgi g c rp req : builds c (build_response_cgi g c rp req).
Proof. unfold builds, build_response_cgi. does_auto; try done. apply does_cgi_finish. Qed.

Lemma does_okay g c rp req : builds c (build_okay_response g c rp req).
Proof.
  unfold build_okay_response, builds.
  eapply (does_bind _ _ _ (λ r, fd r.2 = fd c)).
  - destruct (path_type rp); [by apply does_ret|exact (does_file (set_resp c _) rp req)
      |exact (does_dir (set_resp c _) rp req)|exact (does_cgi g (set_resp c _) rp req)].
  - intros [st c'] Hc. simpl in Hc. case_match; [|by apply does_ret]. unfold okay_failed.
    eapply does_bind; [eauto with effects|]. intros _ _.
    eapply does_mono; [reflexivity| |apply does_error].
    intros r ->. simpl. by case_decide.
Qed.

(** ** Receiving and answering *)

Section answering.
Context `{External}.

Lemma does_answer g c r : does building (answer g c r) (λ a, fd a.1 = fd c).
Proof.
  unfold answer. destruct (decide _).
  - eapply does_bind; [apply does_resolve_path|]. intros v Hv. destruct (decide _).
    + eapply does_bind; [apply does_okay|]. intros s Hs. apply does_ret. simpl. congruence.
    + eapply does_bind; [apply does_error|]. intros s Hs. apply does_ret. simpl. congruence.
  - eapply does_bind; [apply does_error|]. intros s Hs. by apply does_ret.
Qed.

Lemma does_close_entry x g c le : does (receives x) (close_entry g c le) (λ _, True).
Proof. unfold close_entry, do_logging. does_auto. Qed.

Lemma does_parse E g b len out resp le : does E (parse_request g b len out resp le) (λ _, True).
Proof. unfold parse_request. does_auto. Qed.

Lemma does_close_ptr rp : does building (close_resolve_path_ptr rp) (λ _, True).
Proof. unfold close_resolve_path_ptr. does_auto. Qed.

Lemma does_respond g c buf x : does (receives x) (respond g c buf) (λ c', fd c' = fd c).
Proof.
  unfold respond. eapply does_bind; [apply does_parse|]. intros r _.
  eapply does_bind; [eapply does_mono; [apply building_receives|intros a Ha; exact Ha|apply does_answer]|].
  intros [c' rp] Hc'. eapply does_bind; [apply does_close_entry|]. intros _ _.
  eapply does_bind; [eapply does_mono; [apply building_receives|done|apply does_close_ptr]|].
  intros _ _. by apply does_ret.
Qed.

Lemma does_append E c d : does E (append c d) (λ c', fd c' = fd c).
Proof. unfold append, copy_in. does_auto; done. Qed.

Lemma does_recv_loop fuel c : does (receives (fd c)) (recv_loop fuel c) (λ r, fd r.2 = fd c).
Proof.
  revert c. induction fuel as [|fuel IH]; intros c; cbn [recv_loop]; [apply does_no_fuel|].
  eapply does_bind; [by apply does_recv|]. intros r _.
  destruct r as [[|b d]|e]; [by apply does_ret|..].
  - eapply does_bind; [apply does_append|]. intros c' Hc'. rewrite <-Hc'.
    destruct (decide _); [apply IH|by apply does_ret].
  - destruct (would_block e); [by apply does_ret|]. destruct (decide _); [apply IH|by apply does_ret].
Qed.

Lemma does_read_client g c p :
  does (receives (fd c)) (read_client g c p) (λ r, fd r.1 = fd c ∧ pfd_fd r.2 = pfd_fd p).
Proof.
  unfold read_client. eapply does_bind; [apply does_get|]. intros w _.
  eapply does_bind; [apply does_recv_loop|]. intros [ret c'] Hc'. simpl in Hc'.
  destruct ret; [by apply does_ret|]. destruct (in_buf c'); [|by apply does_ret].
  destruct (decide _); [by apply does_ret|]. destruct (strnstr _ _ _); [|by apply does_ret].
  eapply does_bind; [apply does_respond|]. intros c2 Hc2. apply does_ret.
  split; [simpl in *; congruence|done].
Qed.
End answering.

(** ** Sending *)

Lemma does_write_client c : does (transmits (fd c)) (write_client c) (λ c', fd c' = fd c).
Proof.
  assert (∀ fuel c0 buf, fd c0 = fd c →
    does (transmits (fd c)) (send_loop fuel c0 buf) (λ c', fd c' = fd c)) as Hloop.
  { induction fuel as [|fuel IH]; intros c0 buf Hc0; cbn [send_loop]; [apply does_no_fuel|].
    destruct (decide (output_sent c0 < _)); [|by apply does_ret]. destruct (decide _); [apply does_crash|].
    eapply does_bind; [by apply does_send|]. intros r _.
    destruct r as [[|k]|e]; [apply does_exit|by apply IH|apply does_exit]. }
  unfold write_client. destruct (out_buf c); [|by apply does_ret].
  destruct (decide _); [by apply does_ret|]. eapply does_bind; [by apply Hloop|]. intros c' Hc'.
  eapply does_bind; [by apply does_emit|]. intros _ _. by apply does_ret.
Qed.

(** ** The table *)

Lemma does_close_conn i t : does building (close_conn i t) (λ _, True).
Proof.
  unfold close_conn, free_buf. destruct (decide (i = 0)) as [_|_]; [by apply does_ret|].
  destruct (clients t !! i) as [c|], (fd_count t) as [|n]; try apply does_crash.
  eapply does_bind; [by apply does_emit|]. intros _ _.
  eapply (does_bind _ _ _ (λ _, True)); [destruct (file_ptr c); does_auto|]. intros _ _.
  does_auto.
Qed.

(** The descriptor of an entry, when there is one. *)
Definition fd_at (x : Z) (i : nat) (t : Table) : Prop := ∀ c, clients t !! i = Some c → fd c = x.

Lemma does_do_read `{External} x g i t :
  fd_at x i t → does (serves_only x) (do_read g i t) (fd_at x i).
Proof.
  intros Hx. unfold do_read. destruct (clients t !! i) as [c|] eqn:Hc; [|apply does_crash].
  destruct (pfds t !! i) as [p|]; [|apply does_crash]. specialize (Hx c Hc).
  eapply does_bind.
  { eapply does_mono; [apply receives_serves|intros r Hr; exact Hr|]. rewrite <-Hx.
    apply does_read_client. }
  intros [c' p'] [Hc' _]. apply does_ret. intros c2. simpl.
  rewrite list_lookup_insert_eq by (by eapply lookup_lt_Some). intros [= <-]. simpl in *. congruence.
Qed.

Lemma does_do_write x i t :
  fd_at x i t → does (serves_only x) (do_write i t) (fd_at x i).
Proof.
  intros Hx. unfold do_write. destruct (clients t !! i) as [c|] eqn:Hc; [|apply does_crash].
  specialize (Hx c Hc). eapply does_bind.
  { eapply does_mono; [apply transmits_serves|intros r Hr; exact Hr|]. rewrite <-Hx.
    apply does_write_client. }
  intros c' Hc'. apply does_ret. intros c2. simpl.
  rewrite list_lookup_insert_eq by (by eapply lookup_lt_Some). intros [= <-]. congruence.
Qed.

Lemma does_serve `{External} x g i revents t :
  fd_at x i t → does (serves_only x) (serve_client g i revents t) (λ _, True).
Proof.
  intros Hx. unfold serve_client. destruct (has_event _ BROKEN).
  { eapply does_bind; [eapply does_mono; [apply building_serves|done|apply does_close_conn]|].
    intros t' _. by apply does_ret. }
  eapply (does_bind _ _ _ (fd_at x i)).
  { destruct (_ && _); [by apply does_do_read|by apply does_ret]. }
  intros t1 H1. eapply (does_bind _ _ _ (fd_at x i)).
  { destruct (_ && _); [by apply does_do_write|by apply does_ret]. }
  intros t2 H2. destruct (bool_decide _); [|by apply does_ret].
  eapply does_bind; [eapply does_mono; [apply building_serves|done|apply does_close_conn]|].
    intros t' _. by apply does_ret.
Qed.

Lemma does_accept_new_conn lfd t : does (accepts lfd) (accept_new_conn lfd t) (λ _, True).
Proof.
  assert (∀ n t, does (accepts lfd) (register n t) (λ _, True)) as Hreg.
  { intros n t1. unfold register, add_to_lists. eapply (does_bind _ _ _ (λ _, True)); [|].
    - eapply (does_bind _ _ _ (λ _, True)); [|intros t2 _; does_auto].
      destruct (decide _); [|by apply does_ret]. unfold grow. does_auto.
    - intros [idx t2] _. does_auto. }
  unfold accept_new_conn. eapply does_bind; [apply does_get|]. intros w _.
  generalize (accept_fuel lfd w). intros fuel. revert t. clear w.
  induction fuel as [|fuel IH]; intros t; cbn [accept_loop]; [apply does_no_fuel|].
  eapply does_bind; [by apply does_accept|]. intros [n|e] _.
  - destruct (_ || _).
    + eapply does_bind; [by apply does_emit|]. intros _ _. apply IH.
    + eapply does_bind; [apply Hreg|]. intros t1 _. apply IH.
  - destruct (would_block e); [by apply does_ret|]. destruct (decide _); [apply IH|by apply does_ret].
Qed.

(** ** Start-up and shutdown *)

Lemma setting_up_no_log l : ¬ shows setting_up (EvLog l).
Proof. exact id. Qed.
Lemma setting_up_no_send y d : ¬ shows setting_up (EvSend y d).
Proof. exact id. Qed.

Section process.
Context `{External}.

Lemma does_close_old p : does setting_up (close_old_log p) (λ _, True).
Proof. unfold close_old_log. does_auto. Qed.
Lemma does_flag_error {A} a : does setting_up (print_flag_error a : M A) (λ _, True).
Proof. apply does_exit. Qed.
#[local] Hint Resolve does_close_old does_flag_error : effects.

Lemma does_flags_loop g args : does setting_up (setFlags_loop g args) (λ _, True).
Proof.
  cut (∀ n args g, length args < n → does setting_up (setFlags_loop g args) (λ _, True));
    [intros Hn; apply (Hn (S (length args))); lia|].
  clear. induction n as [|n IH]; intros args g Hn; [lia|].
  destruct args as [|a rest]; cbn [setFlags_loop]; [by apply does_ret|]. simpl in Hn.
  does_auto; apply IH; simpl in *; lia.
Qed.

Lemma does_setFlags argv : does setting_up (setFlags argv) (λ _, True).
Proof. unfold setFlags. destruct (decide _); [by apply does_ret|apply does_flags_loop]. Qed.

Lemma does_listener_v4 s g : does setting_up (get_listener_v4 s g) (λ _, True).
Proof. unfold get_listener_v4, bind_and_listen. does_auto. Qed.
Lemma does_listener_v6 s g : does setting_up (get_listener_v6 s g) (λ _, True).
Proof. unfold get_listener_v6, bind_and_listen. does_auto. Qed.
#[local] Hint Resolve does_listener_v4 does_listener_v6 : effects.

Lemma does_start_up su g : does setting_up (start_up su g) (λ _, True).
Proof.
  unfold start_up. destruct (negb _); [apply does_exit|].
  eapply does_bind; [eauto with effects|]. intros w _.
  eapply does_bind; [eauto with effects|]. intros pb _.
  eapply does_bind; [eauto with effects|]. intros cb _.
  destruct pb, cb; try apply does_exit.
  eapply (does_bind _ _ _ (λ _, True)); [does_auto|]. intros v4 _.
  eapply (does_bind _ _ _ (λ _, True)); [does_auto|]. intros v6 _.
  destruct (place_listener _ _). does_auto.
Qed.

Lemma does_close_all fuel nl t : does building (close_all fuel nl t) (λ _, True).
Proof.
  revert t. induction fuel as [|fuel IH]; intros t; cbn [close_all]; [apply does_no_fuel|].
  destruct (decide _); [by apply does_ret|].
  eapply does_bind; [apply does_close_conn|]. intros t' _. apply IH.
Qed.

Lemma does_shut_down g nl v4 v6 t : does building (shut_down g nl v4 v6 t) (λ _, True).
Proof.
  unfold shut_down. eapply does_bind; [apply does_close_all|]. intros t' _.
  do 2 (eapply does_bind; [by apply does_close|]; intros _ _).
  do 2 (eapply does_bind; [eauto with effects|]; intros _ _). unfold close_log. does_auto.
Qed.
End process.

(** * Properties *)

(** C15. What a turn may touch. Serving a connection, whatever state the table, the
    heap and the client are in and however the turn ends, sends and ends the stream
    on that connection's descriptor only, uses up what is queued for no other socket,
    accepts no connection, binds nothing and listens nowhere, and leaves the clock,
    the file system and the CGI programs as they are. *)
Theorem turn_footprint `{External} g i revents t w c :
  clients t !! i = Some c →
  let w' := (serve_client g i revents t w).2 in
  ∃ evs, extends w w' evs ∧ Forall (shows (serves_only (fd c))) evs
    ∧ (∀ x, x ≠ fd c → sent_bytes x evs = [])
    ∧ same_machine (w_env w) (w_env w')
    ∧ (∀ x, x ≠ fd c → same_socket x (w_env w) (w_env w'))
    ∧ ∀ x, e_accept (w_env w') x = e_accept (w_env w) x.
Proof.
  intros Hc w'.
  assert (does (serves_only (fd c)) (serve_client g i revents t) (λ _, True)) as Hd.
  { apply does_serve. intros c' Hc'. congruence. }
  destruct (Hd w) as [[(evs & Hx & HF) HM HS HA _] _]. exists evs.
  do 2 (split; [done|]). split; [|split; [done|split; [exact HS|intros x; exact (HA x id)]]]. intros x Hne.
  eapply does_no_send; [|exact Hd|apply surjective_pairing|exact Hx]. intros d. exact Hne.
Qed.

(** * Witnesses *)

Lemma turn_footprint_witness :
  let w' := (serve_client globals_init 2 POLLIN sample_table table_world).2 in
  same_machine (w_env table_world) (w_env w') ∧ same_socket 4 (w_env table_world) (w_env w').
Proof.
  destruct (turn_footprint globals_init 2 POLLIN sample_table table_world conn_b eq_refl)
    as (evs & _ & _ & _ & H1 & H2).
  split; [exact H1|]. apply H2. discriminate.
Defined.
