(* ===== verification/Reference.v ===== *)
(** * Reference: what the server answers

    The response to a complete request as a function of the request line and the
    environment, without buffers, streams, blocks or clients; and the theorem that
    do_read stages exactly that response and logs exactly that line. *)

From S2P Require Import Prelude CLib Types OS Flags Logging ParseRequest ResolvePath Response.
From S2P Require Import Messages Connections DoRead EndToEnd Effects Footprint.

(** ** Replies *)

(** A response: its code, status line, announced length and content, and the length
    the log line gives. *)
Record reply := mkReply {
  r_code : client_response;
  r_status : bytes;
  r_length : Z;
  r_content : bytes;
  r_logged : Z
}.

(** A HEAD request is answered without content, but the program's output is always
    sent. *)
Definition error_reply (hd : bool) (r : client_response) : reply :=
  let e := default (mkResponse [] [] []) (error_responses r) in
  mkReply r (status_line e) (zlen (r_body e)) (if hd then [] else r_body e) (zlen (r_body e)).
Definition okay_reply (len : Z) (content : bytes) (logged : Z) : reply :=
  mkReply RESP_200 (B "200 OK") (u64 len) content logged.
Definition file_reply (hd : bool) (size : Z) (data : bytes) : reply :=
  okay_reply size (if hd then [] else data) (if hd then u64 size else zlen data).
Definition page_reply (hd : bool) (pending : Z) (page : bytes) : reply :=
  okay_reply (zlen page) (if hd then [] else page) (if hd then pending else zlen page).

(** A resource whose modification time has no date is a server error. *)
Definition dated (hd : bool) (st : stat) (r : reply) : reply :=
  if gmtime_iso (st_mtime st) is Some _ then r else error_reply hd RESP_500.

(** The program a request runs. *)
Definition program_call (addr : bytes) (m : http_method) (v : http_version) (p : bytes)
    (q : option bytes) : cgi_call :=
  mkCgiCall (cgi_local_path p) [cgi_local_path p]
    [ (B "QUERY_STRING", from_option (take (PATH_MAX - 1)) [] q);
      (B "REQUEST_METHOD", method_to_string m); (B "SCRIPT_NAME", cgi_local_path p);
      (B "SERVER_PROTOCOL", version_to_string v); (B "GATEWAY_INTERFACE", B "CGI/1.1");
      (B "REMOTE_ADDR", addr); (B "SERVER_SOFTWARE", SERVER_VERSION) ].

(** Its output, when it could be started, read to its end and succeeded. *)
Definition program_reply (hd : bool) (cg : cgi_result) : reply :=
  match cg_pipe cg, cgi_text (cg_output cg) with
  | Some _, Some text =>
      if cg_fork_ok cg && cgi_succeeds cg then okay_reply (zlen text) text (zlen text)
      else error_reply hd RESP_500
  | _, _ => error_reply hd RESP_500
  end.

(** ** The answer to a request line *)

Section reference.
Context `{External}.
Context (e : Environment) (cgi_on : bool) (addr : bytes) (pending : Z).

Definition accepted_reply (m : http_method) (v : http_version) (p : bytes) : reply :=
  let hd := bool_decide (m = HTTP_HEAD) in
  let target := take (PATH_MAX - 2) p in
  match resolution_of (e_fopen e) cgi_on (B "." ++ before "?"%char target) with
  | Failed r => error_reply hd r
  | ServeFile st data _ => dated hd st (file_reply hd (st_size st) data)
  | ListDir st =>
      match e_opendir e (tail p) with
      | Some entries => dated hd st (page_reply hd pending (listing_page (tail p) entries))
      | None => error_reply hd RESP_500
      end
  | RunCgi _ => program_reply hd (e_cgi e (program_call addr m v p (query_text target)))
  end.

Definition reference (line : bytes) : reply :=
  match classify line with
  | Accept m v p => accepted_reply m v p
  | Reject r => error_reply false r
  end.

(** The line the log shows for a request received at [date]. *)
Definition log_line (date line : bytes) (r : reply) : bytes :=
  addr ++ B " " ++ date ++ B " " ++ [dquote] ++ line ++ [dquote] ++ B " "
  ++ resp_val_to_status_string (r_code r) ++ B " " ++ fmt_d (i32 (r_logged r)) ++ [LF].
End reference.

(** The connection is waiting, and what it has received and will receive before the
    socket blocks or fails is a request with complete headers and this first line. *)
Record complete_request (c : Client) (w : World) (date line : bytes) : Prop := {
  cq_reading : reading c;
  cq_world : world_ok w;
  cq_owns : owns w c;
  cq_plenty : plenty w;
  cq_time : gmtime_iso (e_now (w_env w)) = Some date;
  cq_fits : length (input_data c ++ arriving (e_recv (w_env w) (fd c))) ≤ MAX_REQUEST_SIZE;
  cq_open : (ending (e_recv (w_env w) (fd c))).1 = false;
  cq_complete : let input := input_data c ++ arriving (e_recv (w_env w) (fd c)) in
    is_Some (strnstr input HEADER_END (length input)) ∧ line = first_line input (length input)
}.

(** What do_read makes of a connection by what it has received and the results
    queued for recv: the request goes on, with this input; it is complete, with
    this first line; the connection is dropped; the request is too long. *)
Inductive read_result := Waits (input : bytes) | Answers (line : bytes) | Drops | TooLong.

Definition read_spec (q : list recv_result) (received : bytes) : read_result :=
  let input := received ++ arriving q in
  if decide (MAX_REQUEST_SIZE < length input) then TooLong
  else if (ending q).1 then Drops
  else match strnstr input HEADER_END (length input) with
       | Some _ => Answers (first_line input (length input))
       | None => if decide ((ending q).2 = CLOSING) then Drops else Waits input
       end.

(** The client holds the reply, ready to send. *)
Definition delivers (w : World) (c : Client) (r : reply) : Prop :=
  resp_val c = r_code r ∧ holds w c (r_status r) (r_length r) (r_content r)
  ∧ body_len c = r_logged r.

(** The client and the pollfd it leaves, in each case. *)
Definition read_outcome (w' : World) (c : Client) (p : PollFd) (rr : bytes → reply)
    (r : read_result) (c' : Client) (p' : PollFd) : Prop :=
  match r with
  | Waits input =>
      reading c' ∧ input_data c' = input ∧ client_addr c' = client_addr c
      ∧ body_len c' = body_len c ∧ p' = p
  | Answers line =>
      state c' = SENDING_HEADER ∧ pfd_events p' = POLLOUT ∧ pfd_fd p' = pfd_fd p
      ∧ delivers w' c' (rr line)
  | Drops => state c' = CLOSING ∧ out_buf c' = None
  | TooLong => state c' = PROCESSING ∧ resp_val c' = RESP_414 ∧ out_buf c' = None
  end.

(** * Lemmas *)

(** do_read returns from the loop only on the end of the stream. *)
Lemma ending_cases q : ending q = (true, CLOSING) ∨ ending q = (false, READING) ∨ ending q = (false, CLOSING).
Proof.
  induction q as [|[[|x d]|e] q IH]; simpl; auto.
  destruct (would_block e); [auto|]. case_decide; auto.
Qed.
Lemma ending_returned q s : (true, s) = ending q → s = CLOSING.
Proof. destruct (ending_cases q) as [-> | [-> | ->]]; congruence. Qed.
Lemma ending_open q s : (false, s) = ending q → s = READING ∨ s = CLOSING.
Proof. destruct (ending_cases q) as [-> | [-> | ->]]; intros [= ->]; auto. Qed.

(** ** The builders *)

Lemma error_delivers c req w :
  world_ok w → CR ∉ time_received req → is_Some (error_responses (resp_val c)) → plenty w →
  ∃ c' w', build_error_response c req w = (Ret (0%Z, c'), w')
    ∧ delivers w' c' (error_reply (is_head req) (resp_val c)).
Proof.
  intros Hw Hd [e He] Hp.
  destruct (error_built c req w e) as (c' & w' & E & _ & _ & Hh & Hr & _);
    [done..|by apply plenty_alloc_ok|]. destruct (Hh Hp) as [H Hb].
  exists c', w'. split; [exact E|]. unfold delivers, error_reply. by rewrite He.
Qed.

Section okay.
Context (g : Globals) (c : Client) (rp : ResolvedPath) (req : Request) (w : World).
Context (Hw : world_ok w) (Hargs : okay_args w c rp req) (Hplenty : plenty w).

(** What build_okay_response stages when it is given [r]. *)
Definition answers (r : reply) : Prop :=
  ∃ c' w', build_okay_response g c rp req w = (Ret (0%Z, c'), w') ∧ delivers w' c' r.

(** A builder that succeeds, and one that fails with 500. *)
Lemma answers_ok c' w' r :
  (match path_type rp with
   | IS_CGI => build_response_cgi g (set_resp c RESP_200) rp req
   | IS_DIR => build_response_dir (set_resp c RESP_200) rp req
   | IS_FILE => build_response_file (set_resp c RESP_200) rp req
   | UNKNOWN => mret (0%Z, set_resp c RESP_200)
   end) w = (Ret (0%Z, c'), w') → delivers w' c' r → answers r.
Proof. intros E H. exists c', w'. split; [by eapply okay_run; [exact E|]|done]. Qed.

Lemma answers_500 c' w' :
  (match path_type rp with
   | IS_CGI => build_response_cgi g (set_resp c RESP_200) rp req
   | IS_DIR => build_response_dir (set_resp c RESP_200) rp req
   | IS_FILE => build_response_file (set_resp c RESP_200) rp req
   | UNKNOWN => mret (0%Z, set_resp c RESP_200)
   end) w = (Ret ((-1)%Z, c'), w') →
  keeps w w' → out_buf c' = None → resp_val c' = RESP_500 →
  answers (error_reply (is_head req) RESP_500).
Proof.
  intros E K Ho Hr.
  destruct (okay_refused g c rp req w Hargs Hplenty c' w' RESP_500
    (mkResponse (B "500 Internal Server Error") TEXT_RESPONSE [])) as (c2 & w2 & E2 & _ & H & Hr2 & Hb);
    [done..|by rewrite Hr|done|].
  exists c2, w2. by split_and!.
Qed.

Lemma file_answers f st data :
  path_type rp = IS_FILE → rp_file_ptr rp = Some f → w_files w !! f = Some (mkStream (Some st) data) →
  rp_file_size rp = st_size st → file_size c = st_size st → last_mod rp = st_mtime st →
  answers (dated (is_head req) st (file_reply (is_head req) (st_size st) data)).
Proof.
  intros Hp Hfp Hf Hsz Hcs Hm. destruct Hargs as [Ho Hd _ _ Hmime _ _]. unfold dated.
  destruct (gmtime_iso (st_mtime st)) as [mt|] eqn:Ht.
  - destruct (file_built (set_resp c RESP_200) rp req w mt f (mkStream (Some st) data))
      as (c' & w' & E & _ & _ & Hh & Hr & _); [done|done|by apply Hmime|by rewrite Hm|done..|
      by apply plenty_alloc_ok|]. destruct (Hh Hplenty) as [H Hb].
    apply (answers_ok c' w'); [by rewrite Hp|]. split; [done|]. rewrite Hsz in H. split; [done|].
    rewrite Hb. simpl. by rewrite Hcs.
  - apply (answers_500 (set_resp c RESP_500) w); [|by apply keeps_refl|done..].
    rewrite Hp. unfold build_response_file. by rewrite Hm, Ht.
Qed.

Lemma page_answers st :
  path_type rp = IS_DIR → last_mod rp = st_mtime st →
  answers (match e_opendir (w_env w) (tail (path req)) with
           | Some entries => dated (is_head req) st
               (page_reply (is_head req) (body_len c) (listing_page (tail (path req)) entries))
           | None => error_reply (is_head req) RESP_500
           end).
Proof.
  intros Hp Hm. destruct Hargs as [Ho Hd _ _ _ _ _].
  destruct (e_opendir _ _) as [entries|] eqn:He.
  2:{ apply (answers_500 (set_resp c RESP_500) w); [|by apply keeps_refl|done..].
      rewrite Hp, build_dir_eval by done. cbv zeta. by rewrite He. }
  unfold dated. destruct (gmtime_iso (st_mtime st)) as [mt|] eqn:Ht.
  - destruct (page_built (set_resp c RESP_200) rp req w mt entries)
      as (c' & w' & E & _ & _ & Hh & Hr & _); [done..|by rewrite Hm|done| | |].
    { by apply plenty_alloc_ok. }
    { apply plenty_alloc_ok, memstream_plenty; [auto with server|done]. }
    destruct (Hh Hplenty) as [H Hb]. apply (answers_ok c' w'); [by rewrite Hp|by split_and!].
  - assert (∃ w', build_response_dir (set_resp c RESP_200) rp req w
                  = (Ret ((-1)%Z, set_resp (set_resp c RESP_200) RESP_500), w')) as (w' & E).
    { rewrite build_dir_eval by done. cbv zeta. rewrite He, Hm, Ht.
      destruct (alloc_ok _); by eexists. }
    destruct (dir_outcome (set_resp c RESP_200) rp req w) as (st' & c' & w2 & E2 & K & _);
      [done..|].
    rewrite E in E2. injection E2 as <- <- <-.
    by apply (answers_500 _ _ ltac:(by rewrite Hp)).
Qed.

Lemma program_answers :
  path_type rp = IS_CGI → has_flag g C_FLAG = true →
  answers (program_reply (is_head req) (e_cgi (w_env w) (cgi_child c rp req))).
Proof.
  intros Hp Hc. destruct Hargs as [Ho Hd Hl Hq _ _ _].
  destruct (cgi_built g (set_resp c RESP_200) rp req w) as (st & c' & w' & E & K & _ & _ & H);
    [done..|].
  change (cgi_of w (set_resp c RESP_200) rp req) with (e_cgi (w_env w) (cgi_child c rp req)) in H.
  set (cg := e_cgi _ _) in *. unfold cgi_runs in H. rewrite Hc in H. unfold program_reply.
  destruct H as [(-> & Hrun & text & b & Ht & (Hh & Hr) & Hb & _)|(-> & (Ho2 & _) & Hrun)].
  - rewrite Ht in *. destruct (cg_pipe cg) as [p|]; [|done].
    rewrite !bool_decide_true in Hrun by eauto. cbn [andb] in Hrun.
    rewrite andb_true_r in Hrun.
    rewrite Hrun. apply (answers_ok c' w'); [by rewrite Hp|by split_and!].
  - specialize (Hrun Hplenty). cbn [andb] in Hrun.
    assert (answers (error_reply (is_head req) RESP_500)) as Ha.
    { destruct (cgi_failed_500 _ _ _ _ _ _ _ _ Hc Hq E) as [?|H500]; [done|].
      by apply (answers_500 c' w' ltac:(by rewrite Hp)). }
    destruct (cg_pipe cg) as [p|]; [|done]. destruct (cgi_text _) as [text|]; [|done].
    rewrite !bool_decide_true in Hrun by eauto. cbn [andb] in Hrun.
    rewrite andb_true_r in Hrun.
    by rewrite Hrun.
Qed.
End okay.

(** ** The handler *)

(** The reference depends on the parts of the environment that do_read cannot use up. *)
Lemma reference_same `{External} e e' cgi_on addr pending line :
  same_outside e e' →
  reference e' cgi_on addr pending line = reference e cgi_on addr pending line.
Proof. intros [(_ & Hf & Hd & Hc) _]. unfold reference, accepted_reply. by rewrite Hf, Hd, Hc. Qed.

(** A rejected request that was read as HEAD gets a code without a body. *)
Lemma rejected_body g b len out resp le e :
  let r := parse_line g b len out resp le in
  p_ret r ≠ 0%Z → error_responses (p_resp r) = Some e → is_head (p_out r) = true → r_body e = [].
Proof.
  unfold parse_line, is_head. cbv zeta.
  set (le' := if logging_on g then _ else _). clearbody le'.
  destruct (strtok SP (cstr _)) as [m s1], (strtok SP s1) as [p s2],
    (strtok SP s2) as [v s3], (strtok SP s3) as [x s4].
  destruct m as [m|], p as [p|], v as [v|], x as [x|]; try (intros _ [= <-]; done).
  destruct (strlcpy p PATH_MAX) as [stored n].
  case_bool_decide; [intros _ [= <-]; done|]. unfold check_request.
  repeat case_match; simpl in *; try (intros _ [= <-]; done).
  all: intros ? _ Hh; apply bool_decide_eq_true in Hh; congruence.
Qed.

Lemma resolution_runs `{External} fs cgi_on local st : resolution_of fs cgi_on local = RunCgi st → cgi_on = true.
Proof.
  unfold resolution_of, index_resolution. intros E. destruct cgi_on; [done|].
  repeat case_match; simplify_eq; simpl in *; congruence.
Qed.

Section answering.
Context `{External} (g : Globals).
Context (Hmagic : magic_ok).

Lemma answer_accepted c r w m v p :
  world_ok w → owns w c → out_buf c = None → good_request (p_out r) → p_ret r = 0%Z → plenty w →
  method (p_out r) = m → version (p_out r) = v → path (p_out r) = p →
  ∃ c' rp w', answer g c r w = (Ret (c', rp), w')
    ∧ delivers w' c' (accepted_reply (w_env w) (has_flag g C_FLAG) (client_addr c) (body_len c) m v p).
Proof.
  intros Hw Hown Ho Hreq Hret Hp Hm Hv Hpath. unfold answer. rewrite decide_True by done.
  destruct (resolve_step g Hmagic c (p_out r) w Hw Hown Ho Hreq)
    as (local & q & u & w1 & Hsp & E & Hr & Hh & He & Ho1 & _ & _ & Hq & Hok & Hko).
  rewrite (bind_run _ _ _ _ _ E). rewrite Hpath, split_path_fields in Hsp.
  unfold accepted_reply. cbv zeta. set (target := take (PATH_MAX - 2) p) in *.
  assert (B "." ++ before "?"%char target = local) as -> by congruence.
  assert (query_text target = q) as -> by congruence. set (hd := bool_decide (m = HTTP_HEAD)).
  assert (is_head (p_out r) = hd) as Hhd by (unfold is_head; by rewrite Hm).
  pose proof Hh as (K & Hown1 & _). pose proof (calm_ok _ _ K) as Hw1.
  assert (plenty w1) as Hp1 by (by eapply calm_plenty).
  assert (∀ rr, rv_ret u = 0%Z → answers g (rv_client u) (rv_rp u) (p_out r) w1 rr →
    ∃ c' rp w', (if decide (rv_ret u = 0)%Z
                 then s ← build_okay_response g (rv_client u) (rv_rp u) (p_out r); mret (s.2, rv_rp u)
                 else s ← build_error_response (rv_client u) (p_out r); mret (s.2, rv_rp u)) w1
                = (Ret (c', rp), w') ∧ delivers w' c' rr) as Okay.
  { intros rr Hu (c' & w' & E' & Hd). rewrite decide_True by done.
    rewrite (bind_run _ _ _ _ _ E'). by exists c', (rv_rp u), w'. }
  unfold realises in Hr. destruct (resolution_of _ _ local) as [rc|st data mime|st|st] eqn:Hres.
  - destruct Hr as [Hu Hc]. rewrite decide_False by lia.
    destruct (error_delivers (rv_client u) (p_out r) w1) as (c' & w' & E' & Hd);
      [done|apply Hreq|by apply Hko; lia|done|].
    rewrite (bind_run _ _ _ _ _ E'). exists c', (rv_rp u), w'. split; [done|].
    rewrite Hc, Hhd in Hd. exact Hd.
  - destruct Hr as (Hpt & f & Hu & _ & Hc & Hfp & Hsz & Hmt & Hlm & Hf).
    apply Okay; [done|]. rewrite <-Hhd. apply (file_answers _ _ _ _ _ Hw1 (Hok Hu) Hp1 f); try done.
    by rewrite Hc.
  - destruct Hr as (Hpt & f & data & Hu & _ & Hc & _).
    apply Okay; [done|]. rewrite <-Hhd.
    pose proof (program_answers g (rv_client u) (rv_rp u) (p_out r) w1 Hw1 (Hok Hu) Hp1 Hpt
      (resolution_runs _ _ _ _ Hres)) as Ha.
    assert (client_addr (rv_client u) = client_addr c) as Hca by (by rewrite Hc).
    unfold cgi_child in Ha. by rewrite He, Hq, Hm, Hv, Hpath, Hca in Ha.
  - destruct Hr as (Hu & Hc & Hpt & _ & Hlm). apply Okay; [done|]. rewrite <-Hhd.
    pose proof (page_answers g (rv_client u) (rv_rp u) (p_out r) w1 Hw1 (Hok Hu) Hp1 st Hpt Hlm) as Ha.
    assert (body_len (rv_client u) = body_len c) as Hbl by (by rewrite Hc).
    by rewrite He, Hpath, Hbl in Ha.
Qed.

(** The parser's result is answered as its line says. *)
Lemma answer_reference c r w t buf len e resp le :
  world_ok w → owns w c → out_buf c = None → good_request (p_out r) → plenty w →
  resp_val c = p_resp r → strnstr buf HEADER_END len = Some e →
  verdict_of r = classify (first_line buf len) →
  r = parse_line g buf len (set_time t request_zero) resp le →
  ∃ c' rp w', answer g c r w = (Ret (c', rp), w')
    ∧ delivers w' c' (reference (w_env w) (has_flag g C_FLAG) (client_addr c) (body_len c)
                       (first_line buf len)).
Proof.
  intros Hw Hown Ho Hreq Hp Hrv He Hv Hr. unfold reference. rewrite <-Hv. unfold verdict_of.
  case_decide as Hret; [by apply answer_accepted|]. unfold answer. rewrite decide_False by done.
  assert (is_Some (error_responses (p_resp r))) as [er Her].
  { pose proof (classify_range (first_line buf len)) as Hc. rewrite <-Hv in Hc.
    unfold verdict_of in Hc. rewrite decide_False in Hc by done. destruct Hc.
    by apply error_responses_some. }
  destruct (error_delivers c (p_out r) w) as (c' & w' & E & Hd);
    [done|apply Hreq|by rewrite Hrv, Her|done|].
  rewrite (bind_run _ _ _ _ _ E). exists c', rp_zero, w'. split; [done|].
  rewrite Hrv in Hd. unfold delivers, error_reply in *. rewrite Her in *. simpl in *.
  destruct (is_head (p_out r)) eqn:Hh; [|done].
  rewrite Hr in Hh, Hret, Her. rewrite (rejected_body _ _ _ _ _ _ _ Hret Her Hh) in Hd |- *. done.
Qed.

Lemma open_entry_text c :
  logging_on g = true → length (client_addr c) < INET6_ADDRSTRLEN →
  le_buf (open_entry g c) = client_addr c ++ B " ".
Proof.
  intros Hon Ha. unfold open_entry. rewrite Hon.
  rewrite log_append_fits; [done|apply log_zero_ok|]. unfold INET6_ADDRSTRLEN in Ha.
  simpl le_buf. rewrite length_app. change (length (B " ")) with 1. simpl length. log_lia.
Qed.

(** The entry as the parser leaves it. *)
Lemma parsed_entry c buf e t resp :
  logging_on g = true → length (client_addr c) < INET6_ADDRSTRLEN → length t ≤ 27 →
  strnstr buf HEADER_END (header_len c) = Some e → header_len c ≤ MAX_REQUEST_SIZE →
  le_buf (p_le (parse_line g buf (header_len c) (set_time t request_zero) resp (open_entry g c)))
  = client_addr c ++ B " " ++ t ++ B " " ++ [dquote] ++ first_line buf (header_len c)
    ++ [dquote] ++ B " ".
Proof.
  intros Hon Ha Ht He Hlen.
  destruct (parse_line_out g buf (header_len c) (set_time t request_zero) resp (open_entry g c) e He)
    as (_ & _ & ->). rewrite Hon.
  destruct (open_entry_ok g c Ha) as [Hle Hle'].
  rewrite log_append_fits; [simpl; by rewrite (open_entry_text c Hon Ha), <-!app_assoc|done|].
  destruct (first_line_spec _ _ _ He) as (n & _ & _ & Hf & _ & Hn).
  assert (length (first_line buf (header_len c)) + 4 ≤ MAX_REQUEST_SIZE).
  { rewrite Hf. rewrite !length_take in *. lia. }
  unfold INET6_ADDRSTRLEN in Hle'. change (time_received (set_time t request_zero)) with t.
  repeat (rewrite length_app || cbn [length]). change (length (B " ")) with 1. log_lia.
Qed.

(** A complete request in the buffer. *)
Lemma respond_reference c buf e w t :
  log_ready g → world_ok w → owns w c → receiving c → plenty w →
  gmtime_iso (e_now (w_env w)) = Some t →
  strnstr buf HEADER_END (header_len c) = Some e → header_len c ≤ MAX_REQUEST_SIZE →
  let line := first_line buf (header_len c) in
  let rr := reference (w_env w) (has_flag g C_FLAG) (client_addr c) (body_len c) line in
  ∃ c' w' evs, respond g c buf w = (Ret c', w') ∧ state c' = SENDING_HEADER ∧ delivers w' c' rr
    ∧ extends w w' evs
    ∧ log_lines evs = (if logging_on g then [log_line (client_addr c) t line rr] else []).
Proof.
  intros Hlog Hw Hown [Ho Hs Hfp Hi Ha] Hp Ht He Hlen line rr. unfold respond.
  destruct (open_entry_ok g c Ha) as [Hle Hle'].
  destruct (parse_request_complete g buf (header_len c) e (resp_val c) (open_entry g c) w t
    He Hlen Ht Hle Hle') as (r & E & Hv & Hd & _ & Hle2 & Hroom & Hr).
  rewrite (bind_run _ _ _ _ _ E). pose proof (length_gmtime_iso _ _ Ht) as Htl.
  assert (good_request (p_out r)) as Hreq.
  { constructor; rewrite Hd; [by eapply CR_gmtime_iso|]. unfold TIME_RECEIVED_LENGTH. lia. }
  destruct (answer_reference (set_resp c (p_resp r)) r w t buf (header_len c) e (resp_val c)
    (open_entry g c)) as (c1 & rp & w1 & E1 & Hdel); try done.
  destruct (does_no_log _ _ _ _ _ _ building_no_log (does_answer g _ _) E1)
    as (e1 & Hx1 & Hl1).
  rewrite (bind_run _ _ _ _ _ E1). cbv iota beta.
  destruct (close_entry_run g c1 (p_le r) w1 Hlog Hle2 Hroom) as (w2 & E2 & Hw2).
  rewrite (bind_run _ _ _ _ _ E2).
  destruct (close_ptr_run rp w2) as (rp' & E3). rewrite (bind_run _ _ _ _ _ E3).
  destruct (does_no_log _ _ _ _ _ _ building_no_log (does_close_ptr _) E3)
    as (e3 & Hx3 & Hl3).
  destruct Hdel as (Hc & Hh & Hb). do 2 eexists.
  exists (e1 ++ (if logging_on g then [EvLog (log_line (client_addr c) t line rr)] else []) ++ e3).
  split; [reflexivity|]. split; [done|]. split; [|split].
  - split; [exact Hc|]. split; [|exact Hb]. apply (holds_frame w1 c1); try done.
    destruct (rp_file_ptr rp), (logging_on g); simpl; by rewrite Hw2.
  - eapply extends_trans; [exact Hx1|]. eapply extends_trans; [|exact Hx3].
    destruct (logging_on g) eqn:Hon; [|rewrite Hw2; by apply extends_nil].
    rewrite Hw2. unfold extends. simpl. do 3 f_equal. rewrite Hc, Hb, Hr, (parsed_entry c buf e t)
      by (done || lia). unfold log_line. by rewrite <-!app_assoc.
  - rewrite !log_lines_app, Hl1, Hl3, app_nil_r. by destruct (logging_on g).
Qed.
(** The loop over recv, by what the queue holds. *)
Lemma recv_reads c w :
  reading c → world_ok w → owns w c → plenty w →
  ∃ ret c1 w1, recv_loop (recv_fuel (fd c) w) c w = (Ret (ret, c1), w1)
    ∧ drained c w ret c1 w1
    ∧ let q := e_recv (w_env w) (fd c) in
      let input := input_data c ++ arriving q in
      if decide (MAX_REQUEST_SIZE < length input)
      then ret = true ∧ state c1 = PROCESSING ∧ resp_val c1 = RESP_414
      else input_data c1 = input ∧ (ret, state c1) = ending q
           ∧ e_recv (w_env w1) (fd c) = remaining q.
Proof.
  intros Hc Hw Hown Hp.
  destruct (recv_loop_run (recv_fuel (fd c) w) c w Hc Hw Hown ltac:(unfold recv_fuel; lia))
    as (ret & c1 & w1 & E & Hdr). exists ret, c1, w1. split; [done|]. split; [done|].
  destruct Hdr as [_ _ _ _ _ _ _ Hd]. specialize (Hd Hp). cbv zeta in *.
  destruct (rd_input _ Hc) as (Hl & _). rewrite length_app, Hl.
  case_decide; [done|]. by destruct Hd as (? & ? & _ & ?).
Qed.

(** The buffer of a client whose input is known. *)
Lemma input_block c input :
  input_ok c → input_data c = input → input ≠ [] →
  ∃ blk, in_buf c = Some blk ∧ b_data blk = input ∧ input_length c = length input.
Proof.
  intros (Hl & _) Hd Hne. unfold input_data in *. rewrite Hd in Hl.
  destruct (in_buf c) as [blk|]; [by exists blk|]. by simpl in Hd.
Qed.

(** do_read, on every outcome. *)
Lemma read_total c p w t :
  log_ready g → reading c → world_ok w → owns w c → plenty w →
  gmtime_iso (e_now (w_env w)) = Some t →
  let q := e_recv (w_env w) (fd c) in
  let r := read_spec q (input_data c) in
  let rr := reference (w_env w) (has_flag g C_FLAG) (client_addr c) (body_len c) in
  ∃ c' p' w' evs, read_client g c p w = (Ret (c', p'), w')
    ∧ read_outcome w' c p rr r c' p'
    ∧ extends w w' evs
    ∧ match r with
      | Answers line =>
          log_lines evs = if logging_on g then [log_line (client_addr c) t line (rr line)] else []
      | _ => evs = []
      end
    ∧ (r ≠ TooLong → e_recv (w_env w') (fd c) = remaining q).
Proof.
  intros Hlog Hc Hw Hown Hp Ht q r rr.
  destruct (recv_reads c w Hc Hw Hown Hp) as (ret & c1 & w1 & E & Hdr & Hd). cbv zeta in Hd.
  destruct Hdr as [Hh Hrc Hfd [Hca Hbl] _ Htr _ _]. fold q in Hd.
  unfold r, read_spec. set (input := input_data c ++ arriving q) in *.
  assert (extends w w1 []) as Hx1 by (by apply extends_nil).
  unfold read_client, get. run. rewrite E. cbv iota beta.
  case_decide as Hmax.
  { destruct Hd as (-> & Hst & Hr). exists c1, p, w1, []. split; [done|].
    split; [split_and!; [done|done|apply Hrc]|]. by split_and!. }
  destruct Hd as (Hdata & Hst & Hrem). rewrite <-Hst. cbn [fst snd].
  assert (state c1 = CLOSING → read_outcome w1 c p rr Drops c1 p) as Hdrop by (intros; split; [done|apply Hrc]).
  assert (state c1 = READING → read_outcome w1 c p rr (Waits input) c1 p) as Hwait.
  { intros Hr. split_and!; try done. by apply reading_intro. }
  destruct ret.
  { exists c1, p, w1, []. split; [done|].
    split; [apply Hdrop; by eapply ending_returned|]. by split_and!. }
  assert (∀ r', r' = (if decide (state c1 = CLOSING) then Drops else Waits input) →
    read_outcome w1 c p rr r' c1 p) as Hstay.
  { intros r' ->. case_decide; [by apply Hdrop|]. apply Hwait.
    by destruct (ending_open q (state c1)). }
  destruct (strnstr input HEADER_END (length input)) as [e|] eqn:He.
  - destruct (input_block c1 input) as (blk & Hblk & Hbd & Hil);
      [apply Hrc|done|by intros Hn; rewrite Hn in He|].
    pose proof (strnstr_bound _ _ _ _ He) as Hbound. rewrite length_take in Hbound.
    change (length HEADER_END) with 4 in Hbound.
    rewrite Hblk, Hil, Hbd. rewrite decide_False by lia. rewrite He.
    pose proof Hh as (K & Hown1 & _).
    destruct (respond_reference (set_header_len c1 (e + 4)) input e w1 t)
      as (c2 & w2 & evs & E2 & H1 & H2 & H3 & H4);
      [done|by eapply calm_ok|done|by destruct Hrc|by eapply calm_plenty
      |by destruct K as (_ & [_ [[-> _] _]] & _)
      |apply (strnstr_shorter _ _ _ _ (e + 4) He); simpl; lia|simpl; lia|].
    rewrite E2. exists c2, (mkPollFd (pfd_fd p) POLLOUT (pfd_revents p)), w2, evs.
    simpl in H2, H4. rewrite (first_line_exact _ _ _ He), Hca, Hbl in H2, H4.
    rewrite (reference_same (w_env w) (w_env w1)) in H2, H4 by (by destruct K as (_ & [_ ?] & _)).
    split; [done|]. split; [by split_and!|]. split; [by apply (extends_trans w w1 w2 [])|].
    split; [done|]. intros _. rewrite <-Hrem.
    by apply (does_elsewhere _ _ _ _ _ _ (fd c) (does_respond g _ _ (fd c + 1)%Z) E2); simpl; lia.
  - assert (read_outcome w1 c p rr (if decide (state c1 = CLOSING) then Drops else Waits input) c1 p)
      by by apply Hstay.
    exists c1, p, w1, []. split; [|split; [done|split; [done|split; [by case_decide|done]]]].
    destruct (in_buf c1) as [blk|] eqn:Hblk; [|done].
    destruct (decide (input_length c1 = 0)); [done|].
    destruct (rc_input _ Hrc) as (Hil & _). unfold input_data in Hdata, Hil.
    rewrite Hblk in Hdata, Hil. simpl in Hdata, Hil. by rewrite Hdata, <-Hil, Hdata, He.
Qed.

(** do_read on a connection that has a complete request. *)
Lemma read_reference c p w t line :
  log_ready g → complete_request c w t line →
  let rr := reference (w_env w) (has_flag g C_FLAG) (client_addr c) (body_len c) line in
  ∃ c' p' w' evs, read_client g c p w = (Ret (c', p'), w')
    ∧ state c' = SENDING_HEADER ∧ pfd_events p' = POLLOUT ∧ pfd_fd p' = pfd_fd p
    ∧ delivers w' c' rr ∧ extends w w' evs
    ∧ log_lines evs = (if logging_on g then [log_line (client_addr c) t line rr] else []).
Proof.
  intros Hlog [Hc Hw Hown Hp Ht Hlen Hend [[e He] ->]] rr.
  destruct (read_total c p w t Hlog Hc Hw Hown Hp Ht) as (c' & p' & w' & evs & E & Ho & Hx & Hl & _).
  exists c', p', w', evs. unfold read_spec in *. rewrite decide_False in Ho, Hl by lia.
  rewrite Hend in Ho, Hl. rewrite He in Ho, Hl. destruct Ho as (? & ? & ? & ?). by split_and!.
Qed.
End answering.

(** ** Requests in pieces *)

(** Results that deliver bytes, with interruptions between them. *)
Definition delivering : list recv_result → Prop := Forall (λ r,
  match r with RecvData d => d ≠ [] | RecvErr e => e = EINTR end).

(** do_read, [n] times. *)
Fixpoint read_turns `{External} (g : Globals) (n : nat) (c : Client) (p : PollFd)
    : M (Client * PollFd) :=
  match n with
  | 0 => mret (c, p)
  | S n' => r ← read_client g c p; read_turns g n' r.1 r.2
  end.

Lemma delivering_app q1 q2 :
  delivering q1 →
  arriving (q1 ++ q2) = arriving q1 ++ arriving q2 ∧ ending (q1 ++ q2) = ending q2
  ∧ remaining (q1 ++ q2) = remaining q2.
Proof.
  induction 1 as [|r q1 Hr _ (IH1 & IH2 & IH3)]; [done|].
  destruct r as [[|x d]|e]; [done| |subst e]; simpl; rewrite ?IH1, ?app_assoc; done.
Qed.

Lemma delivering_concat pieces : Forall delivering pieces → delivering (concat pieces).
Proof. induction 1; [by constructor|by apply Forall_app]. Qed.

(** What is received is taken off the queue. *)
Lemma arriving_queued q : queued_bytes q = arriving q ++ queued_bytes (remaining q).
Proof.
  unfold queued_bytes. induction q as [|[[|a d]|e] q IH]; csimpl; try done.
  - by rewrite IH, app_assoc.
  - destruct (would_block e); [done|]. by case_decide.
Qed.

(** What has been received and what is still to come are one input. *)
Lemma read_spec_app q1 q2 input :
  delivering q1 → read_spec (q1 ++ q2) input = read_spec q2 (input ++ arriving q1).
Proof.
  intros Hq. destruct (delivering_app q1 q2 Hq) as (Ha & He & _). unfold read_spec.
  by rewrite Ha, He, app_assoc.
Qed.

(** A piece that does not complete the headers. *)
Lemma first_wait `{External} g (Hmagic : magic_ok) c p w t d q :
  log_ready g → reading c → world_ok w → owns w c → plenty w →
  gmtime_iso (e_now (w_env w)) = Some t → delivering d →
  e_recv (w_env w) (fd c) = d ++ [RecvErr EAGAIN] ++ q →
  let input := input_data c ++ arriving d in
  length input ≤ MAX_REQUEST_SIZE → strnstr input HEADER_END (length input) = None →
  ∃ c' w', read_client g c p w = (Ret (c', p), w') ∧ w_trace w' = w_trace w
    ∧ reading c' ∧ input_data c' = input ∧ e_recv (w_env w') (fd c) = q
    ∧ hands w c w' c' ∧ fd c' = fd c.
Proof.
  intros Hlog Hc Hw Hown Hp Ht Hd Hq input Hlen Hn.
  destruct (read_total g Hmagic c p w t Hlog Hc Hw Hown Hp Ht)
    as (c' & p' & w' & evs & E & Ho & Hx & Hl & Hrem).
  destruct (read_client_run g Hmagic c p w t Hlog Hw Hown Hc Ht)
    as (c2 & p2 & w2 & E2 & Hh & Hf & _).
  rewrite E in E2. injection E2 as <- <- <-. rewrite Hq in Ho, Hl, Hrem.
  destruct (delivering_app d ([RecvErr EAGAIN] ++ q) Hd) as (Ha & He & Hr).
  assert (read_spec (d ++ [RecvErr EAGAIN] ++ q) (input_data c) = Waits input) as Hs.
  { unfold read_spec. rewrite Ha, He. cbn [arriving ending app fst snd]. change (would_block EAGAIN) with true.
    cbv iota. rewrite app_nil_r. fold input. rewrite decide_False by lia. by rewrite Hn. }
  rewrite Hs in Ho, Hrem. destruct Ho as (Hc' & Hi & _ & _ & ->).
  rewrite Hs in Hl. subst evs. unfold extends in Hx. rewrite app_nil_r in Hx.
  exists c', w'. do 4 (split; [done|]). split; [by rewrite Hrem, Hr|done].
Qed.

Lemma read_turns_run `{External} g (Hmagic : magic_ok) c p w t pieces q :
  log_ready g → reading c → world_ok w → owns w c → plenty w →
  gmtime_iso (e_now (w_env w)) = Some t → Forall delivering pieces →
  e_recv (w_env w) (fd c) = (pieces ≫= λ d, d ++ [RecvErr EAGAIN]) ++ q →
  let input := input_data c ++ arriving (concat pieces) in
  strnstr input HEADER_END (length input) = None → length input ≤ MAX_REQUEST_SIZE →
  ∃ c' w', read_turns g (length pieces) c p w = (Ret (c', p), w') ∧ w_trace w' = w_trace w
    ∧ reading c' ∧ input_data c' = input ∧ e_recv (w_env w') (fd c') = q
    ∧ hands w c w' c' ∧ fd c' = fd c.
Proof.
  intros Hlog. revert c w. induction pieces as [|d pieces IH]; intros c w Hc Hw Hown Hp Ht Hd Hq input Hn Hlen.
  - exists c, w. unfold input. rewrite app_nil_r. split_and!; try done; by apply hands_refl.
  - apply Forall_cons in Hd as [Hd Hds].
    set (rest := (pieces ≫= λ d, d ++ [RecvErr EAGAIN]) ++ q) in *.
    assert (e_recv (w_env w) (fd c) = d ++ [RecvErr EAGAIN] ++ rest) as Hq1.
    { rewrite Hq. unfold rest. cbn [mbind list_bind]. by rewrite <-!app_assoc. }
    unfold input in Hn, Hlen |- *. cbn [concat] in Hn, Hlen |- *.
    destruct (delivering_app d (concat pieces) Hd) as (Ha & _). rewrite Ha, app_assoc in Hn, Hlen |- *.
    destruct (first_wait g Hmagic c p w t d rest) as (c1 & w1 & E & Htr & Hc1 & Hi1 & Hq2 & Hh & Hf);
      try done.
    { rewrite length_app in Hlen. lia. }
    { destruct (strnstr (input_data c ++ arriving d) _ _) as [i|] eqn:Hi; [|done].
      by rewrite (strnstr_app _ _ _ _ Hi) in Hn. }
    pose proof Hh as (K & Hown1 & _).
    destruct (IH c1 w1) as (c' & w' & E' & Htr' & Hc' & Hi' & Hq' & Hh' & Hf');
      [done|by eapply calm_ok|done|by eapply calm_plenty
      |by destruct K as (_ & [_ [[-> _] _]] & _)|done|by rewrite Hf|by rewrite Hi1..|].
    exists c', w'. cbn [read_turns length]. rewrite (bind_run _ _ _ _ _ E). cbn [fst snd].
    rewrite E'. rewrite Hi1 in Hi'.
    split_and!; try done; [congruence|by eapply hands_trans|congruence].
Qed.

(** * Properties *)

(** C7. do_read implements the reference. While memory does not run out, on any waiting
    connection, whatever has been received, however what is queued is cut and whatever the file system, the CGI
    program and the clock are, do_read returns and does what read_spec says: the
    request goes on with the bytes received so far; or it is complete, exactly the
    reference's response to its first line is staged (code, status line, announced
    length and content, for every method, resource and error), the connection waits
    to be writable, and exactly one line is logged, of the peer, the date, the first
    line, the code and the length; or the connection is to be dropped; or the request
    is too long. In the other cases nothing is logged, closed or freed. The results not
    needed stay queued. *)
Theorem do_read_refines_reference `{External} g c p w t :
  magic_ok → log_ready g → reading c → world_ok w → owns w c → plenty w →
  gmtime_iso (e_now (w_env w)) = Some t →
  let q := e_recv (w_env w) (fd c) in
  let r := read_spec q (input_data c) in
  let rr := reference (w_env w) (has_flag g C_FLAG) (client_addr c) (body_len c) in
  ∃ c' p' w' evs, read_client g c p w = (Ret (c', p'), w')
    ∧ read_outcome w' c p rr r c' p'
    ∧ extends w w' evs
    ∧ match r with
      | Answers line =>
          log_lines evs = if logging_on g then [log_line (client_addr c) t line (rr line)] else []
      | _ => evs = []
      end
    ∧ (r ≠ TooLong → e_recv (w_env w') (fd c) = remaining q).
Proof. intros Hmagic ?????. by apply read_total. Qed.

(** C20. Cutting a request into rounds does not matter, while memory does not run out. When
    the bytes arrive in pieces
    between which the socket has nothing to give, do_read, called once per piece,
    waits without logging or answering as long as the headers are not complete;
    and what the next call then makes of the last piece is what one call would have
    made of all the bytes at once. *)
Theorem request_in_pieces `{External} g c p w t pieces q :
  magic_ok → log_ready g → reading c → world_ok w → owns w c → plenty w →
  gmtime_iso (e_now (w_env w)) = Some t → Forall delivering pieces →
  e_recv (w_env w) (fd c) = (pieces ≫= λ d, d ++ [RecvErr EAGAIN]) ++ q →
  let input := input_data c ++ arriving (concat pieces) in
  strnstr input HEADER_END (length input) = None → length input ≤ MAX_REQUEST_SIZE →
  ∃ c' w', read_turns g (length pieces) c p w = (Ret (c', p), w') ∧ w_trace w' = w_trace w
    ∧ reading c' ∧ input_data c' = input ∧ e_recv (w_env w') (fd c') = q
    ∧ read_spec (e_recv (w_env w') (fd c')) (input_data c')
      = read_spec (concat pieces ++ q) (input_data c).
Proof.
  intros Hm Hl Hc Hw Hown Hp Ht Hd Hq input Hn Hlen.
  destruct (read_turns_run g Hm c p w t pieces q) as (c' & w' & E & Htr & Hc' & Hi & Hq' & _);
    try done.
  exists c', w'. do 5 (split; [done|]). rewrite Hq', Hi. unfold input. symmetry.
  apply read_spec_app. by apply delivering_concat.
Qed.

(** * Witnesses *)

Lemma sample_complete q line :
  (ending q).1 = false → length (arriving q) ≤ MAX_REQUEST_SIZE →
  is_Some (strnstr (arriving q) HEADER_END (length (arriving q))) →
  line = first_line (arriving q) (length (arriving q)) →
  complete_request conn_b (read_world q) (default [] (gmtime_iso (e_now sample_env))) line.
Proof.
  intros H1 H2 H3 H4. constructor.
  - apply conn_b_reading.
  - apply read_world_ok.
  - apply conn_b_owns.
  - apply read_world_plenty.
  - vm_compute. reflexivity.
  - exact H2.
  - exact H1.
  - split; [exact H3|exact H4].
Qed.

Lemma do_read_refines_reference_witness :
  ∃ c' p' w', read_client globals_init conn_b (mkPollFd 5 POLLIN POLLIN)
      (read_world (request_queue [])) = (Ret (c', p'), w')
    ∧ delivers w' c' (file_reply false 5 (B "hello")).
Proof.
  destruct (do_read_refines_reference globals_init conn_b (mkPollFd 5 POLLIN POLLIN)
    (read_world (request_queue [])) (default [] (gmtime_iso (e_now sample_env)))
    sample_magic_ok quiet_log_ready conn_b_reading (read_world_ok _) (conn_b_owns _)
    (read_world_plenty _) ltac:(vm_compute; reflexivity)) as (c' & p' & w' & evs & H1 & H2 & _).
  exists c', p', w'. split; [exact H1|].
  assert (read_spec (e_recv (w_env (read_world (request_queue []))) (fd conn_b)) (input_data conn_b)
          = Answers (B "GET /a.html HTTP/1.0")) as Hr by (vm_compute; reflexivity).
  rewrite Hr in H2. destruct H2 as (_ & _ & _ & H2). vm_compute in H2 |- *. exact H2.
Defined.

(** The same request, in two pieces in different rounds. *)
Definition first_piece : list recv_result := [RecvData (take 9 sample_request); RecvErr EINTR].
Definition last_piece : list recv_result := [RecvData (drop 9 sample_request)].

Lemma request_in_pieces_witness :
  ∃ c' w', read_turns globals_init 1 conn_b (mkPollFd 5 POLLIN POLLIN)
      (read_world (first_piece ++ [RecvErr EAGAIN] ++ last_piece)) = (Ret (c', mkPollFd 5 POLLIN POLLIN), w')
    ∧ read_spec (e_recv (w_env w') (fd c')) (input_data c') = Answers (B "GET /a.html HTTP/1.0").
Proof.
  destruct (request_in_pieces globals_init conn_b (mkPollFd 5 POLLIN POLLIN)
    (read_world (first_piece ++ [RecvErr EAGAIN] ++ last_piece))
    (default [] (gmtime_iso (e_now sample_env))) [first_piece] last_piece
    sample_magic_ok quiet_log_ready conn_b_reading (read_world_ok _) (conn_b_owns _)
    (read_world_plenty _) ltac:(vm_compute; reflexivity) ltac:(repeat constructor; discriminate)
    ltac:(vm_compute; reflexivity) ltac:(vm_compute; reflexivity) ltac:(by_eval))
    as (c' & w' & H1 & _ & _ & _ & _ & H2).
  exists c', w'. split; [exact H1|]. rewrite H2. vm_compute. reflexivity.
Defined.
