(* ===== verification/Loop.v ===== *)
(** * Loop: the event loop of main.c keeps its invariant

    What holds of the connection table between two steps of the loop, the step
    relation of a connection's life, and the lemmas that each turn, each round and
    the loop keep the one and follow the other. *)

From S2P Require Import Prelude CLib Types OS Flags Logging ParseRequest ResolvePath Response.
From S2P Require Import Messages Connections DoRead EndToEnd DoWrite Sockets Main.

(** ** The invariant of the loop *)

(** The addresses inet_ntop(3) writes fit their buffer, and gmtime(3) knows the
    year. *)
Definition addr_fits (r : accept_result) : Prop :=
  match r with
  | Accepted n => from_option length 0 (nc_addr n) < INET6_ADDRSTRLEN
  | AcceptErr _ => True
  end.
Definition outside_ok (w : World) : Prop :=
  is_Some (gmtime_iso (e_now (w_env w))) ∧ ∀ x, Forall addr_fits (e_accept (w_env w) x).

(** The table and the heap agree, and every connection is in a state the loop can go
    on with. *)
Record serving_ok (nl : nat) (t : Table) (w : World) : Prop := {
  sv_table : table_ok nl t;
  sv_heap : heap_ok nl t w;
  sv_world : world_ok w;
  sv_clients : Forall (λ pc, client_ok pc.2) (conns nl t);
  sv_outside : outside_ok w
}.

(** No connection is left closing. *)
Definition settled (l : list (PollFd * Client)) : Prop := Forall (λ pc, state pc.2 ≠ CLOSING) l.

(** The invariant between the steps of the loop: as the last two together say, each
    connection is READING, PROCESSING or SENDING_HEADER. *)
Definition server_ok (nl : nat) (t : Table) (w : World) : Prop :=
  serving_ok nl t w ∧ settled (conns nl t).

(** Memory does not run out and no send is refused. *)
Definition steady (w : World) : Prop :=
  plenty w ∧ ∀ x, accepting (e_send (w_env w) x).

Lemma calm_outside w w' : calm w w' → outside_ok w → outside_ok w'.
Proof.
  intros (_ & [_ [(Hn & _) [Ha _]]] & _) [Ht Hq]. split; [by rewrite Hn|].
  intros x. destruct (Ha x) as [k ->]. by apply Forall_drop.
Qed.

Lemma calm_steady w w' : calm w w' → steady w → steady w'.
Proof.
  intros K [Hp Ha]. split; [by eapply calm_plenty|]. destruct K as (_ & [_ [_ [_ Hs]]] & _).
  intros x. destruct (Hs x) as [k ->]. apply Forall_drop, Ha.
Qed.

(** A part of a run, judged from the start of the run. *)
Lemma safe_from {A} w w1 (r : outcome A * World) P :
  calm w w1 → safe (¬ steady w1) w1 r P → safe (¬ steady w) w r P.
Proof.
  intros K. apply safe_weaken; [done| |done]. intros Hn Hs. apply Hn. by eapply calm_steady.
Qed.

Lemma run_safe {A} (X : Prop) w (a : A) w' (P : A → World → Prop) r :
  r = (Ret a, w') → calm w w' → P a w' → safe X w r P.
Proof. by intros ->. Qed.

(** ** The events poll reports *)

Definition view (pc : PollFd * Client) : Z * Client := (pfd_fd pc.1, pc.2).

Lemma active_poll_update r t :
  active (poll_update r t)
  = imap (λ i pc, (mkPollFd (pfd_fd pc.1) (pfd_events pc.1) (r i), pc.2)) (active t).
Proof.
  apply list_eq. intros i. rewrite list_lookup_imap.
  destruct (decide (i < fd_count t)) as [Hi|Hi].
  - rewrite !active_lookup by done. simpl. rewrite list_lookup_imap.
    destruct (pfds t !! i), (clients t !! i); simpl; try done. by rewrite decide_True.
  - unfold active. simpl. by rewrite !lookup_take_ge by lia.
Qed.

Lemma conns_poll_update nl r t : view <$> conns nl (poll_update r t) = view <$> conns nl t.
Proof.
  unfold conns. rewrite !fmap_drop, active_poll_update. f_equal. apply list_eq. intros i.
  rewrite !list_lookup_fmap, list_lookup_imap. by destruct (active t !! i).
Qed.

Lemma conn_blocks_view l l' : view <$> l = view <$> l' → conn_blocks l = conn_blocks l'.
Proof.
  intros E. assert (∀ k, conn_blocks k = (view <$> k) ≫= λ v, owned v.2) as Hk.
  { induction k as [|x k IH]; [done|]. unfold conn_blocks in *. csimpl. by rewrite IH. }
  by rewrite !Hk, E.
Qed.

Lemma Forall_view (P : Z * Client → Prop) l l' :
  view <$> l = view <$> l' → Forall (λ pc, P (view pc)) l → Forall (λ pc, P (view pc)) l'.
Proof. intros E H. apply (Forall_fmap view). rewrite <-E. by apply (Forall_fmap view). Qed.

Lemma poll_update_ok nl r t w : server_ok nl t w → server_ok nl (poll_update r t) w.
Proof.
  intros [[[T1 T2 T3 T4 T5 T6] Hh Hw Hc Ho] Hs].
  pose proof (eq_sym (conns_poll_update nl r t)) as Hv.
  split; [|exact (Forall_view (λ v, state v.2 ≠ CLOSING) _ _ Hv Hs)]. constructor; try done.
  - constructor; simpl; rewrite ?length_imap; try done.
    exact (Forall_view (λ v, v.1 = fd v.2) _ _ Hv T6).
  - unfold heap_ok, table_blocks in *. by rewrite <-(conn_blocks_view _ _ Hv).
  - exact (Forall_view (λ v, client_ok v.2) _ _ Hv Hc).
Qed.

(** ** New connections *)

Lemma taken_elem n q : n ∈ taken q → Accepted n ∈ q.
Proof.
  induction q as [|[m|e] q IH]; simpl; [by intros ?%elem_of_nil| |].
  - rewrite !elem_of_cons. intros [->|Hn]; [by left|right; auto].
  - intros Hn. right. destruct (would_block e); [by apply elem_of_nil in Hn|].
    case_decide; [auto|by apply elem_of_nil in Hn].
Qed.

Lemma length_taken q : length (taken q) ≤ length q.
Proof.
  induction q as [|[m|e] q IH]; simpl; [done|lia|].
  destruct (would_block e); simpl; [lia|]. case_decide; simpl; lia.
Qed.

(** An entry added in this round. *)
Definition just_accepted (pc : PollFd * Client) : Prop :=
  state pc.2 = READING ∧ pfd_revents pc.1 = 0%Z ∧ input_data pc.2 = [].

Lemma accepted_ok n pc :
  addr_fits (Accepted n) → accepted_as n pc → client_ok pc.2 ∧ just_accepted pc.
Proof.
  intros Ha [old ->]. split; [|done]. constructor; try done.
  - split_and!; [done|done|by left].
  - simpl in *. unfold peer_name. destruct (nc_addr n); [done|]. by_eval.
Qed.

Lemma accept_step nl lfd t w :
  server_ok nl t w →
  safe (¬ steady w) w (accept_new_conn lfd t w) (λ t' w',
    server_ok nl t' w'
    ∧ ∃ new, active t' = active t ++ new ∧ length new ≤ length (e_accept (w_env w) lfd)
        ∧ Forall just_accepted new).
Proof.
  intros [[Ht Hh Hw Hc Ho] Hs]. unfold accept_new_conn, get. run.
  eapply (safe_weaken (¬ plenty w) _ w w); [auto with server|by intros Hn [? _]| |
    apply (accept_loop_safe nl); [done..|unfold accept_fuel; lia]].
  intros t' w' K (new & Ha & Hcs & Hnew & _ & Ht' & Hh' & _).
  set (q := e_accept (w_env w) lfd) in *.
  assert (Forall (λ pc, client_ok pc.2 ∧ just_accepted pc) new) as Hok.
  { rewrite Forall_lookup. intros i pc Hpc.
    destruct (Forall2_lookup_r _ _ _ _ _ Hnew Hpc) as (n & Hn & Hacc).
    apply list_elem_of_lookup_2, list_elem_of_filter in Hn as [_ Hn%taken_elem].
    eapply accepted_ok; [|exact Hacc]. destruct Ho as [_ Hq].
    specialize (Hq lfd). rewrite Forall_forall in Hq. exact (Hq _ Hn). }
  split; [split|].
  - constructor; [done..|by eapply calm_ok| |by eapply calm_outside].
    rewrite Hcs. apply Forall_app. split; [done|]. eapply Forall_impl; [exact Hok|]. by intros ? [].
  - unfold settled. rewrite Hcs. apply Forall_app. split; [done|].
    eapply Forall_impl; [exact Hok|]. by intros pc [_ [-> _]].
  - exists new. split; [done|]. rewrite <-(Forall2_length _ _ _ Hnew). split.
    + etransitivity; [apply length_filter|apply length_taken].
    + eapply Forall_impl; [exact Hok|]. by intros ? [].
Qed.

(** ** One connection *)

Lemma entry_slots nl t i p c :
  table_ok nl t → active t !! i = Some (p, c) →
  i < fd_count t ∧ pfds t !! i = Some p ∧ clients t !! i = Some c.
Proof.
  intros Ht Ha. assert (i < fd_count t) as Hi.
  { rewrite <-(length_active nl) by done. by eapply lookup_lt_Some. }
  rewrite active_lookup in Ha by done.
  destruct (pfds t !! i), (clients t !! i); simpl in Ha; naive_solver.
Qed.

Lemma entry_client_ok nl t w i p c :
  serving_ok nl t w → nl ≤ i → active t !! i = Some (p, c) → client_ok c ∧ pfd_fd p = fd c.
Proof.
  intros [[_ _ _ _ _ Hs] _ _ Hc _] Hi Ha. rewrite <-(conns_lookup nl) in Ha by done.
  rewrite Forall_lookup in Hs, Hc. by split; [apply (Hc _ _ Ha)|apply (Hs _ _ Ha)].
Qed.

Lemma conns_set_entry nl i p c t :
  nl ≤ i → conns nl (set_entry i p c t) = <[i - nl := (p, c)]> (conns nl t).
Proof. intros Hi. unfold conns. by rewrite active_set_entry, drop_insert_ge. Qed.

(** A step of one client within the table. *)
Lemma entry_step nl i p c p' c' t w w' :
  serving_ok nl t w → nl ≤ i → active t !! i = Some (p, c) →
  hands w c w' c' → pfd_fd p' = pfd_fd p → fd c' = fd c → client_ok c' →
  serving_ok nl (set_entry i p' c' t) w'.
Proof.
  intros Hs Hi Ha Hh Hp Hf Hok. destruct (entry_client_ok _ _ _ _ _ _ Hs Hi Ha) as [_ Hsync].
  destruct Hs as [Ht Hheap Hw Hc Ho]. pose proof Hh as [K _]. constructor.
  - apply set_entry_ok; [done..|congruence].
  - by eapply heap_hands.
  - by eapply calm_ok.
  - rewrite conns_set_entry by done. by apply Forall_insert.
  - by eapply calm_outside.
Qed.

(** The connections but one: a step of that one leaves them alone. *)
Definition others (nl i : nat) (t : Table) : list (PollFd * Client) :=
  take (i - nl) (conns nl t) ++ drop (S (i - nl)) (conns nl t).

Lemma conns_others nl t i p c :
  nl ≤ i → active t !! i = Some (p, c) → conns nl t ≡ₚ (p, c) :: others nl i t.
Proof.
  intros Hi Ha. rewrite <-(conns_lookup nl) in Ha by done. unfold others.
  rewrite <-(take_drop_middle _ _ _ Ha) at 1. solve_Permutation.
Qed.

Lemma others_set_entry nl i p c t : nl ≤ i → others nl i (set_entry i p c t) = others nl i t.
Proof.
  intros Hi. unfold others. rewrite conns_set_entry by done.
  by rewrite take_insert_ge, drop_insert_lt by lia.
Qed.

Lemma settled_others nl i t p c :
  nl ≤ i → active t !! i = Some (p, c) →
  settled (conns nl t) ↔ state c ≠ CLOSING ∧ settled (others nl i t).
Proof. intros Hi Ha. unfold settled. by rewrite (conns_others nl t i p c), Forall_cons. Qed.

Lemma active_set_eq nl i p c t :
  table_ok nl t → i < fd_count t → active (set_entry i p c t) !! i = Some (p, c).
Proof.
  intros Ht Hi. rewrite active_set_entry. apply list_lookup_insert_eq.
  by rewrite (length_active nl).
Qed.

Lemma set_entry_same i p c t :
  pfds t !! i = Some p → clients t !! i = Some c → set_entry i p c t = t.
Proof. intros Hp Hc. unfold set_entry, set_pfd, set_client. simpl. rewrite !list_insert_id; by destruct t. Qed.

Lemma set_entry_twice i p c p' c' t : set_entry i p' c' (set_entry i p c t) = set_entry i p' c' t.
Proof. unfold set_entry, set_pfd, set_client. simpl. by rewrite !list_insert_insert_eq. Qed.

Lemma close_step nl i p c t w :
  serving_ok nl t w → nl ≤ i → active t !! i = Some (p, c) →
  ∃ t' w', close_conn i t w = (Ret t', w') ∧ calm w w' ∧ serving_ok nl t' w'
    ∧ active t' = swap_remove i (active t) ∧ conns nl t' ≡ₚ others nl i t.
Proof.
  intros [Ht Hh Hw Hc Ho] Hi Ha.
  destruct (close_conn_correct nl i t p c w Ht Hh Hw Hi Ha)
    as (t' & E & Hact & Hperm & Hn & Ht' & Hh' & K).
  exists t', (w_closed c w). split; [done|]. split; [exact K|]. split; [|split; [done|]].
  - constructor; [done|done|by eapply calm_ok| |by eapply calm_outside].
    rewrite <-Hperm in Hc. by inversion Hc.
  - rewrite (conns_others nl t i p c) in Hperm by done. by apply Permutation_cons_inv in Hperm.
Qed.

Lemma state_of_lookup i t c : clients t !! i = Some c → state_of i t = Some (state c).
Proof. unfold state_of. by intros ->. Qed.

Lemma write_step nl i p c t w :
  serving_ok nl t w → nl ≤ i → active t !! i = Some (p, c) → state c = SENDING_HEADER →
  safe (¬ steady w) w (do_write i t w) (λ t' w',
    ∃ c', t' = set_entry i p c' t ∧ state c' = CLOSING ∧ serving_ok nl t' w').
Proof.
  intros Hs Hi Ha Hst. destruct (entry_slots _ _ _ _ _ (sv_table _ _ _ Hs) Ha) as (Hlt & Hp & Hc).
  destruct (entry_client_ok _ _ _ _ _ _ Hs Hi Ha) as [Hok _].
  unfold do_write. rewrite Hc. unfold client_ok in Hok. rewrite Hst in Hok.
  apply (safe_bind _ _ _ _ _ (λ c' w', state c' = CLOSING ∧ fd c' = fd c ∧ owned c' = owned c
    ∧ sends w w' (fd c) (drop (output_sent c) (from_option b_data [] (out_buf c))))).
  - eapply (safe_weaken _ _ w w); [apply calm_refl, Hs| |by intros c1 w1 _ H1; exact H1|
      apply (write_client_run c w (sv_world _ _ _ Hs) Hok)].
    intros Hn [_ Hacc]. apply Hn, Hacc.
  - intros c' w' K (Hcl & Hf & How & _ & Hb & _ & Hn & _). split; [done|]. exists c'.
    rewrite (set_client_entry _ p) by done. split; [done|]. split; [done|].
    eapply entry_step; [exact Hs|done|exact Ha| |done|done|by unfold client_ok; rewrite Hcl].
    apply hands_same; [done|by eapply heap_entry_owns; [| |apply Hs]|done|lia|done].
Qed.

Section serving.
Context `{External} (g : Globals).
Context (Hmagic : magic_ok) (Hlog : log_ready g).

Lemma read_step nl i p c t w :
  serving_ok nl t w → nl ≤ i → active t !! i = Some (p, c) → state c = READING →
  ∃ p' c' w', do_read g i t w = (Ret (set_entry i p' c' t), w') ∧ calm w w'
    ∧ serving_ok nl (set_entry i p' c' t) w' ∧ client_ok c' ∧ pfd_fd p' = pfd_fd p.
Proof.
  intros Hs Hi Ha Hst. destruct (entry_slots _ _ _ _ _ (sv_table _ _ _ Hs) Ha) as (Hlt & Hp & Hc).
  destruct (entry_client_ok _ _ _ _ _ _ Hs Hi Ha) as [Hok _].
  unfold client_ok in Hok. rewrite Hst in Hok. pose proof (sv_outside _ _ _ Hs) as [[u Hu] _].
  destruct (read_client_run g Hmagic c p w u Hlog (sv_world _ _ _ Hs)
    (heap_entry_owns _ _ _ _ _ _ Hi Ha (sv_heap _ _ _ Hs)) Hok Hu)
    as (c' & p' & w' & E & Hh & Hf & Hpf & Hok' & _).
  exists p', c', w'. unfold do_read. rewrite Hc, Hp, (bind_run _ _ _ _ _ E).
  split; [done|]. split; [apply Hh|]. split; [by eapply entry_step|done].
Qed.

(** What the loop makes of a connection, by its state and the events poll reports:
    the next state, or [None] when it is closed. *)
Inductive client_step (revents : Z) : client_state → option client_state → Prop :=
| step_broken s : has_event revents BROKEN = true → client_step revents s None
| step_wait : client_step revents READING (Some READING)
| step_too_long : has_event revents POLLIN = true → client_step revents READING (Some PROCESSING)
| step_answered :
    has_event revents POLLIN = true → has_event revents POLLOUT = false →
    client_step revents READING (Some SENDING_HEADER)
| step_dropped : has_event revents POLLIN = true → client_step revents READING None
| step_stuck : client_step revents PROCESSING (Some PROCESSING)
| step_unready :
    has_event revents POLLOUT = false → client_step revents SENDING_HEADER (Some SENDING_HEADER)
| step_sent : has_event revents POLLOUT = true → client_step revents SENDING_HEADER None.
#[local] Hint Constructors client_step : core.

(** The outcome of serving the connection [(p, c)] at [i]: the entries before it stay;
    it is removed, the entries after it keeping their order or not, or it goes on in
    its place. *)
Record served_as (nl i : nat) (revents : Z) (p : PollFd) (c : Client) (t : Table)
    (closed : bool) (t' : Table) (w' : World) : Prop := {
  sd_ok : server_ok nl t' w';
  sd_before : take i (active t') = take i (active t);
  sd_entry :
    if closed
    then client_step revents (state c) None ∧ drop i (active t') ≡ₚ drop (S i) (active t)
    else ∃ p' c', client_step revents (state c) (Some (state c')) ∧ pfd_fd p' = pfd_fd p
           ∧ active t' !! i = Some (p', c') ∧ drop (S i) (active t') = drop (S i) (active t)
}.

Lemma close_served nl i revents p c p1 c1 t w w0 :
  calm w0 w → serving_ok nl (set_entry i p1 c1 t) w → settled (others nl i t) → nl ≤ i →
  i < fd_count t → client_step revents (state c) None →
  safe (¬ steady w0) w0 ((t ← close_conn i (set_entry i p1 c1 t); mret (true, t)) w)
    (λ '(closed, t') w', served_as nl i revents p c t closed t' w').
Proof.
  intros K Hs Hrest Hi Hlt Hstep. pose proof (sv_table _ _ _ Hs) as Ht.
  assert (active (set_entry i p1 c1 t) !! i = Some (p1, c1)) as Ha.
  { rewrite active_set_entry. apply list_lookup_insert_eq.
    assert (length (active (set_entry i p1 c1 t)) = fd_count t) as Hl
      by (by rewrite (length_active nl)).
    by rewrite active_set_entry, length_insert in Hl; rewrite Hl. }
  destruct (close_step nl i p1 c1 _ w Hs Hi Ha) as (t' & w' & E & K' & Hs' & Hact & Hp).
  rewrite (bind_run _ _ _ _ _ E). split; [by eapply calm_trans|].
  pose proof (lookup_lt_Some _ _ _ Ha) as Hlen. constructor.
  - split; [done|]. unfold settled. by rewrite Hp, others_set_entry.
  - rewrite Hact, swap_remove_take, active_set_entry by done. by rewrite take_insert_ge.
  - split; [done|]. rewrite Hact, swap_remove_drop_perm, active_set_entry by done.
    by rewrite drop_insert_lt by lia.
Qed.

(** do_read runs on a client that waits for its request and has input. *)
Lemma read_phase nl i p c revents t w :
  serving_ok nl t w → nl ≤ i → active t !! i = Some (p, c) →
  safe (¬ steady w) w
    ((if has_event revents POLLIN && bool_decide (state_of i t = Some READING)
      then do_read g i t else mret t) w)
    (λ t1 w1, ∃ p1 c1, t1 = set_entry i p1 c1 t ∧ serving_ok nl t1 w1
      ∧ client_ok c1 ∧ pfd_fd p1 = pfd_fd p ∧ (c1 = c ∨ state c = READING ∧ has_event revents POLLIN = true)).
Proof.
  intros Hs Hi Ha. destruct (entry_slots _ _ _ _ _ (sv_table _ _ _ Hs) Ha) as (Hlt & Hp & Hc).
  destruct (entry_client_ok _ _ _ _ _ _ Hs Hi Ha) as [Hok _].
  rewrite (state_of_lookup i t c Hc). destruct (has_event revents POLLIN && _) eqn:Hev.
  - apply andb_prop in Hev as [Hin Hst%bool_decide_eq_true]. injection Hst as Hst.
    destruct (read_step nl i p c t w Hs Hi Ha Hst) as (p1 & c1 & w1 & E & K & Hs1 & Hok1 & Hf1).
    eapply run_safe; [exact E|done|]. exists p1, c1. do 4 (split; [done|]). by right.
  - split; [apply calm_refl, Hs|]. exists p, c. rewrite (set_entry_same i p c t) by done.
    do 4 (split; [done|]). by left.
Qed.

(** do_write runs on a client whose response is staged and whose socket is ready. *)
Lemma write_phase nl i p c revents t w :
  serving_ok nl t w → nl ≤ i → active t !! i = Some (p, c) →
  safe (¬ steady w) w
    ((if has_event revents POLLOUT
           && (bool_decide (state_of i t = Some SENDING_HEADER)
               || bool_decide (state_of i t = Some SENDING_BODY))
      then do_write i t else mret t) w)
    (λ t2 w2, ∃ c2, t2 = set_entry i p c2 t ∧ serving_ok nl t2 w2
      ∧ (if has_event revents POLLOUT && bool_decide (state c = SENDING_HEADER)
         then state c2 = CLOSING else c2 = c)).
Proof.
  intros Hs Hi Ha. destruct (entry_slots _ _ _ _ _ (sv_table _ _ _ Hs) Ha) as (Hlt & Hp & Hc).
  destruct (entry_client_ok _ _ _ _ _ _ Hs Hi Ha) as [Hok _].
  assert (safe (¬ steady w) w ((mret t : M Table) w)
    (λ t2 w2, ∃ c2, t2 = set_entry i p c2 t ∧ serving_ok nl t2 w2 ∧ c2 = c)) as Hskip.
  { split; [apply calm_refl, Hs|]. exists c. by rewrite (set_entry_same i p c t). }
  rewrite (state_of_lookup i t c Hc). destruct (has_event revents POLLOUT); cbn [andb]; [|done].
  unfold client_ok in Hok. destruct (state c) eqn:Hst; try done.
  rewrite !bool_decide_true by done. cbn [orb].
  eapply safe_weaken; [apply calm_refl, Hs|exact id| |by eapply write_step].
  intros t2 w2 _ (c2 & -> & Hcl & Hs2). by exists c2.
Qed.

(** The states before, between and after the two phases. *)
Lemma phases_step revents c c1 c2 :
  client_ok c → client_ok c1 → state c ≠ CLOSING →
  (c1 = c ∨ state c = READING ∧ has_event revents POLLIN = true) →
  (if has_event revents POLLOUT && bool_decide (state c1 = SENDING_HEADER)
   then state c2 = CLOSING else c2 = c1) →
  client_step revents (state c) (if decide (state c2 = CLOSING) then None else Some (state c2)).
Proof.
  unfold client_ok. intros Hok Hok1 Hncl Hc1 Hc2.
  destruct (has_event revents POLLOUT) eqn:Hout; cbn [andb] in Hc2;
    [destruct (bool_decide_reflect (state c1 = SENDING_HEADER)) as [Hsh|Hsh]|].
  - rewrite decide_True by done. destruct Hc1 as [->|[-> Hin]]; [rewrite Hsh|]; auto.
  - subst c2. destruct Hc1 as [->|[-> Hin]].
    + rewrite decide_False by done. destruct (state c); auto; done.
    + destruct (state c1); auto; done.
  - subst c2. destruct Hc1 as [->|[-> Hin]].
    + rewrite decide_False by done. destruct (state c); auto; done.
    + destruct (state c1); auto; done.
Qed.

Lemma serve_client_safe nl i p c revents t w :
  server_ok nl t w → nl ≤ i → active t !! i = Some (p, c) →
  safe (¬ steady w) w (serve_client g i revents t w)
    (λ '(closed, t') w', served_as nl i revents p c t closed t' w').
Proof.
  intros [Hs Hset] Hi Ha. pose proof (sv_table _ _ _ Hs) as Ht.
  destruct (entry_slots _ _ _ _ _ Ht Ha) as (Hlt & Hp & Hc).
  apply (settled_others nl i t p c Hi Ha) in Hset as [Hncl Hrest].
  destruct (entry_client_ok _ _ _ _ _ _ Hs Hi Ha) as [Hok _].
  unfold serve_client. destruct (has_event revents BROKEN) eqn:Hbr.
  { rewrite <-(set_entry_same i p c t) at 1 by done.
    eapply close_served; [apply calm_refl, Hs|by rewrite set_entry_same|done..|by constructor]. }
  eapply safe_bind; [by eapply (read_phase nl)|].
  intros t1 w1 K1 (p1 & c1 & -> & Hs1 & Hok1 & Hf1 & Hc1).
  assert (∀ p' c', active (set_entry i p' c' t) !! i = Some (p', c')) as Hact
    by (intros; by eapply active_set_eq).
  eapply safe_bind; [eapply (safe_from w w1), (write_phase nl i p1 c1); done|].
  intros t2 w2 K2 (c2 & -> & Hs2 & Hc2). rewrite set_entry_twice in Hs2 |- *.
  assert (state_of i (set_entry i p1 c2 t) = Some (state c2)) as Hst2.
  { apply state_of_lookup. simpl. apply list_lookup_insert_eq. destruct Ht. lia. }
  pose proof (phases_step revents c c1 c2 Hok Hok1 Hncl Hc1 Hc2) as Hstep.
  rewrite Hst2. destruct (bool_decide_reflect (Some (state c2) = Some CLOSING)) as [Hcl|Hcl].
  - injection Hcl as Hcl. rewrite decide_True in Hstep by done. by eapply close_served.
  - rewrite decide_False in Hstep by congruence. split; [done|]. constructor.
    + split; [done|]. apply (settled_others nl i _ p1 c2); [done|apply Hact|].
      split; [congruence|]. by rewrite others_set_entry.
    + by rewrite active_set_entry, take_insert_ge.
    + exists p1, c2. split; [done|]. split; [done|]. split; [apply Hact|].
      by rewrite active_set_entry, drop_insert_lt by lia.
Qed.

(** ** A round and the loop *)

Lemma waiting_drop t nl i w : nl ≤ i → waiting t nl i w = 0.
Proof.
  intros Hi. unfold waiting. rewrite drop_ge; [done|]. rewrite length_take. lia.
Qed.

(** A listener served: what its queue held is paid for. *)
Lemma waiting_step t t' nl i p c new w w' :
  active t !! i = Some (p, c) → i < nl → nl ≤ length (active t) → calm w w' →
  active t' = active t ++ new →
  length (e_accept (w_env w) (pfd_fd p)) + waiting t' nl (S i) w' ≤ waiting t nl i w.
Proof.
  intros Ha Hi Hnl K Ha'. unfold waiting. rewrite Ha', take_app_le by done.
  rewrite (drop_S _ (p, c) i) by (by rewrite lookup_take_lt).
  cbn [fmap list_fmap sum_list]. apply Nat.add_le_mono_l.
  generalize (drop (S i) (take nl (active t))). destruct K as (_ & [_ [_ [Hq _]]] & _).
  induction l as [|pc l IH]; [done|]. cbn [fmap list_fmap sum_list].
  destruct (Hq (pfd_fd pc.1)) as [k ->]. rewrite length_drop.
  apply Nat.add_le_mono; [apply Nat.le_sub_l|exact IH].
Qed.

Lemma served_count nl i revents p c t closed t' w' :
  table_ok nl t → i < fd_count t → served_as nl i revents p c t closed t' w' →
  fd_count t = if closed then S (fd_count t') else fd_count t'.
Proof.
  intros Ht Hi [[Hs _] Hb He]. rewrite <-!(length_active nl) in * by (done || apply Hs).
  apply (f_equal length) in Hb. rewrite !length_take in Hb. destruct closed.
  - destruct He as [_ He]. apply Permutation_length in He. rewrite !length_drop in He. lia.
  - destruct He as (p' & c' & _ & _ & Hl & He). apply lookup_lt_Some in Hl.
    apply (f_equal length) in He. rewrite !length_drop in He. lia.
Qed.

(** A connection and what a round leaves of it: itself if poll reported nothing,
    else the outcome of one step, on the same descriptor. *)
Definition served_once (r : (PollFd * Client) * option (PollFd * Client)) : Prop :=
  let '((p, c), o) := r in
  if (pfd_revents p =? 0)%Z then o = Some (p, c)
  else client_step (pfd_revents p) (state c) ((λ pc, state pc.2) <$> o)
       ∧ ∀ pc, o = Some pc → pfd_fd pc.1 = pfd_fd p.

(** The reference for the rest of a round, from index [i]: the entries from there on
    and the new ones are served once each, in any order; the others are left alone. *)
Definition round_from (nl i : nat) (t t' : Table) : Prop :=
  ∃ new rs, Forall just_accepted new ∧ rs.*1 ≡ₚ drop (i `max` nl) (active t) ++ new
    ∧ Forall served_once rs
    ∧ conns nl t' ≡ₚ drop nl (take i (active t)) ++ omap snd rs.

Lemma round_done nl i t : table_ok nl t → fd_count t ≤ i → round_from nl i t t.
Proof.
  intros Ht Hi. rewrite <-(length_active nl) in Hi by done. exists [], [].
  rewrite drop_ge by lia. rewrite take_ge by lia. simpl. rewrite app_nil_r. done.
Qed.

Lemma round_listener nl i t t1 t' new :
  i < nl → nl ≤ length (active t) → active t1 = active t ++ new → Forall just_accepted new →
  round_from nl (S i) t1 t' → round_from nl i t t'.
Proof.
  intros Hi Hnl Ha Hnew (new' & rs & Hn & Hrs & Hs & Hc). exists (new ++ new'), rs.
  rewrite Ha in Hrs, Hc. rewrite Nat.max_r in Hrs |- * by lia.
  rewrite drop_app_le in Hrs by done. rewrite drop_ge in Hc by (rewrite length_take; lia).
  split; [by apply Forall_app|]. split; [by rewrite app_assoc|]. split; [done|].
  rewrite drop_ge by (rewrite length_take; lia). done.
Qed.

(** An entry that stays, and one that is removed. *)
Lemma round_entry nl i p c e t t1 t' :
  nl ≤ i → active t !! i = Some (p, c) → active t1 !! i = Some e →
  take i (active t1) = take i (active t) → drop (S i) (active t1) = drop (S i) (active t) →
  served_once ((p, c), Some e) → round_from nl (S i) t1 t' → round_from nl i t t'.
Proof.
  intros Hi Ha Ha1 Ht Hd He (new & rs & Hn & Hrs & Hs & Hc). exists new, (((p, c), Some e) :: rs).
  rewrite Nat.max_l in Hrs |- * by lia. rewrite (drop_S _ _ _ Ha), <-Hd. csimpl.
  split; [done|]. split; [by rewrite Hrs|]. split; [by constructor|].
  rewrite Hc, (take_S_r _ _ _ Ha1), Ht, drop_app_le.
  - by rewrite <-app_assoc.
  - rewrite length_take. apply lookup_lt_Some in Ha. lia.
Qed.

Lemma round_removed nl i p c t t1 t' :
  nl ≤ i → active t !! i = Some (p, c) → take i (active t1) = take i (active t) →
  drop i (active t1) ≡ₚ drop (S i) (active t) →
  served_once ((p, c), None) → round_from nl i t1 t' → round_from nl i t t'.
Proof.
  intros Hi Ha Ht Hd He (new & rs & Hn & Hrs & Hs & Hc). exists new, (((p, c), None) :: rs).
  rewrite Nat.max_l in Hrs |- * by lia. rewrite (drop_S _ _ _ Ha), <-Hd. csimpl.
  split; [done|]. split; [by rewrite Hrs|]. split; [by constructor|]. by rewrite Hc, Ht.
Qed.

(** *** A rule for rounds *)

(** A property of the index, the table and the world that each kind of step of the
    for loop keeps holds at its end. *)
Section rule.
Context (nl : nat) (P : nat → Table → World → Prop).

Definition kept_by_listener : Prop := ∀ i p c t w t1 w1 new,
  i < nl → active t !! i = Some (p, c) → server_ok nl t w → P i t w →
  (if has_event (pfd_revents p) POLLIN then accept_new_conn (pfd_fd p) t else mret t) w
    = (Ret t1, w1) →
  calm w w1 → server_ok nl t1 w1 → active t1 = active t ++ new → Forall just_accepted new →
  P (S i) t1 w1.
Definition kept_by_idle : Prop := ∀ i p c t w,
  nl ≤ i → active t !! i = Some (p, c) → server_ok nl t w → pfd_revents p = 0%Z →
  P i t w → P (S i) t w.
Definition kept_by_turn : Prop := ∀ i p c t w closed t1 w1,
  nl ≤ i → active t !! i = Some (p, c) → server_ok nl t w → pfd_revents p ≠ 0%Z → P i t w →
  serve_client g i (pfd_revents p) t w = (Ret (closed, t1), w1) → calm w w1 →
  served_as nl i (pfd_revents p) p c t closed t1 w1 → P (if closed then i else S i) t1 w1.

Context (Hlistener : kept_by_listener) (Hidle : kept_by_idle) (Hturn : kept_by_turn).

Lemma round_rule fuel i t w :
  server_ok nl t w → P i t w → fd_count t - i + waiting t nl i w < fuel →
  safe (¬ steady w) w (poll_round fuel g nl i t w) (λ t' w',
    server_ok nl t' w' ∧ ∃ j, fd_count t' ≤ j ∧ P j t' w').
Proof.
  revert i t w. induction fuel as [|fuel IH]; intros i t w Hs HP Hf; [lia|].
  pose proof Hs as [Hso _]. pose proof (sv_table _ _ _ Hso) as Ht.
  pose proof (calm_refl _ (sv_world _ _ _ Hso)) as Kw. cbn [poll_round].
  case_decide as Hi; [split; [done|]; split; [done|by exists i]|].
  destruct (active_entry nl t i Ht ltac:(lia)) as (p & c & -> & _ & Ha).
  assert (∀ j t1 w1, calm w w1 → server_ok nl t1 w1 → P j t1 w1 →
    fd_count t1 - j + waiting t1 nl j w1 < fuel →
    safe (¬ steady w) w (poll_round fuel g nl j t1 w1) (λ t' w',
      server_ok nl t' w' ∧ ∃ j, fd_count t' ≤ j ∧ P j t' w')) as Hgo.
  { intros j t1 w1 K Hs1 HP1 Hf1. eapply (safe_from w w1); [done|]. by apply IH. }
  case_decide as Hl.
  - assert (nl ≤ length (active t)) as Hnl by (rewrite (length_active nl) by done; apply Ht).
    apply (safe_bind _ _ _ _ _ (λ t1 w1, server_ok nl t1 w1 ∧ P (S i) t1 w1
      ∧ ∃ new, active t1 = active t ++ new ∧ length new ≤ length (e_accept (w_env w) (pfd_fd p)))).
    + assert (safe (¬ steady w) w ((if has_event (pfd_revents p) POLLIN
          then accept_new_conn (pfd_fd p) t else mret t) w) (λ t1 w1, server_ok nl t1 w1
        ∧ ∃ new, active t1 = active t ++ new ∧ length new ≤ length (e_accept (w_env w) (pfd_fd p))
            ∧ Forall just_accepted new)) as Hr.
      { destruct (has_event _ _); [by apply accept_step|]. split; [done|]. split; [done|].
        exists []. rewrite app_nil_r. split; [done|]. split; [simpl; lia|constructor]. }
      match type of Hr with safe _ _ ?r _ => destruct r as [[t1|code| |] w1] eqn:E end; try done.
      destruct Hr as (K & Hs1 & new & Hact & Hlen & Hnew). split; [done|]. split; [done|].
      split; [exact (Hlistener i p c t w t1 w1 new Hl Ha Hs HP E K Hs1 Hact Hnew)|by exists new].
    + intros t1 w1 K (Hs1 & HP1 & new & Ha1 & Hnew). apply Hgo; [done..|].
      pose proof (waiting_step t t1 nl i p c new w w1 Ha Hl Hnl K Ha1).
      apply (f_equal length) in Ha1. rewrite length_app, !(length_active nl) in Ha1; [lia|done|].
      apply Hs1.
  - rewrite waiting_drop in Hf by lia. destruct (Z.eqb_spec (pfd_revents p) 0) as [Hrev|Hrev].
    { apply Hgo; [done..| |rewrite waiting_drop; lia]. by eapply Hidle; [lia| | | |]. }
    pose proof (serve_client_safe nl i p c (pfd_revents p) t w Hs ltac:(lia) Ha) as Hr.
    run. destruct (serve_client g i (pfd_revents p) t w) as [[[closed t1]|code| |] w1] eqn:E;
      try done.
    destruct Hr as [K Hsv]. assert (i < fd_count t) as Hlt by lia.
    pose proof (served_count _ _ _ _ _ _ _ _ _ Ht Hlt Hsv).
    apply Hgo; [done|apply Hsv| |destruct closed; rewrite waiting_drop; lia].
    exact (Hturn i p c t w closed t1 w1 ltac:(lia) Ha Hs Hrev HP E K Hsv).
Qed.
End rule.

(** Every connection is served once. *)
Lemma poll_round_safe fuel nl i t w :
  server_ok nl t w → fd_count t - i + waiting t nl i w < fuel →
  safe (¬ steady w) w (poll_round fuel g nl i t w) (λ t' w',
    server_ok nl t' w' ∧ round_from nl i t t').
Proof.
  intros Hs Hf. assert (calm w w) as Kw by apply calm_refl, Hs.
  apply (safe_weaken (¬ steady w) _ w w _ (λ t' w', server_ok nl t' w' ∧ ∃ j, fd_count t' ≤ j
    ∧ ∀ t2, round_from nl j t' t2 → round_from nl i t t2)); [done|done| |].
  { intros t' w' _ (Hs' & j & Hj & Hr). split; [done|]. apply Hr, round_done; [apply Hs'|done]. }
  apply (round_rule nl (λ j t1 _, ∀ t2, round_from nl j t1 t2 → round_from nl i t t2)); [..|done|done|done].
  - intros k p c t0 w0 t1 w1 new Hk Ha Hs0 HP _ _ _ Hact Hnew t2 Hr. apply HP.
    eapply round_listener; [done| |done..]. rewrite (length_active nl); apply Hs0.
  - intros k p c t0 w0 Hk Ha _ Hz HP t2 Hr. apply HP.
    eapply round_entry; [done|exact Ha|exact Ha|done..| |done]. simpl. by rewrite Hz.
  - intros k p c t0 w0 closed t1 w1 Hk Ha Hs0 Hz HP _ _ [_ Hb He] t2 Hr. apply HP.
    assert ((pfd_revents p =? 0)%Z = false) as Hz' by (by apply Z.eqb_neq). destruct closed.
    + destruct He as [Hstep He]. eapply round_removed; [done..| |done]. simpl. by rewrite Hz'.
    + destruct He as (p' & c' & Hstep & Hfd & Ha1 & Hd).
      eapply round_entry; [done..| |done]. simpl. rewrite Hz'. split; [done|]. by intros pc [= <-].
Qed.

(** What ends the process from within the loop. *)
Definition poll_fails (polls : list poll_result) : Prop :=
  ∃ e, PollFailed e ∈ polls ∧ e ≠ EINTR.

(** *** A rule for the loop *)

(** A property that accepting, serving and poll keep holds after the loop. *)
Section loop_rule.
Context (nl : nat) (P : Table → World → Prop).

Definition stable_accept : Prop := ∀ lfd t w t1 w1 new,
  server_ok nl t w → P t w → accept_new_conn lfd t w = (Ret t1, w1) → server_ok nl t1 w1 →
  calm w w1 → active t1 = active t ++ new → Forall just_accepted new → P t1 w1.
Definition stable_turn : Prop := ∀ i p c t w closed t1 w1,
  server_ok nl t w → P t w → nl ≤ i → active t !! i = Some (p, c) →
  serve_client g i (pfd_revents p) t w = (Ret (closed, t1), w1) → calm w w1 →
  served_as nl i (pfd_revents p) p c t closed t1 w1 → P t1 w1.
Definition stable_poll : Prop := ∀ revents t w, P t w → P (poll_update revents t) w.

Context (Haccept : stable_accept) (Hturn : stable_turn) (Hpoll : stable_poll).

Lemma round_stable fuel i t w :
  server_ok nl t w → P t w → fd_count t - i + waiting t nl i w < fuel →
  safe (¬ steady w) w (poll_round fuel g nl i t w) (λ t' w', server_ok nl t' w' ∧ P t' w').
Proof.
  intros Hs HP Hf. eapply (safe_weaken (¬ steady w) _ w w); [apply calm_refl, Hs|done| |].
  2:{ apply (round_rule nl (λ _ t w, P t w)); [..|done|exact HP|done].
      - intros k p c t0 w0 t1 w1 new Hk Ha Hs0 HP0 E K Hs1 Hact Hnew. destruct (has_event _ _).
        + exact (Haccept _ _ _ _ _ _ Hs0 HP0 E Hs1 K Hact Hnew).
        + by injection E as <- <-.
      - intros k p c t0 w0 _ _ _ _ HP0. exact HP0.
      - intros k p c t0 w0 closed t1 w1 Hk Ha Hs0 _ HP0 E K Hsv.
        exact (Hturn k p c t0 w0 closed t1 w1 Hs0 HP0 Hk Ha E K Hsv). }
  by intros t' w' _ (Hs' & j & _ & HP').
Qed.

Lemma loop_stable polls t w :
  server_ok nl t w → P t w →
  safe (¬ steady w ∨ poll_fails polls) w (event_loop g nl polls t w)
    (λ t' w', server_ok nl t' w' ∧ P t' w').
Proof.
  revert t w. induction polls as [|r polls IH]; intros t w Hs HP.
  - split; [apply calm_refl, Hs|done].
  - assert (calm w w) as Kw by apply calm_refl, Hs. cbn [event_loop].
    assert (∀ t1 w1, calm w w1 → server_ok nl t1 w1 → P t1 w1 →
      safe (¬ steady w ∨ poll_fails (r :: polls)) w (event_loop g nl polls t1 w1)
        (λ t' w', server_ok nl t' w' ∧ P t' w')) as Hgo.
    { intros t1 w1 K Hs1 HP1.
      eapply (safe_weaken _ _ w w1); [done| |by intros t' w' _ HP'; exact HP'|by apply IH].
      intros [Hn|(e & He & Hne)].
      - left. intros Hst. apply Hn. by eapply calm_steady.
      - right. exists e. split; [by right|done]. }
    destruct r as [revents|e].
    + unfold get. run.
      apply (safe_bind _ _ _ (poll_round _ _ _ _ _) _ (λ t1 w1, server_ok nl t1 w1 ∧ P t1 w1)).
      * apply (safe_weaken (¬ steady w) _ w w _ (λ t1 w1, server_ok nl t1 w1 ∧ P t1 w1));
          [done|by left|by intros ? ? _ ?|].
        apply round_stable; [by apply poll_update_ok|by apply Hpoll|]. unfold round_fuel. lia.
      * intros t1 w1 K [Hs1 HP1]. by apply Hgo.
    + case_decide as He; [by apply Hgo|]. split; [done|]. split; [done|]. right.
      exists e. split; [by left|done].
Qed.
End loop_rule.

Lemma event_loop_safe nl polls t w :
  server_ok nl t w →
  safe (¬ steady w ∨ poll_fails polls) w (event_loop g nl polls t w)
    (λ t' w', server_ok nl t' w').
Proof.
  intros Hs. eapply safe_weaken; [apply calm_refl, Hs|exact id|
    |by apply (loop_stable nl (λ _ _, True))].
  by intros t' w' _ [? _].
Qed.
End serving.
