(* ===== verification/Server.v ===== *)
(** * Server: whole runs of the server

    Start-up and shutdown, the turns that answer a request, and the theorems about
    the process from its arguments to its exit. *)

From S2P Require Import Prelude CLib Types OS Flags Logging ParseRequest ResolvePath Response.
From S2P Require Import Messages Connections DoRead EndToEnd DoWrite Sockets Main Effects Footprint Reference Loop.

(** ** Start-up *)

(** Every call made for a listener succeeds, with a descriptor. *)
Definition good_listener (s : socket_calls) : bool :=
  calls_ok s && match sc_socket s with Some fd => (0 <=? fd)%Z | None => false end.
Definition handlers_ok (su : startup) : bool := su_term_ok su && su_int_ok su.
Definition startup_ok (su : startup) : bool :=
  handlers_ok su && su_magic_ok su && good_listener (su_v4 su) && good_listener (su_v6 su).

Lemma handlers_run su w :
  world_ok w → safe (handlers_ok su = false) w (setup_signal_handler su w) (λ _ w', w' = w).
Proof.
  intros Hw. unfold setup_signal_handler, handlers_ok.
  destruct (su_term_ok su), (su_int_ok su); simpl; auto with server.
Qed.

Section starting.
Context `{External} (g : Globals).

Lemma listener_step (use : bool) (m : M Z) s v6 addr w :
  world_ok w → safe (calls_ok s = false) w (m w) (listens w s v6 addr (sin_port g)) →
  safe (good_listener s = false) w ((if use then m else mret (-1)%Z) w) (λ fd w',
    w_blocks w' = w_blocks w ∧ w_files w' = w_files w
    ∧ (use = true → good_listener s = true → fd ≠ (-1)%Z)).
Proof.
  intros Hw Hm. destruct use; [|by split; [apply calm_refl|]].
  eapply (safe_weaken _ _ w w); [by apply calm_refl| | |exact Hm].
  - unfold good_listener. by intros ->.
  - intros fd w' _ [Hfd ->]. split_and!; [done|done|]. intros _. unfold good_listener.
    rewrite Hfd. intros [_ Hpos%Z.leb_le]%andb_prop. lia.
Qed.

Lemma place_listener_size fd r : length (place_listener fd r).2 = length r.2.
Proof.
  unfold place_listener. destruct r as [n ps]. case_decide; [done|]. apply length_insert.
Qed.

Lemma place_listener_count fd r :
  (place_listener fd r).1 = if decide (fd = -1)%Z then r.1 else S r.1.
Proof. unfold place_listener. destruct r as [n ps]. by case_decide. Qed.

(** The table before the first round: listeners and no connection. *)
Lemma first_table_ok pb cb n ps cs w :
  length ps = INITIAL_SIZE → length cs = INITIAL_SIZE → 0 < n ≤ INITIAL_SIZE → pb ≠ cb →
  pb ∈ w_blocks w → cb ∈ w_blocks w → world_ok w → outside_ok w →
  let t := mkTable pb cb ps cs n INITIAL_SIZE in server_ok n t w ∧ conns n t = [].
Proof.
  intros Hp Hc Hn Hne Hpb Hcb Hw Ho t.
  assert (conns n t = []) as Hcs.
  { unfold conns, active, t. simpl. apply drop_ge. rewrite length_take. lia. }
  split; [|done]. split; [|unfold settled; by rewrite Hcs]. constructor; [|split|done| |done].
  - constructor; simpl; try lia. by rewrite Hcs.
  - unfold table_blocks. rewrite Hcs. simpl. apply NoDup_cons. split; [|apply NoDup_singleton].
    by rewrite list_elem_of_singleton.
  - unfold table_blocks. rewrite Hcs. by repeat constructor.
  - by rewrite Hcs.
Qed.

(** The end of start-up: the listeners are placed, at least one if the calls worked. *)
Lemma listeners_placed su v4 v6 pb cb ps cs w0 w :
  length ps = INITIAL_SIZE → length cs = INITIAL_SIZE → pb ≠ cb →
  pb ∈ w_blocks w → cb ∈ w_blocks w → calm w0 w → outside_ok w0 →
  (use_v4 g = true → good_listener (su_v4 su) = true → v4 ≠ (-1)%Z) →
  (use_v6 g = true → good_listener (su_v6 su) = true → v6 ≠ (-1)%Z) →
  safe (¬ (startup_ok su = true ∧ steady w0)) w0
    ((let '(n, ps') := place_listener v6 (place_listener v4 (0, ps)) in
      if decide (n = 0) then exit EXIT_FAILURE
      else mret (n, mkTable pb cb ps' cs n INITIAL_SIZE, v4, v6)) w)
    (λ '(nl, t, _, _) w', server_ok nl t w' ∧ conns nl t = []).
Proof.
  intros Hps Hcs Hne Hpb Hcb K Ho Hv4 Hv6.
  pose proof (place_listener_count v6 (place_listener v4 (0, ps))) as Hn.
  pose proof (place_listener_size v6 (place_listener v4 (0, ps))) as Hs.
  destruct (place_listener v6 _) as [n ps']. rewrite place_listener_count in Hn.
  rewrite place_listener_size in Hs. cbn [fst snd] in Hn, Hs.
  destruct (decide (n = 0)) as [Hz|Hz].
  - split; [done|]. split; [done|]. intros [Hst _]. unfold startup_ok in Hst.
    apply andb_prop in Hst as [[_ H4]%andb_prop H6].
    destruct (decide (v6 = -1)%Z) as [E6|]; [|by subst].
    destruct (decide (v4 = -1)%Z) as [E4|]; [|by subst].
    unfold use_v4, use_v6 in *. destruct (has_flag g B4_FLAG); [by destruct Hv4|].
    by destruct Hv6; rewrite ?orb_true_r.
  - split; [done|]. apply first_table_ok; [by rewrite Hs|done| |done..|by eapply calm_ok
      |by eapply calm_outside].
    subst n. unfold INITIAL_SIZE. repeat case_decide; lia.
Qed.

Lemma start_up_safe su w :
  globals_ok g w → world_ok w → outside_ok w →
  safe (¬ (startup_ok su = true ∧ steady w)) w (start_up su g w) (λ '(nl, t, _, _) w',
    server_ok nl t w' ∧ conns nl t = []).
Proof.
  intros Hg Hw Ho. unfold start_up.
  assert (∀ b, b = false → (startup_ok su = true → b = true) → ¬ (startup_ok su = true ∧ steady w))
    as Hno by (intros b -> Hb [Hs _]; by specialize (Hb Hs)).
  destruct (su_magic_ok su) eqn:Hmg.
  2:{ split; [auto with server|]. split; [done|]. apply (Hno false); [done|].
      unfold startup_ok. by rewrite Hmg, andb_false_r. }
  cbn [negb]. rewrite (bind_run get _ w w w eq_refl).
  destruct (malloc_run w Hw) as (pb & w1 & E1 & K1 & Hpb). rewrite (bind_run _ _ _ _ _ E1).
  destruct (malloc_run w1 ltac:(by eapply calm_ok)) as (cb & w2 & E2 & K2 & Hcb).
  rewrite (bind_run _ _ _ _ _ E2). apply (calm_trans _ _ _ K1) in K2.
  destruct pb as [pb|]; [|split; [done|]; split; [done|]; by intros [_ [? _]]].
  destruct cb as [cb|]; [|split; [done|]; split; [done|];
    intros [_ [Hp%(calm_plenty _ _ K1) _]]; by destruct Hcb].
  destruct Hpb as [-> Hw1], Hcb as [-> Hw2].
  assert (∀ b, (startup_ok su = true → b = true) → b = false →
    ¬ (startup_ok su = true ∧ steady w)) as Hno' by (intros b Hb Hf; by apply (Hno b)).
  assert (globals_ok g w2) as Hg2 by (apply (globals_ok_files g w); [by rewrite Hw2, Hw1|done]).
  eapply safe_bind.
  { eapply (safe_weaken _ _ w w2); [exact K2| |intros fd w3 _ HP; exact HP|
      eapply (listener_step (use_v4 g)), listener_v4_run; [..|exact Hg2]; by eapply calm_ok].
    apply Hno'. unfold startup_ok. by intros [[_ ?]%andb_prop _]%andb_prop. }
  intros v4 w3 K3 (Hb3 & Hf3 & Hv4).
  eapply safe_bind.
  { eapply (safe_weaken _ _ w w3); [exact K3| |intros fd w4 _ HP; exact HP|
      eapply (listener_step (use_v6 g)), listener_v6_run;
        [by eapply calm_ok..|by eapply globals_ok_files]].
    apply Hno'. unfold startup_ok. by intros [_ ?]%andb_prop. }
  intros v6 w4 K4 (Hb4 & _ & Hv6).
  apply listeners_placed; [by rewrite length_replicate..| | | |done|done|done|done].
  - rewrite Hw1. simpl. lia.
  - rewrite Hb4, Hb3, Hw2, Hw1. simpl. set_solver.
  - rewrite Hb4, Hb3, Hw2. simpl. set_solver.
Qed.
End starting.

(** ** Shutdown *)

Lemma releases_silent tl x : Forall releases tl → closed_fds tl = [] ∧ sent_bytes x tl = [].
Proof.
  induction 1 as [|ev tl Hev _ [IH1 IH2]]; [done|].
  unfold closed_fds, sent_bytes in *. csimpl. rewrite IH1, IH2. by destruct ev.
Qed.

(** What closing every connection leaves. *)
Record all_closed (nl : nat) (t : Table) (w : World) (t' : Table) (w' : World) : Prop := {
  ac_calm : calm w w';
  ac_ok : table_ok nl t' ∧ heap_ok nl t' w';
  ac_conns : conns nl t' = [];
  ac_arrays : pfds_block t' = pfds_block t ∧ clients_block t' = clients_block t;
  ac_blocks : w_blocks w' = w_blocks w ∖ list_to_set (conn_blocks (conns nl t));
  ac_events : ∃ evs, extends w w' evs ∧ closed_fds evs ≡ₚ (λ pc, fd pc.2) <$> conns nl t
}.

Lemma close_all_run fuel nl t w :
  table_ok nl t → heap_ok nl t w → world_ok w → fd_count t - nl < fuel →
  ∃ t' w', close_all fuel nl t w = (Ret t', w') ∧ all_closed nl t w t' w'.
Proof.
  revert t w. induction fuel as [|fuel IH]; intros t w Ht Hh Hw Hf; [lia|].
  cbn [close_all]. case_decide as Hn.
  - assert (conns nl t = []) as Hc.
    { apply drop_ge. by rewrite (length_active nl). }
    exists t, w. split; [done|]. constructor; rewrite ?Hc; auto with server.
    + simpl. set_solver.
    + exists []. split; [by apply extends_nil|done].
  - destruct (active_entry nl t nl Ht ltac:(lia)) as (p & c & _ & Hcl & Ha).
    destruct (close_conn_correct nl nl t p c w Ht Hh Hw ltac:(done) Ha)
      as (t1 & E & _ & Hperm & Hcount & Ht1 & Hh1 & K1).
    destruct (close_conn_run nl nl t c w Ht ltac:(lia) Hcl) as (t1' & E' & _ & _ & _ & _ & Hpb & Hcb).
    rewrite E in E'. injection E' as <-.
    destruct (heap_entry_owns nl nl p c t w ltac:(done) Ha Hh) as [Hnd Hlive].
    destruct (w_closed_calm c w Hw Hnd Hlive) as [_ Hb1].
    destruct (w_closed_trace c w) as (tl & Hx1 & Hrel).
    rewrite (bind_run _ _ _ _ _ E).
    destruct (IH t1 (w_closed c w) Ht1 Hh1 ltac:(by eapply calm_ok) ltac:(lia))
      as (t' & w' & E2 & [K2 Hok Hc2 [Hp2 Hq2] Hb2 (evs & Hx2 & Hcf)]).
    exists t', w'. split; [done|]. constructor; [by eapply calm_trans|done|done|split; congruence| |].
    + rewrite Hb2, Hb1, <-(list_to_set_perm_L (C := gset nat) _ _ (conn_blocks_perm _ _ Hperm)).
      unfold conn_blocks. cbn [mbind list_bind]. rewrite list_to_set_app_L. set_solver.
    + eexists. split; [by eapply extends_trans|].
      change (EvClose (fd c) :: tl) with ([EvClose (fd c)] ++ tl).
      rewrite !closed_fds_app, Hcf, <-Hperm. by rewrite (proj1 (releases_silent tl 0 Hrel)).
Qed.

(** A calm step frees live blocks only. *)
Lemma calm_frees w w' evs : calm w w' → extends w w' evs → Forall free_live evs.
Proof.
  intros (_ & _ & evs' & Hx' & Hl) Hx. unfold extends in *. rewrite Hx in Hx'.
  by apply app_inv_head in Hx' as ->.
Qed.

Lemma shut_down_run g nl v4 v6 t w :
  table_ok nl t → heap_ok nl t w → world_ok w →
  ∃ w' evs, shut_down g nl v4 v6 t w = (Ret (), w') ∧ calm w w' ∧ extends w w' evs
    ∧ closed_fds evs ≡ₚ ((λ pc, fd pc.2) <$> conns nl t) ++ [v4; v6]
    ∧ w_blocks w' = w_blocks w ∖ list_to_set (table_blocks nl t)
    ∧ ∀ f, log_ptr g = LogFile f → ∃ live, last evs = Some (EvFclose f live).
Proof.
  intros Ht Hh Hw. unfold shut_down.
  destruct (close_all_run (S (fd_count t - nl)) nl t w Ht Hh Hw ltac:(lia))
    as (t1 & w1 & E & [K1 [_ [Hnd Hlive]] Hc [Hp Hq] Hb (evs & Hx & Hcf)]).
  rewrite (bind_run _ _ _ _ _ E).
  unfold table_blocks in Hnd, Hlive |- *. rewrite Hc, Hp, Hq in *. simpl in Hnd, Hlive.
  rewrite !Forall_cons in Hlive. destruct Hlive as (Hl1 & Hl2 & _).
  apply NoDup_cons in Hnd as [Hne _]. rewrite list_elem_of_singleton in Hne.
  set (w2 := w_free (clients_block t) (w_free (pfds_block t)
    (w_emit (EvClose v6) (w_emit (EvClose v4) w1)))).
  assert (calm w1 w2) as K2.
  { pose proof (calm_ok _ _ K1). unfold w2. apply calm_free; [simpl; set_solver|].
    apply calm_free; [done|]. auto with server. }
  set (w3 := match log_ptr g with LogFile f => w_fclose f w2 | _ => w2 end).
  exists w3. eexists. split.
  { unfold close, free, close_log, fclose, emit. run. unfold w3, w2.
    by destruct (log_ptr g). }
  split; [eapply calm_trans; [exact K1|]; unfold w3; destruct (log_ptr g); auto with server|].
  split; [|split; [|split]].
  - eapply extends_trans; [exact Hx|].
    instantiate (1 := EvClose v4 :: EvClose v6 :: EvFree (pfds_block t) _ :: EvFree (clients_block t) _
      :: match log_ptr g with LogFile f => [EvFclose f _] | _ => [] end).
    unfold extends, w3, w2. destruct (log_ptr g); simpl; by rewrite <-!app_assoc.
  - rewrite closed_fds_app, Hcf. by destruct (log_ptr g).
  - assert (w_blocks w3 = w_blocks w2) as -> by (unfold w3; by destruct (log_ptr g)).
    unfold w2. simpl. rewrite Hb. set_solver.
  - intros f Hf. rewrite Hf, last_app. simpl. eauto.
Qed.

(** ** A request and its response *)

Section turns.
Context `{External} (g : Globals).

(** The turn that answers a request for a file. *)
Lemma answer_turn nl i p c t w date line :
  magic_ok → log_ready g → serving_ok nl t w → nl ≤ i → active t !! i = Some (p, c) →
  complete_request c w date line →
  let rr := reference (w_env w) (has_flag g C_FLAG) (client_addr c) (body_len c) line in
  ∃ p1 c1 w1 evs, serve_client g i POLLIN t w = (Ret (false, set_entry i p1 c1 t), w1)
    ∧ calm w w1 ∧ serving_ok nl (set_entry i p1 c1 t) w1 ∧ fd c1 = fd c
    ∧ state c1 = SENDING_HEADER ∧ output_sent c1 = 0 ∧ delivers w1 c1 rr
    ∧ extends w w1 evs
    ∧ log_lines evs = (if logging_on g then [log_line (client_addr c) date line rr] else []).
Proof.
  intros Hm Hlog Hs Hi Ha Hreq rr. pose proof (cq_reading _ _ _ _ Hreq) as Hrd.
  destruct (entry_slots _ _ _ _ _ (sv_table _ _ _ Hs) Ha) as (Hlt & Hp & Hc).
  destruct (read_reference g Hm c p w date line Hlog Hreq)
    as (c1 & p1 & w1 & evs & E & Hst & _ & _ & Hh & Hl).
  pose proof (sv_outside _ _ _ Hs) as [[u Hu] _].
  destruct (read_client_run g Hm c p w u Hlog (sv_world _ _ _ Hs)
    (heap_entry_owns _ _ _ _ _ _ Hi Ha (sv_heap _ _ _ Hs)) Hrd Hu)
    as (c' & p' & w' & E' & Hhands & Hf & Hpf & Hok' & Hsent & _).
  rewrite E in E'. injection E' as <- <- <-. exists p1, c1, w1, evs.
  assert (state_of i (set_entry i p1 c1 t) = Some SENDING_HEADER) as Hs1.
  { rewrite <-Hst. apply state_of_lookup, list_lookup_insert_eq.
    destruct (sv_table _ _ _ Hs). simpl. lia. }
  split; [|split; [apply Hhands|split; [by eapply entry_step|done]]].
  unfold serve_client. change (has_event POLLIN BROKEN) with false.
  change (has_event POLLIN POLLIN) with true. change (has_event POLLIN POLLOUT) with false.
  rewrite (state_of_lookup i t c Hc), bool_decide_true by (by rewrite (rd_state _ Hrd)).
  cbn [andb]. unfold do_read. rewrite Hc, Hp. run. rewrite E. cbn [fst snd].
  fold (set_entry i p1 c1 t). by rewrite Hs1, bool_decide_false.
Qed.

(** The turn that sends what is staged. *)
Lemma send_turn nl i p c t w :
  serving_ok nl t w → nl ≤ i → active t !! i = Some (p, c) → state c = SENDING_HEADER →
  steady w →
  ∃ t' w' evs, serve_client g i POLLOUT t w = (Ret (true, t'), w')
    ∧ conns nl t' ≡ₚ others nl i t ∧ extends w w' evs ∧ closed_fds evs = [fd c]
    ∧ sent_bytes (fd c) evs = drop (output_sent c) (from_option b_data [] (out_buf c)).
Proof.
  intros Hs Hi Ha Hst Hsteady.
  destruct (entry_slots _ _ _ _ _ (sv_table _ _ _ Hs) Ha) as (Hlt & Hp & Hc).
  destruct (entry_client_ok _ _ _ _ _ _ Hs Hi Ha) as [Hok _].
  unfold client_ok in Hok. rewrite Hst in Hok.
  destruct (safe_total _ _ _ _ (λ Hn, Hn (proj2 Hsteady (fd c)))
    (write_client_run c w (sv_world _ _ _ Hs) Hok))
    as (c1 & w1 & E & K1 & Hcl & Hf & How & Hsd).
  pose proof Hsd as (_ & Hb & _ & Hnx & evs1 & Hx1 & Hs1 & Hc1).
  assert (serving_ok nl (set_entry i p c1 t) w1) as Hso1.
  { eapply entry_step; [exact Hs|done|exact Ha| |done|done|by unfold client_ok; rewrite Hcl].
    apply hands_same; [done|by eapply heap_entry_owns; [| |apply Hs]|done|lia|done]. }
  assert (active (set_entry i p c1 t) !! i = Some (p, c1)) as Ha1
    by (by eapply active_set_eq; [apply Hs|]).
  destruct (close_conn_correct nl i (set_entry i p c1 t) p c1 w1 (sv_table _ _ _ Hso1)
    (sv_heap _ _ _ Hso1) (sv_world _ _ _ Hso1) Hi Ha1) as (t2 & E2 & _ & Hperm & _).
  destruct (w_closed_trace c1 w1) as (tl & Hx2 & Hrel).
  destruct (releases_silent tl (fd c) Hrel) as [Hr1 Hr2].
  exists t2, (w_closed c1 w1), (evs1 ++ [EvClose (fd c1)] ++ tl). split; [|split; [|split]].
  - unfold serve_client. change (has_event POLLOUT BROKEN) with false.
    change (has_event POLLOUT POLLIN) with false. change (has_event POLLOUT POLLOUT) with true.
    cbn [andb]. rewrite bind_ret_l, (state_of_lookup i t c Hc), (bool_decide_true (Some _ = _))
      by (by rewrite Hst).
    cbn [orb]. unfold do_write. rewrite Hc. run. rewrite E.
    rewrite (set_client_entry i p) by done.
    rewrite (state_of_lookup i _ c1) by (simpl; apply list_lookup_insert_eq;
      destruct (sv_table _ _ _ Hs); lia).
    rewrite Hcl, bool_decide_true by done. by rewrite E2.
  - rewrite (conns_others nl (set_entry i p c1 t) i p c1) in Hperm by done.
    apply Permutation_cons_inv in Hperm. by rewrite Hperm, others_set_entry.
  - by eapply extends_trans.
  - rewrite !closed_fds_app, !sent_bytes_app, Hr1, Hr2, Hc1, Hs1, Hf. simpl.
    by rewrite !app_nil_r.
Qed.

(** Both turns of a complete request. *)
Lemma answered_run nl i p c t w date line :
  magic_ok → log_ready g → server_ok nl t w → nl ≤ i → active t !! i = Some (p, c) →
  complete_request c w date line → steady w →
  let rr := reference (w_env w) (has_flag g C_FLAG) (client_addr c) (body_len c) line in
  ∃ t1 w1 t2 w2 evs1 evs,
    serve_client g i POLLIN t w = (Ret (false, t1), w1)
    ∧ serve_client g i POLLOUT t1 w1 = (Ret (true, t2), w2)
    ∧ (p, c) :: conns nl t2 ≡ₚ conns nl t
    ∧ extends w1 w2 evs ∧ closed_fds evs = [fd c]
    ∧ http_message (sent_bytes (fd c) evs) (r_status rr) (r_length rr) (r_content rr)
    ∧ extends w w1 evs1
    ∧ log_lines evs1 = (if logging_on g then [log_line (client_addr c) date line rr] else []).
Proof.
  intros Hm Hlog [Hs _] Hi Ha Hreq Hst rr.
  destruct (answer_turn nl i p c t w date line Hm Hlog Hs Hi Ha Hreq)
    as (p1 & c1 & w1 & evs1 & E1 & K1 & Hs1 & Hf & Hsh & Hsent & (_ & Hh & _) & Hl).
  exists (set_entry i p1 c1 t), w1.
  assert (active (set_entry i p1 c1 t) !! i = Some (p1, c1)) as Ha1.
  { eapply active_set_eq; [apply Hs|]. by eapply entry_slots; [apply Hs|]. }
  destruct (send_turn nl i p1 c1 (set_entry i p1 c1 t) w1 Hs1 Hi Ha1 Hsh
    ltac:(by eapply calm_steady)) as (t2 & w2 & evs & E2 & Hp2 & Hx & Hcl & Hsd).
  exists t2, w2, evs1, evs. split; [done|]. split; [done|]. split; [|split; [done|]].
  { rewrite Hp2, others_set_entry by done. by rewrite <-conns_others. }
  rewrite <-Hf, Hsd, Hsent, drop_0. split; [done|]. split; [|exact Hl].
  destruct Hh as (b & out & -> & _ & _ & _ & Hmsg). exact Hmsg.
Qed.
End turns.

(** ** The whole process *)

(** Why the process may end otherwise than with EXIT_SUCCESS. *)
Definition may_fail `{External} (su : startup) (polls : list poll_result) (argv : list bytes)
    (w : World) : Prop :=
  (∃ w1, setFlags argv w = (Exit EXIT_FAILURE, w1)) ∨ startup_ok su = false ∨ ¬ steady w
  ∨ poll_fails polls.

Lemma server_run `{External} su polls argv w :
  magic_ok → world_ok w → outside_ok w →
  safe (may_fail su polls argv w) w (server su polls argv w) (λ _ _, True).
Proof.
  intros Hm Hw Ho. unfold server. eapply safe_bind.
  { eapply (safe_weaken _ _ w w); [by apply calm_refl| |intros a w' _ HP; exact HP|by apply handlers_run].
    intros Hh. right; left. unfold startup_ok. by rewrite Hh. }
  intros _ _ _ ->. pose proof (setFlags_safe argv w Hw) as Hf.
  eapply (safe_bind _ _ _ _ _ (λ g w', globals_ok g w')).
  { unfold flags_safe in Hf. destruct (setFlags argv w) as [[g|c| |] w1] eqn:E; simpl in Hf; try done.
    - split; [apply Hf|apply Hf].
    - destruct Hf as [K ->]. split; [done|]. split; [done|]. left. eauto. }
  intros g w1 K1 Hg.
  assert (log_ready g) as Hlog by (intros Hon; by eapply globals_ok_log).
  eapply (safe_bind _ _ _ _ _ (λ '(nl, t, _, _) w', server_ok nl t w' ∧ conns nl t = [])).
  { eapply (safe_weaken _ _ w w1); [exact K1| |intros a w' _ HP; exact HP|apply start_up_safe];
      [|done|by eapply calm_ok|by eapply calm_outside].
    intros Hn. destruct (startup_ok su) eqn:Hs; [|right; by left].
    right; right; left. intros Hst. apply Hn. split; [done|]. by eapply calm_steady. }
  intros [[[nl t] v4] v6] w2 K2 [Hs _].
  eapply (safe_bind _ _ _ _ _ (λ t' w', server_ok nl t' w')).
  { eapply (safe_weaken _ _ w w2); [exact K2| |intros a w' _ HP; exact HP|by apply event_loop_safe].
    intros [Hn|Hp]; [|do 3 right; done]. right; right; left. intros Hst. apply Hn.
    by eapply calm_steady. }
  intros t' w3 K3 [Hs3 _].
  destruct (shut_down_run g nl v4 v6 t' w3 (sv_table _ _ _ Hs3) (sv_heap _ _ _ Hs3)
    (sv_world _ _ _ Hs3)) as (w4 & evs & E & K4 & _).
  rewrite E. split; [by eapply calm_trans|done].
Qed.

(** The parts of a run that ends with EXIT_SUCCESS, from the configuration on. *)
Record success `{External} (su : startup) (polls : list poll_result) (g : Globals) (w1 w' : World)
    (nl : nat) (t : Table) (v4 v6 : Z) (w2 : World) (t3 : Table) (w3 : World) : Prop := {
  su_log : log_ready g;
  su_start : start_up su g w1 = (Ret (nl, t, v4, v6), w2);
  su_started : server_ok nl t w2;
  su_empty : conns nl t = [];
  su_loop : event_loop g nl polls t w2 = (Ret t3, w3);
  su_stop : shut_down g nl v4 v6 t3 w3 = (Ret (), w')
}.

Lemma main_success `{External} su polls argv w w1 g w' :
  magic_ok → world_ok w → outside_ok w →
  setFlags argv w = (Ret g, w1) → main su polls argv w = (Exit EXIT_SUCCESS, w') →
  calm w w' ∧ ∃ nl t v4 v6 w2 t3 w3, success su polls g w1 w' nl t v4 v6 w2 t3 w3.
Proof.
  intros Hm Hw Ho Ef E. pose proof (server_run su polls argv w Hm Hw Ho) as Hr.
  unfold main, mbind, M_bind, exit in E.
  destruct (server su polls argv w) as [[[]|c| |] w0] eqn:Es; simplify_eq;
    [|by destruct Hr as (_ & [[=]|[[=] _]] & _)].
  split; [apply Hr|].
  unfold server in Es. apply bind_ret_inv in Es as ([] & w0 & Eh & Es).
  assert (w0 = w) as ->.
  { unfold setup_signal_handler in Eh. destruct (negb _); [done|]. destruct (negb _); [done|].
    by injection Eh. }
  rewrite (bind_run _ _ _ _ _ Ef) in Es.
  apply bind_ret_inv in Es as ([[[nl t] v4] v6] & w2 & E2 & Es).
  apply bind_ret_inv in Es as (t3 & w3 & E3 & E4).
  pose proof (setFlags_safe argv w Hw) as Hf. unfold flags_safe in Hf. rewrite Ef in Hf.
  destruct Hf as [K1 [Hg _]].
  pose proof (start_up_safe g su w1 Hg ltac:(by eapply calm_ok) ltac:(by eapply calm_outside)) as H2.
  rewrite E2 in H2. destruct H2 as (_ & Hs2 & Hc2).
  exists nl, t, v4, v6, w2, t3, w3. constructor; try done. intros Hon. by eapply globals_ok_log.
Qed.

(** * Properties *)

Section properties.
Context `{External}.

(** C1. The server never crashes, hangs in a loop or frees a block twice. Whatever
    the arguments, the outcome of start-up, the events poll reports, the bytes,
    errors and interruptions the connections deliver, the files there are and the
    allocations that fail, the process ends, with exit or by the SIGPIPE of a send to
    a peer that has gone; every block it frees is live; and it ends otherwise than
    with EXIT_SUCCESS only for arguments setFlags refuses, a start-up call that
    fails, memory that runs out, a send refused, or an error of poll. (Streams are
    not covered: one is closed twice, see EndToEnd.) *)
Theorem server_safe su polls argv w :
  magic_ok → world_ok w → outside_ok w →
  ∃ code w' evs, main su polls argv w = (Exit code, w')
    ∧ extends w w' evs ∧ Forall free_live evs
    ∧ (code = EXIT_SUCCESS
       ∨ (code = EXIT_FAILURE ∨ code = SIGPIPE_STATUS ∧ peer_gone w) ∧ may_fail su polls argv w).
Proof.
  intros Hm Hw Ho. pose proof (server_run su polls argv w Hm Hw Ho) as Hr.
  unfold main. run. destruct (server su polls argv w) as [[[]|c| |] w']; simpl in Hr; try done.
  - destruct Hr as [(_ & _ & evs & Hx & Hl) _]. exists EXIT_SUCCESS, w', evs. split_and!; auto.
  - destruct Hr as ((_ & _ & evs & Hx & Hl) & Hc & Hf). exists c, w', evs. split_and!; auto.
Qed.


(** The life of a connection. One turn of the loop on a connection moves it
    along client_step and nowhere else, whatever the environment does, and keeps
    its descriptor; PROCESSING leads only to itself until the peer goes away. The
    connections before it in the table are left alone, and so are those after it,
    up to their order when it is removed. *)
Theorem client_lifecycle g nl i p c revents t w closed t' w' :
  magic_ok → log_ready g → server_ok nl t w → nl ≤ i → active t !! i = Some (p, c) →
  serve_client g i revents t w = (Ret (closed, t'), w') →
  server_ok nl t' w' ∧ take i (active t') = take i (active t)
  ∧ if closed
    then client_step revents (state c) None ∧ drop i (active t') ≡ₚ drop (S i) (active t)
    else ∃ p' c', client_step revents (state c) (Some (state c')) ∧ pfd_fd p' = pfd_fd p
           ∧ active t' !! i = Some (p', c') ∧ drop (S i) (active t') = drop (S i) (active t).
Proof.
  intros Hm Hlog Hs Hi Ha E.
  pose proof (serve_client_safe g Hm Hlog nl i p c revents t w Hs Hi Ha) as Hr.
  rewrite E in Hr. by destruct Hr as (_ & [? ? ?]).
Qed.

(** C16. A round serves every connection exactly once, although removing one moves
    another into its place. While memory lasts and no send is refused it returns, and the
    outcomes pair off with the connections there were
    and those accepted in the round: each takes one step by the events poll reported
    for it, on its own descriptor, or is left as it is when there were none; what
    is left of them is the table afterwards. *)
Theorem round_serves_each_once g nl t w :
  magic_ok → log_ready g → server_ok nl t w → steady w →
  ∃ t' w' new rs, poll_round (round_fuel t nl w) g nl 0 t w = (Ret t', w')
    ∧ server_ok nl t' w' ∧ Forall just_accepted new
    ∧ rs.*1 ≡ₚ conns nl t ++ new ∧ Forall served_once rs ∧ conns nl t' ≡ₚ omap snd rs.
Proof.
  intros Hm Hlog Hs Hst.
  destruct (safe_total _ _ _ _ (λ Hn, Hn Hst)
    (poll_round_safe g Hm Hlog (round_fuel t nl w) nl 0 t w Hs ltac:(unfold round_fuel; lia)))
    as (t' & w' & E & _ & Hs' & new & rs & Hnew & Hrs & Hserved & Hc).
  exists t', w', new, rs. split_and!; try done; [apply Hs'..|].
  by rewrite take_0, drop_nil in Hc.
Qed.

(** Shutdown releases everything. From any table in good order it returns; each
    connection's descriptor and the listeners' are closed once, and the blocks of
    the two arrays and of every connection are freed, each of them live; nothing
    else is freed. *)
Theorem shut_down_releases g nl v4 v6 t w :
  table_ok nl t → heap_ok nl t w → world_ok w →
  ∃ w' evs, shut_down g nl v4 v6 t w = (Ret (), w') ∧ extends w w' evs
    ∧ closed_fds evs ≡ₚ ((λ pc, fd pc.2) <$> conns nl t) ++ [v4; v6]
    ∧ Forall free_live evs
    ∧ w_blocks w' = w_blocks w ∖ list_to_set (table_blocks nl t).
Proof.
  intros Ht Hh Hw.
  destruct (shut_down_run g nl v4 v6 t w Ht Hh Hw) as (w' & evs & E & K & Hx & Hc & Hb & _).
  exists w', evs. split_and!; try done. by eapply calm_frees.
Qed.

(** C34. A request over the limit blocks its connection. While memory does not run out,
    once more bytes than
    MAX_REQUEST_SIZE have arrived, the connection is PROCESSING with nothing
    staged, and from then on any events poll reports, short of an error or a
    hang-up, change nothing at all: the 414 its code announces is never sent. *)
Theorem oversized_request_stuck g nl i p c t w :
  magic_ok → log_ready g → server_ok nl t w → plenty w → nl ≤ i →
  active t !! i = Some (p, c) → state c = READING →
  MAX_REQUEST_SIZE < input_length c + length (arriving (e_recv (w_env w) (fd c))) →
  ∃ c' w', serve_client g i POLLIN t w = (Ret (false, set_entry i p c' t), w')
    ∧ state c' = PROCESSING ∧ resp_val c' = RESP_414 ∧ out_buf c' = None
    ∧ ∀ revents w2, has_event revents BROKEN = false →
      serve_client g i revents (set_entry i p c' t) w2 = (Ret (false, set_entry i p c' t), w2).
Proof.
  intros Hm Hlog [Hs _] Hp Hi Ha Hst Hlen.
  destruct (entry_slots _ _ _ _ _ (sv_table _ _ _ Hs) Ha) as (Hlt & Hpi & Hci).
  destruct (entry_client_ok _ _ _ _ _ _ Hs Hi Ha) as [Hok _].
  unfold client_ok in Hok. rewrite Hst in Hok.
  destruct (oversized_run g c p w Hok (sv_world _ _ _ Hs)
    (heap_entry_owns _ _ _ _ _ _ Hi Ha (sv_heap _ _ _ Hs)) Hp Hlen)
    as (c' & w' & E & Hst' & Hr & Ho).
  exists c', w'.
  assert (state_of i (set_entry i p c' t) = Some PROCESSING) as Hs'.
  { rewrite <-Hst'. apply state_of_lookup. apply list_lookup_insert_eq.
    destruct (sv_table _ _ _ Hs). simpl. lia. }
  split; [|split; [done|split; [done|split; [done|]]]].
  - unfold serve_client. change (has_event POLLIN BROKEN) with false.
    change (has_event POLLIN POLLIN) with true. change (has_event POLLIN POLLOUT) with false.
    rewrite (state_of_lookup i t c Hci), bool_decide_true by (by rewrite Hst).
    cbn [andb]. unfold do_read. rewrite Hci, Hpi. run. rewrite E. cbn [fst snd].
    fold (set_entry i p c' t). by rewrite Hs', bool_decide_false.
  - intros revents w2 Hb. unfold serve_client. rewrite Hb.
    do 3 (run; rewrite Hs', !bool_decide_false by done; cbn [orb]; rewrite ?andb_false_r). done.
Qed.

(** C3. From request to response. While memory lasts and no send is refused, a connection
    that delivers a complete request,
    accepted or not, for any resource, is answered in two turns of the loop: the
    first, when poll reports input, stages the response and logs one line for the request; the
    second, when the socket is ready, sends a whole message with the status, the
    length and the content of the reference's response, closes the descriptor and
    removes the connection. *)
Theorem request_answered g nl i p c t w date line :
  magic_ok → log_ready g → server_ok nl t w → nl ≤ i → active t !! i = Some (p, c) →
  complete_request c w date line → steady w →
  let rr := reference (w_env w) (has_flag g C_FLAG) (client_addr c) (body_len c) line in
  ∃ t1 w1 t2 w2 evs1 evs,
    serve_client g i POLLIN t w = (Ret (false, t1), w1)
    ∧ serve_client g i POLLOUT t1 w1 = (Ret (true, t2), w2)
    ∧ (p, c) :: conns nl t2 ≡ₚ conns nl t
    ∧ extends w1 w2 evs ∧ closed_fds evs = [fd c]
    ∧ http_message (sent_bytes (fd c) evs) (r_status rr) (r_length rr) (r_content rr)
    ∧ extends w w1 evs1
    ∧ log_lines evs1 = (if logging_on g then [log_line (client_addr c) date line rr] else []).
Proof. intros Hm Hlog. by apply answered_run. Qed.

(** C4. A file makes the round trip. While memory lasts and no send is refused, a client
    whose request, rendered from a method, a
    path, a version and any other headers, has arrived in whatever pieces and with
    whatever interruptions, and whose path resolves to a regular file, gets in two turns one
    whole message that says 200 OK, announces the file's length and, unless the method
    is HEAD, has the file's bytes as content; then its connection is closed. *)
Theorem file_fetched g nl i p c t w m v pth h st data mime :
  magic_ok → log_ready g → server_ok nl t w → steady w → nl ≤ i → active t !! i = Some (p, c) →
  m = HTTP_GET ∨ m = HTTP_HEAD → v = HTTP_1_0 ∨ v = HTTP_1_1 → path_ok pth → NUL ∉ h →
  let req := render_request (method_name m) pth (version_name v) h in
  state c = READING → length req ≤ MAX_REQUEST_SIZE →
  input_data c ++ arriving (e_recv (w_env w) (fd c)) = req →
  (ending (e_recv (w_env w) (fd c))).1 = false →
  resolution_of (e_fopen (w_env w)) (has_flag g C_FLAG) (default [] (split_path pth).1)
    = ServeFile st data mime →
  st_size st = zlen data → (zlen data < 2 ^ 64)%Z → is_Some (gmtime_iso (st_mtime st)) →
  ∃ t1 w1 t2 w2 evs,
    serve_client g i POLLIN t w = (Ret (false, t1), w1)
    ∧ serve_client g i POLLOUT t1 w1 = (Ret (true, t2), w2)
    ∧ (p, c) :: conns nl t2 ≡ₚ conns nl t
    ∧ extends w1 w2 evs ∧ closed_fds evs = [fd c]
    ∧ http_message (sent_bytes (fd c) evs) (B "200 OK") (zlen data)
        (if decide (m = HTTP_HEAD) then [] else data).
Proof.
  intros Hm Hlog Hs Hst Hi Ha Hme Hv Hpath Hh req Hrd Hlen Harr Hend Hres Hsz H64 [mt Hmt].
  destruct (rendered_request m v pth h Hme Hv Hpath Hh) as (e & He & Hc & _). fold req in He, Hc.
  pose proof (sv_outside _ _ _ (proj1 Hs)) as [[date Hd] _].
  assert (complete_request c w date (first_line req (length req))) as Hreq.
  { destruct (entry_client_ok _ _ _ _ _ _ (proj1 Hs) Hi Ha) as [Hok _].
    unfold client_ok in Hok. rewrite Hrd in Hok. constructor; rewrite ?Harr; try done.
    - apply Hs.
    - by eapply heap_entry_owns; [exact Hi|exact Ha|apply Hs].
    - apply Hst. }
  destruct (answered_run g nl i p c t w date _ Hm Hlog Hs Hi Ha Hreq Hst)
    as (t1 & w1 & t2 & w2 & _ & evs & H1 & H2 & H3 & H4 & H5 & H6 & _).
  exists t1, w1, t2, w2, evs. do 5 (split; [done|]).
  unfold reference in H6. rewrite Hc in H6. unfold accepted_reply in H6.
  rewrite split_path_fields in Hres. cbn [fst default] in Hres. unfold id in Hres. cbv zeta in H6. rewrite Hres in H6.
  unfold dated in H6. rewrite Hmt in H6. simpl in H6. rewrite Hsz, u64_small in H6 by (split; [apply Zle_0_nat|exact H64]).
  by destruct Hme as [-> | ->].
Qed.
End properties.

(** * Witnesses *)

Lemma run_result {A} (r : outcome A * World) o : r.1 = o → r = (o, r.2).
Proof. by destruct r; intros <-. Qed.

(** The table of two connections, the second of which has a request waiting. *)
Lemma conn_a_reading : reading conn_a.
Proof.
  constructor; try done; [|by_eval]. split; [done|]. split; [by_eval|]. right. split.
  - by left.
  - by eexists.
Qed.

Lemma sample_serving q : server_ok 1 sample_table (read_world q).
Proof.
  split.
  - constructor.
    + exact sample_table_ok.
    + exact sample_heap_ok.
    + apply read_world_ok.
    + apply Forall_cons. split; [apply conn_a_reading|]. apply Forall_singleton, conn_b_reading.
    + split; [eexists; vm_compute; reflexivity|]. intros x. constructor.
  - repeat constructor; discriminate.
Qed.

Lemma read_world_steady q : steady (read_world q).
Proof. split; [apply read_world_plenty|]. intros x. constructor. Qed.

(** A whole run: one connection, its request, its response, a signal. *)
Definition run_env : Environment :=
  e_set_accept 3 [Accepted (mkConn 5 true true true (Some (B "10.0.0.1")))]
    (e_set_recv 5 (request_queue []) sample_env).
Definition run_calls : startup :=
  mkStartup true true true good_calls (mkCalls (Some 4%Z) true true true true).
Definition run_polls : list poll_result :=
  [ PollReady (λ i, if decide (i = 0) then POLLIN else 0%Z); PollFailed EINTR;
    PollReady (λ i, if decide (i = 2) then POLLIN else 0%Z);
    PollReady (λ i, if decide (i = 2) then POLLOUT else 0%Z) ].
Definition run_world : World := world_of run_env.

Lemma run_outside : outside_ok run_world.
Proof.
  split; [eexists; vm_compute; reflexivity|]. intros x. simpl. case_decide; [|constructor].
  constructor; [by_eval|constructor].
Qed.

(** The trace of that run, evaluated. *)
Definition trace_of {A} (r : outcome A * World) : list event := w_trace r.2.
Example run_trace :
  let r := main run_calls run_polls [B "server"] run_world in
  r.1 = Exit EXIT_SUCCESS
  ∧ closed_fds (trace_of r) = [5; 3; 4]%Z
  ∧ drop (length (sent_bytes 5 (trace_of r)) - 5) (sent_bytes 5 (trace_of r)) = B "hello".
Proof. vm_compute. repeat split. Qed.

Lemma server_safe_witness :
  ∃ code w' evs, main run_calls run_polls [B "server"] run_world = (Exit code, w')
    ∧ extends run_world w' evs ∧ Forall free_live evs.
Proof.
  destruct (server_safe run_calls run_polls [B "server"] run_world sample_magic_ok
    (world_of_ok _) run_outside) as (code & w' & evs & H1 & H2 & H3 & _).
  exists code, w', evs. split; [exact H1|split; [exact H2|exact H3]].
Defined.


Lemma client_lifecycle_witness :
  ∃ closed t' w', serve_client globals_init 2 POLLIN sample_table (read_world (request_queue []))
      = (Ret (closed, t'), w') ∧ server_ok 1 t' w'
    ∧ take 2 (active t') = take 2 (active sample_table).
Proof.
  destruct (safe_total _ _ _ _ (λ Hn, Hn (read_world_steady _))
    (serve_client_safe globals_init sample_magic_ok quiet_log_ready 1 2 (mkPollFd 5 POLLIN 0) conn_b
      POLLIN sample_table (read_world (request_queue [])) (sample_serving _) ltac:(lia) eq_refl))
    as ([closed t'] & w' & E & _).
  exists closed, t', w'. split; [exact E|].
  destruct (client_lifecycle globals_init 1 2 (mkPollFd 5 POLLIN 0) conn_b POLLIN sample_table
    (read_world (request_queue [])) closed t' w' sample_magic_ok quiet_log_ready
    (sample_serving _) ltac:(lia) eq_refl E) as (H1 & H2 & _).
  split; [exact H1|exact H2].
Defined.

(** The round after poll has reported input on every entry. *)
Definition busy_table : Table := poll_update (λ _, POLLIN) sample_table.

Lemma round_serves_each_once_witness :
  ∃ t' w' new rs,
    poll_round (round_fuel busy_table 1 (read_world (request_queue []))) globals_init 1 0
      busy_table (read_world (request_queue [])) = (Ret t', w')
    ∧ rs.*1 ≡ₚ conns 1 busy_table ++ new ∧ conns 1 t' ≡ₚ omap snd rs.
Proof.
  destruct (round_serves_each_once globals_init 1 busy_table (read_world (request_queue []))
    sample_magic_ok quiet_log_ready (poll_update_ok 1 _ _ _ (sample_serving _))
    (read_world_steady _)) as (t' & w' & new & rs & H1 & _ & _ & H2 & _ & H3).
  exists t', w', new, rs. split; [exact H1|split; [exact H2|exact H3]].
Defined.

Lemma shut_down_releases_witness :
  ∃ w' evs, shut_down globals_init 1 3 (-1) sample_table table_world = (Ret (), w')
    ∧ closed_fds evs ≡ₚ [4; 5; 3; -1]%Z ∧ w_blocks w' = w_blocks table_world ∖ {[0; 1; 2]}.
Proof.
  destruct (shut_down_releases globals_init 1 3 (-1) sample_table table_world sample_table_ok
    sample_heap_ok table_world_ok) as (w' & evs & H1 & _ & H2 & _ & H3).
  exists w', evs. split; [exact H1|split; [exact H2|]]. rewrite H3. simpl. set_solver.
Defined.

Lemma oversized_request_stuck_witness :
  ∃ c' w', serve_client globals_init 2 POLLIN sample_table
      (read_world [RecvData (replicate (S MAX_REQUEST_SIZE) SP)])
      = (Ret (false, set_entry 2 (mkPollFd 5 POLLIN 0) c' sample_table), w')
    ∧ state c' = PROCESSING.
Proof.
  destruct (oversized_request_stuck globals_init 1 2 (mkPollFd 5 POLLIN 0) conn_b sample_table
    (read_world [RecvData (replicate (S MAX_REQUEST_SIZE) SP)]) sample_magic_ok quiet_log_ready
    (sample_serving _) (read_world_plenty _) ltac:(lia) eq_refl eq_refl)
    as (c' & w' & H1 & H2 & _); [by_eval|].
  exists c', w'. split; [exact H1|exact H2].
Defined.

Lemma request_answered_witness :
  ∃ t1 w1 t2 w2 evs,
    serve_client globals_init 2 POLLIN sample_table (read_world (request_queue []))
      = (Ret (false, t1), w1)
    ∧ serve_client globals_init 2 POLLOUT t1 w1 = (Ret (true, t2), w2)
    ∧ http_message (sent_bytes 5 evs) (B "200 OK") 5 (B "hello").
Proof.
  destruct (request_answered globals_init 1 2 (mkPollFd 5 POLLIN 0) conn_b sample_table
    (read_world (request_queue [])) _ (B "GET /a.html HTTP/1.0") sample_magic_ok quiet_log_ready
    (sample_serving _) ltac:(lia) eq_refl
    ltac:(apply sample_complete; [reflexivity|by_eval|vm_compute; by eexists|vm_compute; reflexivity])
    (read_world_steady _))
    as (t1 & w1 & t2 & w2 & evs1 & evs & H1 & H2 & _ & _ & _ & H3 & _).
  exists t1, w1, t2, w2, evs. split; [exact H1|split; [exact H2|exact H3]].
Defined.

(** The same request, and what its client gets. *)
Lemma file_fetched_witness :
  ∃ t1 w1 t2 w2 evs,
    serve_client globals_init 2 POLLIN sample_table (read_world (request_queue []))
      = (Ret (false, t1), w1)
    ∧ serve_client globals_init 2 POLLOUT t1 w1 = (Ret (true, t2), w2)
    ∧ http_message (sent_bytes 5 evs) (B "200 OK") 5 (B "hello").
Proof.
  destruct (file_fetched globals_init 1 2 (mkPollFd 5 POLLIN 0) conn_b sample_table
    (read_world (request_queue [])) HTTP_GET HTTP_1_0 (B "/a.html") (B "Host: x")
    (mkStat false 5 0) (B "hello") (Some (B "text/html")) sample_magic_ok quiet_log_ready
    (sample_serving _) (read_world_steady _) ltac:(lia) eq_refl (or_introl eq_refl)
    (or_introl eq_refl) ltac:(eapply bool_decide_unpack; vm_compute; exact I)
    ltac:(eapply bool_decide_unpack; vm_compute; exact I) eq_refl ltac:(by_eval)
    ltac:(vm_compute; reflexivity) ltac:(vm_compute; reflexivity) ltac:(vm_compute; reflexivity)
    eq_refl ltac:(vm_compute; reflexivity) ltac:(vm_compute; by eexists))
    as (t1 & w1 & t2 & w2 & evs & H1 & H2 & _ & _ & _ & H3).
  exists t1, w1, t2, w2, evs. split; [exact H1|split; [exact H2|exact H3]].
Defined.
