(* ===== verification/Abstract.v ===== *)
(** * Abstract: the server as a set of independent connections

    What a connection is to its peer, without buffers, blocks, tables and streams;
    what one turn of the loop makes of it, as a function of its own queue and of the
    file system; and the refinement: the code's turn does what that function says,
    and a round of the loop is the turns of its connections side by side, as if each
    were served alone. *)

From S2P Require Import Prelude CLib Types OS Flags Logging ParseRequest ResolvePath Response.
From S2P Require Import Messages Connections DoRead EndToEnd DoWrite Sockets Main Effects Footprint.
From S2P Require Import Reference Loop Server.

(** ** Connections *)

(** A connection that has received these bytes of a request, that has this response
    to send, or that has sent too long a request. *)
Inductive conn_view := Receiving (input : bytes) | Responding (rr : reply) | Stuck.

(** The output buffer holds the whole message, none of it sent. *)
Definition staged (c : Client) (rr : reply) : Prop :=
  ∃ b out, out_buf c = Some (Block b out) ∧ output_length c = length out ∧ output_sent c = 0
    ∧ http_message out (r_status rr) (r_length rr) (r_content rr).

(** The client is in this situation. *)
Definition views (c : Client) (v : conn_view) : Prop :=
  match v with
  | Receiving input => reading c ∧ input_data c = input
  | Responding rr => state c = SENDING_HEADER ∧ staged c rr
  | Stuck => state c = PROCESSING
  end.

(** ** Turns *)

(** What a turn leaves of the connection ([None]: it is closed), the response it
    sends, and the request it logs, with its response. *)
Record turn := mkTurn {
  tn_next : option conn_view;
  tn_sent : option reply;
  tn_logged : option (bytes * reply)
}.

Section turns.
Context `{External}.
Context (e : Environment) (cgi_on : bool) (addr : bytes) (pending : Z).

(** Input on the connection: what the queue of results of recv makes of it. *)
Definition read_turn (q : list recv_result) (v : conn_view)
    : option conn_view * option (bytes * reply) :=
  match v with
  | Receiving input =>
      match read_spec q input with
      | Waits input' => (Some (Receiving input'), None)
      | Answers line =>
          let rr := reference e cgi_on addr pending line in (Some (Responding rr), Some (line, rr))
      | Drops => (None, None)
      | TooLong => (Some Stuck, None)
      end
  | _ => (Some v, None)
  end.

(** Room for output: a response is sent whole and the connection closed. *)
Definition write_turn (o : option conn_view) (l : option (bytes * reply)) : turn :=
  match o with
  | Some (Responding rr) => mkTurn None (Some rr) l
  | _ => mkTurn o None l
  end.

(** A turn by the events poll reports. *)
Definition turn_spec (revents : Z) (fd : Z) (v : conn_view) : turn :=
  if has_event revents BROKEN then mkTurn None None None
  else
    let '(o, l) := if has_event revents POLLIN then read_turn (e_recv e fd) v else (Some v, None) in
    if has_event revents POLLOUT then write_turn o l else mkTurn o None l.
End turns.

(** The bytes sent are the message of the reply, if there is one. *)
Definition sent_as (data : bytes) (o : option reply) : Prop :=
  match o with
  | Some rr => http_message data (r_status rr) (r_length rr) (r_content rr)
  | None => data = []
  end.

(** The log lines of a turn. *)
Definition logged_as (g : Globals) (addr date : bytes) (o : option (bytes * reply)) : list bytes :=
  match o with
  | Some (line, rr) => if logging_on g then [log_line addr date line rr] else []
  | None => []
  end.

(** What a turn leaves queued on a connection that goes on receiving. *)
Definition queue_after (revents : Z) (q : list recv_result) : list recv_result :=
  if has_event revents POLLIN then remaining q else q.

(** The client a phase of the turn leaves: in the situation, or to be closed. *)
Definition matches (c' : Client) (o : option conn_view) : Prop :=
  match o with Some v => views c' v | None => state c' = CLOSING end.

(** * Lemmas *)

Lemma turn_spec_same `{External} e e' cgi_on addr pending revents fd v :
  same_outside e e' → e_recv e' fd = e_recv e fd →
  turn_spec e' cgi_on addr pending revents fd v = turn_spec e cgi_on addr pending revents fd v.
Proof.
  intros Hs Hr. unfold turn_spec, read_turn. rewrite Hr.
  destruct v as [input| |]; try done. destruct (read_spec _ _); try done.
  by rewrite (reference_same e e').
Qed.

Lemma delivers_staged w c rr : delivers w c rr → output_sent c = 0 → staged c rr.
Proof.
  intros (_ & (b & out & Ho & _ & Hl & _ & Hm) & _) Hs. by exists b, out.
Qed.

(** The state of a client by its situation. *)
Definition state_view (v : conn_view) : client_state :=
  match v with Receiving _ => READING | Responding _ => SENDING_HEADER | Stuck => PROCESSING end.
Lemma views_state c v : views c v → state c = state_view v.
Proof. destruct v; [intros [[] _]|intros [? _]|]; done. Qed.

Section turn.
Context `{External} (g : Globals).
Context (Hmagic : magic_ok) (Hlog : log_ready g).

(** The first half of a turn. *)
Lemma read_half nl i p c v revents t w date :
  serving_ok nl t w → nl ≤ i → active t !! i = Some (p, c) → plenty w → views c v →
  gmtime_iso (e_now (w_env w)) = Some date →
  let '(o, l) := if has_event revents POLLIN
                 then read_turn (w_env w) (has_flag g C_FLAG) (client_addr c) (body_len c)
                        (e_recv (w_env w) (fd c)) v
                 else (Some v, None) in
  ∃ p1 c1 w1 evs,
    (if has_event revents POLLIN && bool_decide (state_of i t = Some READING)
     then do_read g i t else mret t) w = (Ret (set_entry i p1 c1 t), w1)
    ∧ calm w w1 ∧ serving_ok nl (set_entry i p1 c1 t) w1 ∧ fd c1 = fd c ∧ pfd_fd p1 = pfd_fd p
    ∧ matches c1 o ∧ extends w w1 evs ∧ log_lines evs = logged_as g (client_addr c) date l
    ∧ (∀ y, sent_bytes y evs = [])
    ∧ (∀ input, o = Some (Receiving input) →
         e_recv (w_env w1) (fd c) = queue_after revents (e_recv (w_env w) (fd c)))
    ∧ (l ≠ None → e_recv (w_env w1) (fd c) = remaining (e_recv (w_env w) (fd c))).
Proof.
  intros Hs Hi Ha Hp Hv Ht.
  destruct (entry_slots _ _ _ _ _ (sv_table _ _ _ Hs) Ha) as (Hlt & Hpi & Hci).
  rewrite (state_of_lookup i t c Hci), (views_state c v Hv).
  assert (∃ p1 c1 w1 evs, (mret t : M Table) w = (Ret (set_entry i p1 c1 t), w1)
    ∧ calm w w1 ∧ serving_ok nl (set_entry i p1 c1 t) w1 ∧ fd c1 = fd c ∧ pfd_fd p1 = pfd_fd p
    ∧ matches c1 (Some v) ∧ extends w w1 evs ∧ log_lines evs = []
    ∧ (∀ y, sent_bytes y evs = [])
    ∧ e_recv (w_env w1) (fd c) = e_recv (w_env w) (fd c))
    as (p0 & c0 & w0 & evs0 & Hskip).
  { exists p, c, w, []. rewrite (set_entry_same i p c t) by done.
    split; [done|]. split; [apply calm_refl, Hs|]. do 4 (split; [done|]). split; [by apply extends_nil|done]. }
  unfold queue_after. destruct (has_event revents POLLIN); cbn [andb];
    [|exists p0, c0, w0, evs0; naive_solver].
  destruct v as [input| |]; [|exists p0, c0, w0, evs0; naive_solver..]. clear Hskip. destruct Hv as [Hr Hin].
  rewrite bool_decide_true by done.
  destruct (read_total g Hmagic c p w date Hlog Hr (sv_world _ _ _ Hs)
    (heap_entry_owns _ _ _ _ _ _ Hi Ha (sv_heap _ _ _ Hs)) Hp Ht)
    as (c1 & p1 & w1 & evs & E & Ho & Hx & Hl & Hrem).
  destruct (read_client_run g Hmagic c p w date Hlog (sv_world _ _ _ Hs)
    (heap_entry_owns _ _ _ _ _ _ Hi Ha (sv_heap _ _ _ Hs)) Hr Ht)
    as (c2 & p2 & w2 & E2 & Hh & Hf & Hpf & Hok & Hsent & _).
  rewrite E in E2. injection E2 as <- <- <-. rewrite Hin in Ho, Hl, Hrem. unfold read_turn.
  assert (∀ y, sent_bytes y evs = []) as Hquiet.
  { intros y. exact (does_no_send _ _ _ _ _ _ y evs (receives_no_send _ _) (does_read_client g c p) E Hx). }
  assert (do_read g i t w = (Ret (set_entry i p1 c1 t), w1)) as Hdo.
  { unfold do_read. by rewrite Hci, Hpi, (bind_run _ _ _ _ _ E). }
  assert (serving_ok nl (set_entry i p1 c1 t) w1) as Hs1 by (by eapply entry_step).
  destruct (read_spec _ _) as [input'|line| |]; exists p1, c1, w1, evs;
    (split; [exact Hdo|]; split; [apply Hh|]; do 3 (split; [done|])).
  - destruct Ho as (Hr1 & Hi1 & _). subst evs. split_and!; try done. intros _ _. by apply Hrem.
  - destruct Ho as (Hst & _ & _ & Hd). split; [|split_and!; try done; intros _; by apply Hrem].
    split; [done|]. by eapply delivers_staged.
  - destruct Ho as [Hst _]. subst evs. by split_and!.
  - destruct Ho as [Hst _]. subst evs. by split_and!.
Qed.

(** The second half. *)
Lemma write_half nl i p c o l revents t w :
  serving_ok nl t w → nl ≤ i → active t !! i = Some (p, c) → steady w → matches c o →
  let tn := if has_event revents POLLOUT then write_turn o l else mkTurn o None l in
  ∃ c1 w1 evs,
    (if has_event revents POLLOUT
          && (bool_decide (state_of i t = Some SENDING_HEADER)
              || bool_decide (state_of i t = Some SENDING_BODY))
     then do_write i t else mret t) w = (Ret (set_entry i p c1 t), w1)
    ∧ calm w w1 ∧ serving_ok nl (set_entry i p c1 t) w1 ∧ fd c1 = fd c
    ∧ matches c1 (tn_next tn) ∧ extends w w1 evs ∧ log_lines evs = []
    ∧ sent_as (sent_bytes (fd c) evs) (tn_sent tn) ∧ (∀ y, y ≠ fd c → sent_bytes y evs = [])
    ∧ (∀ input, o = Some (Receiving input) → w1 = w)
    ∧ (∀ x, queued_bytes (e_recv (w_env w1) x) `suffix_of` queued_bytes (e_recv (w_env w) x)).
Proof.
  intros Hs Hi Ha Hst Hm tn.
  destruct (entry_slots _ _ _ _ _ (sv_table _ _ _ Hs) Ha) as (Hlt & Hpi & Hci).
  rewrite (state_of_lookup i t c Hci).
  assert (tn = mkTurn o None l → ∃ c1 w1 evs, (mret t : M Table) w = (Ret (set_entry i p c1 t), w1)
    ∧ calm w w1 ∧ serving_ok nl (set_entry i p c1 t) w1 ∧ fd c1 = fd c
    ∧ matches c1 (tn_next tn) ∧ extends w w1 evs ∧ log_lines evs = []
    ∧ sent_as (sent_bytes (fd c) evs) (tn_sent tn) ∧ (∀ y, y ≠ fd c → sent_bytes y evs = [])
    ∧ (∀ input, o = Some (Receiving input) → w1 = w)
    ∧ (∀ x, queued_bytes (e_recv (w_env w1) x) `suffix_of` queued_bytes (e_recv (w_env w) x))) as Hskip.
  { intros ->. exists c, w, []. rewrite (set_entry_same i p c t) by done.
    split; [done|]. split; [apply calm_refl, Hs|]. do 3 (split; [done|]).
    split; [by apply extends_nil|done]. }
  unfold tn in *. destruct (has_event revents POLLOUT); cbn [andb]; [|by apply Hskip].
  destruct o as [[input|rr|]|]; simpl in Hm.
  - destruct Hm as [[-> _ _ _ _ _] _]. by apply Hskip.
  - clear Hskip. destruct Hm as [Hsh (b & out & Hob & Hol & Hos & Hmsg)].
    rewrite Hsh, bool_decide_true by done. cbn [orb].
    assert (sending c) as Hsend.
    { split; [lia|]. intros blk Hblk. rewrite Hob in Hblk. by injection Hblk as <-. }
    destruct (safe_total _ _ _ _ (λ Hn, Hn (proj2 Hst (fd c)))
      (write_client_run c w (sv_world _ _ _ Hs) Hsend))
      as (c1 & w1 & E & K & Hcl & Hf & How & Hsd).
    pose proof Hsd as (_ & Hb & _ & Hnx & evs & Hx & Hd & _).
    exists c1, w1, evs. split; [|split; [done|split; [|split; [done|split; [done|split; [done|]]]]]].
    + unfold do_write. rewrite Hci, (bind_run _ _ _ _ _ E). by rewrite (set_client_entry i p).
    + eapply entry_step; [exact Hs|done|exact Ha| |done|done|by unfold client_ok; rewrite Hcl].
      apply hands_same; [done|by eapply heap_entry_owns; [| |apply Hs]|done|lia|done].
    + destruct (does_no_log _ _ _ _ _ _ (transmits_no_log _) (does_write_client c) E)
        as (evs' & Hx' & Hl'). unfold extends in Hx, Hx'. rewrite Hx in Hx'.
      apply app_inv_head in Hx' as <-. split; [done|]. split.
      * simpl. rewrite Hd, Hos, drop_0, Hob. exact Hmsg.
      * split; [|split; [done|]].
        -- intros y Hy. exact (does_no_send _ _ _ _ _ _ y evs (λ d, transmits_elsewhere _ _ d Hy)
             (does_write_client c) E Hx).
        -- destruct (does_write_client c w) as [[_ _ _ _ Hqd] _]. by rewrite E in Hqd.
  - rewrite Hm. by apply Hskip.
  - rewrite Hm. by apply Hskip.
Qed.

(** Removing the connection at the end of its turn is silent. *)
Lemma close_half nl i p c t w :
  serving_ok nl t w → nl ≤ i → active t !! i = Some (p, c) →
  ∃ t' w' evs, close_conn i t w = (Ret t', w') ∧ calm w w' ∧ extends w w' evs
    ∧ log_lines evs = [] ∧ (∀ y, sent_bytes y evs = [])
    ∧ ∀ x, queued_bytes (e_recv (w_env w') x) `suffix_of` queued_bytes (e_recv (w_env w) x).
Proof.
  intros Hs Hi Ha. destruct (close_step nl i p c t w Hs Hi Ha) as (t' & w' & E & K & _).
  destruct (does_no_log _ _ _ _ _ _ building_no_log (does_close_conn i t) E) as (evs & Hx & Hl).
  destruct (does_close_conn i t w) as [[_ _ _ _ Hqd] _]. rewrite E in Hqd.
  exists t', w', evs. do 4 (split; [done|]). split; [|done]. intros y.
  exact (does_no_send _ _ _ _ _ _ y evs (building_no_send y) (does_close_conn i t) E Hx).
Qed.
End turn.

(** What serving a connection with outcome [tn] leaves in the table and in the trace. *)
Record turn_done (g : Globals) (nl i : nat) (p : PollFd) (c : Client) (t : Table) (w : World)
    (revents : Z) (date : bytes) (tn : turn) (closed : bool) (t' : Table) (w' : World) (evs : list event) : Prop := {
  td_extends : extends w w' evs;
  td_log : log_lines evs = logged_as g (client_addr c) date (tn_logged tn);
  td_sent : sent_as (sent_bytes (fd c) evs) (tn_sent tn);
  td_others : ∀ y, y ≠ fd c → sent_bytes y evs = [];
  td_queue : ∀ input, tn_next tn = Some (Receiving input) →
    e_recv (w_env w') (fd c) = queue_after revents (e_recv (w_env w) (fd c));
  td_consumed : tn_logged tn ≠ None →
    queued_bytes (e_recv (w_env w') (fd c))
      `suffix_of` queued_bytes (remaining (e_recv (w_env w) (fd c)));
  td_next :
    match tn_next tn with
    | None => closed = true
    | Some v => closed = false ∧ ∃ p' c', active t' !! i = Some (p', c') ∧ views c' v
                  ∧ pfd_fd p' = pfd_fd p ∧ fd c' = fd c
    end
}.

Section turn_refines.
Context `{External} (g : Globals).
Context (Hmagic : magic_ok) (Hlog : log_ready g).

Lemma turn_run nl i p c v revents t w date :
  serving_ok nl t w → nl ≤ i → active t !! i = Some (p, c) → steady w → views c v →
  gmtime_iso (e_now (w_env w)) = Some date →
  let tn := turn_spec (w_env w) (has_flag g C_FLAG) (client_addr c) (body_len c) revents (fd c) v in
  ∃ closed t' w' evs, serve_client g i revents t w = (Ret (closed, t'), w')
    ∧ turn_done g nl i p c t w revents date tn closed t' w' evs.
Proof.
  intros Hs Hi Ha Hst Hv Ht tn.
  destruct (entry_slots _ _ _ _ _ (sv_table _ _ _ Hs) Ha) as (Hlt & Hpi & Hci).
  unfold serve_client, tn, turn_spec. destruct (has_event revents BROKEN).
  { destruct (close_half nl i p c t w Hs Hi Ha) as (t' & w' & evs & E & _ & Hx & Hl & Hq & _).
    exists true, t', w', evs. rewrite (bind_run _ _ _ _ _ E). split; [done|].
    by constructor; simpl. }
  pose proof (read_half g Hmagic Hlog nl i p c v revents t w date Hs Hi Ha (proj1 Hst) Hv Ht) as Hrd.
  destruct (if has_event revents POLLIN then _ else _) as [o l].
  destruct Hrd as (p1 & c1 & w1 & e1 & E1 & K1 & Hs1 & Hf1 & Hp1 & Hm1 & Hx1 & Hl1 & Hq1 & Hrem1 & Hlog1).
  rewrite (bind_run _ _ _ _ _ E1).
  assert (∀ p' c', active (set_entry i p' c' t) !! i = Some (p', c')) as Hact.
  { intros. eapply active_set_eq; [apply Hs|done]. }
  destruct (write_half nl i p1 c1 o l revents _ w1 Hs1 Hi (Hact _ _) ltac:(by eapply calm_steady) Hm1)
    as (c2 & w2 & e2 & E2 & K2 & Hs2 & Hf2 & Hm2 & Hx2 & Hl2 & Hsd2 & Hq2 & Hsame & Hqd2).
  rewrite (bind_run _ _ _ _ _ E2). rewrite set_entry_twice in Hs2 |- *. cbv zeta in *.
  rewrite Hf1 in Hsd2, Hq2.
  set (tn' := if has_event revents POLLOUT then write_turn o l else mkTurn o None l) in *.
  assert (tn_logged tn' = l) as Hlg.
  { unfold tn'. destruct (has_event revents POLLOUT); [|done]. by destruct o as [[]|]. }
  assert (state_of i (set_entry i p1 c2 t) = Some (state c2)) as Hst2.
  { apply state_of_lookup. simpl. apply list_lookup_insert_eq. destruct (sv_table _ _ _ Hs). lia. }
  rewrite Hst2. assert (∀ e3 w3 closed t', extends w2 w3 e3 → log_lines e3 = [] →
    (∀ y, sent_bytes y e3 = []) → (tn_next tn' ≠ None → w3 = w2) →
    (∀ x, queued_bytes (e_recv (w_env w3) x) `suffix_of` queued_bytes (e_recv (w_env w2) x)) →
    match tn_next tn' with
    | None => closed = true
    | Some v => closed = false ∧ ∃ p' c', active t' !! i = Some (p', c') ∧ views c' v
                  ∧ pfd_fd p' = pfd_fd p ∧ fd c' = fd c
    end → turn_done g nl i p c t w revents date tn' closed t' w3 (e1 ++ e2 ++ e3)) as Hdone.
  { intros e3 w3 closed t' Hx3 Hl3 Hq3 Hw3 Hqd3 Hn. constructor; [| | | | | |exact Hn].
    - eapply extends_trans; [exact Hx1|]. by eapply extends_trans.
    - by rewrite !log_lines_app, Hl1, Hl2, Hl3, Hlg, !app_nil_r.
    - by rewrite !sent_bytes_app, Hq1, Hq3, app_nil_r.
    - intros y Hy. by rewrite !sent_bytes_app, Hq1, Hq2, Hq3.
    - intros input Hnext. assert (o = Some (Receiving input)) as Ho.
      { unfold tn' in Hnext. destruct (has_event revents POLLOUT); [|done]. by destruct o as [[]|]. }
      rewrite Hw3 by congruence. rewrite (Hsame input Ho). by eapply Hrem1.
    - rewrite Hlg. intros Hl. rewrite <-(Hlog1 Hl). etransitivity; [apply Hqd3|apply Hqd2]. }
  destruct (tn_next tn') as [v'|] eqn:Hn; simpl in Hm2.
  - rewrite bool_decide_false by (rewrite (views_state c2 v' Hm2); by destruct v').
    exists false, (set_entry i p1 c2 t), w2, (e1 ++ e2 ++ []). split; [done|].
    apply Hdone; [by apply extends_nil|done|done|done|done|]. split; [done|]. exists p1, c2.
    split; [apply Hact|]. split_and!; [done|done|congruence].
  - rewrite Hm2, bool_decide_true by done.
    destruct (close_half nl i p1 c2 _ w2 Hs2 Hi (Hact _ _)) as (t' & w' & e3 & E3 & _ & Hx3 & Hl3 & Hq3 & Hqd3).
    rewrite (bind_run _ _ _ _ _ E3). exists true, t', w', (e1 ++ e2 ++ e3). split; [done|].
    by apply Hdone.
Qed.
End turn_refines.

(** ** Rounds *)

(** An entry of the table and its situation; its turn, by the events poll reported
    for it, in the environment [e]. *)
Abbreviation entry := (PollFd * Client)%type.
Definition conn_fd (x : entry * conn_view) : Z := fd x.1.2.

Definition turn_of `{External} (g : Globals) (e : Environment) (x : entry * conn_view) : turn :=
  let '((p, c), v) := x in
  turn_spec e (has_flag g C_FLAG) (client_addr c) (body_len c) (pfd_revents p) (fd c) v.

(** The entry a turn leaves, if any. *)
Definition turn_result (x : entry * conn_view) (tn : turn) (o : option entry) : Prop :=
  match tn_next tn, o with
  | Some v', Some (p', c') => views c' v' ∧ pfd_fd p' = pfd_fd x.1.1 ∧ fd c' = conn_fd x
  | None, None => True
  | _, _ => False
  end.

(** The rest of a round, from index [i]: the connections [xs] take their turns in [e];
    those of [idle] are left alone; new ones are appended. *)
Definition round_exact `{External} (g : Globals) (e : Environment) (date : bytes) (nl i : nat)
    (t : Table) (w : World) (xs : list (entry * conn_view)) (idle : list entry)
    (t' : Table) (w' : World) : Prop :=
  ∃ new rs evs, Forall just_accepted new ∧ rs.*1 ≡ₚ xs
    ∧ Forall (λ r, turn_result r.1 (turn_of g e r.1) r.2) rs
    ∧ conns nl t' ≡ₚ drop nl (take i (active t)) ++ omap snd rs ++ idle ++ new
    ∧ extends w w' evs
    ∧ log_lines evs ≡ₚ (xs ≫= λ x, logged_as g (client_addr x.1.2) date (tn_logged (turn_of g e x)))
    ∧ Forall (λ x, sent_as (sent_bytes (conn_fd x) evs) (tn_sent (turn_of g e x))) xs
    ∧ ∀ y, y ∉ (conn_fd <$> xs) → sent_bytes y evs = [].

#[export] Instance round_exact_perm `{External} g e date nl i t w :
  Proper ((≡ₚ) ==> (≡ₚ) ==> eq ==> eq ==> impl) (round_exact g e date nl i t w).
Proof.
  intros xs xs' Hxs idle idle' Hidle t' _ <- w' _ <- (new & rs & evs & Hn & Hr & HF & Hc & Hx & Hl & Hs & Hq).
  exists new, rs, evs. rewrite <-Hxs, <-Hidle. split_and!; try done.
  intros y Hy. apply Hq. by rewrite Hxs.
Qed.

(** Where a round stands at index [i]: the connections [xs] are still to be served,
    in the situations given, on descriptors of their own and with their queues as
    they were in [e]; poll reported nothing for those of [idle]. *)
Record round_at `{External} (e : Environment) (nl i : nat) (t : Table) (w : World)
    (xs : list (entry * conn_view)) (idle : list entry) : Prop := {
  ra_ok : server_ok nl t w;
  ra_steady : steady w;
  ra_entries : drop (i `max` nl) (active t) ≡ₚ xs.*1 ++ idle;
  ra_views : Forall (λ x, views x.1.2 x.2) xs;
  ra_idle : Forall (λ pc, pfd_revents pc.1 = 0%Z) idle;
  ra_fds : NoDup (conn_fd <$> xs);
  ra_listeners : Forall (λ pc, pfd_fd pc.1 ∉ conn_fd <$> xs) (take nl (active t));
  ra_outside : same_outside e (w_env w);
  ra_recv : Forall (λ x, e_recv (w_env w) (conn_fd x) = e_recv e (conn_fd x)) xs
}.

Section round.
Context `{External} (g : Globals).
Context (Hmagic : magic_ok) (Hlog : log_ready g).

(** One more turn in front of the rest of the round. *)
Lemma round_exact_cons e date nl i i1 t t1 w w1 x xs idle o e1 t' w' :
  turn_result x (turn_of g e x) o → extends w w1 e1 →
  log_lines e1 = logged_as g (client_addr x.1.2) date (tn_logged (turn_of g e x)) →
  sent_as (sent_bytes (conn_fd x) e1) (tn_sent (turn_of g e x)) →
  (∀ y, y ≠ conn_fd x → sent_bytes y e1 = []) → conn_fd x ∉ conn_fd <$> xs →
  drop nl (take i1 (active t1)) ≡ₚ drop nl (take i (active t)) ++ option_list o →
  round_exact g e date nl i1 t1 w1 xs idle t' w' → round_exact g e date nl i t w (x :: xs) idle t' w'.
Proof.
  intros Hres Hx1 Hl1 Hs1 Hq1 Hnd Htk (new & rs & evs & Hn & Hr & HF & Hc & Hx & Hl & Hs & Hq).
  exists new, ((x, o) :: rs), (e1 ++ evs). csimpl. split_and!.
  - done.
  - by rewrite Hr.
  - by constructor.
  - rewrite Hc, Htk. destruct o; simpl; rewrite <-?app_assoc; done.
  - by eapply extends_trans.
  - by rewrite log_lines_app, Hl1, Hl.
  - constructor; [rewrite sent_bytes_app, (Hq _ Hnd), app_nil_r; exact Hs1|].
    rewrite Forall_forall in Hs |- *. intros y Hy. rewrite sent_bytes_app, Hq1; [by apply Hs|].
    intros E. apply Hnd. rewrite <-E. by apply list_elem_of_fmap_2.
  - intros y [Hy1 Hy2]%not_elem_of_cons. by rewrite sent_bytes_app, Hq1, Hq.
Qed.

(** An entry that takes no turn, and new ones. *)
Lemma round_exact_idle e date nl i t w pc xs idle t' w' :
  nl ≤ i → active t !! i = Some pc →
  round_exact g e date nl (S i) t w xs idle t' w' → round_exact g e date nl i t w xs (pc :: idle) t' w'.
Proof.
  intros Hi Ha (new & rs & evs & Hn & Hr & HF & Hc & Hrest). exists new, rs, evs.
  split; [done|]. split; [done|]. split; [done|]. split; [|exact Hrest].
  rewrite Hc, (take_S_r _ _ _ Ha), drop_app_le; [solve_Permutation|].
  rewrite length_take. apply lookup_lt_Some in Ha. lia.
Qed.

Lemma round_exact_new e date nl i t t1 w w1 new1 e1 xs idle t' w' :
  i < nl → Forall just_accepted new1 → extends w w1 e1 → log_lines e1 = [] →
  (∀ y, sent_bytes y e1 = []) → drop nl (take (S i) (active t1)) = [] →
  drop nl (take i (active t)) = [] →
  round_exact g e date nl (S i) t1 w1 xs (idle ++ new1) t' w' →
  round_exact g e date nl i t w xs idle t' w'.
Proof.
  intros Hi Hn1 Hx1 Hl1 Hq1 Ht1 Ht (new & rs & evs & Hn & Hr & HF & Hc & Hx & Hl & Hs & Hq).
  exists (new1 ++ new), rs, (e1 ++ evs). split_and!.
  - by apply Forall_app.
  - done.
  - done.
  - rewrite Hc, Ht, Ht1, <-!app_assoc. solve_Permutation.
  - by eapply extends_trans.
  - by rewrite log_lines_app, Hl1.
  - eapply Forall_impl; [exact Hs|]. intros x. by rewrite sent_bytes_app, Hq1.
  - intros y Hy. by rewrite sent_bytes_app, Hq1, Hq.
Qed.

(** Serving a listener, passing over an entry, and serving a connection. *)
Lemma round_at_listener e nl i t w t1 w1 xs idle new p c :
  i < nl → active t !! i = Some (p, c) → calm w w1 → server_ok nl t1 w1 →
  active t1 = active t ++ new → Forall just_accepted new →
  (∀ y, y ≠ pfd_fd p → e_recv (w_env w1) y = e_recv (w_env w) y) →
  round_at e nl i t w xs idle → round_at e nl (S i) t1 w1 xs (idle ++ new).
Proof.
  intros Hi Ha K Hs Hact Hnew Hq [Hok Hst He Hv Hid Hnd Hl Ho Hr].
  assert (nl ≤ length (active t)) as Hnl.
  { rewrite (length_active nl); apply (sv_table _ _ _ (proj1 Hok)). }
  rewrite Nat.max_r in He by lia. constructor; try done.
  - by eapply calm_steady.
  - rewrite Nat.max_r, Hact, drop_app_le, He by lia. by rewrite app_assoc.
  - apply Forall_app. split; [done|]. eapply Forall_impl; [exact Hnew|]. by intros ? (_ & ? & _).
  - by rewrite Hact, take_app_le.
  - eapply same_trans; [exact Ho|]. apply K.
  - rewrite Forall_forall in Hl. rewrite Forall_forall in Hr |- *. intros x Hx. rewrite Hq; [by apply Hr|].
    intros E. apply (Hl (p, c)).
    + apply list_elem_of_lookup. exists i. by rewrite lookup_take_lt.
    + simpl. rewrite <-E. by apply list_elem_of_fmap_2.
Qed.

Lemma round_at_idle e nl i t w xs pc idle :
  nl ≤ i → active t !! i = Some pc →
  round_at e nl i t w xs (pc :: idle) → round_at e nl (S i) t w xs idle.
Proof.
  intros Hi Ha [Hok Hst He Hv Hid Hnd Hl Ho Hr]. constructor; try done.
  - rewrite Nat.max_l in He |- * by lia. rewrite (drop_S _ _ _ Ha) in He.
    apply (Permutation_cons_inv (a := pc)). rewrite He. solve_Permutation.
  - by inversion Hid.
Qed.

Lemma round_at_turn e nl i i1 t w t1 w1 x xs idle :
  nl ≤ i → i ≤ i1 → active t !! i = Some x.1 → calm w w1 → server_ok nl t1 w1 →
  take i (active t1) = take i (active t) → drop i1 (active t1) ≡ₚ drop (S i) (active t) →
  (∀ y, y ≠ conn_fd x → e_recv (w_env w1) y = e_recv (w_env w) y) →
  round_at e nl i t w (x :: xs) idle → round_at e nl i1 t1 w1 xs idle.
Proof.
  intros Hi Hi1 Ha K Hs Htk Hdr Hq [Hok Hst He Hv Hid Hnd Hl Ho Hr].
  rewrite Nat.max_l, (drop_S _ _ _ Ha) in He by lia. csimpl in *.
  apply Permutation_cons_inv in He. apply Forall_cons in Hv as [_ Hv], Hr as [_ Hr].
  apply NoDup_cons in Hnd as [Hn Hnd]. constructor; try done.
  - by eapply calm_steady.
  - by rewrite Nat.max_l, Hdr by lia.
  - assert (take nl (active t1) = take nl (active t)) as ->.
    { rewrite <-(Nat.min_l nl i), <-!take_take by done. by rewrite Htk. }
    eapply Forall_impl; [exact Hl|]. intros pc Hpc Hin. apply Hpc. by right.
  - eapply same_trans; [exact Ho|]. apply K.
  - rewrite Forall_forall in Hr |- *. intros y Hy. rewrite Hq; [by apply Hr|].
    intros E. apply Hn. rewrite <-E. by apply list_elem_of_fmap_2.
Qed.

#[export] Instance round_at_perm e nl i t w :
  Proper ((≡ₚ) ==> (≡ₚ) ==> impl) (round_at e nl i t w).
Proof.
  intros xs xs' Hxs idle idle' Hid [Hok Hst He Hv Hi Hnd Hl Ho Hr].
  constructor; [done|done|..|done|]; try (by rewrite <-Hxs, <-?Hid).
  - by rewrite <-Hid.
  - eapply Forall_impl; [exact Hl|]. intros pc Hpc. by rewrite <-Hxs.
Qed.

(** The end of a round. *)
Lemma round_exact_done e date nl i t w xs idle :
  table_ok nl t → fd_count t ≤ i → nl ≤ i → round_at e nl i t w xs idle →
  round_exact g e date nl i t w xs idle t w.
Proof.
  intros Ht Hi Hnl Hat. pose proof (ra_entries _ _ _ _ _ _ _ Hat) as He.
  rewrite drop_ge in He by (rewrite (length_active nl) by done; lia).
  symmetry in He. apply Permutation_nil_r, app_eq_nil in He as [Hx ->].
  apply fmap_nil_inv in Hx as ->. exists [], [], []. rewrite take_ge by (by rewrite (length_active nl)).
  rewrite !app_nil_r. do 4 (split; [done|]). split; [by apply extends_nil|done].
Qed.

(** A turn of a connection poll reported nothing for. *)
Lemma turn_of_none e x : pfd_revents x.1.1 = 0%Z → turn_of g e x = mkTurn (Some x.2) None None.
Proof. destruct x as [[p c] v]. simpl. by intros ->. Qed.

(** Which connection, if any, an entry is. *)
Lemma round_at_entry e nl i t w xs idle pc :
  nl ≤ i → active t !! i = Some pc → round_at e nl i t w xs idle →
  (∃ v xs', xs ≡ₚ (pc, v) :: xs') ∨ ∃ idle', idle ≡ₚ pc :: idle'.
Proof.
  intros Hi Ha Hat. pose proof (ra_entries _ _ _ _ _ _ _ Hat) as He.
  rewrite Nat.max_l, (drop_S _ _ _ Ha) in He by done.
  assert (pc ∈ xs.*1 ++ idle) as [Hin|Hin]%elem_of_app by (rewrite <-He; by left).
  - left. apply list_elem_of_fmap in Hin as ([pc' v] & -> & Hin).
    apply elem_of_Permutation in Hin as [xs' Hp]. by exists v, xs'.
  - right. by apply elem_of_Permutation in Hin.
Qed.
End round.

Section rounds.
Context `{External} (g : Globals).
Context (Hmagic : magic_ok) (Hlog : log_ready g).

(** Serving one connection of a round. *)
Lemma round_turn e date nl i t w x xs idle closed t1 w1 :
  nl ≤ i → active t !! i = Some x.1 → gmtime_iso (e_now e) = Some date →
  round_at e nl i t w (x :: xs) idle →
  serve_client g i (pfd_revents x.1.1) t w = (Ret (closed, t1), w1) → calm w w1 →
  served_as nl i (pfd_revents x.1.1) x.1.1 x.1.2 t closed t1 w1 →
  let j := if closed then i else S i in
  round_at e nl j t1 w1 xs idle
  ∧ ∀ t' w', round_exact g e date nl j t1 w1 xs idle t' w' →
      round_exact g e date nl i t w (x :: xs) idle t' w'.
Proof.
  destruct x as [[p c] v]. intros Hi Ha Ht Hat E K Hsv. cbn [fst snd] in *.
  pose proof Hat as [Hok Hst _ Hv _ Hnd _ [(Hnow & _) _] Hr]. csimpl in *.
  apply Forall_cons in Hv as [Hv _], Hr as [Hr _]. apply NoDup_cons in Hnd as [Hn _].
  destruct (entry_slots _ _ _ _ _ (sv_table _ _ _ (proj1 Hok)) Ha) as (Hlt & _ & Hc).
  destruct (turn_run g Hmagic Hlog nl i p c v (pfd_revents p) t w date (proj1 Hok) Hi Ha Hst Hv
    ltac:(by rewrite Hnow)) as (? & ? & ? & evs & E' & [Hx Hl Hsd Hq _ _ Hnext]).
  rewrite E in E'. injection E' as <- <- <-.
  rewrite (turn_spec_same e (w_env w)) in Hl, Hsd, Hnext by (exact Hr || apply Hat).
  assert (∀ y, y ≠ fd c → e_recv (w_env w1) y = e_recv (w_env w) y) as Hrecv.
  { intros y Hy. apply (does_elsewhere _ _ _ _ _ _ y (does_serve (fd c) g i _ t
      ltac:(intros c' Hc'; congruence)) E Hy). }
  destruct Hsv as [Hok1 Hbefore Hentry]. split.
  - eapply (round_at_turn e nl i _ t w t1 w1 ((p, c), v)); [done| |done..| |done|exact Hat].
    + destruct closed; lia.
    + destruct closed; [by destruct Hentry|]. by destruct Hentry as (? & ? & _ & _ & _ & ->).
  - intros t' w'. set (x := ((p, c), v)) in *.
    eapply (round_exact_cons g e date nl i _ t t1 w w1 x xs idle
      (if closed then None else active t1 !! i)); [|exact Hx|exact Hl|exact Hsd|exact Hq|exact Hn|].
    + unfold turn_result. change (turn_of g e x) with
        (turn_spec e (has_flag g C_FLAG) (client_addr c) (body_len c) (pfd_revents p) (fd c) v).
      destruct (tn_next _); [|by subst closed].
      destruct Hnext as [-> (p' & c' & -> & ?)]. done.
    + destruct closed.
      * by rewrite Hbefore, app_nil_r.
      * destruct Hentry as (p' & c' & _ & _ & Ha1 & _). rewrite Ha1, (take_S_r _ _ _ Ha1), Hbefore.
        rewrite drop_app_le; [done|]. rewrite length_take. apply lookup_lt_Some in Ha. lia.
Qed.

(** A connection poll reported nothing for. *)
Lemma round_none e date nl i t w x xs idle :
  nl ≤ i → active t !! i = Some x.1 → pfd_revents x.1.1 = 0%Z →
  round_at e nl i t w (x :: xs) idle →
  round_at e nl (S i) t w xs idle
  ∧ ∀ t' w', round_exact g e date nl (S i) t w xs idle t' w' →
      round_exact g e date nl i t w (x :: xs) idle t' w'.
Proof.
  destruct x as [[p c] v]. intros Hi Ha Hz Hat. cbn [fst snd] in *.
  assert (calm w w) as K by apply calm_refl, (proj1 (ra_ok _ _ _ _ _ _ _ Hat)). split.
  - apply (round_at_turn e nl i (S i) t w t w ((p, c), v));
      [done|lia|exact Ha|exact K|apply Hat|done|done|done|exact Hat].
  - intros t' w' He.
    apply (round_exact_cons g e date nl i (S i) t t w w ((p, c), v) xs idle (Some (p, c)) []);
      rewrite ?turn_of_none; try done.
    + split; [apply (Forall_inv (ra_views _ _ _ _ _ _ _ Hat))|done].
    + by apply extends_nil.
    + by destruct (proj1 (NoDup_cons _ _) (ra_fds _ _ _ _ _ _ _ Hat)).
    + rewrite (take_S_r _ _ _ Ha), drop_app_le; [done|].
      rewrite length_take. apply lookup_lt_Some in Ha. lia.
Qed.

(** Serving a listener. *)
Lemma round_accept e date nl i t w p c xs idle t1 w1 new :
  i < nl → active t !! i = Some (p, c) → round_at e nl i t w xs idle →
  (if has_event (pfd_revents p) POLLIN then accept_new_conn (pfd_fd p) t else mret t) w
    = (Ret t1, w1) →
  calm w w1 → server_ok nl t1 w1 → active t1 = active t ++ new → Forall just_accepted new →
  round_at e nl (S i) t1 w1 xs (idle ++ new)
  ∧ ∀ t' w', round_exact g e date nl (S i) t1 w1 xs (idle ++ new) t' w' →
      round_exact g e date nl i t w xs idle t' w'.
Proof.
  intros Hi Ha Hat E K Hok1 Hact Hnew.
  assert (does (accepts (pfd_fd p)) (if has_event (pfd_revents p) POLLIN
    then accept_new_conn (pfd_fd p) t else mret t) (λ _, True)) as Hd.
  { destruct (has_event _ _); [apply does_accept_new_conn|by apply does_ret]. }
  destruct (Hd w) as [[(evs & Hx & HF) _ Hsock] _]. rewrite E in Hx, Hsock. split.
  - eapply round_at_listener; [done..| |exact Hat]. intros y Hy. by apply Hsock.
  - intros t' w'. apply (round_exact_new g e date nl i t t1 w w1 new evs xs idle); try done.
    + clear -HF. induction HF as [|[] evs Hev _ IH]; done || exact IH.
    + intros y. clear -HF. unfold sent_bytes. induction HF as [|[] evs Hev _ IH]; done || exact IH.
    + apply drop_ge. rewrite length_take. lia.
    + apply drop_ge. rewrite length_take. lia.
Qed.

(** At index [j], what is left to do completes the round from [i]. *)
Definition round_rest (e : Environment) (date : bytes) (nl i : nat) (t : Table) (w : World)
    (xs : list (entry * conn_view)) (idle : list entry) (j : nat) (t1 : Table) (w1 : World) : Prop :=
  ∃ ys rest, round_at e nl j t1 w1 ys rest
    ∧ ∀ t' w', round_exact g e date nl j t1 w1 ys rest t' w' →
        round_exact g e date nl i t w xs idle t' w'.

Lemma round_run e date fuel nl i t w xs idle :
  gmtime_iso (e_now e) = Some date → round_at e nl i t w xs idle →
  fd_count t - i + waiting t nl i w < fuel →
  ∃ t' w', poll_round fuel g nl i t w = (Ret t', w') ∧ round_exact g e date nl i t w xs idle t' w'.
Proof.
  intros Hd Hat Hf. pose proof (ra_ok _ _ _ _ _ _ _ Hat) as Hok.
  destruct (safe_total (¬ steady w) w (poll_round fuel g nl i t w) (λ t' w', server_ok nl t' w'
    ∧ ∃ j, fd_count t' ≤ j ∧ round_rest e date nl i t w xs idle j t' w'))
    as (t' & w' & E & _ & Hs' & j & Hj & ys & rest & Hat' & Hr).
  { intros Hn. apply Hn, Hat. }
  2:{ exists t', w'. split; [done|]. pose proof (sv_table _ _ _ (proj1 Hs')) as Ht'.
      apply Hr, round_exact_done; [done..| |done]. destruct Ht'. lia. }
  apply (round_rule g Hmagic Hlog); [..|done| |done]; [| | |by exists xs, idle].
  - intros k p c t0 w0 t1 w1 new Hk Ha _ (ys & rest & Hy & Hgo) E K Hs1 Hact Hnew.
    destruct (round_accept e date nl k t0 w0 p c ys rest t1 w1 new Hk Ha Hy E K Hs1 Hact Hnew)
      as [Hy1 Hgo1]. exists ys, (rest ++ new). auto.
  - intros k p c t0 w0 Hk Ha _ Hz (ys & rest & Hy & Hgo).
    destruct (round_at_entry e nl k t0 w0 ys rest (p, c) Hk Ha Hy) as [(v & ys' & Hys)|[rest' Hrest]].
    + rewrite Hys in Hy.
      destruct (round_none e date nl k t0 w0 ((p, c), v) ys' rest Hk Ha Hz Hy) as [Hy1 Hgo1].
      exists ys', rest. split; [done|]. intros t' w' He. apply Hgo. rewrite Hys. auto.
    + rewrite Hrest in Hy. exists ys, rest'. split; [by eapply round_at_idle|].
      intros t' w' He. apply Hgo. rewrite Hrest. by eapply round_exact_idle.
  - intros k p c t0 w0 closed t1 w1 Hk Ha _ Hz (ys & rest & Hy & Hgo) E K Hsv.
    destruct (round_at_entry e nl k t0 w0 ys rest (p, c) Hk Ha Hy) as [(v & ys' & Hys)|[rest' Hrest]].
    + rewrite Hys in Hy.
      destruct (round_turn e date nl k t0 w0 ((p, c), v) ys' rest closed t1 w1 Hk Ha Hd Hy E K Hsv)
        as [Hy1 Hgo1].
      exists ys', rest. split; [done|]. intros t' w' He. apply Hgo. rewrite Hys. auto.
    + rewrite Hrest in Hy. pose proof (Forall_inv (ra_idle _ _ _ _ _ _ _ Hy)). done.
Qed.
End rounds.

(** * Properties *)

Section properties.
Context `{External}.

(** C10. A turn does what its abstract function says. While memory lasts and no send is
    refused, for a connection in any of the
    situations of conn_view and any events, serve_client returns; it sends the
    response turn_spec says, whole, or nothing; it logs the line of the request
    turn_spec says was answered, or nothing; no other connection gets a byte; it
    closes the connection or leaves it in the situation turn_spec says. One that goes on
    receiving has had exactly the results up to the first pause taken off its queue, and
    of one that was answered no byte of the request is still queued. *)
Theorem serve_client_refines g nl i p c v revents t w date :
  magic_ok → log_ready g → serving_ok nl t w → nl ≤ i → active t !! i = Some (p, c) →
  steady w → views c v → gmtime_iso (e_now (w_env w)) = Some date →
  let tn := turn_spec (w_env w) (has_flag g C_FLAG) (client_addr c) (body_len c) revents (fd c) v in
  ∃ closed t' w' evs, serve_client g i revents t w = (Ret (closed, t'), w')
    ∧ turn_done g nl i p c t w revents date tn closed t' w' evs.
Proof. intros Hm Hl Hs Hi Ha Hst Hv Ht. by apply (turn_run g Hm Hl). Qed.

(** C8. A round is the turns of its connections side by side. While memory lasts and no
    send is refused, and the connections' descriptors differ from each other and from
    the listeners', as open descriptors do: whatever order the loop visits them in while removing some and adding others, each connection gets
    exactly the turn it would get alone, in the environment at the start of the
    round: its bytes, its line in the log and its next situation are those of its
    turn_spec; the table holds afterwards what is left of them and the new
    connections; and nobody else is sent anything. *)
Theorem round_is_parallel g nl t w date vs :
  magic_ok → log_ready g → server_ok nl t w → steady w →
  gmtime_iso (e_now (w_env w)) = Some date →
  Forall2 (λ pc v, views pc.2 v) (conns nl t) vs →
  NoDup ((λ pc, fd pc.2) <$> conns nl t) →
  Forall (λ pc, pfd_fd pc.1 ∉ (λ pc, fd pc.2) <$> conns nl t) (take nl (active t)) →
  let xs := zip (conns nl t) vs in
  let turn x := turn_of g (w_env w) x in
  ∃ t' w' new rs evs, poll_round (round_fuel t nl w) g nl 0 t w = (Ret t', w')
    ∧ Forall just_accepted new ∧ rs.*1 ≡ₚ xs
    ∧ Forall (λ r, turn_result r.1 (turn r.1) r.2) rs
    ∧ conns nl t' ≡ₚ omap snd rs ++ new
    ∧ extends w w' evs
    ∧ log_lines evs ≡ₚ (xs ≫= λ x, logged_as g (client_addr x.1.2) date (tn_logged (turn x)))
    ∧ Forall (λ x, sent_as (sent_bytes (conn_fd x) evs) (tn_sent (turn x))) xs
    ∧ ∀ y, y ∉ (conn_fd <$> xs) → sent_bytes y evs = [].
Proof.
  intros Hm Hl Hs Hst Hd Hv Hnd Hlis xs turn.
  assert (xs.*1 = conns nl t) as Hx1 by (apply fst_zip; by rewrite (Forall2_length _ _ _ Hv)).
  assert (conn_fd <$> xs = (λ pc, fd pc.2) <$> conns nl t) as Hxf.
  { rewrite <-Hx1, <-list_fmap_compose. done. }
  destruct (round_run g Hm Hl (w_env w) date (round_fuel t nl w) nl 0 t w xs [])
    as (t' & w' & E & new & rs & evs & Hn & Hr & HF & Hc & Hrest).
  - done.
  - constructor; rewrite ?Hxf; try done.
    + by rewrite Hx1, app_nil_r.
    + apply Forall_lookup. intros j [pc v] Hj. apply lookup_zip_with_Some in Hj as (pc1 & v1 & E & H1 & H2). injection E as -> ->.
      exact (Forall2_lookup_lr _ _ _ _ _ _ Hv H1 H2).
    + apply same_refl.
    + by apply Forall_true.
  - unfold round_fuel. lia.
  - exists t', w', new, rs, evs. rewrite take_0, drop_nil in Hc. simpl in Hc.
    do 5 (split; [done|]). exact Hrest.
Qed.
End properties.

(** * Witnesses *)

Definition sample_date : bytes := default [] (gmtime_iso (e_now sample_env)).

Lemma serve_client_refines_witness :
  ∃ t' w' evs, serve_client globals_init 2 (Z.lor POLLIN POLLOUT) sample_table
      (read_world (request_queue [])) = (Ret (true, t'), w')
    ∧ extends (read_world (request_queue [])) w' evs
    ∧ http_message (sent_bytes 5 evs) (B "200 OK") 5 (B "hello").
Proof.
  destruct (serve_client_refines globals_init 1 2 (mkPollFd 5 POLLIN 0) conn_b (Receiving [])
    (Z.lor POLLIN POLLOUT) sample_table (read_world (request_queue [])) sample_date
    sample_magic_ok quiet_log_ready (proj1 (sample_serving _)) ltac:(lia) eq_refl
    (read_world_steady _) (conj conn_b_reading eq_refl) ltac:(vm_compute; reflexivity))
    as (closed & t' & w' & evs & H1 & [H2 _ H3 _ _ _ H4]).
  vm_compute in H3, H4. subst closed. exists t', w', evs. split; [exact H1|split; [exact H2|exact H3]].
Defined.

(** The round of busy_table: the first connection has received three bytes and goes
    on, the second is answered. *)
Lemma busy_views :
  Forall2 (λ pc v, views pc.2 v) (conns 1 busy_table) [Receiving (B "GET"); Receiving []].
Proof.
  change (conns 1 busy_table)
    with [(mkPollFd 4 POLLIN POLLIN, conn_a); (mkPollFd 5 POLLIN POLLIN, conn_b)].
  apply Forall2_cons. split; [exact (conj conn_a_reading eq_refl)|].
  apply Forall2_cons. split; [exact (conj conn_b_reading eq_refl)|constructor].
Qed.

Lemma round_is_parallel_witness :
  ∃ t' w' new (rs : list ((entry * conn_view) * option entry)),
    poll_round (round_fuel busy_table 1 (read_world (request_queue []))) globals_init 1 0
      busy_table (read_world (request_queue [])) = (Ret t', w')
    ∧ conns 1 t' ≡ₚ omap snd rs ++ new
    ∧ (λ r : (entry * conn_view) * option entry, r.1.2) <$> rs ≡ₚ [Receiving (B "GET"); Receiving []].
Proof.
  destruct (round_is_parallel globals_init 1 busy_table (read_world (request_queue [])) sample_date
    [Receiving (B "GET"); Receiving []] sample_magic_ok quiet_log_ready
    (poll_update_ok 1 _ _ _ (sample_serving _)) (read_world_steady _) ltac:(vm_compute; reflexivity)
    busy_views
    ltac:(apply (bool_decide_unpack _); vm_compute; exact I)
    ltac:(apply (bool_decide_unpack _); vm_compute; exact I))
    as (t' & w' & new & rs & evs & H1 & _ & H2 & _ & H3 & _).
  exists t', w', new, rs. split; [exact H1|split; [exact H3|]].
  change (λ r : (entry * conn_view) * option entry, r.1.2)
    with (snd ∘ fst : (entry * conn_view) * option entry → conn_view).
  rewrite list_fmap_compose, H2. reflexivity.
Defined.
