(* ===== verification/History.v ===== *)
(** * History: what a whole run sends and logs

    The requests a run of the process receives, in order, with the descriptor each
    came on and the bytes it is made of; that no byte received is part of two requests;
    that the log is their lines and nothing else; and that whatever is sent are
    whole responses, each to a request of its own. *)

From S2P Require Import Prelude CLib Types OS Flags Logging ParseRequest ResolvePath Response.
From S2P Require Import Messages Connections DoRead EndToEnd DoWrite Sockets Main Effects Footprint.
From S2P Require Import Reference Loop Server Abstract.
From stdpp Require Import sorting.

(** ** Requests and responses *)

(** A request as do_read answers it: the connection's descriptor and peer, what the
    client's body_len holds, the positions of its bytes among those the descriptor
    delivers, and the first line. *)
Record request := mkRequest {
  rq_fd : Z; rq_addr : bytes; rq_pending : Z; rq_at : list nat; rq_line : bytes
}.
Definition rq_bytes (rq : request) : list (Z * nat) := (rq_fd rq,.) <$> rq_at rq.

(** A client, its situation, and the positions of the bytes it has received. *)
Record place := mkPlace { pl_client : Client; pl_view : conn_view; pl_at : list nat }.
Definition pl_bytes (x : place) : list (Z * nat) := (fd (pl_client x),.) <$> pl_at x.

(** The part of a request the connection has received. *)
Definition view_input (v : conn_view) : bytes :=
  match v with Receiving input => input | _ => [] end.

(** The response a connection has staged. *)
Definition pending_reply (x : place) : option (Z * reply) :=
  match pl_view x with Responding rr => Some (fd (pl_client x), rr) | _ => None end.

(** What a sublist up to order inherits. *)
Lemma submseteq_NoDup {A} (l k : list A) : l ⊆+ k → NoDup k → NoDup l.
Proof. intros [r Hp]%submseteq_Permutation. rewrite Hp. by intros [? _]%NoDup_app. Qed.
Lemma submseteq_Forall {A} (P : A → Prop) (l k : list A) : l ⊆+ k → Forall P k → Forall P l.
Proof. intros [r Hp]%submseteq_Permutation. rewrite Hp. by intros [? _]%Forall_app. Qed.

Section history.
Context `{External} (e : Environment) (g : Globals) (date : bytes).

Definition answer_to (rq : request) : Z * reply :=
  (rq_fd rq, reference e (has_flag g C_FLAG) (rq_addr rq) (rq_pending rq) (rq_line rq)).
Definition logged (rq : request) : bytes :=
  log_line (rq_addr rq) date (rq_line rq) (answer_to rq).2.

(** These are the bytes [x] delivers at these positions, in the order they come. *)
Definition bytes_at (x : Z) (ps : list nat) (input : bytes) : Prop :=
  StronglySorted lt ps ∧ Forall2 (λ k b, queued_bytes (e_recv e x) !! k = Some b) ps input.

(** How many bytes of [x] have been received. *)
Definition consumed (w : World) (x : Z) : nat :=
  length (queued_bytes (e_recv e x)) - length (queued_bytes (e_recv (w_env w) x)).

(** No byte twice, and only bytes that have been received. *)
Definition used_once (w : World) (l : list (Z * nat)) : Prop :=
  NoDup l ∧ Forall (λ xk, xk.2 < consumed w xk.1) l.

#[global] Instance used_once_Permutation w : Proper ((≡ₚ) ==> iff) (used_once w).
Proof. intros l l' Hl. unfold used_once. by rewrite Hl. Qed.

(** The response a turn leaves staged. *)
Definition left_staged (o : option conn_view) : list reply :=
  match o with Some (Responding rr) => [rr] | _ => [] end.

(** The clients are in these situations, and have received these bytes. *)
Definition situated (xs : list place) : Prop :=
  Forall (λ x, views (pl_client x) (pl_view x)
               ∧ bytes_at (fd (pl_client x)) (pl_at x) (view_input (pl_view x))) xs.

(** The bytes are whole messages, of these replies in this order. *)
Definition messages (data : bytes) (rrs : list reply) : Prop :=
  ∃ msgs, data = concat msgs
    ∧ Forall2 (λ m rr, http_message m (r_status rr) (r_length rr) (r_content rr)) msgs rrs.

(** The replies sent on [y]. *)
Definition replies_on (y : Z) (sent : list (Z * reply)) : list reply :=
  (filter (λ s, s.1 = y) sent).*2.

(** The request's line is the first of an input that ended its headers, made of the
    bytes its descriptor delivered at its positions. *)
Definition received (rq : request) : Prop :=
  ∃ input, bytes_at (rq_fd rq) (rq_at rq) input
    ∧ is_Some (strnstr input HEADER_END (length input))
    ∧ rq_line rq = first_line input (length input).

(** What has happened, given the requests [asked] and the replies [sent] so far: the
    log, the bytes sent, a request for each reply sent or staged, and bytes of its
    own for each request and each connection still receiving. *)
Record accounts (w : World) (cs : list Client) (evs : list event) (asked : list request)
    (sent : list (Z * reply)) : Prop := {
  ac_logged : log_lines evs = if logging_on g then logged <$> asked else [];
  ac_sent : ∀ y, messages (sent_bytes y evs) (replies_on y sent);
  ac_received : Forall received asked;
  ac_asked : ∃ xs, pl_client <$> xs ≡ₚ cs ∧ situated xs
               ∧ sent ++ omap pending_reply xs ⊆+ answer_to <$> asked
               ∧ used_once w ((xs ≫= pl_bytes) ++ (asked ≫= rq_bytes))
}.

(** The invariant of a run that began in [w0]. *)
Definition history (w0 : World) (nl : nat) (t : Table) (w : World) : Prop :=
  same_outside e (w_env w)
  ∧ (∀ x, queued_bytes (e_recv (w_env w) x) `suffix_of` queued_bytes (e_recv e x))
  ∧ ∃ evs asked sent, extends w0 w evs ∧ accounts w (snd <$> conns nl t) evs asked sent.

(** * Lemmas *)

Lemma messages_nil : messages [] [].
Proof. by exists []. Qed.

Lemma messages_app d1 d2 r1 r2 : messages d1 r1 → messages d2 r2 → messages (d1 ++ d2) (r1 ++ r2).
Proof.
  intros (m1 & -> & H1) (m2 & -> & H2). exists (m1 ++ m2). rewrite concat_app.
  split; [done|by apply Forall2_app].
Qed.

Lemma sent_as_messages data o : sent_as data o → messages data (option_list o).
Proof.
  destruct o as [rr|]; simpl; [|intros ->; apply messages_nil]. intros Hm. exists [data].
  simpl. rewrite app_nil_r. split; [done|by repeat constructor].
Qed.

(** ** Which bytes were received *)

Lemma bytes_at_nil x : bytes_at x [] [].
Proof. split; constructor. Qed.

(** What is delivered next goes after what was received before. *)
Lemma bytes_at_app x ps input used data rest :
  queued_bytes (e_recv e x) = used ++ data ++ rest → Forall (λ k, k < length used) ps →
  bytes_at x ps input → bytes_at x (ps ++ seq (length used) (length data)) (input ++ data).
Proof.
  intros Hq Hps [Hs Hb]. split.
  - apply StronglySorted_app_2; [|done|].
    + intros k k' Hk [Hk' _]%elem_of_seq. rewrite Forall_forall in Hps. specialize (Hps _ Hk). lia.
    + generalize (length used). induction (length data) as [|n IH]; intros k; simpl; constructor.
      * apply IH.
      * apply Forall_forall. intros k' [Hk' _]%elem_of_seq. lia.
  - apply Forall2_app; [done|]. apply Forall2_same_length_lookup_2; [by rewrite length_seq|].
    intros i k b [-> Hi]%lookup_seq Hb'. rewrite Hq, lookup_app_r by lia.
    replace (length used + i - length used) with i by lia. by rewrite lookup_app_l.
Qed.

Lemma taken_more w w' x :
  queued_bytes (e_recv (w_env w') x) `suffix_of` queued_bytes (e_recv (w_env w) x) →
  consumed w x ≤ consumed w' x.
Proof. unfold consumed. intros Hs%suffix_length. lia. Qed.

(** The bytes received, those delivered next, and the rest. *)
Lemma taken_split w x :
  queued_bytes (e_recv (w_env w) x) `suffix_of` queued_bytes (e_recv e x) →
  ∃ used, length used = consumed w x
    ∧ queued_bytes (e_recv e x)
      = used ++ arriving (e_recv (w_env w) x) ++ queued_bytes (remaining (e_recv (w_env w) x)).
Proof.
  intros [used Hq]. exists used. rewrite <-arriving_queued. split; [|done].
  unfold consumed. rewrite Hq, length_app. lia.
Qed.

Lemma taken_arriving w w' x :
  queued_bytes (e_recv (w_env w) x) `suffix_of` queued_bytes (e_recv e x) →
  queued_bytes (e_recv (w_env w') x) `suffix_of` queued_bytes (remaining (e_recv (w_env w) x)) →
  consumed w x + length (arriving (e_recv (w_env w) x)) ≤ consumed w' x.
Proof.
  intros Hs Hr%suffix_length. destruct (taken_split w x Hs) as (used & <- & Hq).
  unfold consumed. rewrite Hq, !length_app. lia.
Qed.

(** Fewer of the bytes used, and [n] new ones. *)
Lemma used_once_more w w' x n l l' :
  (∀ y, queued_bytes (e_recv (w_env w') y) `suffix_of` queued_bytes (e_recv (w_env w) y)) →
  consumed w x + n ≤ consumed w' x → used_once w l →
  l' ⊆+ l ++ ((x,.) <$> seq (consumed w x) n) → used_once w' l'.
Proof.
  intros Hq Hn [Hnd Hl] Hsub. split.
  - eapply submseteq_NoDup; [exact Hsub|]. apply NoDup_app. split; [done|]. split.
    + intros [y k] Hin (k' & [= -> ->] & [Hk _]%elem_of_seq)%list_elem_of_fmap.
      rewrite Forall_forall in Hl. specialize (Hl _ Hin). simpl in Hl. lia.
    + apply NoDup_fmap_2; [by intros ?? [=]|apply NoDup_seq].
  - eapply submseteq_Forall; [exact Hsub|]. apply Forall_app. split.
    + eapply Forall_impl; [exact Hl|]. intros [y k] Hk. simpl in *.
      pose proof (taken_more w w' y (Hq y)). lia.
    + apply Forall_fmap, Forall_seq. intros k Hk. simpl. lia.
Qed.

(** ** The outcome of a turn *)

(** Where the inputs of a turn's outcome come from. *)
Lemma turn_spec_input cgi_on addr pending revents y v :
  let tn := turn_spec e cgi_on addr pending revents y v in
  (∀ line rr, tn_logged tn = Some (line, rr) →
     ∃ input, v = Receiving input ∧ read_spec (e_recv e y) input = Answers line)
  ∧ ∀ input', tn_next tn = Some (Receiving input') →
     tn_logged tn = None
     ∧ ∃ input, v = Receiving input
         ∧ input' = if has_event revents POLLIN then input ++ arriving (e_recv e y) else input.
Proof.
  intros tn. unfold tn, turn_spec. destruct (has_event revents BROKEN); [done|].
  destruct (has_event revents POLLIN), v as [input| |]; simpl;
    try (destruct (has_event revents POLLOUT); simpl; (split; [done|]); intros input' Hn; simplify_eq;
      (split; [done|]); by eexists).
  destruct (read_spec (e_recv e y) input) as [input'|line| |] eqn:Hr;
    destruct (has_event revents POLLOUT); simpl; split; try done;
    try (intros ?? [= <- <-]; by exists input);
    intros ? [= <-]; (split; [done|]); exists input; (split; [done|]); unfold read_spec in Hr;
    (case_decide; [done|]); destruct (ending _).1; try done;
    (destruct (strnstr _ _ _); [done|]); by case_decide; simplify_eq.
Qed.

Lemma read_spec_answers q input line :
  read_spec q input = Answers line →
  is_Some (strnstr (input ++ arriving q) HEADER_END (length (input ++ arriving q)))
  ∧ line = first_line (input ++ arriving q) (length (input ++ arriving q)).
Proof.
  unfold read_spec. intros Hr. case_decide; [done|]. destruct (ending _).1; [done|].
  destruct (strnstr _ _ _); [|by case_decide]. by injection Hr as <-.
Qed.

(** A turn neither invents nor repeats a response. *)
Lemma turn_spec_account cgi_on addr pending revents y v :
  let tn := turn_spec e cgi_on addr pending revents y v in
  option_list (tn_sent tn) ++ left_staged (tn_next tn)
    ⊆+ left_staged (Some v) ++ (snd <$> option_list (tn_logged tn))
  ∧ ∀ line rr, tn_logged tn = Some (line, rr) → rr = reference e cgi_on addr pending line.
Proof.
  intros tn. unfold tn, turn_spec. destruct (has_event revents BROKEN).
  { split; [apply submseteq_nil_l|done]. }
  destruct (has_event revents POLLIN), v as [input| |]; simpl;
    try (destruct (has_event revents POLLOUT); by split).
  destruct (read_spec _ _) as [input'|line| |]; destruct (has_event revents POLLOUT); simpl;
    (split; [try apply submseteq_nil_l; reflexivity|]); try done; by intros ?? [= <- <-].
Qed.
End history.

(** The connections after a turn. *)
Lemma served_conns nl i revents p c t closed t' w' :
  nl ≤ i → active t !! i = Some (p, c) → served_as nl i revents p c t closed t' w' →
  conns nl t' ≡ₚ option_list (if closed then None else active t' !! i) ++ others nl i t.
Proof.
  intros Hi Ha [_ Hb He]. pose proof (lookup_lt_Some _ _ _ Ha) as Hlt.
  assert (others nl i t = drop nl (take i (active t)) ++ drop (S i) (active t)) as ->.
  { unfold others, conns. rewrite take_drop_commute, drop_drop. do 2 f_equal; f_equal; lia. }
  unfold conns. rewrite <-(take_drop i (active t')), Hb.
  rewrite drop_app_le by (rewrite length_take; lia). destruct closed.
  - destruct He as [_ ->]. done.
  - destruct He as (p' & c' & _ & _ & Ha' & Hd).
    rewrite <-Hb, take_drop, Hb, Ha', (drop_S _ _ _ Ha'), Hd. simpl. solve_Permutation.
Qed.

Lemma clients_view (l l' : list (PollFd * Client)) : view <$> l = view <$> l' → snd <$> l = snd <$> l'.
Proof.
  intros E. assert (∀ k : list (PollFd * Client), snd <$> k = snd <$> (view <$> k)) as Hk.
  { intros k. rewrite <-list_fmap_compose. done. }
  by rewrite !Hk, E.
Qed.

(** The bytes [k] of one place are replaced by [k'] and [a'], out of them and new ones. *)
Lemma submseteq_swap {A} (k k' kept a' new r l : list A) :
  k' ⊆+ kept → kept ++ a' ⊆+ k ++ new → (k' ++ r) ++ l ++ a' ⊆+ ((k ++ r) ++ l) ++ new.
Proof.
  intros H1 H2. assert ((k' ++ r) ++ l ++ a' ≡ₚ (k' ++ a') ++ r ++ l) as -> by solve_Permutation.
  assert (((k ++ r) ++ l) ++ new ≡ₚ (k ++ new) ++ r ++ l) as -> by solve_Permutation.
  apply submseteq_app; [|done]. etransitivity; [|exact H2]. by apply submseteq_app.
Qed.

(** What is paid [s'] and still owed [d'] is covered by what was owed and the new. *)
Lemma submseteq_pay {A} (s s' d d' n r l : list A) :
  s ++ d ++ r ⊆+ l → s' ++ d' ⊆+ d ++ n → (s ++ s') ++ d' ++ r ⊆+ l ++ n.
Proof.
  intros H1 H2. assert ((s ++ s') ++ d' ++ r ≡ₚ (s' ++ d') ++ (s ++ r)) as -> by solve_Permutation.
  etransitivity; [by apply submseteq_app; [exact H2|]|].
  assert ((d ++ n) ++ s ++ r ≡ₚ (s ++ d ++ r) ++ n) as -> by solve_Permutation.
  by apply submseteq_app.
Qed.

Section kept.
Context `{External} (e : Environment) (g : Globals) (date : bytes).
Context (Hmagic : magic_ok) (Hlog : log_ready g) (Hdate : gmtime_iso (e_now e) = Some date).
Context (w0 : World) (nl : nat).

Lemma history_poll : stable_poll (history e g date w0 nl).
Proof.
  intros revents t w (Hs & Hq & evs & asked & sent & Hx & Hac). split; [done|]. split; [done|].
  exists evs, asked, sent. split; [done|]. by rewrite (clients_view _ _ (conns_poll_update nl revents t)).
Qed.

(** Silent steps: nothing is sent or logged, and the clients are as they were. *)
Lemma history_silent t w t' w' evs :
  history e g date w0 nl t w → extends w w' evs → log_lines evs = [] →
  (∀ y, sent_bytes y evs = []) → same_outside (w_env w) (w_env w') →
  (∀ x, queued_bytes (e_recv (w_env w') x) `suffix_of` queued_bytes (e_recv (w_env w) x)) →
  (∀ xs, pl_client <$> xs ≡ₚ snd <$> conns nl t → situated e xs →
   ∃ ys, pl_client <$> ys ≡ₚ snd <$> conns nl t' ∧ situated e ys
     ∧ omap pending_reply ys = omap pending_reply xs ∧ ys ≫= pl_bytes = xs ≫= pl_bytes) →
  history e g date w0 nl t' w'.
Proof.
  intros (Hs & Hq & evs0 & asked & sent & Hx0 & [Hl Hsd Hrc (xs & Hxs & Hv & Hsub & Hu)]) Hx Hle
    Hse Hso Hq' Hstep.
  split; [by eapply same_trans|]. split; [intros x; etransitivity; [apply Hq'|apply Hq]|]. exists (evs0 ++ evs), asked, sent.
  split; [by eapply extends_trans|]. destruct (Hstep xs Hxs Hv) as (ys & Hys & Hv' & Ho & Hb).
  constructor; [|intros y|done|exists ys; rewrite Ho, Hb; split_and!; try done].
  - by rewrite log_lines_app, Hle, app_nil_r.
  - by rewrite sent_bytes_app, Hse, app_nil_r.
  - eapply (used_once_more e w w' 0 0); [exact Hq'| |exact Hu|by rewrite app_nil_r].
    rewrite Nat.add_0_r. by apply taken_more.
Qed.

Lemma history_accept : stable_accept nl (history e g date w0 nl).
Proof.
  intros lfd t w t1 w1 new Hs HP E Hs1 K Hact Hnew.
  destruct (does_no_log _ _ _ _ _ _ (λ l (F : shows (accepts lfd) (EvLog l)), F)
    (does_accept_new_conn lfd t) E) as (evs & Hx & Hl).
  destruct (does_accept_new_conn lfd t w) as [[_ _ _ _ Hqd] _]. rewrite E in Hqd. simpl in Hqd.
  eapply history_silent; [exact HP|exact Hx|exact Hl| |apply K|exact Hqd|].
  { intros y. exact (does_no_send _ _ _ _ _ _ y evs (λ d (F : shows (accepts lfd) (EvSend y d)), F)
      (does_accept_new_conn lfd t) E Hx). }
  intros xs Hxs Hv.
  assert (conns nl t1 = conns nl t ++ new) as Hc.
  { unfold conns. rewrite Hact, drop_app_le; [done|]. rewrite (length_active nl); apply Hs. }
  pose proof (sv_clients _ _ _ (proj1 Hs1)) as Hok. rewrite Hc in Hok.
  apply Forall_app in Hok as [_ Hok].
  set (place := λ pc : PollFd * Client, mkPlace pc.2 (Receiving []) []).
  exists (xs ++ (place <$> new)). split; [|split; [|split]].
  - rewrite fmap_app, Hxs, Hc, fmap_app, <-list_fmap_compose. done.
  - apply Forall_app. split; [done|]. apply Forall_fmap.
    rewrite Forall_forall in Hok, Hnew |- *. intros pc Hin. specialize (Hok pc Hin).
    destruct (Hnew pc Hin) as (Hst & _ & Hi). unfold client_ok in Hok. rewrite Hst in Hok.
    split; [by split|]. apply bytes_at_nil.
  - rewrite omap_app. assert (omap pending_reply (place <$> new) = []) as ->
      by (clear; by induction new). by rewrite app_nil_r.
  - rewrite bind_app. assert ((place <$> new) ≫= pl_bytes = []) as ->
      by (clear; by induction new). by rewrite app_nil_r.
Qed.

(** The request a turn answers, made of the bytes at these positions, and the reply it
    sends, as the history has them. *)
Definition newly_asked (c : Client) (ps : list nat) (tn : turn) : list request :=
  (λ l, mkRequest (fd c) (client_addr c) (body_len c) ps l.1) <$> option_list (tn_logged tn).
Definition newly_sent (c : Client) (tn : turn) : list (Z * reply) :=
  (fd c,.) <$> option_list (tn_sent tn).

Lemma newly_logged c ps tn :
  (∀ line rr, tn_logged tn = Some (line, rr) →
    rr = reference e (has_flag g C_FLAG) (client_addr c) (body_len c) line) →
  logged_as g (client_addr c) date (tn_logged tn)
  = if logging_on g then logged e g date <$> newly_asked c ps tn else [].
Proof.
  intros Hl. unfold newly_asked. destruct (tn_logged tn) as [[line rr]|]; simpl; [|by case_match].
  rewrite (Hl line rr eq_refl). done.
Qed.

Lemma newly_replied c tn y data :
  sent_as data (tn_sent tn) →
  messages (if decide (fd c = y) then data else []) (replies_on y (newly_sent c tn)).
Proof.
  intros Hs. unfold replies_on, newly_sent. destruct (tn_sent tn) as [rr|]; simpl in *.
  - rewrite filter_cons. simpl. destruct (decide (fd c = y)) as [Hy|Hy]; simpl.
    + exact (sent_as_messages data (Some rr) Hs).
    + apply messages_nil.
  - subst data. destruct (decide _); apply messages_nil.
Qed.

(** A turn pays for what it sends and stages with what was staged or is asked. *)
Lemma newly_accounted c v ps qs tn :
  (∀ line rr, tn_logged tn = Some (line, rr) →
    rr = reference e (has_flag g C_FLAG) (client_addr c) (body_len c) line) →
  option_list (tn_sent tn) ++ left_staged (tn_next tn)
    ⊆+ left_staged (Some v) ++ (snd <$> option_list (tn_logged tn)) →
  newly_sent c tn ++ ((fd c,.) <$> left_staged (tn_next tn))
    ⊆+ omap pending_reply [mkPlace c v ps] ++ (answer_to e g <$> newly_asked c qs tn).
Proof.
  intros Hl Hsub. apply (fmap_submseteq (fd c,.)) in Hsub. rewrite !fmap_app in Hsub.
  unfold newly_sent. etransitivity; [exact Hsub|]. apply reflexive_eq. f_equal.
  - by destruct v.
  - unfold newly_asked. destruct (tn_logged tn) as [[line rr]|]; [|done]. simpl.
    by rewrite (Hl line rr eq_refl).
Qed.

(** The bytes a turn receives and those it leaves with the client or in a request: the
    next ones of the descriptor go after what the client held, and what the request
    is made of is taken from the client. *)
Lemma turn_bytes c v ps revents w w1 :
  let tn := turn_spec (w_env w) (has_flag g C_FLAG) (client_addr c) (body_len c) revents (fd c) v in
  bytes_at e (fd c) ps (view_input v) → Forall (λ k, k < consumed e w (fd c)) ps →
  (∀ x, queued_bytes (e_recv (w_env w) x) `suffix_of` queued_bytes (e_recv e x)) →
  (∀ x, queued_bytes (e_recv (w_env w1) x) `suffix_of` queued_bytes (e_recv (w_env w) x)) →
  (∀ input, tn_next tn = Some (Receiving input) →
     e_recv (w_env w1) (fd c) = queue_after revents (e_recv (w_env w) (fd c))) →
  (tn_logged tn ≠ None →
     queued_bytes (e_recv (w_env w1) (fd c))
       `suffix_of` queued_bytes (remaining (e_recv (w_env w) (fd c)))) →
  ∃ n kept asked_at, consumed e w (fd c) + n ≤ consumed e w1 (fd c)
    ∧ kept ++ (if tn_logged tn is Some _ then asked_at else []) ⊆+ ps ++ seq (consumed e w (fd c)) n
    ∧ (∀ v', tn_next tn = Some v' → bytes_at e (fd c) kept (view_input v'))
    ∧ Forall (received e) (newly_asked c asked_at tn).
Proof.
  intros tn Hb Hps Hq Hq1 Hwait Hans.
  pose proof (turn_spec_input (w_env w) (has_flag g C_FLAG) (client_addr c) (body_len c)
    revents (fd c) v) as [Hin1 Hin2]. fold tn in Hin1, Hin2.
  destruct (taken_split e w (fd c) (Hq _)) as (used & Hu & Hsplit). set (q := e_recv (w_env w) (fd c)) in *.
  set (n := length (arriving q)). rewrite <-Hu in Hps.
  assert (∀ input, v = Receiving input →
    bytes_at e (fd c) (ps ++ seq (consumed e w (fd c)) n) (input ++ arriving q)) as Hmore.
  { intros input ->. rewrite <-Hu. by eapply bytes_at_app. }
  unfold newly_asked. destruct (tn_logged tn) as [[line rr]|] eqn:Hl.
  - destruct (Hin1 line rr eq_refl) as (input & -> & Hr).
    exists n, [], (ps ++ seq (consumed e w (fd c)) n). split; [by apply taken_arriving; [|apply Hans]|].
    split; [done|]. split.
    + intros v' Hn. destruct v' as [input'| |]; [|apply bytes_at_nil..].
      by destruct (Hin2 input' Hn).
    + apply Forall_singleton. destruct (read_spec_answers _ _ _ Hr) as [Hh ->].
      exists (input ++ arriving q). by split; [apply Hmore|].
  - destruct (tn_next tn) as [[input'|rr|]|] eqn:Hn.
    + destruct (Hin2 input' eq_refl) as (_ & input & -> & ->). specialize (Hwait _ eq_refl).
      unfold queue_after in Hwait. destruct (has_event revents POLLIN).
      * exists n, (ps ++ seq (consumed e w (fd c)) n), []. rewrite app_nil_r.
        split; [by apply taken_arriving; [|rewrite Hwait]|]. split; [done|].
        split; [intros ? [= <-]; by apply Hmore|constructor].
      * exists 0, ps, []. rewrite app_nil_r. split; [rewrite Nat.add_0_r; by apply taken_more|].
        split; [by rewrite app_nil_r|]. split; [by intros ? [= <-]|constructor].
    + exists 0, [], []. rewrite Nat.add_0_r. split; [by apply taken_more|].
      split; [apply submseteq_nil_l|]. split; [intros ? [= <-]; apply bytes_at_nil|constructor].
    + exists 0, [], []. rewrite Nat.add_0_r. split; [by apply taken_more|].
      split; [apply submseteq_nil_l|]. split; [intros ? [= <-]; apply bytes_at_nil|constructor].
    + exists 0, [], []. rewrite Nat.add_0_r. split; [by apply taken_more|].
      split; [apply submseteq_nil_l|]. by split; [|constructor].
Qed.

(** The situation a turn leaves the client in, holding these bytes. *)
Lemma turn_situated i p c v kept revents t w closed t1 w1 evs :
  let tn := turn_spec (w_env w) (has_flag g C_FLAG) (client_addr c) (body_len c) revents (fd c) v in
  turn_done g nl i p c t w revents date tn closed t1 w1 evs →
  (∀ v', tn_next tn = Some v' → bytes_at e (fd c) kept (view_input v')) →
  ∃ ys, pl_client <$> ys = snd <$> option_list (if closed then None else active t1 !! i)
    ∧ situated e ys ∧ omap pending_reply ys = (fd c,.) <$> left_staged (tn_next tn)
    ∧ ys ≫= pl_bytes ⊆+ (fd c,.) <$> kept.
Proof.
  intros tn [_ _ _ _ _ _ Hnext] Hk. destruct (tn_next tn) as [v'|].
  - destruct Hnext as [-> (p' & c' & -> & Hcv & _ & Hf)]. exists [mkPlace c' v' kept].
    split; [done|]. split; [|split].
    + apply Forall_singleton. split; [done|]. simpl. rewrite Hf. by apply Hk.
    + unfold pending_reply. simpl. destruct v'; simpl; by rewrite ?Hf.
    + csimpl. unfold pl_bytes. simpl. by rewrite app_nil_r, Hf.
  - subst closed. exists []. split; [done|]. split; [constructor|]. split; [done|apply submseteq_nil_l].
Qed.

(** One of the clients of the table, with its situation. *)
Lemma situated_entry i p c t xs :
  nl ≤ i → active t !! i = Some (p, c) → pl_client <$> xs ≡ₚ snd <$> conns nl t → situated e xs →
  ∃ v ps rest, xs ≡ₚ mkPlace c v ps :: rest ∧ pl_client <$> rest ≡ₚ snd <$> others nl i t
    ∧ situated e rest ∧ views c v ∧ bytes_at e (fd c) ps (view_input v).
Proof.
  intros Hi Ha Hxs Hv.
  assert (snd <$> conns nl t ≡ₚ c :: (snd <$> others nl i t)) as Hcs
    by (by rewrite (conns_others nl t i p c)).
  assert (c ∈ pl_client <$> xs) as Hin by (rewrite Hxs, Hcs; by left).
  apply list_elem_of_fmap in Hin as ([c0 v ps] & Hc0 & Hin). simpl in Hc0. subst c0.
  apply elem_of_Permutation in Hin as [rest Hp]. exists v, ps, rest. split; [done|].
  unfold situated in *. rewrite Hp in Hxs, Hv. apply Forall_cons in Hv as [[Hv Hb] Hr].
  rewrite Hcs in Hxs. apply Permutation_cons_inv in Hxs. by split_and!.
Qed.

Lemma history_turn : stable_turn g nl (λ t w, steady w ∧ history e g date w0 nl t w).
Proof.
  intros i p c t w closed t1 w1 Hs (Hst & Hso & Hq & evs & asked & sent & Hx & [Hl Hsd Hrc (xs & Hxs & Hv & Hsub & Hu)]) Hi Ha E K Hsv.
  destruct (situated_entry i p c t xs Hi Ha Hxs Hv) as (v & ps & rest & Hp & Hrest & Hvr & Hcv & Hb).
  rewrite Hp in Hsub, Hu. destruct (turn_run g Hmagic Hlog nl i p c v (pfd_revents p) t w date (proj1 Hs)
    Hi Ha Hst Hcv ltac:(by rewrite (proj1 (proj1 Hso)))) as (? & ? & ? & evs1 & E' & Hdone).
  rewrite E in E'. injection E' as <- <- <-. pose proof Hdone as [Hx1 Hl1 Hsd1 Hq1 Hwait Hans _].
  pose proof (turn_spec_account (w_env w) (has_flag g C_FLAG) (client_addr c) (body_len c)
    (pfd_revents p) (fd c) v) as [Hacc Hresp].
  destruct (entry_slots _ _ _ _ _ (sv_table _ _ _ (proj1 Hs)) Ha) as (_ & _ & Hci).
  destruct (does_serve (fd c) g i (pfd_revents p) t ltac:(intros c' Hc'; congruence) w) as [[_ _ _ _ Hqd] _].
  rewrite E in Hqd. simpl in Hqd.
  destruct (turn_bytes c v ps (pfd_revents p) w w1 Hb) as (n & kept & at' & Hn & Hat & Hk & Hrq); try done.
  { destruct Hu as [_ Hu]. simpl in Hu. rewrite !Forall_app in Hu. destruct Hu as [[Hu _] _].
    by apply Forall_fmap in Hu. }
  destruct (turn_situated i p c v kept (pfd_revents p) t w closed t1 w1 evs1 Hdone Hk)
    as (ys & Hys & Hyv & Hyo & Hyb).
  set (tn := turn_spec _ _ _ _ _ _ _) in *.
  assert (∀ line rr, tn_logged tn = Some (line, rr) →
    rr = reference e (has_flag g C_FLAG) (client_addr c) (body_len c) line) as Hresp'.
  { intros line rr Hlr. rewrite (Hresp line rr Hlr). by rewrite (reference_same e (w_env w)). }
  split; [by eapply calm_steady|]. split; [eapply same_trans; [exact Hso|apply K]|].
  split; [intros x; etransitivity; [apply Hqd|apply Hq]|].
  exists (evs ++ evs1), (asked ++ newly_asked c at' tn), (sent ++ newly_sent c tn).
  split; [by eapply extends_trans|]. constructor.
  - rewrite log_lines_app, Hl, Hl1, (newly_logged c at') by done.
    destruct (logging_on g); [by rewrite fmap_app|done].
  - intros y. rewrite sent_bytes_app. unfold replies_on. rewrite filter_app, fmap_app.
    apply messages_app; [apply Hsd|]. pose proof (newly_replied c tn y _ Hsd1) as Hm.
    destruct (decide (fd c = y)) as [<-|Hy]; [exact Hm|]. rewrite Hq1 by done. exact Hm.
  - by apply Forall_app.
  - exists (ys ++ rest). split; [|split; [by apply Forall_app|split]].
    + by rewrite fmap_app, Hys, Hrest, (served_conns _ _ _ _ _ _ _ _ _ Hi Ha Hsv), fmap_app.
    + rewrite omap_app, Hyo, fmap_app.
      eapply submseteq_pay; [|exact (newly_accounted c v ps at' tn Hresp' Hacc)].
      by rewrite <-omap_app.
    + eapply used_once_more; [exact Hqd|exact Hn|exact Hu|]. rewrite !bind_app.
      apply (fmap_submseteq (fd c,.)) in Hat. rewrite !fmap_app in Hat.
      assert (newly_asked c at' tn ≫= rq_bytes = (fd c,.) <$> (if tn_logged tn is Some _ then at' else [])) as ->.
      { unfold newly_asked. destruct (tn_logged tn); [|done]. csimpl. by rewrite app_nil_r. }
      csimpl. eapply submseteq_swap; [exact Hyb|exact Hat].
Qed.

Lemma history_loop polls t w :
  server_ok nl t w → steady w → history e g date w0 nl t w → ¬ poll_fails polls →
  ∃ t' w', event_loop g nl polls t w = (Ret t', w') ∧ calm w w' ∧ server_ok nl t' w'
    ∧ history e g date w0 nl t' w'.
Proof.
  intros Hs Hst HP Hp.
  destruct (safe_total (¬ steady w ∨ poll_fails polls) w (event_loop g nl polls t w) (λ t' w',
    server_ok nl t' w' ∧ steady w' ∧ history e g date w0 nl t' w'))
    as (t' & w' & E & K & Hs' & _ & HP'); [tauto| |by exists t', w'].
  apply (loop_stable g Hmagic Hlog nl (λ t w, steady w ∧ history e g date w0 nl t w));
    [|apply history_turn| |done..].
  - intros lfd t0 w1 t1 w2 new Hs0 [Hst0 HP0] E Hs1 K Hact Hnew. split; [by eapply calm_steady|].
    exact (history_accept _ _ _ _ _ _ Hs0 HP0 E Hs1 K Hact Hnew).
  - intros revents t0 w1 [Hst0 HP0]. split; [done|by apply history_poll].
Qed.
End kept.

(** * Properties *)

Section properties.
Context `{External}.

(** C2. What a whole run sends and logs. A run that nothing makes fail (memory, a send,
    poll or a start-up call) ends with EXIT_SUCCESS, and there is a list of the
    requests it answered, in order, each made of bytes its descriptor delivered, in
    order, that end its headers; no byte belongs to two of them. The log holds exactly
    one line for each, with the code and the length of the reference's response to it;
    what was sent on any descriptor is a sequence of whole messages; and each of these is
    the reference's response to a request of its own, received on the same descriptor.
    So nothing that was received is answered twice, nothing goes to another descriptor,
    and no part of a response is ever sent. *)
Theorem run_sends_only_answers su polls argv w w1 g date :
  magic_ok → world_ok w → outside_ok w → steady w →
  gmtime_iso (e_now (w_env w)) = Some date →
  setFlags argv w = (Ret g, w1) → startup_ok su = true → ¬ poll_fails polls →
  ∃ w' evs asked sent, main su polls argv w = (Exit EXIT_SUCCESS, w') ∧ extends w w' evs
    ∧ log_lines evs = (if logging_on g then logged (w_env w) g date <$> asked else [])
    ∧ Forall (received (w_env w)) asked ∧ NoDup (asked ≫= rq_bytes)
    ∧ (∀ y, messages (sent_bytes y evs) (replies_on y sent))
    ∧ sent ⊆+ answer_to (w_env w) g <$> asked.
Proof.
  intros Hm Hw Ho Hst Hd Ef Hsu Hp. pose proof (setFlags_safe argv w Hw) as Hf.
  unfold flags_safe in Hf. rewrite Ef in Hf. destruct Hf as [K1 [Hg _]].
  assert (log_ready g) as Hlog by (intros Hon; by eapply globals_ok_log).
  destruct (does_no_log _ _ _ _ _ _ setting_up_no_log (does_setFlags argv) Ef) as (e1 & X1 & L1).
  pose proof (λ y, does_no_send _ _ _ _ _ _ y e1 (setting_up_no_send y) (does_setFlags argv) Ef X1) as S1.
  destruct (safe_total _ _ _ _ (λ Hn, Hn (conj Hsu (calm_steady _ _ K1 Hst)))
    (start_up_safe g su w1 Hg ltac:(by eapply calm_ok) ltac:(by eapply calm_outside)))
    as ([[[nl t] v4] v6] & w2 & E2 & K2 & Hs & Hc).
  destruct (does_no_log _ _ _ _ _ _ setting_up_no_log (does_start_up su g) E2) as (e2 & X2 & L2).
  pose proof (λ y, does_no_send _ _ _ _ _ _ y e2 (setting_up_no_send y) (does_start_up su g) E2 X2) as S2.
  assert (calm w w2) as K by (by eapply calm_trans).
  assert (history (w_env w) g date w nl t w2) as HP.
  { split; [apply K|]. split.
    { intros x. destruct (does_setFlags argv w) as [[_ _ _ _ Q1] _].
      destruct (does_start_up su g w1) as [[_ _ _ _ Q2] _]. rewrite Ef in Q1. rewrite E2 in Q2.
      etransitivity; [apply Q2|apply Q1]. }
    exists (e1 ++ e2), [], []. split; [by eapply extends_trans|]. rewrite Hc. constructor.
    - rewrite log_lines_app, L1, L2. by destruct (logging_on g).
    - intros y. rewrite sent_bytes_app, S1, S2. apply messages_nil.
    - constructor.
    - exists []. split; [done|]. split; [constructor|]. split; [done|]. split; constructor. }
  destruct (history_loop (w_env w) g date Hm Hlog Hd w nl polls t w2)
    as (t3 & w3 & E3 & K3 & Hs3 & _ & _ & evs & asked & sent & X3 & [L3 S3 R3 (xs & _ & _ & Hsub & [Hnd _])]);
    [done|by eapply calm_steady|done..|].
  destruct (shut_down_run g nl v4 v6 t3 w3 (sv_table _ _ _ (proj1 Hs3)) (sv_heap _ _ _ (proj1 Hs3))
    (sv_world _ _ _ (proj1 Hs3))) as (w4 & _ & E4 & _).
  destruct (does_no_log _ _ _ _ _ _ building_no_log (does_shut_down g nl v4 v6 t3) E4) as (e4 & X4 & L4).
  pose proof (λ y, does_no_send _ _ _ _ _ _ y e4 (building_no_send y) (does_shut_down g nl v4 v6 t3)
    E4 X4) as S4.
  assert (setup_signal_handler su w = (Ret (), w)) as Eh.
  { unfold startup_ok, handlers_ok in Hsu. unfold setup_signal_handler.
    by destruct (su_term_ok su), (su_int_ok su). }
  exists w4, (evs ++ e4), asked, sent.
  split; [|split; [by eapply extends_trans|split; [|split; [exact R3|split; [|split]]]]].
  - assert (server su polls argv w = (Ret (), w4)) as Es.
    { unfold server. rewrite (bind_run _ _ _ _ _ Eh). by rewrite (bind_run _ _ _ _ _ Ef), (bind_run _ _ _ _ _ E2), (bind_run _ _ _ _ _ E3). }
    unfold main. by rewrite (bind_run _ _ _ _ _ Es).
  - by rewrite log_lines_app, L3, L4, app_nil_r.
  - by apply NoDup_app in Hnd as (_ & _ & ?).
  - intros y. by rewrite sent_bytes_app, S4, app_nil_r.
  - etransitivity; [|exact Hsub]. apply submseteq_inserts_r. done.
Qed.
End properties.

(** * Witnesses *)

Lemma run_steady : steady run_world.
Proof. split; [apply read_world_plenty|]. intros x. constructor. Qed.

(** The run of Server's example, logging to the terminal. *)
Definition verbose_globals : Globals := mkGlobals V_FLAG 8080 None None None None LogStdout.

Lemma run_sends_only_answers_witness :
  ∃ w' evs asked sent, main run_calls run_polls [B "server"; B "-v"] run_world = (Exit EXIT_SUCCESS, w')
    ∧ extends run_world w' evs
    ∧ log_lines evs = logged (w_env run_world) verbose_globals sample_date <$> asked
    ∧ Forall (received (w_env run_world)) asked ∧ NoDup (asked ≫= rq_bytes)
    ∧ messages (sent_bytes 5 evs) (replies_on 5 sent)
    ∧ sent ⊆+ answer_to (w_env run_world) verbose_globals <$> asked.
Proof.
  destruct (run_sends_only_answers run_calls run_polls [B "server"; B "-v"] run_world run_world
    verbose_globals sample_date sample_magic_ok (world_of_ok _) run_outside run_steady
    ltac:(vm_compute; reflexivity) ltac:(vm_compute; reflexivity) ltac:(vm_compute; reflexivity))
    as (w' & evs & asked & sent & H1 & H2 & H3 & H6 & H7 & H4 & H5).
  - intros (e & He & Hne). apply Hne. unfold run_polls in He.
    repeat (apply elem_of_cons in He as [He|He]; [congruence|]). by apply elem_of_nil in He.
  - exists w', evs, asked, sent. split; [exact H1|split; [exact H2|split; [exact H3|]]].
    split; [exact H6|split; [exact H7|split; [apply H4|exact H5]]].
Defined.

(** The log and the response of that run, evaluated. *)
Example run_log :
  let r := main run_calls run_polls [B "server"; B "-v"] run_world in
  log_lines (trace_of r) = logged (w_env run_world) verbose_globals sample_date
    <$> [mkRequest 5 (B "10.0.0.1") 0 (seq 0 (length sample_request)) (B "GET /a.html HTTP/1.0")].
Proof. vm_compute. reflexivity. Qed.
