(* ===== verification/Process.v ===== *)
(** * Process: the loop under signals (main.c)

    The while loop as a machine that a signal may enter at any point: between the
    test of [running] and the call of poll, inside poll, inside a round. A signal
    inside poll makes poll return EINTR; one before the call does not. The machine
    refines the loop over the results of poll (Main.event_loop), keeps the invariant,
    and, once a signal has arrived, leaves the loop after one result of poll at most;
    but not before poll answers, when the signal arrived between the test and the call. *)

From S2P Require Import Prelude CLib Types OS Flags Logging ParseRequest ResolvePath Response.
From S2P Require Import Messages Connections DoRead EndToEnd DoWrite Sockets Main Effects Footprint.
From S2P Require Import Reference Loop Server.

(** ** The machine *)

(** Before the test of [running], after it and before poll, in poll, in poll with a
    signal caught, before or in the for loop, after the while loop, and after the end
    of the process. *)
Inductive loop_pc := AtTest | BeforePoll | InPoll | Interrupted | InRound | Left | Exited.

#[export] Instance loop_pc_eq_dec : EqDecision loop_pc.
Proof. solve_decision. Defined.

Record process := mkProcess {
  running : bool;
  at_pc : loop_pc;
  conn_table : Table;
  outside : World
}.

(** The handler of SIGTERM and SIGINT. *)
Definition shutdown_server (p : process) : process :=
  mkProcess false (at_pc p) (conn_table p) (outside p).

(** What a step is: a result of poll, a signal, or a step of the program itself. *)
Inductive label := Polled (r : poll_result) | Signalled | Internal.

Inductive loop_step `{External} (g : Globals) (nl : nat) : process → label → process → Prop :=
| test_running t w :
    loop_step g nl (mkProcess true AtTest t w) Internal (mkProcess true BeforePoll t w)
| test_stopped t w :
    loop_step g nl (mkProcess false AtTest t w) Internal (mkProcess false Left t w)
| enter_poll b t w :
    loop_step g nl (mkProcess b BeforePoll t w) Internal (mkProcess b InPoll t w)
| poll_ready b revents t w :
    loop_step g nl (mkProcess b InPoll t w) (Polled (PollReady revents))
      (mkProcess b InRound (poll_update revents t) w)
| poll_again b t w :
    loop_step g nl (mkProcess b InPoll t w) (Polled (PollFailed EINTR)) (mkProcess b AtTest t w)
| poll_failed b e t w : e ≠ EINTR →
    loop_step g nl (mkProcess b InPoll t w) (Polled (PollFailed e)) (mkProcess b Exited t w)
| poll_interrupted b t w :
    loop_step g nl (mkProcess b Interrupted t w) (Polled (PollFailed EINTR))
      (mkProcess b AtTest t w)
| round_returns b t w t' w' : poll_round (round_fuel t nl w) g nl 0 t w = (Ret t', w') →
    loop_step g nl (mkProcess b InRound t w) Internal (mkProcess b AtTest t' w')
| round_exits b t w c w' : poll_round (round_fuel t nl w) g nl 0 t w = (Exit c, w') →
    loop_step g nl (mkProcess b InRound t w) Internal (mkProcess b Exited t w')
| signal_in_poll p : at_pc p = InPoll →
    loop_step g nl p Signalled
      (mkProcess false Interrupted (conn_table p) (outside p))
| take_signal p : at_pc p ≠ InPoll → at_pc p ≠ Left → at_pc p ≠ Exited →
    loop_step g nl p Signalled (shutdown_server p).

(** Runs of the machine, by their labels. *)
Inductive runs `{External} (g : Globals) (nl : nat) : process → list label → process → Prop :=
| runs_here p : runs g nl p [] p
| runs_step p l p1 ls p2 :
    loop_step g nl p l p1 → runs g nl p1 ls p2 → runs g nl p (l :: ls) p2.

(** The results of poll along a run. *)
Definition polls_of (ls : list label) : list poll_result :=
  omap (λ l, match l with Polled r => Some r | _ => None end) ls.
Definition is_signal (l : label) : bool := match l with Signalled => true | _ => false end.
(** The steps that are not signals. *)
Definition own_steps (ls : list label) : nat := length (filter (λ l, is_signal l = false) ls).

(** How far a process whose [running] is cleared is from leaving the loop. *)
Definition rank (pc : loop_pc) : nat :=
  match pc with
  | BeforePoll => 4 | InPoll => 3 | InRound | Interrupted => 2 | AtTest => 1 | Left | Exited => 0
  end.
(** How many results of poll such a process may still read. *)
Definition polls_left (pc : loop_pc) : nat :=
  match pc with BeforePoll | InPoll | Interrupted => 1 | _ => 0 end.

(** * Lemmas *)

Section machine.
Context `{External} (g : Globals) (nl : nat).
#[local] Hint Constructors runs loop_step : core.
#[local] Arguments poll_round : simpl never.

Lemma runs_trans p ls1 p1 ls2 p2 :
  runs g nl p ls1 p1 → runs g nl p1 ls2 p2 → runs g nl p (ls1 ++ ls2) p2.
Proof. induction 1; simpl; eauto. Qed.

Lemma runs_app_inv p ls1 ls2 p2 :
  runs g nl p (ls1 ++ ls2) p2 → ∃ p1, runs g nl p ls1 p1 ∧ runs g nl p1 ls2 p2.
Proof.
  revert p. induction ls1 as [|l ls1 IH]; intros p Hr; simpl in Hr; [eauto|].
  inversion Hr as [|? ? p1 ? ? Hs Hr']; subst. destruct (IH _ Hr') as (p2' & ? & ?). eauto.
Qed.

(** ** Refinement *)

(** What is left of event_loop at a point of the machine. *)
Definition rest_of (p : process) (polls : list poll_result) : M Table :=
  match at_pc p with
  | AtTest | BeforePoll | InPoll | Interrupted => event_loop g nl polls (conn_table p)
  | InRound =>
      t ← poll_round (round_fuel (conn_table p) nl (outside p)) g nl 0 (conn_table p);
      event_loop g nl polls t
  | Left => mret (conn_table p)
  | Exited => exit EXIT_FAILURE
  end.

Lemma runs_event_loop p ls p' :
  runs g nl p ls p' → at_pc p' = Left →
  (at_pc p = Left → polls_of ls = [])
  ∧ rest_of p (polls_of ls) (outside p) = (Ret (conn_table p'), outside p').
Proof.
  induction 1 as [p|p l p1 ls p2 Hs Hr IH]; intros Hl.
  { unfold rest_of. by rewrite Hl. }
  destruct (IH Hl) as [Hleft E]. clear IH Hr Hl. unfold rest_of in *.
  destruct Hs; simpl in *; (split; [done || congruence|]); try done.
  - by rewrite (Hleft eq_refl).
  - by rewrite (bind_run _ _ _ _ _ H0).
  - by rewrite H0.
Qed.

Lemma event_loop_runs polls t w t' w' :
  event_loop g nl polls t w = (Ret t', w') →
  ∃ ls, polls_of ls = polls
    ∧ runs g nl (mkProcess true AtTest t w) ls (mkProcess false Left t' w').
Proof.
  revert t w. induction polls as [|r polls IH]; intros t w E.
  - injection E as <- <-. exists [Signalled; Internal]. split; [done|].
    eapply runs_step; [by apply take_signal|].
    eapply runs_step; [apply test_stopped|constructor].
  - destruct r as [revents|e]; cbn [event_loop] in E.
    + rewrite (bind_run get _ w w w eq_refl) in E.
      apply bind_ret_inv in E as (t1 & w1 & Er & E).
      destruct (IH t1 w1 E) as (ls & <- & Hr).
      exists (Internal :: Internal :: Polled (PollReady revents) :: Internal :: ls).
      split; [done|]. eauto 10.
    + destruct (decide (e = EINTR)) as [->|]; [|done]. destruct (IH t w E) as (ls & <- & Hr).
      exists (Internal :: Internal :: Polled (PollFailed EINTR) :: ls). split; [done|]. eauto 10.
Qed.
(** ** Signals *)

Lemma running_step p l p' :
  loop_step g nl p l p' → running p' = if is_signal l then false else running p.
Proof. by destruct 1. Qed.

Lemma rank_step p l p' :
  loop_step g nl p l p' → running p = false →
  (if is_signal l then rank (at_pc p') ≤ rank (at_pc p) else rank (at_pc p') < rank (at_pc p))
  ∧ length (polls_of [l]) + polls_left (at_pc p') ≤ polls_left (at_pc p).
Proof. destruct 1; simpl; try done; try lia. rewrite H0. simpl. lia. Qed.

Lemma stopped_runs p ls p' :
  runs g nl p ls p' → running p = false →
  running p' = false ∧ own_steps ls + rank (at_pc p') ≤ rank (at_pc p)
  ∧ length (polls_of ls) + polls_left (at_pc p') ≤ polls_left (at_pc p).
Proof.
  induction 1 as [p|p l p1 ls p2 Hs Hr IH]; intros Hst.
  { split_and!; [done|simpl; lia|simpl; lia]. }
  pose proof (running_step _ _ _ Hs) as Hst1. pose proof (rank_step _ _ _ Hs Hst) as [Hrank Hp].
  destruct IH as (H1 & H2 & H3); [by destruct (is_signal l); congruence|].
  split; [done|]. unfold own_steps in *. rewrite filter_cons. split.
  - destruct (is_signal l); simpl; lia.
  - change (l :: ls) with ([l] ++ ls). unfold polls_of in *. rewrite omap_app, length_app. lia.
Qed.

(** After the loop, and in poll with a signal caught, [running] is cleared. *)
Definition stopped_at (pc : loop_pc) : bool := bool_decide (pc = Left ∨ pc = Interrupted).
Lemma left_stopped p ls p' :
  runs g nl p ls p' → stopped_at (at_pc p) = false → stopped_at (at_pc p') = true →
  running p' = false.
Proof.
  intros Hr Hp. assert (stopped_at (at_pc p) = true → running p = false) as Hp0 by congruence.
  clear Hp. induction Hr as [p|p l p1 ls p2 Hs Hr IH]; [auto|]. apply IH. by destruct Hs.
Qed.

(** A process whose [running] is cleared enters poll only from right before it. *)
Lemma stopped_not_in_poll p ls p' :
  runs g nl p ls p' → running p = false → at_pc p ≠ BeforePoll → at_pc p ≠ InPoll →
  at_pc p' ≠ InPoll.
Proof.
  intros Hr Hst Hb Hi.
  assert (running p = false ∧ at_pc p ≠ BeforePoll ∧ at_pc p ≠ InPoll) as Hp by done.
  clear Hst Hb Hi. induction Hr as [p|p l p1 ls p2 Hs Hr IH]; [apply Hp|].
  apply IH. by destruct Hs, Hp as (? & ? & ?); simpl in *.
Qed.

(** Until poll answers or a signal comes, the process stays in poll. *)
Lemma waiting_runs p ls p' :
  runs g nl p ls p' → at_pc p = BeforePoll ∨ at_pc p = InPoll →
  polls_of ls = [] → forallb (λ l, negb (is_signal l)) ls = true →
  at_pc p' = BeforePoll ∨ at_pc p' = InPoll.
Proof.
  induction 1 as [p|p l p1 ls p2 Hs Hr IH]; [done|]. intros Hp Hn Hq.
  destruct Hs; destruct Hp as [Hp|Hp]; simpl in *; try done; apply IH; auto.
Qed.

Lemma running_runs p ls p' :
  runs g nl p ls p' → running p' = running p && forallb (λ l, negb (is_signal l)) ls.
Proof.
  induction 1 as [p|p l p1 ls p2 Hs Hr IH]; simpl; [by rewrite andb_true_r|].
  rewrite IH, (running_step _ _ _ Hs). by destruct (is_signal l); simpl; rewrite ?andb_false_r.
Qed.

(** ** The invariant *)

(** A process the loop can go on from, or that poll has ended. *)
Definition process_ok (p : process) (polls : list poll_result) : Prop :=
  server_ok nl (conn_table p) (outside p) ∧ steady (outside p)
  ∧ (at_pc p = Exited → poll_fails polls).

(** What the process does next, by itself or once poll answers. *)
Definition can_go_on (p : process) : Prop :=
  match at_pc p with
  | InPoll => ∀ r, ∃ p', loop_step g nl p (Polled r) p'
  | Interrupted => ∃ p', loop_step g nl p (Polled (PollFailed EINTR)) p'
  | AtTest | BeforePoll | InRound => ∃ p', loop_step g nl p Internal p'
  | Left | Exited => True
  end.

Context (Hmagic : magic_ok) (Hlog : log_ready g).

Lemma round_total t w :
  server_ok nl t w → steady w →
  ∃ t' w', poll_round (round_fuel t nl w) g nl 0 t w = (Ret t', w')
    ∧ server_ok nl t' w' ∧ steady w'.
Proof.
  intros Hs Hst. destruct (safe_total _ _ _ _ (λ Hn, Hn Hst)
    (poll_round_safe g Hmagic Hlog (round_fuel t nl w) nl 0 t w Hs ltac:(unfold round_fuel; lia)))
    as (t' & w' & E & K & Hs' & _).
  exists t', w'. split; [done|]. split; [done|]. by eapply calm_steady.
Qed.

Lemma process_step p l p' polls :
  loop_step g nl p l p' → process_ok p polls → process_ok p' (polls ++ polls_of [l]).
Proof.
  assert (∀ p r, poll_fails p → poll_fails (p ++ r)) as Hgrow.
  { intros p0 r (e & He & Hne). exists e. split; [apply elem_of_app; by left|done]. }
  intros Hs (Hok & Hst & Hx).
  destruct Hs; simpl in *;
    try (split_and!; [done..|]; intros; (done || by apply Hgrow, Hx || congruence)).
  - split_and!; [by apply poll_update_ok|done|done].
  - split_and!; [done|done|]. intros _. exists e. split; [|done]. apply elem_of_app. right. by left.
  - destruct (round_total t w Hok Hst) as (t1 & w1 & E & Hok1 & Hst1).
    rewrite H0 in E. injection E as <- <-. by split_and!.
  - destruct (round_total t w Hok Hst) as (t1 & w1 & E & _). by rewrite H0 in E.
Qed.

Lemma process_runs p ls p' polls :
  runs g nl p ls p' → process_ok p polls → process_ok p' (polls ++ polls_of ls).
Proof.
  intros Hr. revert polls. induction Hr as [p|p l p1 ls p2 Hs Hr IH]; intros polls Hok.
  - by rewrite app_nil_r.
  - apply (process_step _ _ _ _ Hs), IH in Hok. rewrite <-app_assoc in Hok.
    unfold polls_of in *. by rewrite <-omap_app in Hok.
Qed.

(** The machine is stuck only after the loop: in poll it takes any result. *)
Lemma process_progress p polls : process_ok p polls → can_go_on p.
Proof.
  intros (Hok & Hst & _). unfold can_go_on. destruct p as [b pc t w]; simpl in *. destruct pc; eauto.
  - destruct b; eauto.
  - intros [revents|e]; [eauto|]. destruct (decide (e = EINTR)) as [->|]; eauto.
  - destruct (round_total t w Hok Hst) as (t1 & w1 & E & _). eauto.
Qed.

(** A process whose [running] is cleared runs to the end of the loop, whatever poll
    answers, if it is asked; only an error of poll ends it otherwise. *)
Lemma stopped_from_test t w :
  runs g nl (mkProcess false AtTest t w) [Internal] (mkProcess false Left t w).
Proof. eapply runs_step; [apply test_stopped|constructor]. Qed.

Lemma stopped_from_round t w :
  server_ok nl t w → steady w →
  ∃ p', runs g nl (mkProcess false InRound t w) [Internal; Internal] p' ∧ at_pc p' = Left.
Proof.
  intros Hs Hst. destruct (round_total t w Hs Hst) as (t1 & w1 & E & _).
  exists (mkProcess false Left t1 w1). split; [|done].
  eapply runs_step; [by apply round_returns|]. apply stopped_from_test.
Qed.

Lemma stopped_from_poll t w r :
  server_ok nl t w → steady w →
  ∃ ls p', runs g nl (mkProcess false InPoll t w) (Polled r :: ls) p'
    ∧ Forall (.= Internal) ls ∧ (at_pc p' = Left ∨ at_pc p' = Exited ∧ poll_fails [r]).
Proof.
  intros Hs Hst. destruct r as [revents|e].
  - destruct (stopped_from_round (poll_update revents t) w) as (p' & Hr & Hp); [by apply poll_update_ok|done|].
    exists [Internal; Internal], p'. split; [|split; [by repeat constructor|by left]].
    eapply runs_step; [apply poll_ready|exact Hr].
  - destruct (decide (e = EINTR)) as [->|He].
    + exists [Internal], (mkProcess false Left t w). split; [|split; [by repeat constructor|by left]].
      eapply runs_step; [apply poll_again|apply stopped_from_test].
    + exists [], (mkProcess false Exited t w). split; [|split; [done|right; split; [done|]]].
      * eapply runs_step; [by apply poll_failed|constructor].
      * exists e. split; [by left|done].
Qed.

Lemma stopped_ends p polls r :
  process_ok p polls → running p = false → at_pc p ≠ Exited →
  ∃ ls p', runs g nl p ls p' ∧ forallb (λ l, negb (is_signal l)) ls = true
    ∧ polls_of ls = match at_pc p with
                    | BeforePoll | InPoll => [r] | Interrupted => [PollFailed EINTR] | _ => []
                    end
    ∧ (at_pc p' = Left ∨ at_pc p' = Exited ∧ poll_fails (polls_of ls)).
Proof.
  assert (∀ l r0, Forall (.= Internal) l →
    forallb (λ l, negb (is_signal l)) (Polled r0 :: l) = true ∧ polls_of (Polled r0 :: l) = [r0]) as Hown.
  { intros l r0 Hl. induction Hl as [|? l -> Hl IH]; done. }
  intros (Hok & Hst & _) Hr Hx. destruct p as [b pc t w]; simpl in *. subst b. destruct pc; try done.
  - exists [Internal], (mkProcess false Left t w). split_and!; auto. apply stopped_from_test.
  - destruct (stopped_from_poll t w r Hok Hst) as (ls & p' & Hls & Hi & Hp).
    destruct (Hown ls r Hi) as [H1 H2]. exists (Internal :: Polled r :: ls), p'.
    assert (polls_of (Internal :: Polled r :: ls) = [r]) as -> by exact H2.
    split; [eauto|]. by split_and!.
  - destruct (stopped_from_poll t w r Hok Hst) as (ls & p' & Hls & Hi & Hp).
    destruct (Hown ls r Hi) as [H1 H2]. exists (Polled r :: ls), p'.
    assert (polls_of (Polled r :: ls) = [r]) as -> by exact H2. by split_and!.
  - exists [Polled (PollFailed EINTR); Internal], (mkProcess false Left t w). split_and!; auto.
    eapply runs_step; [apply poll_interrupted|apply stopped_from_test].
  - destruct (stopped_from_round t w Hok Hst) as (p' & Hls & Hp).
    exists [Internal; Internal], p'. split_and!; auto.
  - exists [], (mkProcess false Left t w). split_and!; auto.
Qed.
End machine.

(** * Properties *)

Section properties.
Context `{External}.

(** The process when it first tests [running]. *)
Definition entering (t : Table) (w : World) : process := mkProcess true AtTest t w.

(** Any state it reaches is one the loop can go on from. *)
Lemma entering_ok g nl t w ls p :
  magic_ok → log_ready g → server_ok nl t w → steady w → runs g nl (entering t w) ls p →
  process_ok nl p (polls_of ls).
Proof.
  intros Hm Hl Hs Hst Hr. apply (process_runs g nl Hm Hl (entering t w) ls p [] Hr). by split_and!.
Qed.

(** C11. The loop under signals is the loop over the results of poll. Wherever signals
    come in, the while loop is left with a table and a world exactly when event_loop,
    run over the results poll gave, returns them. *)
Theorem loop_under_signals g nl polls t w t' w' :
  event_loop g nl polls t w = (Ret t', w')
  ↔ ∃ ls, polls_of ls = polls ∧ runs g nl (entering t w) ls (mkProcess false Left t' w').
Proof.
  split; [apply event_loop_runs|]. intros (ls & <- & Hr).
  by destruct (runs_event_loop g nl _ _ _ Hr eq_refl) as [_ E].
Qed.

(** C14. The invariant holds at every point a signal may see. While memory lasts and
    no send is refused, in any state the process reaches, the table and the heap are in
    good order, [running] is cleared exactly when a signal has come, poll has failed if
    the process has exited, and otherwise it can go on: with a step of its own or, in
    poll, with any result, or with EINTR when a signal was caught there. *)
Theorem reachable_invariant g nl t w ls p :
  magic_ok → log_ready g → server_ok nl t w → steady w → runs g nl (entering t w) ls p →
  server_ok nl (conn_table p) (outside p)
  ∧ running p = forallb (λ l, negb (is_signal l)) ls
  ∧ (at_pc p = Exited → poll_fails (polls_of ls))
  ∧ (stopped_at (at_pc p) = true → running p = false)
  ∧ match at_pc p with
    | InPoll => ∀ r, ∃ p', loop_step g nl p (Polled r) p'
    | Interrupted => ∃ p', loop_step g nl p (Polled (PollFailed EINTR)) p'
    | AtTest | BeforePoll | InRound => ∃ p', loop_step g nl p Internal p'
    | Left | Exited => True
    end.
Proof.
  intros Hm Hl Hs Hst Hr. pose proof (entering_ok _ _ _ _ _ _ Hm Hl Hs Hst Hr) as Hok.
  pose proof (process_progress g nl Hm Hl p _ Hok) as Hgo. destruct Hok as (Hok & _ & Hx).
  split; [done|]. split; [by apply (running_runs g nl (entering t w))|].
  split; [done|]. split; [|exact Hgo]. by apply (left_stopped g nl (entering t w) ls).
Qed.

(** C13. The shutdown releases everything, wherever the loop was left. While memory lasts
    and no send is refused, a process that has left the loop was signalled, and the
    shutdown it goes on to returns: the descriptor of each connection that is left and
    the listeners' are closed once, the blocks of the table are freed, each of them
    live, and no others, and the log file, if there is one, is closed. *)
Theorem graceful_shutdown g nl v4 v6 t w ls p :
  magic_ok → log_ready g → server_ok nl t w → steady w → runs g nl (entering t w) ls p →
  at_pc p = Left →
  Signalled ∈ ls ∧ ∃ w' evs, shut_down g nl v4 v6 (conn_table p) (outside p) = (Ret (), w')
    ∧ extends (outside p) w' evs
    ∧ closed_fds evs ≡ₚ ((λ pc, fd pc.2) <$> conns nl (conn_table p)) ++ [v4; v6]
    ∧ Forall free_live evs
    ∧ w_blocks w' = w_blocks (outside p) ∖ list_to_set (table_blocks nl (conn_table p))
    ∧ (∀ f, log_ptr g = LogFile f → ∃ live, last evs = Some (EvFclose f live)).
Proof.
  intros Hm Hl Hs Hst Hr Hp.
  destruct (entering_ok _ _ _ _ _ _ Hm Hl Hs Hst Hr) as [[[Ht Hh Hw _ _] _] _].
  split.
  - assert (running p = false) as Hrun by (by eapply (left_stopped g nl (entering t w)); rewrite ?Hp).
    rewrite (running_runs g nl _ _ _ Hr) in Hrun. simpl in Hrun. clear -Hrun.
    induction ls as [|l ls IH]; [done|]. destruct l; simpl in *; [by right; auto|by left|by right; auto].
  - destruct (shut_down_run g nl v4 v6 (conn_table p) (outside p) Ht Hh Hw)
      as (w' & evs & E & K & Hx & Hc & Hb & Hlast).
    exists w', evs. split_and!; try done. by eapply calm_frees.
Qed.

(** C12. A signal stops the server. While memory lasts and no send is refused, wherever
    the loop is when a signal comes, and whatever further signals come after it: it makes
    at most four more steps of its own and reads at most one more result of poll; until it
    is out of the loop it always can go on; and from every point it reaches there is a
    run to the end that reads no result but the one poll gives, if poll is still to
    answer. That run ends after the while loop, or with exit when poll fails. In
    particular every round the signal interrupts returns. *)
Theorem signal_stops g nl t w ls p p1 ls2 p2 r :
  magic_ok → log_ready g → server_ok nl t w → steady w → runs g nl (entering t w) ls p →
  loop_step g nl p Signalled p1 → runs g nl p1 ls2 p2 →
  running p2 = false
  ∧ own_steps ls2 + rank (at_pc p2) ≤ 4 ∧ length (polls_of ls2) ≤ 1
  ∧ can_go_on g nl p2
  ∧ (at_pc p2 ≠ Exited → ∃ ls3 p3, runs g nl p2 ls3 p3
       ∧ forallb (λ l, negb (is_signal l)) ls3 = true
       ∧ polls_of ls3 = match at_pc p2 with
                        | BeforePoll | InPoll => [r] | Interrupted => [PollFailed EINTR] | _ => []
                        end
       ∧ (at_pc p3 = Left ∨ at_pc p3 = Exited ∧ poll_fails (polls_of ls3))).
Proof.
  intros Hm Hl Hs Hst Hr H1 H2.
  assert (runs g nl (entering t w) (ls ++ Signalled :: ls2) p2) as Hr2.
  { eapply runs_trans; [exact Hr|]. by eapply runs_step. }
  pose proof (entering_ok _ _ _ _ _ _ Hm Hl Hs Hst Hr2) as Hok2.
  assert (running p1 = false) as Hp1 by apply (running_step g nl _ _ _ H1).
  destruct (stopped_runs g nl _ _ _ H2 Hp1) as (Hrun & Hrank & Hpolls).
  assert (rank (at_pc p1) ≤ 4 ∧ polls_left (at_pc p1) ≤ 1) as [? ?].
  { destruct (at_pc p1); simpl; lia. }
  split; [done|]. split; [lia|]. split; [lia|]. split; [by eapply process_progress|].
  intros Hx. by eapply stopped_ends.
Qed.

(** C36. A signal makes the process wait for poll exactly when it comes between the test
    of [running] and the call of poll. There it calls poll all the same, and stays
    in it for as long as poll has no answer and no further signal comes; with such a
    signal it can leave. Anywhere else, and while memory lasts and no send is refused,
    it never waits in poll again, and leaves the loop without any result of poll but
    the EINTR of the call the signal interrupts. *)
Theorem signal_waits_for_poll g nl t w ls p p1 :
  magic_ok → log_ready g → server_ok nl t w → steady w → runs g nl (entering t w) ls p →
  loop_step g nl p Signalled p1 →
  if decide (at_pc p = BeforePoll)
  then (∃ p2, runs g nl p1 [Internal] p2 ∧ at_pc p2 = InPoll)
       ∧ (∀ ls2 p2, runs g nl p1 ls2 p2 → polls_of ls2 = [] →
            forallb (λ l, negb (is_signal l)) ls2 = true → at_pc p2 = BeforePoll ∨ at_pc p2 = InPoll)
       ∧ ∃ p2, runs g nl p1 [Internal; Signalled; Polled (PollFailed EINTR); Internal] p2
           ∧ at_pc p2 = Left
  else (∀ ls2 p2, runs g nl p1 ls2 p2 → at_pc p2 ≠ InPoll)
       ∧ ∃ ls2 p2, runs g nl p1 ls2 p2 ∧ at_pc p2 = Left
           ∧ polls_of ls2 = if decide (at_pc p1 = Interrupted) then [PollFailed EINTR] else [].
Proof.
  intros Hm Hl Hs Hst Hr Hsig.
  assert (runs g nl (entering t w) (ls ++ [Signalled]) p1) as Hr1.
  { eapply runs_trans; [exact Hr|]. eapply runs_step; [exact Hsig|constructor]. }
  pose proof (entering_ok _ _ _ _ _ _ Hm Hl Hs Hst Hr1) as Hok.
  assert (running p1 = false) as Hp1 by apply (running_step g nl _ _ _ Hsig).
  destruct (decide (at_pc p = BeforePoll)) as [Hb|Hb].
  - assert (∃ t1 w1, p1 = mkProcess false BeforePoll t1 w1) as (t1 & w1 & ->).
    { inversion Hsig; subst; [congruence|]. destruct p; simpl in *. subst. eauto. }
    split; [|split].
    + eexists. split; [eapply runs_step; [apply enter_poll|constructor]|done].
    + intros ls2 p2 H2. by apply (waiting_runs g nl _ _ _ H2); left.
    + exists (mkProcess false Left t1 w1). split; [|done].
      eapply runs_step; [apply enter_poll|]. eapply runs_step; [by apply signal_in_poll|].
      eapply runs_step; [apply poll_interrupted|]. apply stopped_from_test.
  - assert (at_pc p1 ≠ BeforePoll ∧ at_pc p1 ≠ InPoll ∧ at_pc p1 ≠ Exited) as (H1 & H2 & H3).
    { by inversion Hsig; subst. }
    split; [intros ls2 p2 Hr2; by eapply stopped_not_in_poll|].
    destruct (stopped_ends g nl Hm Hl p1 _ (PollFailed EINTR) Hok Hp1 H3)
      as (ls2 & p2 & Hr2 & _ & Hp & He). exists ls2, p2. split; [done|].
    assert (polls_of ls2 = if decide (at_pc p1 = Interrupted) then [PollFailed EINTR] else []) as Hp'.
    { rewrite Hp. by destruct (at_pc p1). }
    split; [|done]. destruct He as [?|[_ (e & He & Hne)]]; [done|]. rewrite Hp' in He.
    destruct (decide _); [|by apply elem_of_nil in He].
    apply list_elem_of_singleton in He. congruence.
Qed.
End properties.

(** * Witnesses *)

(** A signal in poll: the process tests [running], waits, is interrupted. *)
Definition interrupted_run : list label :=
  [Internal; Internal; Signalled; Polled (PollFailed EINTR)].

Lemma interrupted_runs g nl t w :
  runs g nl (entering t w) interrupted_run (mkProcess false AtTest t w).
Proof.
  eapply runs_step; [apply test_running|]. eapply runs_step; [apply enter_poll|].
  eapply runs_step; [by apply signal_in_poll|]. eapply runs_step; [apply poll_interrupted|constructor].
Qed.

Lemma reachable_invariant_witness :
  server_ok 1 sample_table (read_world [])
  ∧ ∃ p', loop_step globals_init 1 (mkProcess false AtTest sample_table (read_world [])) Internal p'.
Proof.
  destruct (reachable_invariant globals_init 1 sample_table (read_world []) interrupted_run
    (mkProcess false AtTest sample_table (read_world [])) sample_magic_ok quiet_log_ready
    (sample_serving _) (read_world_steady _) (interrupted_runs _ _ _ _)) as (H1 & _ & _ & _ & H2).
  split; [exact H1|exact H2].
Defined.

(** A signal before poll, which then reports input of the second connection. *)
Lemma signal_stops_witness :
  ∃ ls3 p3, runs globals_init 1 (mkProcess false BeforePoll sample_table (read_world [])) ls3 p3
    ∧ polls_of ls3 = [PollReady (λ _, POLLIN)]
    ∧ (at_pc p3 = Left ∨ at_pc p3 = Exited ∧ poll_fails (polls_of ls3)).
Proof.
  destruct (signal_stops globals_init 1 sample_table (read_world []) [Internal]
    (mkProcess true BeforePoll sample_table (read_world []))
    (mkProcess false BeforePoll sample_table (read_world [])) []
    (mkProcess false BeforePoll sample_table (read_world [])) (PollReady (λ _, POLLIN))
    sample_magic_ok quiet_log_ready (sample_serving _) (read_world_steady _)) as (_ & _ & _ & _ & H1).
  - eapply runs_step; [apply test_running|constructor].
  - apply (take_signal globals_init 1 (mkProcess true BeforePoll sample_table (read_world [])));
      discriminate.
  - constructor.
  - destruct H1 as (ls3 & p3 & H1 & _ & H2 & H3); [discriminate|].
    exists ls3, p3. split; [exact H1|split; [exact H2|exact H3]].
Defined.

Lemma signal_waits_for_poll_witness :
  ∃ p2, runs globals_init 1 (mkProcess false BeforePoll sample_table (read_world [])) [Internal] p2
    ∧ at_pc p2 = InPoll.
Proof.
  destruct (signal_waits_for_poll globals_init 1 sample_table (read_world []) [Internal]
    (mkProcess true BeforePoll sample_table (read_world []))
    (mkProcess false BeforePoll sample_table (read_world []))
    sample_magic_ok quiet_log_ready (sample_serving _) (read_world_steady _)) as (H1 & _).
  - eapply runs_step; [apply test_running|constructor].
  - apply (take_signal globals_init 1 (mkProcess true BeforePoll sample_table (read_world [])));
      discriminate.
  - exact H1.
Defined.

(** The same signal, followed to the end of the process. *)
Lemma graceful_shutdown_witness :
  ∃ w' evs, shut_down globals_init 1 3 4 sample_table (read_world []) = (Ret (), w')
    ∧ closed_fds evs ≡ₚ ((λ pc, fd pc.2) <$> conns 1 sample_table) ++ [3; 4]%Z
    ∧ Forall free_live evs.
Proof.
  destruct (graceful_shutdown globals_init 1 3 4 sample_table (read_world [])
    (interrupted_run ++ [Internal]) (mkProcess false Left sample_table (read_world [])))
    as (_ & w' & evs & H1 & _ & H2 & H3 & _ & _).
  - exact sample_magic_ok.
  - exact quiet_log_ready.
  - exact (sample_serving _).
  - exact (read_world_steady _).
  - eapply runs_step; [apply test_running|]. eapply runs_step; [apply enter_poll|].
    eapply runs_step; [apply signal_in_poll; reflexivity|].
    eapply runs_step; [apply poll_interrupted|]. eapply runs_step; [apply test_stopped|constructor].
  - reflexivity.
  - exists w', evs. split; [exact H1|split; [exact H2|exact H3]].
Defined.
