(* ===== verification/Leaks.v ===== *)
(** * Leaks: what the server leaves allocated

    Every part of the server gives back the heap blocks it allocates or hands them
    to the client or the table, and closes the streams it opens, but for the block
    that collects a CGI program's output and the stream of a refused CGI request;
    and what follows for whole runs. *)

From S2P Require Import Prelude CLib Types OS Flags Logging ParseRequest ResolvePath Response.
From S2P Require Import Messages Connections DoRead EndToEnd DoWrite Sockets Main Effects Heap Loop Server History.

(** The blocks of a client. *)
Definition in_ids (c : Client) : gset nat := ids (b_id <$> in_buf c).
Definition out_ids (c : Client) : gset nat := ids (b_id <$> out_buf c).

Section leaks.
Context `{External} (base : nat) (cgi : bool).
Abbreviation within := (within base cgi).
Abbreviation quiet := (quiet base cgi).

(** ** Building *)

(** A builder's outcome: the input buffer is as it was, and what was held stays
    held, with the output buffer. *)
Definition built (c : Client) (U F : gset nat) (k : nat) (r : Z * Client) (w : World) : Prop :=
  in_buf r.2 = in_buf c ∧ within (out_ids r.2 ∪ U) F k w.
Definition builds_within (c : Client) (m : M (Z * Client)) : Prop :=
  ∀ U F k, triple (within U F k) m (built c U F k).

Lemma built_ret c c' st U F k :
  in_buf c' = in_buf c → triple (within (out_ids c' ∪ U) F k) (mret (st, c')) (built c U F k).
Proof. intros Hi. apply t_ret. intros w HW. by split. Qed.

Lemma error_within c req : builds_within c (build_error_response c req).
Proof.
  intros U F k. unfold build_error_response.
  destruct (_ || _); [apply t_ret; intros w HW; split; [done|fits]|].
  destruct (error_responses _) as [er|]; [|apply t_crash].
  call t_memstream as [[f b]|]; [|apply t_ret; intros w HW; split; [done|fits]].
  call quiet_stream_write as hd. destruct (decide _); [|call quiet_stream_write as out];
    (call t_fclose; apply t_ret; intros w HW; split; [done|]); unfold out_ids; simpl; fits.
Qed.

Lemma copy_quiet fuel f out : quiet (copy_file fuel f out).
Proof. revert out. induction fuel as [|fuel IH]; intros out; cbn [copy_file]; quiet_auto. Qed.

Lemma file_within c rp req : builds_within c (build_response_file c rp req).
Proof.
  intros U F k. unfold build_response_file.
  destruct (gmtime_iso _); [|apply t_ret; intros w HW; split; [done|fits]].
  call t_memstream as [[f b]|]; [|apply t_ret; intros w HW; split; [done|fits]].
  call quiet_stream_write as hd. destruct (decide _).
  - call t_fclose. apply t_ret. intros w HW. split; [done|]. unfold out_ids. simpl. fits.
  - call quiet_get. call copy_quiet. call t_fclose. apply t_ret. intros w HW. split; [done|].
    unfold out_ids. simpl. fits.
Qed.

Ltac done_building := apply t_ret; intros w HW; (split; [reflexivity|unfold out_ids; simpl; fits]).

Lemma release_within U F k bf l d :
  triple (within U F k) (release_dir bf l d) (λ _, within (U ∖ {[l]}) ((F ∖ {[bf]}) ∖ {[d]}) k).
Proof.
  unfold release_dir. call t_fclose. call t_free. eapply t_mono; [apply t_closedir|done|].
  intros ? w HW. fits.
Qed.

Lemma list_quiet dir ds buf : quiet (list_entries dir ds buf).
Proof. revert buf. induction ds as [|d ds IH]; intros buf; cbn [list_entries]; quiet_auto. Qed.

Lemma dir_within c rp req : builds_within c (build_response_dir c rp req).
Proof.
  intros U F k. unfold build_response_dir.
  destruct (negb _); [done_building|]. call t_opendir as [[d ents]|]; [|done_building].
  call t_memstream as [[bf l]|]; [|call t_closedir; done_building]. call list_quiet as entries.
  destruct (gmtime_iso _); [|call release_within; done_building].
  call t_memstream as [[f b]|]; [|call release_within; done_building].
  cbv zeta. call quiet_stream_write as hd. destruct (decide (method req = HTTP_HEAD)).
  - call t_fclose. call release_within. done_building.
  - do 3 call quiet_stream_write as ?. call t_fclose. call release_within. done_building.
Qed.

(** The loop over the pipe: the block that collects is the only one held. *)
Lemma read_cgi_within fuel q p b cap resp U F k :
  triple (within ({[b]} ∪ U) F k) (read_cgi fuel q p b cap resp)
    (λ r, within (ids (fst <$> r) ∪ U) F k).
Proof.
  revert q b cap resp. induction fuel as [|fuel IH]; intros q b cap resp; cbn [read_cgi];
    [apply t_no_fuel|].
  eapply t_bind with (Q := λ r, within (ids (fst <$> r) ∪ U) F k).
  { destruct (decide _).
    - call t_realloc as [b'|].
      + apply t_ret. intros w HW. simpl. fits.
      + call t_free. call quiet_close. apply t_ret. intros w HW. simpl. fits.
    - apply t_ret. intros w HW. simpl. fits. }
  intros [[b' cap']|]; simpl; [|apply t_ret; intros w HW; fits].
  destruct q as [|[[|x d]|e] q].
  - by apply t_ret.
  - by apply t_ret.
  - eapply t_mono; [apply IH| |done]. intros w HW. fits.
  - destruct (decide _).
    + eapply t_mono; [apply IH| |done]. intros w HW. fits.
    + call t_free. call quiet_close. apply t_ret. intros w HW. simpl. fits.
Qed.

(** The message of a CGI answer is a second block; the first is lost. *)
Lemma cgi_finish_within c req cg b resp U F k :
  triple (within ({[b]} ∪ U) F (k + 1)) (cgi_finish c req cg b resp) (built c U F k).
Proof.
  unfold cgi_finish. destruct (negb (cg_wait_ok cg)); [call t_free; done_building|].
  destruct (_ || _); [call t_free; done_building|].
  call t_malloc as [o|].
  - apply t_ret. intros w HW. split; [done|]. apply (within_lose _ _ b). unfold out_ids. simpl. fits.
  - call t_free. done_building.
Qed.

Lemma cgi_within g c rp req :
  cgi = has_flag g C_FLAG → builds_within c (build_response_cgi g c rp req).
Proof.
  intros Hcgi.
  intros U F k. unfold build_response_cgi.
  destruct (has_flag g C_FLAG); [cbn [negb]|done_building].
  call quiet_get. cbv zeta. destruct (cg_pipe _) as [[p0 p1]|]; [|done_building].
  destruct (decide _); [done_building|].
  destruct (negb _); [do 2 call quiet_close; done_building|].
  call t_exec; [done|]. call quiet_close. call t_malloc as [b|]; [|call quiet_close; done_building].
  eapply t_bind.
  { eapply t_mono; [apply (read_cgi_within _ _ _ b _ _ U F (k + 1))| |intros r w HW; exact HW].
    intros w HW. fits. }
  intros [[b' resp]|]; simpl; [|done_building].
  call quiet_close. eapply t_mono; [apply (cgi_finish_within c req _ b' resp U F k)| |done].
  intros w HW. fits.
Qed.

Lemma okay_failed_within c req U F k :
  triple (within (out_ids c ∪ U) F k) (okay_failed c req) (built c U F k).
Proof.
  unfold okay_failed. cbv zeta. call t_free.
  eapply t_mono; [apply error_within with (U := U) (F := F) (k := k)| |].
  - intros w HW. destruct (decide _); unfold out_ids in HW; fits.
  - intros [s c'] w [H1 H2]. split; [|done]. simpl in *. rewrite H1. by destruct (decide _).
Qed.

Lemma okay_within g c rp req :
  cgi = has_flag g C_FLAG → builds_within c (build_okay_response g c rp req).
Proof.
  intros Hcgi U F k. unfold build_okay_response. cbv zeta.
  eapply t_bind with (Q := built c U F k).
  { assert (built c U F k = built (set_resp c RESP_200) U F k) as -> by done.
    destruct (path_type rp); [|apply file_within|apply dir_within|by apply cgi_within].
    done_building. }
  intros [status c']; cbv beta. destruct (status <? 0)%Z; [|by apply t_ret].
  apply t_pure. intros Hi. eapply t_mono; [apply (okay_failed_within c' req U F k)|done|].
  intros r w [H1 H2]. split; [|done]. by rewrite H1.
Qed.

(** ** Resolving a path *)

(** The streams left are those held and the one of the resolved path; the client's
    buffers are as they were. *)
Definition resolves (c : Client) (U F : gset nat) (k : nat) (v : resolved) (w : World) : Prop :=
  in_buf (rv_client v) = in_buf c ∧ out_buf (rv_client v) = out_buf c
  ∧ within U (ids (rp_file_ptr (rv_rp v)) ∪ F) k w.

Ltac done_resolving := apply t_ret; intros w HW; split_and!; [reflexivity..|simpl; fits].

Lemma dir_index_within c rp i U F k :
  triple (within U ({[i]} ∪ F) k) (handle_dir_index c rp i) (resolves c U F k).
Proof.
  unfold handle_dir_index. cbv zeta. call quiet_fstat as [st|]; [done_resolving|].
  call t_fclose. done_resolving.
Qed.

Lemma resolve_dir_within c rp f st local U F k :
  triple (within U ({[f]} ∪ F) k) (resolve_dir c rp f st local) (resolves c U F k).
Proof.
  assert (∀ i, triple (within U ({[i]} ∪ ({[f]} ∪ F)) k)
    (_ ← fclose f; handle_dir_index c rp i) (resolves c U F k)) as Hi.
  { intros i. call t_fclose. eapply t_mono; [apply dir_index_within| |done]. intros w HW. fits. }
  unfold resolve_dir, get_file_path. cbv zeta.
  call t_fopen as [e|i]; [|apply Hi]. call t_fopen as [e'|i]; [|apply Hi].
  call t_fclose. done_resolving.
Qed.

Lemma mime_quiet name f : quiet (get_mime_type_by_ext name f).
Proof.
  assert (quiet (magic_fd f)) as Hm by (unfold magic_fd; quiet_auto).
  unfold get_mime_type_by_ext. quiet_auto.
Qed.

Section resolving.
Context (g : Globals) (Hcgi : cgi = has_flag g C_FLAG).

Lemma resolve_open_within c rp f st local U F k :
  rp_file_ptr rp = Some f →
  triple (within U ({[f]} ∪ F) k) (resolve_open g c rp f st local) (resolves c U F k).
Proof.
  intros Hf. unfold resolve_open. cbv zeta. destruct (path_includes_cgi local && _) eqn:Ec.
  - apply t_ret. intros w HW. split_and!; [done..|]. simpl.
    apply andb_prop in Ec as [_ Ec%negb_true_iff]. apply (within_drop _ _ f); [congruence|fits].
  - destruct (st_isdir st); [apply resolve_dir_within|]. call mime_quiet.
    apply t_ret. intros w HW. split_and!; [done..|]. simpl. rewrite Hf. fits.
Qed.

Lemma resolve_within c req rp U F k :
  triple (within U F k) (resolve_path g c req rp) (resolves c U F k).
Proof.
  unfold resolve_path. destruct (split_path (path req)) as [[local|] q]; [|apply t_crash]. cbv zeta.
  call t_fopen as [e|f]; [done_resolving|]. call quiet_fstat as [st|].
  - by apply resolve_open_within.
  - call t_fclose. done_resolving.
Qed.

(** ** Answering *)

Lemma close_path_within rp U F k :
  triple (within U (ids (rp_file_ptr rp) ∪ F) k) (close_resolve_path_ptr rp) (λ _, within U F k).
Proof.
  unfold close_resolve_path_ptr. destruct (rp_file_ptr rp) as [f|].
  - call t_fclose. apply t_ret. intros w HW. fits.
  - apply t_ret. intros w HW. fits.
Qed.

Lemma answer_within c r U F k :
  triple (within U F k) (answer g c r)
    (λ a w, in_buf a.1 = in_buf c ∧ within (out_ids a.1 ∪ U) (ids (rp_file_ptr a.2) ∪ F) k w).
Proof.
  unfold answer. cbv zeta. destruct (decide _).
  - call resolve_within as v. destruct (decide _).
    + apply t_pure. intros Hi. apply t_pure. intros Ho. call (okay_within g _ _ _ Hcgi) as s.
      apply t_ret. intros w [H1 HW]. simpl. by rewrite <-Hi.
    + apply t_pure. intros Hi. apply t_pure. intros Ho. call error_within as s.
      apply t_ret. intros w [H1 HW]. simpl. by rewrite <-Hi.
  - call error_within as s. apply t_ret. intros w [H1 HW]. split; [done|]. simpl. fits.
Qed.

Lemma parse_quiet buf len out resp le : quiet (parse_request g buf len out resp le).
Proof. unfold parse_request. quiet_auto. Qed.

Lemma close_entry_quiet c le : quiet (close_entry g c le).
Proof. unfold close_entry, do_logging. quiet_auto. Qed.

Lemma respond_within c buf U F k :
  triple (within U F k) (respond g c buf)
    (λ c' w, in_buf c' = in_buf c ∧ within (out_ids c' ∪ U) F k w).
Proof.
  unfold respond. cbv zeta. call parse_quiet as r. call answer_within as [c1 rp].
  apply t_pure. intros Hi. call close_entry_quiet. call close_path_within.
  by apply t_ret.
Qed.

(** ** Receiving *)

(** The input buffer is replaced, the output buffer is not touched. *)
Definition takes_in (c : Client) (U F : gset nat) (k : nat) (c' : Client) (w : World) : Prop :=
  out_buf c' = out_buf c ∧ within (in_ids c' ∪ U) F k w.

Lemma copy_in_within c data U F k :
  triple (within (in_ids c ∪ U) F k) (copy_in c data) (takes_in c U F k).
Proof.
  unfold copy_in, takes_in, in_ids. destruct (in_buf c) as [b|] eqn:Hb; simpl.
  - apply t_ret. intros w HW. split; [done|]. simpl. fits.
  - destruct (decide _); [|apply t_crash]. apply t_ret. intros w HW. rewrite Hb. by split.
Qed.

Lemma append_within c data U F k :
  triple (within (in_ids c ∪ U) F k) (append c data) (takes_in c U F k).
Proof.
  unfold append. cbv zeta. destruct (decide _); [by apply t_ret|].
  destruct (decide _); [|apply copy_in_within].
  destruct (grow_capacity _ _ _) as [cap|]; [|apply t_no_fuel].
  call t_realloc as [b|]; [|by apply t_ret].
  eapply t_mono; [apply copy_in_within with (U := U) (F := F) (k := k)| |done].
  intros w HW. unfold in_ids in *. simpl. fits.
Qed.

Lemma recv_loop_within fuel c U F k :
  triple (within (in_ids c ∪ U) F k) (recv_loop fuel c) (λ r, takes_in c U F k r.2).
Proof.
  revert c. induction fuel as [|fuel IH]; intros c; cbn [recv_loop]; [apply t_no_fuel|].
  call quiet_recv as [[|x d]|e].
  - by apply t_ret.
  - call append_within as c1. destruct (decide _).
    + apply t_pure. intros Ho. eapply t_mono; [apply IH|done|]. intros r w [H1 H2].
      split; [by rewrite H1|done].
    + by apply t_ret.
  - destruct (would_block e); [by apply t_ret|]. destruct (decide _); [apply IH|by apply t_ret].
Qed.

Lemma read_client_within c p U F k :
  out_buf c = None →
  triple (within (in_ids c ∪ U) F k) (read_client g c p)
    (λ r, within (in_ids r.1 ∪ out_ids r.1 ∪ U) F k).
Proof.
  intros Ho. unfold read_client. call quiet_get. call recv_loop_within as [ret c1]. simpl.
  assert (∀ r : Client * PollFd, r.1 = c1 → triple (takes_in c U F k c1) (mret r)
    (λ r, within (in_ids r.1 ∪ out_ids r.1 ∪ U) F k)) as Hret.
  { intros r Hr. apply t_ret. intros w [H1 H2]. rewrite Hr. fits. }
  destruct ret; [by apply Hret|]. destruct (in_buf c1) as [b|] eqn:Hb; [|by apply Hret].
  destruct (decide _); [by apply Hret|]. destruct (strnstr _ _ _) as [e|]; [|by apply Hret].
  apply t_pure. intros Ho1. call respond_within as c2. apply t_ret. intros w [H1 H2]. simpl in *.
  unfold in_ids in *. rewrite H1. simpl. fits.
Qed.
End resolving.

(** ** Sending *)

Lemma send_loop_within fuel c buf U F k :
  triple (within U F k) (send_loop fuel c buf)
    (λ c' w, in_buf c' = in_buf c ∧ out_buf c' = out_buf c ∧ within U F k w).
Proof.
  revert c. induction fuel as [|fuel IH]; intros c; cbn [send_loop]; [apply t_no_fuel|].
  destruct (decide _); [|by apply t_ret]. destruct (decide _); [apply t_crash|].
  call quiet_send as r. destruct r as [[|m]|e]; [apply t_exit| |apply t_exit].
  eapply t_mono; [apply IH|done|]. done.
Qed.

Lemma write_client_within c U F k :
  triple (within U F k) (write_client c)
    (λ c' w, in_buf c' = in_buf c ∧ out_buf c' = out_buf c ∧ within U F k w).
Proof.
  unfold write_client. destruct (out_buf c) as [b|] eqn:Hb; [|by apply t_ret].
  destruct (decide _); [by apply t_ret|]. call send_loop_within as c1.
  apply t_pure. intros H1. apply t_pure. intros H2. call quiet_shutdown.
  apply t_ret. intros w HW. simpl. by rewrite H1, H2, Hb.
Qed.

(** ** The table *)

(** The blocks of the two arrays, and of the connections. *)
Definition arrays (t : Table) : gset nat := {[pfds_block t]} ∪ {[clients_block t]}.
Definition conn_ids (l : list (PollFd * Client)) : gset nat := list_to_set (conn_blocks l).

Lemma conn_ids_cons p c l : conn_ids ((p, c) :: l) = in_ids c ∪ out_ids c ∪ conn_ids l.
Proof.
  unfold conn_ids, conn_blocks. csimpl. unfold owned.
  by rewrite !list_to_set_app_L.
Qed.

Lemma conn_ids_perm l l' : l ≡ₚ l' → conn_ids l = conn_ids l'.
Proof. intros Hl. by apply list_to_set_perm_L, conn_blocks_perm. Qed.

Lemma close_conn_within i t c U F k :
  i ≠ 0 → clients t !! i = Some c →
  triple (within (in_ids c ∪ out_ids c ∪ U) F k) (close_conn i t)
    (λ t' w, arrays t' = arrays t ∧ within U F k w).
Proof.
  intros Hi Hc. unfold close_conn, free_buf. rewrite decide_False, Hc by done.
  destruct (fd_count t) as [|last]; [apply t_crash|]. call quiet_close.
  eapply t_bind with (Q := λ _, within (in_ids c ∪ out_ids c ∪ U) F k).
  { destruct (file_ptr c); [|by apply t_ret].
    eapply t_mono; [apply t_fclose|intros w HW; exact HW|]. intros ? w HW. fits. }
  intros _. call t_free. call t_free. destruct (decide _).
  - destruct (pfds t !! last), (clients t !! last); try apply t_crash.
    apply t_ret. intros w HW. split; [done|]. unfold in_ids, out_ids in HW. fits.
  - apply t_ret. intros w HW. split; [done|]. unfold in_ids, out_ids in HW. fits.
Qed.

Lemma grow_within t U F k :
  triple (within (arrays t ∪ U) F k) (grow t) (λ t', within (arrays t' ∪ U) F k).
Proof.
  unfold grow. call quiet_get. call t_realloc as [pb|]; [|apply t_exit].
  call t_realloc as [cb|]; [|apply t_exit]. apply t_ret. intros w HW. unfold arrays in *. simpl. fits.
Qed.

Lemma register_within n t U F k :
  triple (within (arrays t ∪ U) F k) (register n t) (λ t', within (arrays t' ∪ U) F k).
Proof.
  unfold register. eapply t_bind with (Q := λ r, within (arrays r.2 ∪ U) F k).
  { unfold add_to_lists. eapply t_bind with (Q := λ t', within (arrays t' ∪ U) F k).
    - destruct (decide _); [apply grow_within|by apply t_ret].
    - intros t'. destruct (pfds t' !! fd_count t'), (clients t' !! fd_count t'); try apply t_crash. by apply t_ret. }
  intros [idx t']. simpl. destruct (clients t' !! idx); [|apply t_crash]. by apply t_ret.
Qed.

Lemma accept_within lfd t U F k :
  triple (within (arrays t ∪ U) F k) (accept_new_conn lfd t) (λ t', within (arrays t' ∪ U) F k).
Proof.
  unfold accept_new_conn. call quiet_get. generalize (accept_fuel lfd a). intros fuel.
  revert t. induction fuel as [|fuel IH]; intros t; cbn [accept_loop]; [apply t_no_fuel|].
  call quiet_accept as r. destruct r as [n|e].
  - destruct (_ || _); [call quiet_close; apply IH|]. call register_within. apply IH.
  - destruct (would_block e); [by apply t_ret|]. destruct (decide _); [apply IH|by apply t_ret].
Qed.

(** The entry [i] holds its client's blocks besides [U]. *)
Definition entry_within (i : nat) (t0 : Table) (U F : gset nat) (k : nat) (t : Table) (w : World) : Prop :=
  arrays t = arrays t0 ∧ ∃ c, clients t !! i = Some c ∧ within (in_ids c ∪ out_ids c ∪ U) F k w.

Lemma close_at_within i t0 t U F k :
  i ≠ 0 →
  triple (entry_within i t0 U F k t) (t' ← close_conn i t; mret (true, t'))
    (λ r w, r.1 = true ∧ arrays r.2 = arrays t0 ∧ within U F k w).
Proof.
  intros Hi w (Ha & c & Hc & HW). revert w HW. call (close_conn_within i t c U F k Hi Hc) as t'.
  apply t_ret. intros w [H1 H2]. simpl. by rewrite H1.
Qed.

Section serving.
Context (g : Globals) (Hcgi : cgi = has_flag g C_FLAG).

Lemma read_entry_within i t c U F k :
  clients t !! i = Some c → out_buf c = None →
  triple (within (in_ids c ∪ out_ids c ∪ U) F k) (do_read g i t) (entry_within i t U F k).
Proof.
  intros Hc Ho. unfold do_read. rewrite Hc. destruct (pfds t !! i) as [p|]; [|apply t_crash].
  eapply t_bind.
  { eapply t_mono; [apply (read_client_within g Hcgi c p U F k Ho)| |intros r w HW; exact HW].
    unfold out_ids. rewrite Ho. intros w HW. fits. }
  intros [c' p']. apply t_ret. intros w HW. split; [done|]. exists c'. split; [|done].
  simpl. apply list_lookup_insert_eq. by eapply lookup_lt_Some.
Qed.

Lemma write_entry_within i t0 t U F k :
  triple (entry_within i t0 U F k t) (do_write i t) (entry_within i t0 U F k).
Proof.
  intros w (Ha & c & Hc & HW). revert w HW. unfold do_write. rewrite Hc.
  call write_client_within as c'. apply t_ret. intros w (H1 & H2 & HW). split; [done|].
  exists c'. split; [simpl; apply list_lookup_insert_eq; by eapply lookup_lt_Some|].
  unfold in_ids, out_ids. by rewrite H1, H2.
Qed.

Lemma serve_within i revents t c U F k :
  i ≠ 0 → clients t !! i = Some c → (state c = READING → out_buf c = None) →
  triple (within (in_ids c ∪ out_ids c ∪ U) F k) (serve_client g i revents t)
    (λ r w, arrays r.2 = arrays t
            ∧ if r.1 : bool then within U F k w
              else ∃ c', clients r.2 !! i = Some c' ∧ within (in_ids c' ∪ out_ids c' ∪ U) F k w).
Proof.
  intros Hi Hc Hst. unfold serve_client.
  assert (∀ w, within (in_ids c ∪ out_ids c ∪ U) F k w → entry_within i t U F k t w) as Hin.
  { intros w HW. split; [done|]. by exists c. }
  assert (∀ t1, triple (entry_within i t U F k t1) (t' ← close_conn i t1; mret (true, t'))
    (λ r w, arrays r.2 = arrays t
            ∧ if r.1 : bool then within U F k w
              else ∃ c', clients r.2 !! i = Some c' ∧ within (in_ids c' ∪ out_ids c' ∪ U) F k w))
    as Hclose.
  { intros t1. eapply t_mono; [by apply close_at_within|done|].
    intros [closed t2] w (H1 & H2 & H3). simpl in *. by subst. }
  destruct (has_event revents BROKEN); [eapply t_mono; [apply Hclose|exact Hin|done]|].
  eapply t_bind with (Q := entry_within i t U F k).
  { destruct (_ && _) eqn:Hr; [|by apply t_ret].
    apply andb_prop in Hr as [_ Hr%bool_decide_eq_true].
    unfold state_of in Hr. rewrite Hc in Hr. injection Hr as Hr. by apply read_entry_within; auto. }
  intros t1. eapply t_bind with (Q := entry_within i t U F k).
  { destruct (_ && _); [apply write_entry_within|by apply t_ret]. }
  intros t2. destruct (bool_decide _); [apply Hclose|]. by apply t_ret.
Qed.

(** ** The loop *)

(** The invariant of the loop: what is live belongs to the table or to [U]. *)
Definition table_within (nl : nat) (U F : gset nat) (t : Table) (w : World) : Prop :=
  within (arrays t ∪ conn_ids (conns nl t) ∪ U) F 0 w.

Lemma table_accept nl U F : stable_accept nl (table_within nl U F).
Proof.
  intros lfd t w t1 w1 new Hs HP E Hs1 _ Hact _. unfold table_within in *.
  assert (conns nl t1 = conns nl t ++ new) as ->.
  { unfold conns. rewrite Hact, drop_app_le; [done|]. rewrite (length_active nl); apply Hs. }
  assert (within (arrays t ∪ (conn_ids (conns nl t) ∪ U)) F 0 w) as HW by fits.
  apply accept_within with (lfd := lfd) in HW. rewrite E in HW.
  unfold conn_ids, conn_blocks. rewrite bind_app, list_to_set_app_L.
  fold (conn_blocks (conns nl t)). fits.
Qed.

Lemma table_poll nl U F : stable_poll (table_within nl U F).
Proof.
  intros revents t w HP. unfold table_within, conn_ids in *.
  by rewrite (conn_blocks_view _ _ (conns_poll_update nl revents t)).
Qed.

Lemma table_turn nl U F : stable_turn g nl (table_within nl U F).
Proof.
  intros i p c t w closed t1 w1 [Hs _] HP Hi Ha E _ Hsv.
  destruct (entry_slots _ _ _ _ _ (sv_table _ _ _ Hs) Ha) as (_ & _ & Hc).
  destruct (entry_client_ok _ _ _ _ _ _ Hs Hi Ha) as [Hok _].
  pose proof (to_listeners _ _ (sv_table _ _ _ Hs)) as Hnl.
  unfold table_within in *. rewrite (conn_ids_perm _ _ (conns_others nl t i p c Hi Ha)), conn_ids_cons in HP.
  assert (within (in_ids c ∪ out_ids c ∪ (arrays t ∪ conn_ids (others nl i t) ∪ U)) F 0 w) as HW by fits.
  apply (serve_within i (pfd_revents p) t c) in HW; [|lia|done|].
  2:{ intros Hst. unfold client_ok in Hok. rewrite Hst in Hok. apply Hok. }
  rewrite E in HW. simpl in HW. destruct HW as [-> HW].
  rewrite (conn_ids_perm _ _ (served_conns _ _ _ _ _ _ _ _ _ Hi Ha Hsv)).
  destruct closed; [exact HW|].
  destruct Hsv as [[Hs1 _] _ (p1 & c1 & _ & _ & Ha1 & _)]. rewrite Ha1. simpl.
  rewrite conn_ids_cons. destruct HW as (c2 & Hc2 & HW).
  destruct (entry_slots _ _ _ _ _ (sv_table _ _ _ Hs1) Ha1) as (_ & _ & Hc1).
  assert (c2 = c1) as -> by congruence. fits.
Qed.
End serving.

(** ** Starting and stopping *)

(** The stream of the log. *)
Definition log_ids (p : log_stream) : gset nat := match p with LogFile f => {[f]} | _ => ∅ end.

Lemma close_old_within p U F k :
  triple (within U (log_ids p ∪ F) k) (close_old_log p) (λ _, within U F k).
Proof.
  destruct p as [| |f]; [by apply t_ret; intros w HW; fits..|].
  eapply t_mono; [apply t_fclose|intros w HW; exact HW|]. intros ? w HW. fits.
Qed.

Lemma flags_loop_within n args g U F k :
  length args ≤ n →
  triple (within U (log_ids (log_ptr g) ∪ F) k) (setFlags_loop g args)
    (λ g', within U (log_ids (log_ptr g') ∪ F) k).
Proof.
  revert args g. induction n as [|n IH]; intros args g Hn.
  { destruct args; [by apply t_ret|simpl in Hn; lia]. }
  assert (∀ g' rest, length rest ≤ n → log_ptr g' = log_ptr g →
    triple (within U (log_ids (log_ptr g) ∪ F) k) (setFlags_loop g' rest)
      (λ g', within U (log_ids (log_ptr g') ∪ F) k)) as Hgo.
  { intros g' rest Hr Hl. rewrite <-Hl. by apply IH. }
  destruct args as [|a rest]; [by apply t_ret|]. simpl in Hn. cbn [setFlags_loop].
  destruct (negb (starts_dash a)); [apply Hgo; [lia|done]|].
  destruct (decide _).
  { destruct rest as [|d rest]; [apply t_exit|]. simpl in Hn. call quiet_stat as st.
    destruct st as [st|]; [|apply t_exit]. destruct (st_isdir st); [|apply t_exit]. apply Hgo; [lia|done]. }
  destruct (decide _).
  { call close_old_within. eapply t_mono; [apply IH; lia|intros w HW; simpl; fits|done]. }
  destruct (decide _).
  { destruct rest as [|b rest]; [apply t_exit|]. simpl in Hn. destruct (starts_dash b); [apply t_exit|].
    destruct (inet_pton4 b); [apply Hgo; [lia|done]|apply t_exit]. }
  destruct (decide _).
  { destruct rest as [|b rest]; [apply t_exit|]. simpl in Hn. destruct (starts_dash b); [apply t_exit|].
    destruct (inet_pton6 b); [apply Hgo; [lia|done]|apply t_exit]. }
  destruct (decide _).
  { destruct rest as [|l rest]; [apply t_exit|]. simpl in Hn. destruct (starts_dash l); [apply t_exit|].
    call close_old_within. call t_fopen_append as f. destruct f as [i|]; [|apply t_exit].
    eapply t_mono; [apply IH; lia|intros w HW; simpl; fits|done]. }
  destruct (decide _); [|apply t_exit].
  destruct rest as [|p rest]; [apply t_exit|]. simpl in Hn. destruct (negb (checkPortNumber p)); [apply t_exit|].
  call quiet_euid. destruct (_ && _); [apply t_exit|]. apply Hgo; [lia|done].
Qed.

Lemma setFlags_within argv U F k :
  triple (within U F k) (setFlags argv) (λ g, within U (log_ids (log_ptr g) ∪ F) k).
Proof.
  unfold setFlags. destruct (decide _); [apply t_ret; intros w HW; simpl; fits|].
  eapply t_mono; [by apply (flags_loop_within (length (tail argv)) _ globals_init U F k)|intros w HW; simpl; fits|done].
Qed.

Lemma listener_v4_quiet s g : quiet (get_listener_v4 s g).
Proof. unfold get_listener_v4, bind_and_listen. quiet_auto. Qed.
Lemma listener_v6_quiet s g : quiet (get_listener_v6 s g).
Proof. unfold get_listener_v6, bind_and_listen. quiet_auto. Qed.

Lemma start_up_within su g U F k :
  triple (within U F k) (start_up su g) (λ r, within (arrays r.1.1.2 ∪ U) F k).
Proof.
  unfold start_up. destruct (negb _); [apply t_exit|]. call quiet_get. call t_malloc as pb.
  call t_malloc as cb. destruct pb as [pb|]; [|apply t_exit]. destruct cb as [cb|]; [|apply t_exit].
  eapply t_bind; [|intros v4; eapply t_bind; [|intros v6; cbv beta]].
  - destruct (use_v4 g); [apply listener_v4_quiet|apply quiet_ret].
  - destruct (use_v6 g); [apply listener_v6_quiet|apply quiet_ret].
  - destruct (place_listener _ _) as [nl ps]. destruct (decide _); [apply t_exit|].
    apply t_ret. intros w HW. unfold arrays. simpl. fits.
Qed.

Lemma close_conn_quiet i t : quiet (close_conn i t).
Proof. unfold close_conn, free_buf. quiet_auto. Qed.

Lemma shut_down_within g nl v4 v6 t U F k :
  triple (within U (log_ids (log_ptr g) ∪ F) k) (shut_down g nl v4 v6 t) (λ _, within U F k).
Proof.
  unfold shut_down. eapply t_bind.
  { generalize (S (fd_count t - nl)). intros fuel.
    assert (quiet (close_all fuel nl t)) as Hq; [|apply Hq].
    revert t. induction fuel as [|fuel IH]; intros t; cbn [close_all]; [auto with heap|].
    destruct (decide _); [auto with heap|]. apply quiet_bind; [apply close_conn_quiet|done]. }
  intros t'. do 2 call quiet_close. do 2 call quiet_free. apply close_old_within.
Qed.
End leaks.

(** * Properties *)

Section properties.
Context `{External}.

(** C5. What a whole run leaves allocated. When the process ends with EXIT_SUCCESS, the
    heap blocks it has not freed are at most one for each CGI program it ran, and
    with -c every stream it opened is closed; without -c it ran none, so that every
    block is freed. *)
Theorem run_leaks_only_cgi su polls argv w w1 g w' :
  magic_ok → world_ok w → outside_ok w →
  setFlags argv w = (Ret g, w1) → main su polls argv w = (Exit EXIT_SUCCESS, w') →
  ∃ evs L, extends w w' evs ∧ w_blocks w' ⊆ w_blocks w ∪ L ∧ size L ≤ execs evs
    ∧ if has_flag g C_FLAG then dom (w_files w') ⊆ dom (w_files w) else execs evs = 0.
Proof.
  intros Hm Hw Ho Ef E.
  destruct (main_success su polls argv w w1 g w' Hm Hw Ho Ef E)
    as ((_ & _ & evs & Hx & _) & nl & t & v4 & v6 & w2 & t3 & w3 & [Hlog E2 Hs2 Hc2 E3 E4]).
  set (cgi := has_flag g C_FLAG). set (base := execs (w_trace w)). set (U := w_blocks w).
  set (F := log_ids (log_ptr g) ∪ dom (w_files w)).
  assert (within base cgi U (dom (w_files w)) 0 w) as HW.
  { exists ∅, ∅. split_and!; [set_solver|rewrite size_empty; unfold base; lia|set_solver|by destruct cgi]. }
  apply (setFlags_within _ _ argv) in HW. rewrite Ef in HW.
  apply (start_up_within _ _ su g) in HW. rewrite E2 in HW. simpl in HW.
  pose proof (loop_stable g Hm Hlog nl (table_within base cgi nl U F) (table_accept _ _ _ _ _)
    (table_turn _ _ g eq_refl _ _ _) (table_poll _ _ _ _ _) polls t w2 Hs2) as H3.
  rewrite E3 in H3. destruct H3 as (K3 & Hs3 & HP3).
  { unfold table_within. rewrite Hc2. fits. }
  destruct (shut_down_run g nl v4 v6 t3 w3 (sv_table _ _ _ (proj1 Hs3)) (sv_heap _ _ _ (proj1 Hs3))
    (sv_world _ _ _ (proj1 Hs3))) as (w4 & _ & E4' & _ & _ & _ & Hb & _).
  rewrite E4 in E4'. injection E4' as <-. unfold table_within in HP3.
  apply (shut_down_within _ _ g nl v4 v6 t3) in HP3. rewrite E4 in HP3.
  destruct HP3 as (L & D & HB & HL & HD & HC).
  assert (execs (w_trace w') = base + execs evs) as Hex by (unfold extends in Hx; by rewrite Hx, execs_app).
  exists evs, L. split; [done|]. split; [|split; [lia|]].
  - unfold table_blocks in Hb. rewrite Hb in *. unfold arrays, conn_ids, U in HB. simpl in HB |- *.
    clear -HB. set_solver.
  - destruct cgi; [clear -HC HD; set_solver|lia].
Qed.
End properties.

(** * Witnesses *)

(** A run with -c: one connection, a request for a program, its response. *)
Definition cgi_request : bytes :=
  render_request (B "GET") (B "/cgi-bin/run?a=1") (B "HTTP/1.0") (B "Host: x").
Definition cgi_world : World :=
  let e := e_set_accept 3 [Accepted (mkConn 5 true true true (Some (B "10.0.0.1")))]
    (e_set_recv 5 [RecvData cgi_request] sample_env) in
  world_of (mkEnv (e_now e) (e_euid e) (λ _, Some (mkStat true 0 0)) (e_append_ok e) (e_fopen e)
    (e_opendir e) (e_cgi e) (e_recv e) (e_send e) (e_accept e) (e_alloc e) (e_kept e) (e_junk_client e)
    (e_junk_pfd e)).
Definition cgi_args : list bytes := [B "server"; B "-c"; B "./cgi-bin"].

Lemma run_leaks_only_cgi_witness :
  ∃ w' evs L, main run_calls run_polls cgi_args cgi_world = (Exit EXIT_SUCCESS, w')
    ∧ extends cgi_world w' evs ∧ w_blocks w' ⊆ ∅ ∪ L ∧ size L ≤ execs evs
    ∧ dom (w_files w') ⊆ ∅.
Proof.
  destruct (run_leaks_only_cgi run_calls run_polls cgi_args cgi_world cgi_world
    (mkGlobals C_FLAG 8080 None None (Some (B "./cgi-bin")) None LogNull)
    (main run_calls run_polls cgi_args cgi_world).2 sample_magic_ok (world_of_ok _))
    as (evs & L & H1 & H2 & H3 & H4).
  - split; [eexists; vm_compute; reflexivity|]. intros x. simpl. case_decide; [|constructor].
    constructor; [by_eval|constructor].
  - vm_compute. reflexivity.
  - apply run_result; vm_compute; reflexivity.
  - exists (main run_calls run_polls cgi_args cgi_world).2, evs, L.
    split; [apply run_result; vm_compute; reflexivity|].
    split; [exact H1|split; [exact H2|split; [exact H3|exact H4]]].
Defined.

(** The bound is met: that run leaves one block, for its one program. *)
Example cgi_run_leaks :
  let w' := (main run_calls run_polls cgi_args cgi_world).2 in
  size (w_blocks w') = 1 ∧ execs (w_trace w') = 1 ∧ size (w_files w') = 0.
Proof. vm_compute. repeat split. Qed.
