(* ===== verification/Descriptors.v ===== *)
(** * Descriptors: what the server closes

    The connections a run accepts, as the queues of accept(2) tell; and the
    descriptors it closes: those of the connections, each once, the listeners',
    and ends of pipes to CGI programs. *)

From S2P Require Import Prelude CLib Types OS Flags Logging ParseRequest ResolvePath Response.
From S2P Require Import Messages Connections DoRead EndToEnd DoWrite Sockets Main Effects Heap Footprint Loop Server History.

(** An end of a pipe to some program. *)
Definition pipe_end (progs : cgi_call → cgi_result) (x : Z) : Prop :=
  ∃ call p0 p1, cg_pipe (progs call) = Some (p0, p1) ∧ (x = p0 ∨ x = p1).

(** The connections among some results of accept. *)
Definition accepted (q : list accept_result) : list new_conn :=
  omap (λ r, match r with Accepted n => Some n | AcceptErr _ => None end) q.

(** These connections, each with its listener, were taken from the queues since [e]. *)
Definition taken_since (e : Environment) (acc : list (Z * new_conn)) (w : World) : Prop :=
  ∀ x, ∃ used, e_accept e x = used ++ e_accept (w_env w) x
    ∧ accepted used = (filter (λ a, a.1 = x) acc).*2.

(** Everything but closing a descriptor. *)
Definition no_close : effects := mkEffects
  (λ ev, match ev with EvClose _ => False | _ => True end) (λ _, True)
  (λ _, True).

(** * Lemmas *)

Section closing.
Context (progs : cgi_call → cgi_result) (cgi : bool).

(** The descriptors closed so far are [C], but for ends of pipes, and there are none
    of these without [cgi]. *)
Definition closing (C : list Z) (w : World) : Prop :=
  e_cgi (w_env w) = progs
  ∧ ∃ P, closed_fds (w_trace w) ≡ₚ C ++ P ∧ Forall (pipe_end progs) P ∧ (cgi = false → P = []).

(** A computation that closes at most ends of pipes. *)
Definition tidy {A} (m : M A) : Prop := ∀ C, triple (closing C) m (λ _, closing C).

Lemma no_close_closed evs : Forall (shows no_close) evs → closed_fds evs = [].
Proof.
  induction 1 as [|ev evs Hev _ IH]; [done|]. unfold closed_fds in *. csimpl. rewrite IH.
  by destruct ev.
Qed.

Lemma tidy_does {A} E (m : M A) Q : does E m Q → (∀ x, ¬ shows E (EvClose x)) → tidy m.
Proof.
  intros Hm HE C w [Hp (P & HP)]. destruct (Hm w) as [[(evs & Hx & HF) Hsm _ _] _].
  destruct (m w) as [[a|c| |] w1]; try done. simpl in *. split; [by rewrite <-Hp; apply Hsm|].
  exists P. unfold extends in Hx. rewrite Hx, closed_fds_app, (no_close_closed evs), app_nil_r; [done|].
  eapply Forall_impl; [exact HF|]. intros ev Hev. destruct ev; try done. by destruct (HE fd).
Qed.

Lemma tidy_no_close {A} (m : M A) Q : does no_close m Q → tidy m.
Proof. intros Hm. eapply tidy_does; [exact Hm|]. by intros x []. Qed.

Lemma tidy_ret {A} (a : A) : tidy (mret a).
Proof. intros C. by apply t_ret. Qed.
Lemma tidy_bind {A D} (m : M A) (k : A → M D) : tidy m → (∀ a, tidy (k a)) → tidy (m ≫= k).
Proof. intros Hm Hk C. eapply t_bind; [apply Hm|]. intros a. apply Hk. Qed.

(** A value property and a world property together. *)
Lemma triple_does {A} E (m : M A) (Q : A → Prop) P R :
  does E m Q → triple P m R → triple P m (λ a w, Q a ∧ R a w).
Proof.
  intros Hd Ht w HP. specialize (Ht w HP). destruct (Hd w) as [_ Hq].
  by destruct (m w) as [[a|c| |] w1].
Qed.

Lemma t_close x C : triple (closing C) (close x) (λ _, closing (x :: C)).
Proof.
  intros w [Hp (P & HP & HF & Hc)]. split; [done|]. exists P.
  unfold w_emit. simpl. rewrite closed_fds_app, HP. split; [|done].
  simpl. solve_Permutation.
Qed.

Lemma tidy_pipe x : cgi = true → pipe_end progs x → tidy (close x).
Proof.
  intros Hcgi Hx C w [Hp (P & HP & HF & Hc)]. split; [done|]. exists (x :: P).
  unfold w_emit. simpl. rewrite closed_fds_app, HP. split; [simpl; solve_Permutation|].
  split; [by constructor|]. by rewrite Hcgi.
Qed.

(** ** Building and answering *)

Lemma tidy_error c req : tidy (build_error_response c req).
Proof.
  apply (tidy_no_close _ (λ _, True)). unfold build_error_response. does_auto.
Qed.

Lemma tidy_file c rp req : tidy (build_response_file c rp req).
Proof.
  assert (∀ fuel f out, does no_close (copy_file fuel f out) (λ _, True)) as Hcopy
    by (intros; apply does_copy_file).
  apply (tidy_no_close _ (λ _, True)). unfold build_response_file. does_auto.
Qed.

Lemma tidy_dir c rp req : tidy (build_response_dir c rp req).
Proof.
  assert (∀ bf l d, does no_close (release_dir bf l d) (λ _, True)) as Hrelease
    by (intros; unfold release_dir; does_auto).
  assert (∀ dir ds buf, does no_close (list_entries dir ds buf) (λ _, True)) as Hlist
    by (intros; apply does_list_entries).
  apply (tidy_no_close _ (λ _, True)). unfold build_response_dir. does_auto.
Qed.

Lemma tidy_free p : tidy (free p).
Proof. apply (tidy_no_close _ (λ _, True)). does_auto. Qed.
Lemma tidy_malloc : tidy malloc.
Proof. apply (tidy_no_close _ (λ _, True)). does_auto. Qed.

Lemma tidy_read_cgi fuel q p b cap resp :
  tidy (close p) → tidy (read_cgi fuel q p b cap resp).
Proof.
  intros Hp.
  assert (∀ b, tidy (_ ← free (Some b); _ ← close p; mret (None : option (nat * bytes)))) as Hstop.
  { intros b1. apply tidy_bind; [apply tidy_free|intros _].
    apply tidy_bind; [exact Hp|intros _; apply tidy_ret]. }
  revert q b cap resp. induction fuel as [|fuel IH]; intros q b cap resp; cbn [read_cgi];
    [intros C; apply t_no_fuel|].
  apply tidy_bind; [|intros [[b' cap']|]; [|apply tidy_ret]].
  - destruct (decide _); [|apply tidy_ret]. apply tidy_bind.
    + apply (tidy_no_close _ (λ _, True)). does_auto.
    + intros [b'|]; [apply tidy_ret|]. apply tidy_bind; [apply tidy_free|intros _].
      apply tidy_bind; [exact Hp|intros _; apply tidy_ret].
  - destruct q as [|[[|x d]|e] q]; [apply tidy_ret..|apply IH|].
    destruct (decide _); [apply IH|apply Hstop].
Qed.

Lemma tidy_finish c req cg b resp : tidy (cgi_finish c req cg b resp).
Proof. apply (tidy_no_close _ (λ _, True)). unfold cgi_finish. does_auto. Qed.

Lemma tidy_cgi g c rp req : cgi = has_flag g C_FLAG → tidy (build_response_cgi g c rp req).
Proof.
  intros Hcgi C. unfold build_response_cgi.
  destruct (has_flag g C_FLAG); cbn [negb]; [|by apply t_ret].
  eapply t_bind with (Q := λ a w, e_cgi (w_env a) = progs ∧ closing C w).
  { intros w HW. split; [apply HW|exact HW]. }
  intros a. apply t_pure. intros Ha. revert C. change (tidy ?m) with (tidy m). cbv zeta.
  destruct (cg_pipe _) as [[p0 p1]|] eqn:Hp; [|apply tidy_ret]. rewrite Ha in Hp.
  assert (∀ x, x = p0 ∨ x = p1 → tidy (close x)) as Hclose.
  { intros x Hx. apply tidy_pipe; [done|]. by exists (cgi_child c rp req), p0, p1. }
  destruct (decide _); [apply tidy_ret|]. destruct (negb _).
  { do 2 (apply tidy_bind; [apply Hclose; auto|intros _]). apply tidy_ret. }
  apply tidy_bind; [apply (tidy_no_close _ (λ _, True)); does_auto|intros _].
  apply tidy_bind; [apply Hclose; auto|intros _].
  apply tidy_bind; [apply tidy_malloc|intros [b|]].
  - apply tidy_bind; [apply tidy_read_cgi, Hclose; auto|intros [[b' resp]|]; [|apply tidy_ret]].
    apply tidy_bind; [apply Hclose; auto|intros _]. apply tidy_finish.
  - apply tidy_bind; [apply Hclose; auto|intros _]. apply tidy_ret.
Qed.

Lemma tidy_okay g c rp req : cgi = has_flag g C_FLAG → tidy (build_okay_response g c rp req).
Proof.
  intros Hcgi. unfold build_okay_response. cbv zeta. apply tidy_bind.
  - destruct (path_type rp); [apply tidy_ret|apply tidy_file|apply tidy_dir|by apply tidy_cgi].
  - intros [st c']. destruct (st <? 0)%Z; [|apply tidy_ret]. unfold okay_failed.
    apply tidy_bind; [apply tidy_free|intros _; apply tidy_error].
Qed.

Lemma tidy_resolve `{External} g c req rp : tidy (resolve_path g c req rp).
Proof.
  assert (∀ name f, does no_close (get_mime_type_by_ext name f) (λ _, True)) as Hmime
    by (intros; unfold get_mime_type_by_ext, magic_fd; does_auto).
  assert (∀ c rp i, does no_close (handle_dir_index c rp i) (λ _, True)) as Hindex
    by (intros; unfold handle_dir_index; does_auto).
  apply (tidy_no_close _ (λ _, True)).
  unfold resolve_path, resolve_open, resolve_dir, get_file_path. does_auto.
Qed.

Section reading.
Context `{External} (g : Globals) (Hcgi : cgi = has_flag g C_FLAG).

Lemma tidy_respond c buf : tidy (respond g c buf).
Proof.
  unfold respond. cbv zeta.
  apply tidy_bind; [apply (tidy_no_close _ (λ _, True)), does_parse|intros r].
  apply tidy_bind; [|intros [c' rp]].
  { unfold answer. cbv zeta. destruct (decide _).
    - apply tidy_bind; [apply tidy_resolve|intros v]. destruct (decide _).
      + apply tidy_bind; [by apply tidy_okay|intros; apply tidy_ret].
      + apply tidy_bind; [apply tidy_error|intros; apply tidy_ret].
    - apply tidy_bind; [apply tidy_error|intros; apply tidy_ret]. }
  apply tidy_bind; [|intros _].
  { apply (tidy_no_close _ (λ _, True)). unfold close_entry, do_logging. does_auto. }
  apply tidy_bind; [|intros _; apply tidy_ret].
  apply (tidy_no_close _ (λ _, True)). unfold close_resolve_path_ptr. does_auto.
Qed.

Lemma tidy_recv_loop fuel c : tidy (recv_loop fuel c).
Proof.
  assert (∀ fd n, does no_close (recv fd n) (λ _, True)) as Hrecv by (intros; by apply does_recv).
  revert c. induction fuel as [|fuel IH]; intros c; cbn [recv_loop]; [intros C; apply t_no_fuel|].
  apply tidy_bind; [by apply (tidy_no_close _ (λ _, True))|intros [[|x d]|e]].
  - apply tidy_ret.
  - apply tidy_bind; [eapply tidy_no_close, does_append|intros c'].
    destruct (decide _); [apply IH|apply tidy_ret].
  - destruct (would_block e); [apply tidy_ret|]. destruct (decide _); [apply IH|apply tidy_ret].
Qed.

Lemma tidy_read_client c p : tidy (read_client g c p).
Proof.
  unfold read_client. apply tidy_bind; [apply (tidy_no_close _ (λ _, True)), does_get|intros w].
  apply tidy_bind; [apply tidy_recv_loop|intros [ret c']].
  destruct ret; [apply tidy_ret|]. destruct (in_buf c'); [|apply tidy_ret].
  destruct (decide _); [apply tidy_ret|]. destruct (strnstr _ _ _); [|apply tidy_ret].
  apply tidy_bind; [apply tidy_respond|intros; apply tidy_ret].
Qed.

Lemma tidy_do_read i t : tidy (do_read g i t).
Proof.
  unfold do_read. destruct (clients t !! i), (pfds t !! i); try (intros C; apply t_crash).
  apply tidy_bind; [apply tidy_read_client|intros; apply tidy_ret].
Qed.
Lemma tidy_do_write i t : tidy (do_write i t).
Proof.
  unfold do_write. destruct (clients t !! i); [|intros C; apply t_crash].
  apply tidy_bind; [|intros; apply tidy_ret]. eapply tidy_does; [apply does_write_client|]. by intros x [].
Qed.

(** ** The table *)

Lemma close_conn_closes i t c C :
  i ≠ 0 → clients t !! i = Some c → triple (closing C) (close_conn i t) (λ _, closing (fd c :: C)).
Proof.
  intros Hi Hc. unfold close_conn, free_buf. rewrite decide_False, Hc by done.
  destruct (fd_count t) as [|last]; [apply t_crash|]. call t_close.
  revert C. cut (∀ C, triple (closing C)
    (_ ← match file_ptr c with Some f => fclose f | None => mret () end;
     _ ← free (b_id <$> in_buf c); _ ← free (b_id <$> out_buf c);
     if decide (i ≠ last) then
       match pfds t !! last, clients t !! last with
       | Some p, Some c' =>
           mret (mkTable (pfds_block t) (clients_block t) (<[i := p]> (pfds t))
                   (<[i := c']> (clients t)) last (fd_size t))
       | _, _ => crash
       end
     else mret (mkTable (pfds_block t) (clients_block t) (pfds t) (clients t) last (fd_size t)))
    (λ _, closing C)); [intros Hrest C; apply Hrest|].
  intros C. apply tidy_bind; [destruct (file_ptr c); [|apply tidy_ret]|intros _].
  { apply (tidy_no_close _ (λ _, True)). does_auto. }
  apply tidy_bind; [apply tidy_free|intros _]. apply tidy_bind; [apply tidy_free|intros _].
  apply (tidy_no_close _ (λ _, True)). does_auto.
Qed.

Lemma serve_closes x i revents t C :
  i ≠ 0 → fd_at x i t →
  triple (closing C) (serve_client g i revents t) (λ r, closing (if r.1 : bool then x :: C else C)).
Proof.
  intros Hi Hx. unfold serve_client.
  assert (∀ t1, fd_at x i t1 → triple (closing C) (t' ← close_conn i t1; mret (true, t'))
    (λ r, closing (if r.1 : bool then x :: C else C))) as Hclose.
  { intros t1 H1. eapply t_bind with (Q := λ _, closing (x :: C)); [|by intros; apply t_ret].
    destruct (clients t1 !! i) as [c|] eqn:Hc.
    - rewrite <-(H1 c Hc). by apply close_conn_closes.
    - unfold close_conn. rewrite decide_False, Hc by done. apply t_crash. }
  destruct (has_event revents BROKEN); [by apply Hclose|].
  eapply t_bind with (Q := λ t1 w, fd_at x i t1 ∧ closing C w).
  { destruct (_ && _); [|by apply t_ret]. eapply triple_does; [by apply does_do_read|apply tidy_do_read]. }
  intros t1. apply t_pure. intros H1. eapply t_bind with (Q := λ t2 w, fd_at x i t2 ∧ closing C w).
  { destruct (_ && _); [|by apply t_ret]. eapply triple_does; [by apply does_do_write|apply tidy_do_write]. }
  intros t2. apply t_pure. intros H2. destruct (bool_decide _); [by apply Hclose|by apply t_ret].
Qed.
End reading.
End closing.

(** ** The queues of accept *)

Lemma accepted_app q1 q2 : accepted (q1 ++ q2) = accepted q1 ++ accepted q2.
Proof. apply omap_app. Qed.

Lemma register_queues n t w t' w' :
  register n t w = (Ret t', w') → ∀ x, e_accept (w_env w') x = e_accept (w_env w) x.
Proof.
  intros E.
  assert (does building (register n t) (λ _, True)) as Hr.
  { unfold register, add_to_lists. eapply (does_bind _ _ _ (λ _, True)); [|intros [idx t2] _; does_auto].
    eapply (does_bind _ _ _ (λ _, True)); [|intros t2 _; does_auto].
    destruct (decide _); [|by apply does_ret]. unfold grow. does_auto. }
  intros x. destruct (Hr w) as [[_ _ Hs _] _]. rewrite E in Hs. by destruct (Hs x id) as (_ & _ & ?).
Qed.

Lemma accept_queue fuel lfd t w t' w' :
  accept_loop fuel lfd t w = (Ret t', w') →
  (∃ used, e_accept (w_env w) lfd = used ++ e_accept (w_env w') lfd
           ∧ accepted used = taken (e_accept (w_env w) lfd))
  ∧ ∀ x, x ≠ lfd → e_accept (w_env w') x = e_accept (w_env w) x.
Proof.
  revert t w. induction fuel as [|fuel IH]; intros t w E; [done|]. cbn [accept_loop] in E.
  assert (∀ r q t1 w1, e_accept (w_env w) lfd = r :: q →
    (∀ x, e_accept (w_env w1) x = if decide (x = lfd) then q else e_accept (w_env w) x) →
    accept_loop fuel lfd t1 w1 = (Ret t', w') → taken (r :: q) = accepted [r] ++ taken q →
    (∃ used, e_accept (w_env w) lfd = used ++ e_accept (w_env w') lfd
             ∧ accepted used = taken (e_accept (w_env w) lfd))
    ∧ ∀ x, x ≠ lfd → e_accept (w_env w') x = e_accept (w_env w) x) as Hgo.
  { intros r q t1 w1 Hq Hq1 E1 Ht. destruct (IH _ _ E1) as [(used & Hu & Ha) Ho].
    rewrite Hq1, decide_True in Hu, Ha by done. rewrite Hq. split.
    - exists (r :: used). rewrite Hu at 1. split; [done|].
      rewrite Ht, <-Ha. apply (accepted_app [r]).
    - intros x Hx. by rewrite Ho, Hq1, decide_False. }
  apply bind_ret_inv in E as (r & w1 & Er & E). unfold accept in Er.
  destruct (e_accept (w_env w) lfd) as [|r0 q] eqn:Hq; simplify_eq.
  { change (would_block EAGAIN) with true in E. injection E as <- <-. rewrite Hq.
    by split; [exists []|]. }
  assert (∀ x, e_accept (w_env (w_set_env (e_set_accept lfd q (w_env w)) w)) x
    = if decide (x = lfd) then q else e_accept (w_env w) x) as Hq1 by done.
  assert (e_accept (w_env (w_set_env (e_set_accept lfd q (w_env w)) w)) lfd = q) as Hq2
    by (by rewrite Hq1, decide_True).
  destruct r as [n|e].
  - destruct (_ || _).
    + apply bind_ret_inv in E as ([] & w2 & Ec & E). unfold close, emit in Ec. injection Ec as <-.
      eapply (Hgo _ _ _ _ eq_refl); [|exact E|done]. exact Hq1.
    + apply bind_ret_inv in E as (t2 & w2 & Ec & E).
      eapply (Hgo _ _ _ _ eq_refl); [|exact E|done].
      intros x. by rewrite (register_queues _ _ _ _ _ Ec x), Hq1.
  - destruct (would_block e) eqn:Hb; [|case_decide as He].
    + injection E as <- <-. rewrite Hq2. split; [exists [AcceptErr e]; split; [done|by simpl; rewrite Hb]|].
      intros x Hx. by rewrite Hq1, decide_False.
    + eapply (Hgo _ _ _ _ eq_refl); [exact Hq1|exact E|]. simpl. by rewrite Hb, decide_True.
    + injection E as <- <-. rewrite Hq2. split.
      { exists [AcceptErr e]. split; [done|]. simpl. by rewrite Hb, decide_False. }
      intros x Hx. by rewrite Hq1, decide_False.
Qed.

(** ** The loop *)

Section ledger.
Context `{External} (g : Globals) (e : Environment) (C0 : list Z) (nl : nat).
Abbreviation closing_of := (closing (e_cgi e) (has_flag g C_FLAG)).
Abbreviation fds l := ((λ pc : PollFd * Client, fd pc.2) <$> l).

(** The connections accepted since [e] are those closed since [C0] and those in the
    table. *)
Definition ledger (t : Table) (w : World) : Prop :=
  ∃ acc C, taken_since e acc w ∧ closing_of C w ∧ C ++ fds (conns nl t) ≡ₚ C0 ++ (nc_fd <$> acc.*2).

Lemma ledger_poll : stable_poll ledger.
Proof.
  intros revents t w (acc & C & Ha & Hc & Hp). exists acc, C. split; [done|]. split; [done|].
  rewrite <-Hp. apply reflexive_eq. f_equal.
  pose proof (clients_view _ _ (conns_poll_update nl revents t)) as Hv.
  change (λ pc : PollFd * Client, fd pc.2) with (fd ∘ (snd : PollFd * Client → Client)).
  by rewrite !list_fmap_compose, Hv.
Qed.

Lemma usable_split (l : list new_conn) :
  filter (λ n, usable n = true) l ++ filter (λ n, usable n = false) l ≡ₚ l.
Proof.
  induction l as [|n l IH]; [done|]. rewrite !filter_cons.
  destruct (usable n); simpl; [by rewrite IH|by rewrite <-Permutation_middle, IH].
Qed.

Lemma accepted_fds (l : list new_conn) new : Forall2 accepted_as l new → fds new = nc_fd <$> l.
Proof. induction 1 as [|n pc l new [old ->] _ IH]; [done|]. csimpl. by f_equal. Qed.

Lemma ledger_accept : stable_accept nl ledger.
Proof.
  intros lfd t w t1 w1 new0 [[Ht Hh Hw _ _] _] (acc & C & Hacc & [Hm (P & HP & HF & Hc)] & Hp) E Hs1 K _ _.
  unfold accept_new_conn, get in E. run.
  pose proof (accept_loop_safe nl lfd (accept_fuel lfd w) t w Ht Hh Hw ltac:(unfold accept_fuel; lia)) as Hr.
  change (accept_loop (accept_fuel lfd w) lfd t w = (Ret t1, w1)) in E. rewrite E in Hr.
  destruct Hr as (_ & new & _ & Hcs & Hnew & Hx & _).
  destruct (accept_queue _ _ _ _ _ _ E) as [(used & Hu & Ha) Ho].
  set (q := taken (e_accept (w_env w) lfd)) in *.
  exists (acc ++ ((lfd,.) <$> q)), (C ++ (nc_fd <$> filter (λ n, usable n = false) q)).
  split; [|split].
  - intros x. destruct (Hacc x) as (u & Hux & Hau). rewrite filter_app, fmap_app, <-Hau.
    destruct (decide (x = lfd)) as [->|Hne].
    + exists (u ++ used). rewrite Hux, Hu, accepted_app, Ha. split; [by rewrite app_assoc|]. f_equal.
      clear. induction q as [|n q IH]; [done|]. csimpl. rewrite filter_cons, decide_True by done.
      csimpl. by rewrite <-IH.
    + exists u. rewrite Ho by done. split; [done|].
      assert (filter (λ a : Z * new_conn, a.1 = x) ((lfd,.) <$> q) = []) as ->; [|by rewrite app_nil_r].
      clear -Hne. induction q as [|n q IH]; [done|]. csimpl. by rewrite filter_cons, decide_False.
  - split.
    { rewrite <-Hm. destruct K as (_ & [_ [(_ & _ & _ & Hk) _]] & _). exact Hk. }
    exists P. split; [|done]. unfold extends in Hx. rewrite Hx, closed_fds_app, HP.
    assert (∀ l : list new_conn, closed_fds ((λ n, EvClose (nc_fd n)) <$> l) = nc_fd <$> l) as ->
      by (intros l; unfold closed_fds; induction l as [|n l IH]; [done|]; csimpl; by rewrite IH).
    solve_Permutation.
  - rewrite Hcs, fmap_app, (accepted_fds _ _ Hnew), fmap_app, fmap_app.
    assert (((lfd,.) <$> q).*2 = q) as -> by (clear; induction q as [|n q IH]; [done|]; csimpl; by rewrite IH).
    pose proof (fmap_Permutation nc_fd _ _ (usable_split q)) as Hq. rewrite fmap_app in Hq.
    rewrite (app_assoc C0), <-Hp, <-Hq. solve_Permutation.
Qed.

Lemma ledger_turn : stable_turn g nl ledger.
Proof.
  intros i p c t w closed t1 w1 [Hs _] (acc & C & Hacc & Hcl & Hp) Hi Ha E K Hsv.
  destruct (entry_slots _ _ _ _ _ (sv_table _ _ _ Hs) Ha) as (_ & _ & Hc).
  destruct (entry_client_ok _ _ _ _ _ _ Hs Hi Ha) as [_ Hsync].
  pose proof (to_listeners _ _ (sv_table _ _ _ Hs)) as Hnl.
  assert (fd_at (fd c) i t) as Hx by (intros c'; congruence).
  pose proof (serve_closes _ _ g eq_refl (fd c) i (pfd_revents p) t C ltac:(lia) Hx w Hcl) as Hcl1.
  rewrite E in Hcl1. simpl in Hcl1.
  exists acc, (if closed then fd c :: C else C). split; [|split; [exact Hcl1|]].
  - intros x. destruct (Hacc x) as (u & Hu & Hau). exists u. split; [|done]. rewrite Hu. f_equal.
    destruct (does_serve (fd c) g i (pfd_revents p) t Hx w) as [[_ _ _ HA _] _].
    rewrite E in HA. symmetry. exact (HA x id).
  - rewrite <-Hp, (served_conns _ _ _ _ _ _ _ _ _ Hi Ha Hsv), (conns_others nl t i p c Hi Ha).
    destruct closed; [csimpl; by rewrite Permutation_middle|].
    destruct Hsv as [[Hs1 _] _ (p1 & c1 & _ & Hf & Ha1 & _)]. rewrite Ha1. simpl.
    destruct (entry_client_ok _ _ _ _ _ _ Hs1 Hi Ha1) as [_ Hsync1].
    assert (fd c1 = fd c) as -> by congruence. done.
Qed.
End ledger.

(** * Properties *)

Section properties.
Context `{External}.

(** C6. Every connection is closed, once. In a run that ends with EXIT_SUCCESS the
    descriptors closed are exactly those of the connections taken from the queues
    of accept(2), as often as they were taken, the two listeners', and ends of
    pipes to CGI programs, of which there are none without -c. *)
Theorem run_closes_every_connection su polls argv w w1 g w' :
  magic_ok → world_ok w → outside_ok w →
  setFlags argv w = (Ret g, w1) → main su polls argv w = (Exit EXIT_SUCCESS, w') →
  ∃ nl t v4 v6 w2 evs acc pipes, start_up su g w1 = (Ret (nl, t, v4, v6), w2)
    ∧ extends w w' evs ∧ taken_since (w_env w) acc w'
    ∧ closed_fds evs ≡ₚ (nc_fd <$> acc.*2) ++ [v4; v6] ++ pipes
    ∧ Forall (pipe_end (e_cgi (w_env w))) pipes
    ∧ (has_flag g C_FLAG = false → pipes = []).
Proof.
  intros Hm Hw Ho Ef E.
  destruct (main_success su polls argv w w1 g w' Hm Hw Ho Ef E)
    as ((_ & _ & evs & Hx & _) & nl & t & v4 & v6 & w2 & t3 & w3 & [Hlog E2 Hs2 Hc2 E3 E4]).
  set (C0 := closed_fds (w_trace w)).
  assert (closing (e_cgi (w_env w)) (has_flag g C_FLAG) C0 w) as Hcl.
  { split; [done|]. exists []. by rewrite app_nil_r. }
  pose proof (does_setFlags argv w) as [[_ _ _ A1 _] _]. rewrite Ef in A1.
  pose proof (does_start_up su g w1) as [[_ _ _ A2 _] _]. rewrite E2 in A2.
  apply (tidy_does _ _ _ _ _ (does_setFlags argv)) in Hcl; [|by intros x []]. rewrite Ef in Hcl.
  apply (tidy_does _ _ _ _ _ (does_start_up su g)) in Hcl; [|by intros x []]. rewrite E2 in Hcl.
  pose proof (loop_stable g Hm Hlog nl (ledger g (w_env w) C0 nl) (ledger_accept _ _ _ _)
    (ledger_turn _ _ _ _) (ledger_poll _ _ _ _) polls t w2 Hs2) as H3.
  rewrite E3 in H3. destruct H3 as (_ & [Hs3 _] & acc & C & Hacc & [_ (P & HP & HF & Hcgi)] & Hp).
  { exists [], C0. split; [|split; [exact Hcl|by rewrite Hc2]].
    intros x. exists []. split; [|done]. simpl in *. by rewrite (A2 x id), (A1 x id). }
  destruct (shut_down_run g nl v4 v6 t3 w3 (sv_table _ _ _ Hs3) (sv_heap _ _ _ Hs3)
    (sv_world _ _ _ Hs3)) as (w4 & evs4 & E4' & _ & Hx4 & Hc4 & _).
  rewrite E4 in E4'. injection E4' as <-.
  pose proof (does_shut_down g nl v4 v6 t3 w3) as [[_ _ _ A4 _] _]. rewrite E4 in A4. simpl in A4.
  exists nl, t, v4, v6, w2, evs, acc, P. split; [done|]. split; [done|]. split; [|split; [|done]].
  - intros x. destruct (Hacc x) as (u & Hu & Ha). exists u. rewrite (A4 x id). by split.
  - apply (Permutation_app_inv_l C0). unfold C0. rewrite <-closed_fds_app.
    unfold extends in Hx, Hx4. rewrite <-Hx, Hx4, closed_fds_app, HP, Hc4.
    rewrite (app_assoc (closed_fds (w_trace w))). fold C0. rewrite <-Hp. solve_Permutation.
Qed.
End properties.

(** * Witnesses *)

(** The run of Server's example: one connection, without -c. *)
Lemma run_closes_every_connection_witness :
  ∃ v4 v6 evs acc, extends run_world (main run_calls run_polls [B "server"] run_world).2 evs
    ∧ taken_since (w_env run_world) acc (main run_calls run_polls [B "server"] run_world).2
    ∧ closed_fds evs ≡ₚ (nc_fd <$> acc.*2) ++ [v4; v6].
Proof.
  destruct (run_closes_every_connection run_calls run_polls [B "server"] run_world run_world
    globals_init (main run_calls run_polls [B "server"] run_world).2 sample_magic_ok (world_of_ok _)
    run_outside eq_refl) as (nl & t & v4 & v6 & w2 & evs & acc & pipes & _ & H1 & H2 & H3 & _ & H4).
  - apply run_result. vm_compute. reflexivity.
  - exists v4, v6, evs, acc. split; [exact H1|split; [exact H2|]].
    rewrite (H4 eq_refl), app_nil_r in H3. exact H3.
Defined.
